(** * Verification of the Unity package exporter (export_unity_package.py)

    A shallow embedding of the metadata, GUID and package-resolution code of
    [source/ExportUnityPackage/export_unity_package.py], with the theorems
    that settle the claims made about it.

    Conventions of the embedding:
    - JSON / YAML trees are values of type [value]; dictionaries keep their
      insertion order and their Python class ([dict] or [OrderedDict]),
      because the code inspects classes and [OrderedDict] equality is order
      sensitive.  Keys are strings and numbers are integers.
    - Python exceptions are results [Raise e] of type [res].
    - Code that mutates a document in place and returns it is read as a
      function from the document to the updated document, for the claims
      about what a transform computes; the reference semantics, with a
      store of objects, is kept for the metadata view of an asset (module
      [Heap]), whose claim is about mutation.  The two readings are
      compared on the documents of the tests. *)

From Stdlib Require Import List String Ascii ZArith Bool Lia Arith PeanoNat.
From Stdlib Require Import Sorting.Sorted Permutation DecimalString.
Import ListNotations.
Set Warnings "-register-all".
Local Open Scope string_scope.
Local Open Scope list_scope.

(* ================================================================== *)
(** * Results and exceptions *)

(** Structured content of the messages of [ProjectConfigurationError]. *)
Inductive pce_message : Type :=
| DifferentImportSettings (conflicts : list (string * list string))
| MissingPackages (package : string) (missing : list string)
| CircularInclusion (package : string) (parent_names : list string)
| DuplicatePackages (names : list string) (sections : list string).

Inductive exn : Type :=
| TypeError
| AttributeError
| KeyError (key : string)
| IndexError
| RecursionError
| InvalidVersion (version : string)
| ReError (pattern : string)
| MissingGuidsError (missing_guid_paths : list string)
| DuplicateGuidsError (paths_by_guid : list (string * list string))
| ProjectConfigurationError (message : pce_message)
| SystemError.

Inductive res (A : Type) : Type :=
| Ok (a : A)
| Raise (e : exn).
Arguments Ok {A} a.
Arguments Raise {A} e.

Definition res_bind {A B} (m : res A) (f : A -> res B) : res B :=
  match m with
  | Ok a => f a
  | Raise e => Raise e
  end.

Declare Scope res_scope.
Delimit Scope res_scope with res.
Notation "x <- m ;; k" := (res_bind m (fun x => k))
  (at level 61, m at next level, right associativity) : res_scope.

(* ================================================================== *)
(** * Strings *)

Definition string_mem (s : string) (l : list string) : bool :=
  existsb (String.eqb s) l.

(** [str.replace(a, b)] for single characters. *)
Fixpoint replace_char (a b : ascii) (s : string) : string :=
  match s with
  | EmptyString => EmptyString
  | String c s' => String (if Ascii.eqb c a then b else c) (replace_char a b s')
  end.

(** [posix_path]: [path.replace('\\', '/')]. *)
Definition posix_path (path : string) : string :=
  replace_char "\"%char "/"%char path.

(** [sorted(l)] on a list of strings: a stable insertion sort. *)
Fixpoint insert_sorted (s : string) (l : list string) : list string :=
  match l with
  | [] => [s]
  | x :: l' => if String.leb s x then s :: l else x :: insert_sorted s l'
  end.

Definition sorted_strings (l : list string) : list string :=
  fold_right insert_sorted [] l.

(** [set(l)] keeps one copy of each element (first occurrences, in order). *)
Fixpoint dedupe (l : list string) : list string :=
  match l with
  | [] => []
  | x :: l' => x :: filter (fun y => negb (String.eqb x y)) (dedupe l')
  end.

(* ================================================================== *)
(** * JSON / YAML trees *)

Inductive dict_class : Type := PlainDict | OrderedDict.

Inductive value : Type :=
| VNone
| VBool (b : bool)
| VInt (n : Z)
| VStr (s : string)
| VList (items : list value)
| VDict (cls : dict_class) (items : list (string * value)).

(** Python classes that the code tests with [issubclass]. *)
Inductive pyclass : Type :=
| CNoneType | CBool | CInt | CStr | CList | CDict | COrderedDict.

Definition pyclass_eqb (a b : pyclass) : bool :=
  match a, b with
  | CNoneType, CNoneType | CBool, CBool | CInt, CInt | CStr, CStr
  | CList, CList | CDict, CDict | COrderedDict, COrderedDict => true
  | _, _ => false
  end.

(** [issubclass(a, b)]: [bool] derives from [int], [OrderedDict] from
    [dict]. *)
Definition issubclass (a b : pyclass) : bool :=
  pyclass_eqb a b ||
  match a, b with
  | CBool, CInt => true
  | COrderedDict, CDict => true
  | _, _ => false
  end.

Definition class_of (v : value) : pyclass :=
  match v with
  | VNone => CNoneType
  | VBool _ => CBool
  | VInt _ => CInt
  | VStr _ => CStr
  | VList _ => CList
  | VDict PlainDict _ => CDict
  | VDict OrderedDict _ => COrderedDict
  end.

Definition is_none (v : value) : bool :=
  match v with VNone => true | _ => false end.

(** Truth value of a Python object. *)
Definition truthy (v : value) : bool :=
  match v with
  | VNone => false
  | VBool b => b
  | VInt n => negb (Z.eqb n 0)
  | VStr s => negb (String.eqb s "")
  | VList l => match l with [] => false | _ => true end
  | VDict _ l => match l with [] => false | _ => true end
  end.

(** ** Ordered dictionaries as association lists *)

Fixpoint assoc_get {A} (k : string) (l : list (string * A)) : option A :=
  match l with
  | [] => None
  | (k', v) :: l' => if String.eqb k k' then Some v else assoc_get k l'
  end.

(** [d[k] = v]: an existing key keeps its position, a new key goes last. *)
Fixpoint assoc_set {A} (k : string) (v : A) (l : list (string * A))
  : list (string * A) :=
  match l with
  | [] => [(k, v)]
  | (k', v') :: l' =>
      if String.eqb k k' then (k, v) :: l' else (k', v') :: assoc_set k v l'
  end.

Fixpoint assoc_del {A} (k : string) (l : list (string * A))
  : list (string * A) :=
  match l with
  | [] => []
  | (k', v') :: l' =>
      if String.eqb k k' then l' else (k', v') :: assoc_del k l'
  end.

Definition keys {A} (l : list (string * A)) : list string := map fst l.

(** Dictionary access on values.  [dict_items] is [d.items()]. *)
Definition dict_items (v : value) : list (string * value) :=
  match v with
  | VDict _ l => l
  | _ => []
  end.

Definition is_dict (v : value) : bool := issubclass (class_of v) CDict.

(** [d.get(k)]: [None] when the key is missing. *)
Definition dict_get (d : value) (k : string) : value :=
  match assoc_get k (dict_items d) with
  | Some v => v
  | None => VNone
  end.

(** [d.get(k, default)]. *)
Definition dict_get_default (d : value) (k : string) (default : value) : value :=
  match assoc_get k (dict_items d) with
  | Some v => v
  | None => default
  end.

(** [d[k] = v] on a dictionary value. *)
Definition dict_set (d : value) (k : string) (v : value) : value :=
  match d with
  | VDict c l => VDict c (assoc_set k v l)
  | _ => d
  end.

(** A document is well formed when no dictionary in it repeats a key (an
    invariant of every Python dictionary). *)
Fixpoint wf_value (v : value) : Prop :=
  match v with
  | VList l => (fix all (l : list value) : Prop :=
                  match l with [] => True | x :: l' => wf_value x /\ all l' end) l
  | VDict _ kvs =>
      NoDup (keys kvs) /\
      (fix all (l : list (string * value)) : Prop :=
         match l with [] => True | (_, x) :: l' => wf_value x /\ all l' end) kvs
  | _ => True
  end.

(* ================================================================== *)
(** * safe_dict_get_value *)

(** [safe_dict_get_value(tree_node, key, default_value=None,
    value_classes=None)].  An absent [default_value] is [VNone] and an absent
    [value_classes] is the empty list (both are falsy in the source). *)
Definition safe_dict_get_value (tree_node : value) (key : string)
    (default_value : value) (value_classes : list pyclass) : value :=
  if negb (issubclass (class_of tree_node) CDict) then default_value
  else
    let value := dict_get tree_node key in
    if is_none value then default_value
    else if negb (is_none default_value) ||
            (match value_classes with [] => false | _ => true end)
    then
      let value_classes :=
        match value_classes with
        | [] => class_of default_value ::
                (if pyclass_eqb (class_of default_value) CStr
                 then [CStr] (* unicode is str *) else [])
        | _ => value_classes
        end in
      let matches_class :=
        existsb (fun value_class => issubclass (class_of value) value_class)
                value_classes in
      if negb matches_class then default_value else value
    else value.

(** What the node stores under the key: nothing unless the node is a
    dictionary that has the key. *)
Definition stored (tree_node : value) (key : string) : option value :=
  match tree_node with
  | VDict _ items => assoc_get key items
  | _ => None
  end.

(** The class test of [safe_dict_get_value]: with an explicit class list the
    value must be an instance of one of its classes; with only a default
    value, an instance of the default's class; with neither, any value
    passes. *)
Definition class_accepted (default_value : value) (value_classes : list pyclass)
    (v : value) : bool :=
  match value_classes with
  | [] => is_none default_value || issubclass (class_of v) (class_of default_value)
  | _ => existsb (issubclass (class_of v)) value_classes
  end.

(** * merge_ordered_dicts *)

Definition UNITY_5_6_PLATFORM_DATA_KEYS : list string := ["first"; "second"].

Definition string_list_eqb (a b : list string) : bool :=
  if list_eq_dec String.string_dec a b then true else false.

Definition list_contains_dictionaries_with_keys (list_to_query : value)
    (expected_keys : list string) : bool :=
  match list_to_query with
  | VList items =>
      match items with [] => false | _ => true end &&
      forallb (fun item =>
                 is_dict item &&
                 string_list_eqb (sorted_strings (keys (dict_items item)))
                                 expected_keys) items
  | _ => false
  end.

Section Merge.

(** [str(x)], used by the source to compare the ["first"] entries of two
    platform records. *)
Variable py_str : value -> string.

(** The inner search of the list merge: the first record of [into] whose
    ["first"] prints like [key] is merged (by [merge]) in place. *)
Fixpoint merge_matching (merge : value -> value) (key : string)
    (into : list value) : option (list value) :=
  match into with
  | [] => None
  | item :: rest =>
      if String.eqb (py_str (dict_get item "first")) key
      then Some (merge item :: rest)
      else option_map (cons item) (merge_matching merge key rest)
  end.

(** [merge_ordered_dicts(merge_into, merge_from)]: the returned value is
    [merge_into] after the in-place merge. *)
Fixpoint merge_ordered_dicts (merge_into merge_from : value)
    {struct merge_from} : value :=
  match merge_from, merge_into with
  | VDict _ from_items, VDict c into_items =>
      VDict c
        ((fix loop (from_items into_items : list (string * value))
              {struct from_items} : list (string * value) :=
            match from_items with
            | [] => into_items
            | (merge_from_key, merge_from_value) :: rest =>
                let merge_into_value :=
                  match assoc_get merge_from_key into_items with
                  | Some v => v
                  | None => VNone
                  end in
                let new_value :=
                  if is_none merge_into_value then merge_from_value
                  else
                    match merge_into_value, merge_from_value with
                    | VDict _ _, VDict _ _ =>
                        merge_ordered_dicts merge_into_value merge_from_value
                    | VList into_list, VList from_list =>
                        if list_contains_dictionaries_with_keys
                             merge_into_value UNITY_5_6_PLATFORM_DATA_KEYS &&
                           list_contains_dictionaries_with_keys
                             merge_from_value UNITY_5_6_PLATFORM_DATA_KEYS
                        then
                          VList
                            ((fix each (from_list into_list : list value)
                                  {struct from_list} : list value :=
                                match from_list with
                                | [] => into_list
                                | merge_from_list_item :: from_rest =>
                                    let key :=
                                      py_str (dict_get merge_from_list_item
                                                       "first") in
                                    each from_rest
                                      match
                                        merge_matching
                                          (fun merge_into_list_item =>
                                             merge_ordered_dicts
                                               merge_into_list_item
                                               merge_from_list_item)
                                          key into_list
                                      with
                                      | Some merged => merged
                                      | None =>
                                          into_list ++ [merge_from_list_item]
                                      end
                                end) from_list into_list)
                        else merge_from_value
                    | _, _ => merge_from_value
                    end in
                loop rest (assoc_set merge_from_key new_value into_items)
            end) from_items into_items)
  | _, _ => merge_into
  end.

End Merge.

(** ** Equality of documents ([==]) *)

Definition bool_to_Z (b : bool) : Z := if b then 1%Z else 0%Z.

Fixpoint py_eq (a b : value) {struct a} : bool :=
  match a, b with
  | VNone, VNone => true
  | VBool x, VBool y => Bool.eqb x y
  | VInt x, VInt y => Z.eqb x y
  | VBool x, VInt y => Z.eqb (bool_to_Z x) y
  | VInt x, VBool y => Z.eqb x (bool_to_Z y)
  | VStr x, VStr y => String.eqb x y
  | VList xs, VList ys =>
      (fix go (xs ys : list value) {struct xs} : bool :=
         match xs, ys with
         | [], [] => true
         | x :: xs', y :: ys' => py_eq x y && go xs' ys'
         | _, _ => false
         end) xs ys
  | VDict OrderedDict k1, VDict OrderedDict k2 =>
      (fix go (k1 k2 : list (string * value)) {struct k1} : bool :=
         match k1, k2 with
         | [], [] => true
         | (ka, va) :: k1', (kb, vb) :: k2' =>
             String.eqb ka kb && py_eq va vb && go k1' k2'
         | _, _ => false
         end) k1 k2
  | VDict _ k1, VDict _ k2 =>
      Nat.eqb (List.length k1) (List.length k2) &&
      (fix all (k1 : list (string * value)) : bool :=
         match k1 with
         | [] => true
         | (ka, va) :: k1' =>
             match assoc_get ka k2 with
             | Some vb => py_eq va vb
             | None => false
             end && all k1'
         end) k1
  | _, _ => false
  end.


(* ================================================================== *)
(** * safe_dict_get_value with any key and any list as value_classes

    [safe_dict_get_value] above takes its key as a string and its classes
    as a list of classes, as every call of the module does.  Python checks
    neither: the key can be any object and [value_classes] can list objects
    that are not classes.  The function below is the same code with these
    arguments as they come. *)

(** An element of [value_classes]: a class, or an object that is not. *)
Inductive class_arg : Type :=
| AClass (c : pyclass)
| AObject (v : value).



(** The loop [for value_class in value_classes] with its [break]:
    [issubclass] raises [TypeError] when its second argument is not a
    class. *)
Fixpoint matches_class (v : value) (value_classes : list class_arg)
  : res bool :=
  match value_classes with
  | [] => Ok false
  | AClass value_class :: rest =>
      if issubclass (class_of v) value_class then Ok true
      else matches_class v rest
  | AObject _ :: _ => Raise TypeError
  end.



(** The object returned by [safe_dict_get_value] is either the child stored
    in the node, so that a later mutation of it is seen through the node, or
    the default object of the caller, which the node does not reference.
    [safe_dict_get_child] is the first case. *)
Definition safe_dict_get_child (tree_node : value) (key : string)
    (default_value : value) (value_classes : list pyclass) : option value :=
  match stored tree_node key with
  | Some v =>
      if negb (is_none v) && class_accepted default_value value_classes v
      then Some v else None
  | None => None
  end.

(** After the in-place change of a child, the parent shows the new child
    when the child was stored in it. *)
Definition put_back (parent : value) (key : string) (child : option value)
    (new_child : value) : value :=
  match child with
  | Some _ => dict_set parent key new_child
  | None => parent
  end.

(** [target[key] = v]: only dictionaries accept a string key. *)
Definition set_item (target : value) (key : string) (v : value) : res value :=
  match target with
  | VDict c l => Ok (VDict c (assoc_set key v l))
  | _ => Raise TypeError
  end.

(** [target.get(key, default)]: only dictionaries have [get]. *)
Definition get_item (target : value) (key : string) (default : value)
  : res value :=
  match target with
  | VDict _ l => Ok (match assoc_get key l with Some v => v | None => default end)
  | _ => Raise AttributeError
  end.

(* ================================================================== *)
(** * Metadata templates and platform tables *)

Definition od (items : list (string * value)) : value := VDict OrderedDict items.
Definition pd (items : list (string * value)) : value := VDict PlainDict items.

Definition DEFAULT_IMPORTER_DATA : list (string * value) :=
  [("userData", VNone); ("assetBundleName", VNone);
   ("assetBundleVariant", VNone)].

Definition PLATFORM_SETTINGS_DISABLED : list (string * value) :=
  [("enabled", VInt 0)].

Definition DEFAULT_PLATFORM_SETTINGS_EMPTY_DISABLED : value :=
  od (PLATFORM_SETTINGS_DISABLED ++ [("settings", pd [])]).

Definition DEFAULT_PLATFORM_SETTINGS_DISABLED : value :=
  od (PLATFORM_SETTINGS_DISABLED ++
      [("settings", od [("CPU", VStr "AnyCPU")])]).

Definition DEFAULT_PLATFORM_SETTINGS_EDITOR : value :=
  od (PLATFORM_SETTINGS_DISABLED ++
      [("settings", od [("CPU", VStr "AnyCPU");
                        ("DefaultValueInitialized", VBool true);
                        ("OS", VStr "AnyOS")])]).

Definition DEFAULT_PLATFORM_SETTINGS_DISABLED_CPU_NONE : value :=
  od (PLATFORM_SETTINGS_DISABLED ++
      [("settings", od [("CPU", VStr "None")])]).

Definition DEFAULT_PLATFORM_SETTINGS_DISABLED_IOS : value :=
  od (PLATFORM_SETTINGS_DISABLED ++
      [("settings", od [("CompileFlags", VNone);
                        ("FrameworkDependencies", VNone)])]).

Definition DEFAULT_PLATFORM_SETTINGS_DISABLED_TVOS : value :=
  od (PLATFORM_SETTINGS_DISABLED ++
      [("settings", od [("CompileFlags", VNone);
                        ("FrameworkDependencies", VNone)])]).

(** [PLUGIN_IMPORTER_METADATA_TEMPLATE["PluginImporter"]["platformData"]]. *)
Definition TEMPLATE_PLATFORM_DATA : list (string * value) :=
  [("Android", DEFAULT_PLATFORM_SETTINGS_DISABLED);
   ("Any", DEFAULT_PLATFORM_SETTINGS_EMPTY_DISABLED);
   ("Editor", DEFAULT_PLATFORM_SETTINGS_EDITOR);
   ("Linux", DEFAULT_PLATFORM_SETTINGS_DISABLED_CPU_NONE);
   ("Linux64", DEFAULT_PLATFORM_SETTINGS_DISABLED_CPU_NONE);
   ("LinuxUniversal", DEFAULT_PLATFORM_SETTINGS_DISABLED_CPU_NONE);
   ("OSXIntel", DEFAULT_PLATFORM_SETTINGS_DISABLED_CPU_NONE);
   ("OSXIntel64", DEFAULT_PLATFORM_SETTINGS_DISABLED_CPU_NONE);
   ("OSXUniversal", DEFAULT_PLATFORM_SETTINGS_DISABLED_CPU_NONE);
   ("Web", DEFAULT_PLATFORM_SETTINGS_EMPTY_DISABLED);
   ("WebStreamed", DEFAULT_PLATFORM_SETTINGS_EMPTY_DISABLED);
   ("Win", DEFAULT_PLATFORM_SETTINGS_DISABLED_CPU_NONE);
   ("Win64", DEFAULT_PLATFORM_SETTINGS_DISABLED_CPU_NONE);
   ("WindowsStoreApps", DEFAULT_PLATFORM_SETTINGS_DISABLED);
   ("iOS", DEFAULT_PLATFORM_SETTINGS_DISABLED_IOS);
   ("tvOS", DEFAULT_PLATFORM_SETTINGS_DISABLED_TVOS)].

Definition PLUGIN_IMPORTER_METADATA_TEMPLATE : value :=
  od [("PluginImporter",
       od ([("serializedVersion", VInt 1);
            ("iconMap", pd []);
            ("executionOrder", pd []);
            ("isPreloaded", VInt 0);
            ("platformData", od TEMPLATE_PLATFORM_DATA)]
           ++ DEFAULT_IMPORTER_DATA))].

Definition PLATFORM_TARGET_BY_PLATFORM : list (string * string) :=
  [("Any", "Any"); ("Editor", "Editor"); ("Android", "Android");
   ("Linux", "Standalone"); ("Linux64", "Standalone");
   ("LinuxUniversal", "Standalone"); ("OSXIntel", "Standalone");
   ("OSXIntel64", "Standalone"); ("OSXUniversal", "Standalone");
   ("Web", "WebGL"); ("WebStreamed", ""); ("Win", "Standalone");
   ("Win64", "Standalone"); ("WindowsStoreApps", "Windows Store Apps");
   ("iOS", "iPhone"); ("tvOS", "tvOS")].

Definition PLATFORMS_BY_SHARED_LIBRARY_EXTENSION
  : list (string * list string) :=
  [(".so", ["Any"; "Editor"; "Linux"; "Linux64"; "LinuxUniversal"]);
   (".bundle", ["Any"; "Editor"; "OSXIntel"; "OSXIntel64"; "OSXUniversal"]);
   (".dll", ["Any"; "Editor"; "Win"; "Win64"])].

Definition CPU_BY_DESKTOP_PLATFORM : list (string * string) :=
  [("Linux", "x86"); ("OSXIntel", "x86"); ("Win", "x86");
   ("Linux64", "x86_64"); ("OSXIntel64", "x86_64"); ("Win64", "x86_64");
   ("LinuxUniversal", "AnyCPU"); ("OSXUniversal", "AnyCPU")].

(* ================================================================== *)
(** * Regular expressions of the module

    The patterns of the source are given as regular expressions over
    characters and matched with Brzozowski derivatives.  [re.search] with a
    pattern that begins with [(^|/)] and ends with [$] is membership of the
    whole string in the language "(nothing, or any text followed by '/'),
    the body, (nothing, or one final newline)": [^] holds only at the start
    of the string and [$] at its end or just before a final newline. *)

Inductive regex : Type :=
| REmpty
| REps
| RChar (c : ascii)
| RAnyChar                 (* any character *)
| RDot                     (* [.]: any character but a newline *)
| RNotChar (c : ascii)     (* [[^c]] *)
| RSeq (r1 r2 : regex)
| RAlt (r1 r2 : regex)
| RStar (r : regex).

Fixpoint nullable (r : regex) : bool :=
  match r with
  | REmpty | RChar _ | RAnyChar | RDot | RNotChar _ => false
  | REps | RStar _ => true
  | RSeq r1 r2 => nullable r1 && nullable r2
  | RAlt r1 r2 => nullable r1 || nullable r2
  end.

Definition newline : ascii := Ascii.ascii_of_nat 10.

Fixpoint deriv (a : ascii) (r : regex) : regex :=
  match r with
  | REmpty | REps => REmpty
  | RChar c => if Ascii.eqb a c then REps else REmpty
  | RAnyChar => REps
  | RDot => if Ascii.eqb a newline then REmpty else REps
  | RNotChar c => if Ascii.eqb a c then REmpty else REps
  | RSeq r1 r2 =>
      if nullable r1 then RAlt (RSeq (deriv a r1) r2) (deriv a r2)
      else RSeq (deriv a r1) r2
  | RAlt r1 r2 => RAlt (deriv a r1) (deriv a r2)
  | RStar r' => RSeq (deriv a r') (RStar r')
  end.

Fixpoint re_fullmatch (r : regex) (s : string) : bool :=
  match s with
  | EmptyString => nullable r
  | String a s' => re_fullmatch (deriv a r) s'
  end.

Fixpoint RStr (s : string) : regex :=
  match s with
  | EmptyString => REps
  | String c s' => RSeq (RChar c) (RStr s')
  end.

Definition RPlus (r : regex) : regex := RSeq r (RStar r).

(** [SHARED_LIBRARY_PATH =
    re.compile(r"(^|/)Plugins/(x86|x86_64)/(.*/|)[^/]+\.(so|dll|bundle)$")],
    as the language of the strings in which [search] finds a match. *)
Definition SHARED_LIBRARY_PATH : regex :=
  RSeq (RAlt REps (RSeq (RStar RAnyChar) (RChar "/")))
  (RSeq (RStr "Plugins/")
  (RSeq (RAlt (RStr "x86") (RStr "x86_64"))
  (RSeq (RChar "/")
  (RSeq (RAlt (RSeq (RStar RDot) (RChar "/")) REps)
  (RSeq (RPlus (RNotChar "/"))
  (RSeq (RChar ".")
  (RSeq (RAlt (RStr "so") (RAlt (RStr "dll") (RStr "bundle")))
        (RAlt REps (RChar newline))))))))).

(* ================================================================== *)
(** * Paths ([posixpath]) *)

Fixpoint split_on_aux (sep : ascii) (s : string) (cur : string) : list string :=
  match s with
  | EmptyString => [cur]
  | String c s' =>
      if Ascii.eqb c sep then cur :: split_on_aux sep s' ""
      else split_on_aux sep s' (cur ++ String c "")%string
  end.

(** [s.split(sep)] for a one-character separator. *)
Definition split_on (sep : ascii) (s : string) : list string :=
  split_on_aux sep s "".

(** [sep.join(l)]. *)
Fixpoint join (sep : string) (l : list string) : string :=
  match l with
  | [] => ""
  | [x] => x
  | x :: l' => (x ++ sep ++ join sep l')%string
  end.

Definition starts_with (p s : string) : bool := String.prefix p s.

Definition last_string (l : list string) : string := List.last l "".

(** [os.path.normpath] of [posixpath]. *)
Definition normpath (path : string) : string :=
  if String.eqb path "" then "."
  else
    let initial_slashes :=
      if starts_with "/" path
      then if starts_with "//" path && negb (starts_with "///" path)
           then 2 else 1
      else 0 in
    let new_comps :=
      fold_left
        (fun new_comps comp =>
           if String.eqb comp "" || String.eqb comp "." then new_comps
           else if negb (String.eqb comp "..") ||
                   (Nat.eqb initial_slashes 0 &&
                    match new_comps with [] => true | _ => false end) ||
                   (match new_comps with [] => false | _ => true end &&
                    String.eqb (last_string new_comps) "..")
           then new_comps ++ [comp]
           else removelast new_comps)
        (split_on "/" path) [] in
    let path := join "/" new_comps in
    let path :=
      match initial_slashes with
      | 0 => path
      | 1 => ("/" ++ path)%string
      | _ => ("//" ++ path)%string
      end in
    if String.eqb path "" then "." else path.

(** [s.rfind(c)]: index of the last occurrence, if any. *)
Fixpoint rfind_aux (c : ascii) (s : string) (i : nat) (found : option nat)
  : option nat :=
  match s with
  | EmptyString => found
  | String a s' =>
      rfind_aux c s' (S i) (if Ascii.eqb a c then Some i else found)
  end.

Definition rfind (c : ascii) (s : string) : option nat := rfind_aux c s 0 None.

(** [os.path.splitext]: the extension starts at the last dot of the last
    component, unless that component consists of leading dots up to it. *)
Definition splitext (p : string) : string * string :=
  let filename_index :=
    match rfind "/" p with Some i => S i | None => 0 end in
  match rfind "." p with
  | Some dot_index =>
      if Nat.ltb dot_index filename_index then (p, "")
      else
        (* skip all leading dots *)
        if forallb (fun c => Ascii.eqb c ".")
             (list_ascii_of_string
                (String.substring filename_index (dot_index - filename_index) p))
        then (p, "")
        else (String.substring 0 dot_index p,
              String.substring dot_index (String.length p - dot_index) p)
  | None => (p, "")
  end.

(* ================================================================== *)
(** * Metadata transforms of [Asset], on documents

    Each function returns the document that its Python original leaves in
    [importer_metadata] (the original mutates it in place and returns it).
    A document is a tree: no object is referenced twice. *)

Fixpoint res_fold {A B} (f : A -> B -> res A) (l : list B) (a : A) : res A :=
  match l with
  | [] => Ok a
  | x :: l' =>
      match f a x with
      | Ok a' => res_fold f l' a'
      | Raise e => Raise e
      end
  end.

(** The body of [for current_platform in disable_platforms]:
    [platform_data[current_platform] = copy.deepcopy(
       PLUGIN_IMPORTER_METADATA_TEMPLATE["PluginImporter"]["platformData"][
         current_platform])]. *)
Definition reset_to_template (platform_data : value)
    (current_platform : string) : res value :=
  match assoc_get current_platform TEMPLATE_PLATFORM_DATA with
  | Some default_config =>
      Ok (dict_set platform_data current_platform default_config)
  | None => Raise (KeyError current_platform)
  end.

(** [Asset.disable_unsupported_platforms(importer_metadata, filename)]. *)
Definition disable_unsupported_platforms (importer_metadata : value)
    (filename : string) : res value :=
  let filename := posix_path (normpath filename) in
  let is_shared_library := re_fullmatch SHARED_LIBRARY_PATH filename in
  if negb is_shared_library then Ok importer_metadata
  else
    match assoc_get (snd (splitext filename))
                    PLATFORMS_BY_SHARED_LIBRARY_EXTENSION with
    | None => Ok importer_metadata
    | Some supported_platforms =>
        let plugin_importer_child :=
          safe_dict_get_child importer_metadata "PluginImporter" (pd []) [] in
        let plugin_importer :=
          safe_dict_get_value importer_metadata "PluginImporter" (pd []) [] in
        let serialized_version :=
          safe_dict_get_value plugin_importer "serializedVersion" (VInt 1) [] in
        if negb (py_eq serialized_version (VInt 1)) then Ok importer_metadata
        else
          let platform_data_child :=
            safe_dict_get_child plugin_importer "platformData" (pd []) [] in
          let platform_data :=
            safe_dict_get_value plugin_importer "platformData" (pd []) [] in
          let disable_platforms :=
            sorted_strings
              (filter (fun p => negb (string_mem p supported_platforms))
                      (keys (dict_items platform_data))) in
          (* Disable the Any platform if any platforms are disabled. *)
          match
            match disable_platforms with
            | [] => Ok platform_data
            | _ =>
                let any_config :=
                  dict_get_default platform_data "Any" (od []) in
                match set_item any_config "enabled" (VInt 0) with
                | Ok any_config => Ok (dict_set platform_data "Any" any_config)
                | Raise e => Raise e
                end
            end
          with
          | Raise e => Raise e
          | Ok platform_data =>
              (* Disable all platforms in the set. *)
              match
                res_fold reset_to_template disable_platforms platform_data
              with
              | Raise e => Raise e
              | Ok platform_data =>
                  Ok (put_back importer_metadata "PluginImporter"
                        plugin_importer_child
                        (put_back plugin_importer "platformData"
                                  platform_data_child platform_data))
              end
          end
    end.

(** [Asset.platform_data_get_entry(platform_data_item)]: the ["first"] and
    ["second"] dictionaries, each with the flag "is stored in the entry". *)
Definition platform_data_get_entry (platform_data_item : value)
  : res ((option value * value) * (option value * value)) :=
  match get_item platform_data_item "data" platform_data_item with
  | Raise e => Raise e
  | Ok entry =>
      Ok ((safe_dict_get_child entry "first" (od []) [],
           safe_dict_get_value entry "first" (od []) []),
          (safe_dict_get_child entry "second" (od []) [],
           safe_dict_get_value entry "second" (od []) []))
  end.

(** [second["enabled"] = v] on the ["second"] dictionary that
    [platform_data_get_entry] returns for [entry]; the entry changes only
    when that dictionary is stored in it. *)
Definition entry_set_enabled (entry : value) (v : value) : res value :=
  match get_item entry "data" entry with
  | Raise e => Raise e
  | Ok inner =>
      let second_child := safe_dict_get_child inner "second" (od []) [] in
      let second := safe_dict_get_value inner "second" (od []) [] in
      match set_item second "enabled" v with
      | Raise e => Raise e
      | Ok second =>
          let inner := put_back inner "second" second_child second in
          Ok (match assoc_get "data" (dict_items entry) with
              | Some _ => dict_set entry "data" inner
              | None => inner
              end)
      end
  end.

(** The first loop of the version 2 branch: the enabled flag of the first
    entry whose ["first"] has the key ["Any"]. *)
Fixpoint find_any_enabled (platform_data : list value) : res value :=
  match platform_data with
  | [] => Ok (VInt 0)
  | entry :: rest =>
      match platform_data_get_entry entry with
      | Raise e => Raise e
      | Ok ((_, first), (_, second)) =>
          if string_mem "Any" (keys (dict_items first))
          then get_item second "enabled" (VInt 0)
          else find_any_enabled rest
      end
  end.

(** [l.remove(x)] when [x in l]: the first occurrence goes. *)
Fixpoint remove_first (x : string) (l : list string) : list string :=
  match l with
  | [] => []
  | y :: l' => if String.eqb x y then l' else y :: remove_first x l'
  end.

(** The loop that rewrites the entries of version 2 platform data.  The
    state is (remaining_platforms, new_platform_data, unity_5_6_format). *)
Definition enable_entry (any_enabled : value)
    (state : list string * list value * bool) (entry : value)
  : res (list string * list value * bool) :=
  let '(remaining_platforms, new_platform_data, _) := state in
  match entry with
  | VDict _ items =>
      let unity_5_6_format := string_mem "data" (keys items) in
      match platform_data_get_entry entry with
      | Raise e => Raise e
      | Ok ((_, first), _) =>
          match dict_items first with
          | [] => Raise IndexError
          | (unused_platform_target, platform_name) :: _ =>
              let remaining_platforms :=
                match platform_name with
                | VStr name => remove_first name remaining_platforms
                | _ => remaining_platforms
                end in
              match entry_set_enabled entry any_enabled with
              | Raise e => Raise e
              | Ok entry =>
                  Ok (remaining_platforms, new_platform_data ++ [entry],
                      unity_5_6_format)
              end
          end
      end
  | VList _ | VStr _ => Raise AttributeError
  | _ => Raise TypeError
  end.

(** The body of the version 1 loop over the template's platforms. *)
Definition enable_from_any (any_enabled : value) (platform_data : value)
    (template_item : string * value) : res value :=
  let '(platform_name, default_config) := template_item in
  let config := dict_get platform_data platform_name in
  let config := if is_none config then default_config else config in
  match set_item config "enabled" any_enabled with
  | Raise e => Raise e
  | Ok config => Ok (dict_set platform_data platform_name config)
  end.

(** [Asset.apply_any_platform_selection(importer_metadata)]. *)
Definition apply_any_platform_selection (importer_metadata : value)
  : res value :=
  let plugin_importer_child :=
    safe_dict_get_child importer_metadata "PluginImporter" (pd []) [] in
  let plugin_importer :=
    safe_dict_get_value importer_metadata "PluginImporter" (pd []) [] in
  let serialized_version :=
    safe_dict_get_value plugin_importer "serializedVersion" (VInt 1) [] in
  if py_eq serialized_version (VInt 1) then
    let platform_data_child :=
      safe_dict_get_child plugin_importer "platformData" (pd []) [] in
    let platform_data :=
      safe_dict_get_value plugin_importer "platformData" (pd []) [] in
    match get_item (dict_get_default platform_data "Any" (pd []))
                   "enabled" (VInt 0) with
    | Raise e => Raise e
    | Ok any_enabled =>
        if negb (truthy any_enabled) then Ok importer_metadata
        else
          match
            res_fold (enable_from_any any_enabled)
                     TEMPLATE_PLATFORM_DATA platform_data
          with
          | Raise e => Raise e
          | Ok platform_data =>
              Ok (put_back importer_metadata "PluginImporter"
                    plugin_importer_child
                    (put_back plugin_importer "platformData"
                              platform_data_child platform_data))
          end
    end
  else
    let platform_data :=
      match safe_dict_get_value plugin_importer "platformData" (VList []) []
      with
      | VList l => l
      | _ => []
      end in
    match find_any_enabled platform_data with
    | Raise e => Raise e
    | Ok any_enabled =>
        if negb (truthy any_enabled) then Ok importer_metadata
        else
          let remaining_platforms :=
            filter (fun platform_name => negb (String.eqb platform_name "Any"))
                   (keys TEMPLATE_PLATFORM_DATA) in
          match res_fold (enable_entry any_enabled) platform_data
                         (remaining_platforms, [], false) with
          | Raise e => Raise e
          | Ok (remaining_platforms, new_platform_data, unity_5_6_format) =>
              let added :=
                map (fun platform_name =>
                       let platform_target :=
                         match assoc_get platform_name
                                         PLATFORM_TARGET_BY_PLATFORM with
                         | Some t => t
                         | None => ""
                         end in
                       let entry :=
                         od [("first", od [(platform_target, VStr platform_name)]);
                             ("second", od [("enabled", any_enabled)])] in
                       if unity_5_6_format then od [("data", entry)] else entry)
                    remaining_platforms in
              Ok (put_back importer_metadata "PluginImporter"
                    plugin_importer_child
                    (dict_set plugin_importer "platformData"
                              (VList (new_platform_data ++ added))))
          end
    end.

(* ================================================================== *)
(** * Reading platform data, and the documents of the scenarios *)

(** The plugin importer, the serialization version and the platform data of
    a document, read the way every transform reads them. *)
Definition plugin_importer_of (importer_metadata : value) : value :=
  safe_dict_get_value importer_metadata "PluginImporter" (pd []) [].

Definition serialized_version_of (importer_metadata : value) : value :=
  safe_dict_get_value (plugin_importer_of importer_metadata)
                      "serializedVersion" (VInt 1) [].

Definition platform_data_of (importer_metadata : value) : value :=
  safe_dict_get_value (plugin_importer_of importer_metadata)
                      "platformData" (pd []) [].

Definition platform_names (importer_metadata : value) : list string :=
  keys (dict_items (platform_data_of importer_metadata)).

Definition platform_config (importer_metadata : value) (platform : string)
  : value :=
  dict_get (platform_data_of importer_metadata) platform.

(** The enabled flag of a platform of a version 1 document, read as
    [set_cpu_for_desktop_platforms] reads it. *)
Definition platform_enabled (importer_metadata : value) (platform : string)
  : value :=
  safe_dict_get_value (platform_config importer_metadata platform)
                      "enabled" (VInt 0) [].

Definition enabled_platforms (importer_metadata : value) : list string :=
  filter (fun p => truthy (platform_enabled importer_metadata p))
         (platform_names importer_metadata).

(** [importer_metadata["PluginImporter"]["platformData"][platform]["enabled"]
    = v]. *)
Definition set_platform_enabled (importer_metadata : value)
    (platform : string) (v : value) : value :=
  let plugin_importer := plugin_importer_of importer_metadata in
  let platform_data := platform_data_of importer_metadata in
  dict_set importer_metadata "PluginImporter"
    (dict_set plugin_importer "platformData"
       (dict_set platform_data platform
          (dict_set (dict_get platform_data platform) "enabled" v))).

(** A version 1 plugin document with the given platform data. *)
Definition plugin_document (platform_data : list (string * value)) : value :=
  od [("PluginImporter",
       od ([("serializedVersion", VInt 1);
            ("iconMap", pd []);
            ("executionOrder", pd []);
            ("isPreloaded", VInt 0);
            ("platformData", od platform_data)]
           ++ DEFAULT_IMPORTER_DATA))].

(** The template with every platform enabled. *)
Definition ALL_PLATFORMS_ENABLED : value :=
  plugin_document
    (map (fun '(name, config) => (name, dict_set config "enabled" (VInt 1)))
         TEMPLATE_PLATFORM_DATA).

(** The template with only the "Any" platform enabled. *)
Definition ANY_PLATFORM_ENABLED : value :=
  set_platform_enabled PLUGIN_IMPORTER_METADATA_TEMPLATE "Any" (VInt 1).

(** Version 2 platform data: a list of first / second records. *)
Definition platform_record (target name : string) (enabled : Z) : value :=
  od [("first", od [(target, VStr name)]);
      ("second", od [("enabled", VInt enabled)])].

Definition plugin_document_v2 (platform_data : list value) : value :=
  od [("PluginImporter",
       od [("serializedVersion", VInt 2);
           ("platformData", VList platform_data)])].

Definition ANY_ENABLED_V2 : value :=
  plugin_document_v2
    [platform_record "Any" "" 1;
     platform_record "Android" "Android" 0;
     platform_record "Editor" "Editor" 0].

(** The document that [disable_unsupported_platforms] returns for the
    macOS bundle of the scenario. *)
Definition BUNDLE_RESULT : value :=
  Eval vm_compute in
    match disable_unsupported_platforms ALL_PLATFORMS_ENABLED
                                        "Plugins/x86/Foo/bar.bundle" with
    | Ok result => result
    | Raise _ => VNone
    end.

(** The raw enabled flag of a platform, and the flag of "Any" as
    [apply_any_platform_selection] reads it in a version 1 document. *)
Definition platform_flag (importer_metadata : value) (platform : string)
  : value :=
  dict_get (platform_config importer_metadata platform) "enabled".

Definition any_enabled_of (importer_metadata : value) : res value :=
  get_item (dict_get_default (platform_data_of importer_metadata) "Any" (pd []))
           "enabled" (VInt 0).

(** The documents of the version 2 scenario: after the first application,
    after disabling the Android record, and after the second application. *)
Definition disable_record (target name : string) (entry : value) : value :=
  if py_eq (dict_get entry "first") (od [(target, VStr name)])
  then dict_set entry "second"
         (dict_set (dict_get entry "second") "enabled" (VInt 0))
  else entry.

Definition platform_list (importer_metadata : value) : list value :=
  match safe_dict_get_value (plugin_importer_of importer_metadata)
                            "platformData" (VList []) [] with
  | VList l => l
  | _ => []
  end.

Definition map_platform_list (f : value -> value) (importer_metadata : value)
  : value :=
  dict_set importer_metadata "PluginImporter"
    (dict_set (plugin_importer_of importer_metadata) "platformData"
       (VList (map f (platform_list importer_metadata)))).

Definition record_flags (importer_metadata : value) : list (value * value) :=
  map (fun entry => (dict_get entry "first",
                     dict_get (dict_get entry "second") "enabled"))
      (platform_list importer_metadata).

Definition V2_FIRST_PASS : value :=
  Eval vm_compute in
    match apply_any_platform_selection ANY_ENABLED_V2 with
    | Ok result => result
    | Raise _ => VNone
    end.

Definition V2_ANDROID_DISABLED : value :=
  Eval vm_compute in
    map_platform_list (disable_record "Android" "Android") V2_FIRST_PASS.

Definition V2_SECOND_PASS : value :=
  Eval vm_compute in
    match apply_any_platform_selection V2_ANDROID_DISABLED with
    | Ok result => result
    | Raise _ => VNone
    end.

(** The documents of the version 1 scenario. *)
Definition V1_FIRST_PASS : value :=
  Eval vm_compute in
    match apply_any_platform_selection ANY_PLATFORM_ENABLED with
    | Ok result => result
    | Raise _ => VNone
    end.

Definition V1_SECOND_PASS : value :=
  Eval vm_compute in
    match apply_any_platform_selection
            (set_platform_enabled V1_FIRST_PASS "Android" (VInt 0)) with
    | Ok result => result
    | Raise _ => VNone
    end.

(** A platform record whose enabled flag is [e]. *)
Definition has_flag (e : value) (config : value) : Prop :=
  exists c items, config = VDict c items /\ assoc_get "enabled" items = Some e.

(* ================================================================== *)
(** * GUID database *)

(** The GUID store of the JSON file: version, then asset path, then GUID. *)
Definition guid_store : Type := list (string * list (string * string)).

(** [DuplicateGuidsChecker._paths_by_guid]: the set of paths of each GUID. *)
Definition DuplicateGuidsChecker : Type := list (string * list string).

(** [DuplicateGuidsChecker.add_guid_and_path]. *)
Definition add_guid_and_path (checker : DuplicateGuidsChecker)
    (guid path : string) : DuplicateGuidsChecker :=
  let paths := match assoc_get guid checker with Some l => l | None => [] end in
  let path := posix_path path in
  assoc_set guid (if string_mem path paths then paths else paths ++ [path])
            checker.

(** [DuplicateGuidsChecker.check_for_duplicates]. *)
Definition check_for_duplicates (checker : DuplicateGuidsChecker) : res unit :=
  match filter (fun '(guid, paths) => Nat.ltb 1 (List.length paths)) checker with
  | [] => Ok tt
  | conflicting_paths_by_guid => Raise (DuplicateGuidsError conflicting_paths_by_guid)
  end.

Record GuidDatabase : Type := {
  _guids_by_path : list (string * string);
  _duplicate_guids_checker : DuplicateGuidsChecker
}.

(** [GuidDatabase.add_guid]. *)
Definition add_guid (self : GuidDatabase) (path guid : string) : GuidDatabase :=
  let path := posix_path path in
  {| _guids_by_path := assoc_set path guid (_guids_by_path self);
     _duplicate_guids_checker :=
       add_guid_and_path (_duplicate_guids_checker self) guid path |}.

(** [GuidDatabase.get_guid]. *)
Definition get_guid (self : GuidDatabase) (path : string) : res string :=
  let path := posix_path path in
  match assoc_get path (_guids_by_path self) with
  | Some guid =>
      if String.eqb guid "" then Raise (MissingGuidsError [path]) else Ok guid
  | None => Raise (MissingGuidsError [path])
  end.

(** [[f x for x in l]] where [f] can raise. *)
Fixpoint res_map {A B} (f : A -> res B) (l : list A) : res (list B) :=
  match l with
  | [] => Ok []
  | x :: l' =>
      match f x with
      | Raise e => Raise e
      | Ok y =>
          match res_map f l' with
          | Raise e => Raise e
          | Ok ys => Ok (y :: ys)
          end
      end
  end.

Section Versions.

(** The version class that orders the store: its constructor, which raises
    on a string that is not a version, and its order.  The exporter uses
    [packaging.version.Version], the GUID generator
    [distutils.version.LooseVersion]. *)
Variable version_key : Type.
Variable Version : string -> res version_key.
Variable version_leb : version_key -> version_key -> bool.

(** [sorted(l, key=..., reverse=True)] on (key, element) pairs: descending,
    elements with equal keys in their original order. *)
Fixpoint insert_descending {A} (x : version_key * A)
    (l : list (version_key * A)) : list (version_key * A) :=
  match l with
  | [] => [x]
  | y :: l' =>
      if version_leb (fst y) (fst x) then x :: l
      else y :: insert_descending x l'
  end.

Definition sorted_descending {A} (l : list (version_key * A))
  : list (version_key * A) :=
  fold_right insert_descending [] l.

(** [GuidDatabase.__init__(duplicate_guids_checker, guids_json,
    plugin_version)]. *)
Definition GuidDatabase_init (duplicate_guids_checker : DuplicateGuidsChecker)
    (guids_json : guid_store) (plugin_version : option string)
  : res GuidDatabase :=
  let self := {| _guids_by_path := [];
                 _duplicate_guids_checker := duplicate_guids_checker |} in
  match guids_json with
  | [] => Ok self
  | _ =>
      let guid_map :=
        match plugin_version with
        | Some v => match assoc_get v guids_json with Some m => m | None => [] end
        | None => []
        end in
      let self :=
        fold_left (fun self '(filename, guid) =>
                     add_guid self (posix_path filename) guid)
                  guid_map self in
      match plugin_version with
      | None => Ok self
      | Some v =>
          if String.eqb v "" then Ok self
          else
            (* Aggregate guids for older versions of files. *)
            match Version v with
            | Raise e => Raise e
            | Ok current_version =>
                match res_map (fun version =>
                                 match Version version with
                                 | Ok k => Ok (k, version)
                                 | Raise e => Raise e
                                 end) (keys guids_json) with
                | Raise e => Raise e
                | Ok keyed =>
                    Ok (fold_left
                          (fun self '(k, version) =>
                             (* Skip all versions after and including the
                                current version. *)
                             if version_leb current_version k then self
                             else
                               let guids_by_filename :=
                                 match assoc_get version guids_json with
                                 | Some m => m
                                 | None => []
                                 end in
                               fold_left
                                 (fun self filename =>
                                    if string_mem filename (keys guid_map)
                                    then self
                                    else
                                      match assoc_get filename
                                                      guids_by_filename with
                                      | Some guid => add_guid self filename guid
                                      | None => self
                                      end)
                                 (keys guids_by_filename) self)
                          (sorted_descending keyed) self)
                end
            end
      end
  end.

(** [get_all_asset_paths(guid_data, version)] of [gen_guids.py], the tool
    that maintains the store: "Get all asset paths and their newest
    associated GUIDs". *)
Definition get_all_asset_paths (guid_data : guid_store) (version : string)
  : res (list (string * string)) :=
  match Version version with
  | Raise e => Raise e
  | Ok max_version =>
      match res_map (fun version =>
                       match Version version with
                       | Ok k => Ok (k, version)
                       | Raise e => Raise e
                       end) (keys guid_data) with
      | Raise e => Raise e
      | Ok keyed =>
          Ok (fold_left
                (fun all_guids_by_asset_paths '(k, current_version) =>
                   (* Skip all versions after the current version. *)
                   if negb (version_leb k max_version)
                   then all_guids_by_asset_paths
                   else
                     let guids_by_asset_paths :=
                       match assoc_get current_version guid_data with
                       | Some m => m
                       | None => []
                       end in
                     fold_left
                       (fun all_guids_by_asset_paths '(asset_path, guid) =>
                          if string_mem asset_path
                                        (keys all_guids_by_asset_paths)
                          then all_guids_by_asset_paths
                          else assoc_set asset_path guid
                                         all_guids_by_asset_paths)
                       guids_by_asset_paths all_guids_by_asset_paths)
                (sorted_descending keyed) [])
      end
  end.

End Versions.

(** Release versions [N(.N)*], on which [packaging.version.Version] and
    [LooseVersion] agree (up to trailing zeros, which only [Version]
    ignores): the numbers of the release, compared lexicographically. *)
Definition digit_of (c : ascii) : option N :=
  let n := N_of_ascii c in
  if (N.leb 48 n && N.leb n 57)%bool then Some (n - 48)%N else None.

Fixpoint parse_number_aux (s : string) (acc : N) : option N :=
  match s with
  | EmptyString => Some acc
  | String c s' =>
      match digit_of c with
      | Some d => parse_number_aux s' (acc * 10 + d)%N
      | None => None
      end
  end.

Definition parse_number (s : string) : option N :=
  match s with
  | EmptyString => None
  | _ => parse_number_aux s 0%N
  end.

Fixpoint option_map_all {A B} (f : A -> option B) (l : list A)
  : option (list B) :=
  match l with
  | [] => Some []
  | x :: l' =>
      match f x, option_map_all f l' with
      | Some y, Some ys => Some (y :: ys)
      | _, _ => None
      end
  end.

Fixpoint strip_trailing_zeros (l : list N) : list N :=
  match l with
  | [] => []
  | x :: l' =>
      match strip_trailing_zeros l' with
      | [] => if N.eqb x 0 then [] else [x]
      | l'' => x :: l''
      end
  end.

Definition release_version (s : string) : res (list N) :=
  match option_map_all parse_number (split_on "." s) with
  | Some release => Ok (strip_trailing_zeros release)
  | None => Raise (InvalidVersion s)
  end.

Fixpoint release_leb (a b : list N) : bool :=
  match a, b with
  | [], _ => true
  | _ :: _, [] => false
  | x :: a', y :: b' =>
      if N.ltb x y then true
      else if N.eqb x y then release_leb a' b' else false
  end.

(** The store of the failing scenario: a path with a GUID at 1.0.0 and
    another GUID at 1.1.0, exported at version 1.2.0. *)
Definition TWO_PRIOR_VERSIONS : guid_store :=
  [("1.0.0", [("a/b.cs", "G1")]);
   ("1.1.0", [("a/b.cs", "G2")])].

(* ================================================================== *)
(** * Project and package configuration *)

(** [ConfigurationBlock.get_enabled(sections)]: a block with no sections is
    always enabled, otherwise its sections must meet the selected ones. *)
Definition get_enabled (block_sections sections : list string) : bool :=
  match block_sections with
  | [] => true
  | _ => existsb (fun s => string_mem s sections) block_sections
  end.

(** Equality of two sets of strings given as lists. *)
Definition set_eqb (a b : list string) : bool :=
  forallb (fun x => string_mem x b) a && forallb (fun x => string_mem x a) b.

Section Project.

(** Assets are seen through what package resolution uses of them: the export
    path [asset.filename] and the metadata view [asset.importer_metadata],
    which can raise; [metadata_eqb] is [==] on the metadata documents. *)
Variable Asset : Type.
Variable Meta : Type.
Variable filename : Asset -> string.
Variable importer_metadata : Asset -> res Meta.
Variable metadata_eqb : Meta -> Meta -> bool.

(** Compiled regular expressions: [re.compile], which fails on a string
    that is not a pattern, and [pattern.match]. *)
Variable Regex : Type.
Variable re_compile : string -> option Regex.
Variable re_match : Regex -> string -> bool.

(** An import group: its sections and the assets that
    [AssetConfiguration.find_assets(assets_dirs, for_upm)] finds in the
    asset directories (the file system is not modelled). *)
Record AssetConfiguration : Type := {
  ac_sections : list string;
  ac_find_assets : bool -> res (list Asset)
}.

Record PackageConfiguration : Type := {
  pc_name : string;
  pc_sections : list string;
  pc_imports : list AssetConfiguration;
  pc_includes : list string;
  pc_exclude_paths : list string
}.

Record BuildConfiguration : Type := {
  bc_name : string;
  bc_sections : list string
}.

Record ProjectConfiguration : Type := {
  _packages : list PackageConfiguration;
  _packages_by_name : list (string * PackageConfiguration);
  _selected_sections : option (list string);
  _all_builds : list BuildConfiguration;
  _builds : list BuildConfiguration
}.

(** The properties [packages_by_name], [packages] and
    [selected_sections]. *)
Definition packages_by_name (self : ProjectConfiguration)
  : list (string * PackageConfiguration) := _packages_by_name self.

Definition packages (self : ProjectConfiguration) : list PackageConfiguration :=
  map snd (_packages_by_name self).

Definition selected_sections (self : ProjectConfiguration) : list string :=
  match _selected_sections self with
  | Some sections => sections
  | None => []
  end.

(** [PackageConfiguration._get_includes(recursive)]; [includes_of] is the
    recursive call [package.includes].  [include_package] is the body of the
    loop over the names of the included packages. *)
Definition include_package
    (includes_of : PackageConfiguration -> res (list PackageConfiguration))
    (project : ProjectConfiguration) (recursive : bool)
    (state : list (string * PackageConfiguration) * list string)
    (include_package_name : string)
  : res (list (string * PackageConfiguration) * list string) :=
  let '(included_packages_by_name, missing_package_names) := state in
  match assoc_get include_package_name (packages_by_name project) with
  | Some package =>
      let included_packages_by_name :=
        assoc_set (pc_name package) package included_packages_by_name in
      if recursive then
        match includes_of package with
        | Raise e => Raise e
        | Ok pkgs =>
            Ok (fold_left (fun d pkg => assoc_set (pc_name pkg) pkg d)
                          pkgs included_packages_by_name,
                missing_package_names)
        end
      else Ok (included_packages_by_name, missing_package_names)
  | None =>
      Ok (included_packages_by_name,
          missing_package_names ++ [include_package_name])
  end.

Definition _get_includes_with
    (includes_of : PackageConfiguration -> res (list PackageConfiguration))
    (project : ProjectConfiguration) (self : PackageConfiguration)
    (recursive : bool) : res (list PackageConfiguration) :=
  match
    res_fold (include_package includes_of project recursive)
             (pc_includes self) ([], [])
  with
  | Raise e => Raise e
  | Ok (included_packages_by_name, missing_package_names) =>
      match missing_package_names with
      | [] => Ok (map snd included_packages_by_name)
      | _ => Raise (ProjectConfigurationError
                      (MissingPackages (pc_name self) missing_package_names))
      end
  end.

(** [PackageConfiguration.includes]; the fuel bounds the depth of the
    recursion, which Python bounds by its recursion limit. *)
Fixpoint includes (fuel : nat) (project : ProjectConfiguration)
    (self : PackageConfiguration) : res (list PackageConfiguration) :=
  match fuel with
  | 0 => Raise RecursionError
  | S fuel => _get_includes_with (includes fuel project) project self true
  end.

(** [PackageConfiguration.check_circular_references_in_includes(parents)]. *)
Fixpoint check_circular_references_in_includes (fuel : nat)
    (project : ProjectConfiguration) (self : PackageConfiguration)
    (parents : list PackageConfiguration) : res unit :=
  match fuel with
  | 0 => Raise RecursionError
  | S fuel =>
      let parent_names := map pc_name parents in
      if string_mem (pc_name self) parent_names
      then Raise (ProjectConfigurationError
                    (CircularInclusion (pc_name self) parent_names))
      else
        match _get_includes_with (fun _ => Ok []) project self false with
        | Raise e => Raise e
        | Ok direct =>
            res_fold
              (fun _ include =>
                 check_circular_references_in_includes fuel project include
                   (parents ++ [self]))
              direct tt
        end
  end.

(** The buckets of [package_list_by_name]. *)
Definition package_list_by_name (all_packages : list PackageConfiguration)
    (sections : list string) : list (string * list PackageConfiguration) :=
  fold_left
    (fun buckets package =>
       if get_enabled (pc_sections package) sections
       then
         let packages_list :=
           match assoc_get (pc_name package) buckets with
           | Some l => l
           | None => []
           end in
         assoc_set (pc_name package) (packages_list ++ [package]) buckets
       else buckets)
    all_packages [].

(** The setter of [ProjectConfiguration.selected_sections]: the outcome and
    the object after the call. *)
Definition set_selected_sections (fuel : nat) (self : ProjectConfiguration)
    (sections : list string) : res unit * ProjectConfiguration :=
  (* If the set of selected sections hasn't changed, do nothing. *)
  let sections := dedupe sections in
  if match _selected_sections self with
     | Some current => set_eqb sections current
     | None => false
     end
  then (Ok tt, self)
  else
    (* Filter by enabled packages and bucket by name. *)
    let buckets := package_list_by_name (_packages self) sections in
    (* Find any duplicate packages. *)
    let duplicate_package_names :=
      map fst (filter (fun '(name, pkgs) => Nat.ltb 1 (List.length pkgs))
                      buckets) in
    match duplicate_package_names with
    | _ :: _ =>
        (Raise (ProjectConfigurationError
                  (DuplicatePackages (sorted_strings duplicate_package_names)
                                     (sorted_strings sections))),
         self)
    | [] =>
        let previous_selected_sections := _selected_sections self in
        let previous_packages_by_name := _packages_by_name self in
        let self :=
          {| _packages := _packages self;
             _packages_by_name :=
               flat_map (fun '(name, pkgs) =>
                           match pkgs with
                           | pkg :: _ => [(name, pkg)]
                           | [] => []
                           end) buckets;
             _selected_sections := Some sections;
             _all_builds := _all_builds self;
             _builds := _builds self |} in
        (* Check for circular references in includes. *)
        match
          res_fold
            (fun _ package =>
               check_circular_references_in_includes fuel self package [])
            (packages self) tt
        with
        | Raise (ProjectConfigurationError error) =>
            (Raise (ProjectConfigurationError error),
             {| _packages := _packages self;
                _packages_by_name := previous_packages_by_name;
                _selected_sections := previous_selected_sections;
                _all_builds := _all_builds self;
                _builds := _builds self |})
        | Raise e => (Raise e, self)
        | Ok _ =>
            (* Create a filtered set of build configuration instances. *)
            (Ok tt,
             {| _packages := _packages self;
                _packages_by_name := _packages_by_name self;
                _selected_sections := _selected_sections self;
                _all_builds := _all_builds self;
                _builds :=
                  filter (fun build => get_enabled (bc_sections build) sections)
                         (_all_builds self) |})
        end
    end.

(** [Asset.sorted_by_filename(assets)]: [sorted] is stable. *)
Fixpoint insert_by_filename (asset : Asset) (l : list Asset) : list Asset :=
  match l with
  | [] => [asset]
  | other :: l' =>
      if String.leb (filename asset) (filename other) then asset :: l
      else other :: insert_by_filename asset l'
  end.

Definition sorted_by_filename (assets : list Asset) : list Asset :=
  fold_right insert_by_filename [] assets.

(** [assets_by_package_name[name].extend(assets)] on a [defaultdict(list)]. *)
Definition extend_assets (assets_by_package_name : list (string * list Asset))
    (name : string) (assets : list Asset) : list (string * list Asset) :=
  assoc_set name
    (match assoc_get name assets_by_package_name with
     | Some l => l
     | None => []
     end ++ assets)
    assets_by_package_name.

(** [package_and_assets_by_filename]. *)
Definition add_to_group (groups : list (string * list (string * Asset)))
    (package_and_asset : string * Asset)
  : list (string * list (string * Asset)) :=
  let key := filename (snd package_and_asset) in
  assoc_set key
    (match assoc_get key groups with
     | Some l => l
     | None => []
     end ++ [package_and_asset])
    groups.

Definition group_by_filename
    (assets_by_package_name : list (string * list Asset))
  : list (string * list (string * Asset)) :=
  fold_left
    (fun groups '(package_name, assets) =>
       fold_left (fun groups asset => add_to_group groups (package_name, asset))
                 assets groups)
    assets_by_package_name [].

(** The loop that looks for assets with different import settings among
    the assets of one file: [previous] is the pair (previous_package_name,
    previous_asset) and the result lists the additions to
    [differing_metadata_packages]. *)
Fixpoint differing_metadata_packages (previous : option (string * Asset))
    (package_and_assets : list (string * Asset)) : res (list string) :=
  match package_and_assets with
  | [] => Ok []
  | (package_name, asset) :: rest =>
      match
        match previous with
        | Some (previous_package_name, previous_asset) =>
            if negb (String.eqb previous_package_name "") then
              match importer_metadata previous_asset with
              | Raise e => Raise e
              | Ok previous_metadata =>
                  match importer_metadata asset with
                  | Raise e => Raise e
                  | Ok metadata =>
                      if negb (metadata_eqb previous_metadata metadata)
                      then Ok [previous_package_name; package_name]
                      else Ok []
                  end
              end
            else Ok []
        | None => Ok []
        end
      with
      | Raise e => Raise e
      | Ok added =>
          match differing_metadata_packages (Some (package_name, asset)) rest
          with
          | Raise e => Raise e
          | Ok more => Ok (added ++ more)
          end
      end
  end.

(** [duplicate_assets_errors]: the files imported with different import
    settings, each with the sorted names of the packages found to differ.
    [add_duplicate_error] is the body of the loop over the files. *)
Definition add_duplicate_error (errors : list (string * list string))
    (group : string * list (string * Asset))
  : res (list (string * list string)) :=
  let '(file, package_and_assets) := group in
  if Nat.leb (List.length package_and_assets) 1 then Ok errors
  else
    match differing_metadata_packages None package_and_assets with
    | Raise e => Raise e
    | Ok differing =>
        match differing with
        | [] => Ok errors
        | _ => Ok (errors ++ [(file, sorted_strings (dedupe differing))])
        end
    end.

Definition duplicate_assets_errors
    (groups : list (string * list (string * Asset)))
  : res (list (string * list string)) :=
  res_fold add_duplicate_error groups [].

(** [find_assets] from the grouping on: the duplicate check, the
    deduplication, the sort and the exclusions. *)
Definition resolve_assets (self : PackageConfiguration)
    (check_for_duplicates : bool)
    (assets_by_package_name : list (string * list Asset))
  : res (list Asset) :=
  let package_and_assets_by_filename :=
    group_by_filename assets_by_package_name in
  (* Check for duplicate assets with different import settings. *)
  match duplicate_assets_errors package_and_assets_by_filename with
  | Raise e => Raise e
  | Ok errors =>
      if check_for_duplicates &&
         match errors with [] => false | _ => true end
      then Raise (ProjectConfigurationError (DifferentImportSettings errors))
      else
        (* Deduplicate the list of assets that were found. *)
        let found_assets :=
          sorted_by_filename
            (flat_map (fun '(_, package_and_assets) =>
                         match package_and_assets with
                         | (_, asset) :: _ => [asset]
                         | [] => []
                         end) package_and_assets_by_filename) in
        (* Filter out excluded assets. *)
        match res_map (fun path =>
                         match re_compile path with
                         | Some exclude_path => Ok exclude_path
                         | None => Raise (ReError path)
                         end) (pc_exclude_paths self) with
        | Raise e => Raise e
        | Ok exclude_paths =>
            Ok (match exclude_paths with
                | [] => found_assets
                | _ =>
                    filter (fun asset =>
                              negb (existsb (fun exclude_path =>
                                               re_match exclude_path
                                                        (filename asset))
                                            exclude_paths))
                           found_assets
                end)
        end
  end.

(** The assets of the import groups of a package that the selected sections
    enable. *)
Definition own_assets (project : ProjectConfiguration)
    (self : PackageConfiguration) (for_upm : bool)
  : res (list (string * list Asset)) :=
  res_fold
    (fun assets_by_package_name asset_config =>
       if get_enabled (ac_sections asset_config) (selected_sections project)
       then
         match ac_find_assets asset_config for_upm with
         | Raise e => Raise e
         | Ok assets =>
             Ok (extend_assets assets_by_package_name (pc_name self) assets)
         end
       else Ok assets_by_package_name)
    (pc_imports self) [].

(** [PackageConfiguration.find_assets(assets_dirs, check_for_duplicates,
    for_upm)], with [collect_assets] its first half, up to
    [assets_by_package_name]. *)
Fixpoint find_assets (fuel : nat) (project : ProjectConfiguration)
    (self : PackageConfiguration) (check_for_duplicates for_upm : bool)
    {struct fuel} : res (list Asset) :=
  match fuel with
  | 0 => Raise RecursionError
  | S fuel' =>
      match own_assets project self for_upm with
      | Raise e => Raise e
      | Ok assets_by_package_name =>
          match
            (* Only add asset from "includes" package if this is not for
               UPM package. *)
            if for_upm then Ok assets_by_package_name
            else
              match includes fuel project self with
              | Raise e => Raise e
              | Ok included =>
                  res_fold
                    (fun assets_by_package_name package =>
                       match find_assets fuel' project package false false with
                       | Raise e => Raise e
                       | Ok assets =>
                           Ok (extend_assets assets_by_package_name
                                             (pc_name package) assets)
                       end)
                    included assets_by_package_name
              end
          with
          | Raise e => Raise e
          | Ok assets_by_package_name =>
              resolve_assets self check_for_duplicates assets_by_package_name
          end
      end
  end.

Definition collect_assets (fuel : nat) (project : ProjectConfiguration)
    (self : PackageConfiguration) (for_upm : bool)
  : res (list (string * list Asset)) :=
  match own_assets project self for_upm with
  | Raise e => Raise e
  | Ok assets_by_package_name =>
      if for_upm then Ok assets_by_package_name
      else
        match includes (S fuel) project self with
        | Raise e => Raise e
        | Ok included =>
            res_fold
              (fun assets_by_package_name package =>
                 match find_assets fuel project package false false with
                 | Raise e => Raise e
                 | Ok assets =>
                     Ok (extend_assets assets_by_package_name
                                       (pc_name package) assets)
                 end)
              included assets_by_package_name
        end
  end.

End Project.

Arguments ac_sections {Asset} _.
Arguments ac_find_assets {Asset} _ _.
Arguments pc_name {Asset} _.
Arguments pc_sections {Asset} _.
Arguments pc_imports {Asset} _.
Arguments pc_includes {Asset} _.
Arguments pc_exclude_paths {Asset} _.
Arguments _packages {Asset} _.
Arguments _packages_by_name {Asset} _.
Arguments _selected_sections {Asset} _.
Arguments _all_builds {Asset} _.
Arguments _builds {Asset} _.
Arguments packages_by_name {Asset} _.
Arguments packages {Asset} _.
Arguments selected_sections {Asset} _.
Arguments include_package {Asset} _ _ _ _ _.
Arguments _get_includes_with {Asset} _ _ _ _.
Arguments includes {Asset} _ _ _.
Arguments check_circular_references_in_includes {Asset} _ _ _ _.
Arguments package_list_by_name {Asset} _ _.
Arguments set_selected_sections {Asset} _ _ _.
Arguments insert_by_filename {Asset} _ _ _.
Arguments sorted_by_filename {Asset} _ _.
Arguments extend_assets {Asset} _ _ _.
Arguments add_to_group {Asset} _ _ _.
Arguments group_by_filename {Asset} _ _.
Arguments differing_metadata_packages {Asset Meta} _ _ _ _.
Arguments add_duplicate_error {Asset Meta} _ _ _ _.
Arguments duplicate_assets_errors {Asset Meta} _ _ _.
Arguments resolve_assets {Asset Meta} _ _ _ {Regex} _ _ _ _ _.
Arguments own_assets {Asset} _ _ _.
Arguments find_assets {Asset Meta} _ _ _ {Regex} _ _ _ _ _ _ _.
Arguments collect_assets {Asset Meta} _ _ _ {Regex} _ _ _ _ _ _.

(* ================================================================== *)
(** * Projects of the scenarios

    In the scenarios an asset is a pair of its export path and a name for
    its metadata document, and the exclusion patterns are literal strings
    (a literal pattern matches the paths that begin with it). *)

Definition sample_asset : Type := (string * string)%type.

Definition sample_filename (asset : sample_asset) : string := fst asset.

Definition sample_metadata (asset : sample_asset) : res string :=
  Ok (snd asset).

Definition literal_compile (pattern : string) : option string := Some pattern.

Definition literal_match (pattern path : string) : bool :=
  String.prefix pattern path.

Definition sample_group (assets : list sample_asset)
  : AssetConfiguration sample_asset :=
  {| ac_sections := []; ac_find_assets := fun _ => Ok assets |}.

Definition sample_package (name : string) (sections : list string)
    (assets : list sample_asset) (included excluded : list string)
  : PackageConfiguration sample_asset :=
  {| pc_name := name;
     pc_sections := sections;
     pc_imports := [sample_group assets];
     pc_includes := included;
     pc_exclude_paths := excluded |}.

Definition sample_project (all_packages : list (PackageConfiguration sample_asset))
    (enabled : list (PackageConfiguration sample_asset))
    (sections : list string) : ProjectConfiguration sample_asset :=
  {| _packages := all_packages;
     _packages_by_name := map (fun p => (pc_name p, p)) enabled;
     _selected_sections := Some sections;
     _all_builds := [];
     _builds := [] |}.

Definition sample_find_assets :=
  find_assets sample_filename sample_metadata String.eqb
              literal_compile literal_match.

(** Package A includes B and C; the three import the file [p], A and B with
    the same metadata, C with another one. *)
Definition PACKAGE_A := sample_package "A" [] [("p", "m1")] ["B"; "C"] [].
Definition PACKAGE_B := sample_package "B" [] [("p", "m1")] [] [].
Definition PACKAGE_C := sample_package "C" [] [("p", "m2")] [] [].

Definition THREE_PACKAGES : ProjectConfiguration sample_asset :=
  sample_project [PACKAGE_A; PACKAGE_B; PACKAGE_C]
                 [PACKAGE_A; PACKAGE_B; PACKAGE_C] [].

(** The scenario of the specification: A includes B and both declare the
    same file with different metadata. *)
Definition PACKAGE_A2 := sample_package "A" [] [("f", "m1"); ("a", "m0")] ["B"] [].
Definition PACKAGE_B2 := sample_package "B" [] [("f", "m2"); ("z", "m3")] [] [].

Definition TWO_PACKAGES : ProjectConfiguration sample_asset :=
  sample_project [PACKAGE_A2; PACKAGE_B2] [PACKAGE_A2; PACKAGE_B2] [].

(** Packages with sections, and packages that include each other. *)
Definition PACKAGE_P1 := sample_package "P1" [] [] [] [].
Definition PACKAGE_P2 := sample_package "P2" ["x"] [] [] [].
Definition PACKAGE_X := sample_package "X" ["loop"] [] ["Y"] [].
Definition PACKAGE_Y := sample_package "Y" ["loop"] [] ["X"] [].

Definition SECTIONS_PROJECT : ProjectConfiguration sample_asset :=
  sample_project [PACKAGE_P1; PACKAGE_P2; PACKAGE_X; PACKAGE_Y]
                 [PACKAGE_P1] [].



Definition sample_collect_assets :=
  collect_assets sample_filename sample_metadata String.eqb
                 literal_compile literal_match.

Definition THREE_PACKAGES_ASSETS : list (string * list sample_asset) :=
  Eval vm_compute in
    match sample_collect_assets 4 THREE_PACKAGES PACKAGE_A false with
    | Ok assets_by_package_name => assets_by_package_name
    | Raise _ => []
    end.

Definition TWO_PACKAGES_ASSETS : list (string * list sample_asset) :=
  Eval vm_compute in
    match sample_collect_assets 4 TWO_PACKAGES PACKAGE_A2 false with
    | Ok assets_by_package_name => assets_by_package_name
    | Raise _ => []
    end.


(** A rendering of [str(x)] for the scenarios: strings print as they are,
    containers print their items ([repr] for the items). *)
Fixpoint py_repr (v : value) : string :=
  match v with
  | VNone => "None"
  | VBool true => "True"
  | VBool false => "False"
  | VInt n => NilZero.string_of_int (Z.to_int n)
  | VStr s => ("'" ++ s ++ "'")%string
  | VList items => ("[" ++ join ", " (map py_repr items) ++ "]")%string
  | VDict PlainDict items =>
      ("{" ++ join ", " (map (fun kv => "'" ++ fst kv ++ "': " ++ py_repr (snd kv))
                             items) ++ "}")%string
  | VDict OrderedDict items =>
      ("OrderedDict([" ++
       join ", " (map (fun kv => "('" ++ fst kv ++ "', " ++ py_repr (snd kv) ++ ")")
                      items) ++ "])")%string
  end.

Definition py_str (v : value) : string :=
  match v with
  | VStr s => s
  | _ => py_repr v
  end.

(** The documents of [test_merge_first_second]. *)
Definition cpu_record (target : string) (name : value) (enabled : Z)
    (cpu : string) : value :=
  od [("first", od [(target, name)]);
      ("second", od [("enabled", VInt enabled);
                     ("settings", od [("CPU", VStr cpu)])])].

Definition MERGE_INTO_V2 : value :=
  od [("PluginImporter",
       od [("platformData",
            VList [cpu_record "Any" VNone 1 "AnyCPU";
                   cpu_record "Standalone" (VStr "Linux") 1 "x86"])])].

Definition MERGE_FROM_V2 : value :=
  od [("PluginImporter",
       od [("platformData",
            VList [cpu_record "Any" VNone 0 "AnyCPU";
                   cpu_record "Standalone" (VStr "Windows") 1 "x86_64"])])].

(* ================================================================== *)
(** * What package resolution discovers *)

Section Discovery.

Context {Asset Meta : Type}.
Variable filename : Asset -> string.
Variable importer_metadata : Asset -> res Meta.
Variable metadata_eqb : Meta -> Meta -> bool.

(** The resolved assets in the order of their discovery, each with the name
    of the package that contributes it. *)
Definition discovered (assets_by_package_name : list (string * list Asset))
  : list (string * Asset) :=
  flat_map (fun '(package_name, assets) => map (pair package_name) assets)
           assets_by_package_name.

Definition same_file (file : string) (package_and_asset : string * Asset)
  : bool :=
  String.eqb (filename (snd package_and_asset)) file.

(** The resolved assets that produce one export path. *)
Definition produced (assets_by_package_name : list (string * list Asset))
    (file : string) : list (string * Asset) :=
  filter (same_file file) (discovered assets_by_package_name).

(** The metadata of two assets differ: both can be read, and [!=] holds of
    the two documents. *)
Definition differ (a b : Asset) : Prop :=
  exists ma mb,
    importer_metadata a = Ok ma /\ importer_metadata b = Ok mb /\
    metadata_eqb ma mb = false.

(** An export path is in conflict when two of the resolved assets that
    produce it have different effective metadata. *)
Definition conflicting (assets_by_package_name : list (string * list Asset))
    (file : string) : Prop :=
  exists a b,
    In a (produced assets_by_package_name file) /\
    In b (produced assets_by_package_name file) /\
    differ (snd a) (snd b).

(** A package is among the contributors of an export path when one of the
    resolved assets that produce the path comes from it. *)
Definition contributes (assets_by_package_name : list (string * list Asset))
    (file : string) (package_name : string) : Prop :=
  exists asset, In (package_name, asset) (produced assets_by_package_name file).

(** A package is found to differ when its asset and the asset discovered
    just before it or just after it have different metadata. *)
Definition neighbours_differ (package_and_assets : list (string * Asset))
    (package_name : string) : Prop :=
  exists before a b after,
    package_and_assets = before ++ a :: b :: after /\
    differ (snd a) (snd b) /\
    (package_name = fst a \/ package_name = fst b).

(** The conflicts that the duplicate check sees: among the resolved assets
    that produce an export path, in the order of their discovery, some asset
    and the next one have different effective metadata. *)
Definition adjacent_conflict
    (assets_by_package_name : list (string * list Asset)) (file : string)
  : Prop :=
  exists package_name,
    neighbours_differ (produced assets_by_package_name file) package_name.

(** Resolution can read the metadata of every discovered asset, and package
    names are not empty (the constructor of [PackageConfiguration] rejects
    a package without a name). *)
Definition readable (package_and_assets : list (string * Asset)) : Prop :=
  forall pa, In pa package_and_assets ->
    fst pa <> "" /\ exists m, importer_metadata (snd pa) = Ok m.

(** The error list: one entry for each group of more than one asset in which
    some neighbours differ, with the sorted names found to differ. *)
Definition reported (groups : list (string * list (string * Asset)))
    (error : string * list string) : Prop :=
  exists g names,
    In (fst error, g) groups /\
    differing_metadata_packages importer_metadata metadata_eqb None g
      = Ok names /\
    names <> [] /\
    snd error = sorted_strings (dedupe names).

(** The order of the returned list. *)
Definition by_filename (a b : Asset) : Prop :=
  String.leb (filename a) (filename b) = true.


End Discovery.

(* ================================================================== *)
(** * What the setter of the selected sections relies on *)



Section ProjectSpec.

Context {Asset : Type}.

(** Every entry of [packages_by_name] is filed under its own name. *)
Definition named_by_key (pbn : list (string * PackageConfiguration Asset))
  : Prop :=
  Forall (fun kp => pc_name (snd kp) = fst kp) pbn.

(** Every package of a bucket of [package_list_by_name] has the name of the
    bucket. *)
Definition bucket_ok (kl : string * list (PackageConfiguration Asset)) : Prop :=
  Forall (fun p => pc_name p = fst kl) (snd kl).

End ProjectSpec.

(* ================================================================== *)
(** * The metadata view of an asset, with a store of objects

    [Asset.importer_metadata] deep-copies the stored document and hands the
    copy to four functions that mutate their argument in place.  Whether the
    stored document survives is a question about references, so here the
    documents live in a store: a dictionary or a list is an object at an
    address, a value is a scalar or a reference, and assignment to an item
    changes the object at the address, for every holder of a reference.

    New objects take the next free address.  Module constants (the metadata
    template, the platform tables) are never written by the code below, which
    only reads them and deep-copies parts of them; they stay the constants of
    the previous sections and [new_object] builds a copy in the store. *)

Module Heap.

Definition addr : Type := nat.

Inductive pyval : Type :=
| PNone
| PBool (b : bool)
| PInt (n : Z)
| PStr (s : string)
| PRef (a : addr).

Inductive obj : Type :=
| ODict (cls : dict_class) (items : list (string * pyval))
| OList (elements : list pyval).

Definition heap : Type := list obj.

(** A computation runs on a store and leaves a store, also when it raises. *)
Definition M (A : Type) : Type := heap -> res A * heap.

Definition ret {A} (a : A) : M A := fun h => (Ok a, h).

Definition raise {A} (e : exn) : M A := fun h => (Raise e, h).

Definition lift {A} (r : res A) : M A := fun h => (r, h).

Definition bind {A B} (m : M A) (f : A -> M B) : M B :=
  fun h =>
    match m h with
    | (Ok a, h') => f a h'
    | (Raise e, h') => (Raise e, h')
    end.

Notation "x <~ m ;; k" := (bind m (fun x => k))
  (at level 61, m at next level, right associativity).
Notation "' p <~ m ;; k" := (bind m (fun p => k))
  (at level 61, p pattern, m at next level, right associativity).
Notation "m ;;; k" := (bind m (fun _ => k))
  (at level 61, right associativity).

(** ** The store *)

(** A new object takes the next free address. *)
Definition new (o : obj) : M addr :=
  fun h => (Ok (List.length h), h ++ [o]).

Definition alloc (o : obj) : M pyval :=
  a <~ new o ;; ret (PRef a).

(** A reference to an address that the store does not have cannot arise in
    Python; reading through one is the interpreter's [SystemError]. *)
Definition load (a : addr) : M obj :=
  fun h =>
    match nth_error h a with
    | Some o => (Ok o, h)
    | None => (Raise SystemError, h)
    end.

Fixpoint update (a : addr) (o : obj) (h : heap) : heap :=
  match h, a with
  | [], _ => []
  | _ :: h', 0 => o :: h'
  | o' :: h', S a' => o' :: update a' o h'
  end.

Definition store (a : addr) (o : obj) : M unit :=
  fun h =>
    if Nat.ltb a (List.length h) then (Ok tt, update a o h)
    else (Raise SystemError, h).

(** [for x in l: f(x)]. *)
Fixpoint mfor {B} (f : B -> M unit) (l : list B) : M unit :=
  match l with
  | [] => ret tt
  | x :: l' => f x ;;; mfor f l'
  end.

(** A loop that carries local variables from one iteration to the next. *)
Fixpoint mfold {A B} (f : A -> B -> M A) (l : list B) (a : A) : M A :=
  match l with
  | [] => ret a
  | x :: l' => a' <~ f a x ;; mfold f l' a'
  end.

(** ** Operations of Python objects *)

Definition is_none (v : pyval) : bool :=
  match v with PNone => true | _ => false end.

Definition class_of_obj (o : obj) : pyclass :=
  match o with
  | ODict PlainDict _ => CDict
  | ODict OrderedDict _ => COrderedDict
  | OList _ => CList
  end.

(** [v.__class__]. *)
Definition class_of (v : pyval) : M pyclass :=
  match v with
  | PNone => ret CNoneType
  | PBool _ => ret CBool
  | PInt _ => ret CInt
  | PStr _ => ret CStr
  | PRef a => o <~ load a ;; ret (class_of_obj o)
  end.

(** Truth value. *)
Definition truthy (v : pyval) : M bool :=
  match v with
  | PNone => ret false
  | PBool b => ret b
  | PInt n => ret (negb (Z.eqb n 0))
  | PStr s => ret (negb (String.eqb s ""))
  | PRef a =>
      o <~ load a ;;
      ret (match o with
           | ODict _ [] | OList [] => false
           | _ => true
           end)
  end.

(** [v == n] and [v == s] for an integer and a string constant: a container
    equals neither, [True] equals [1]. *)
Definition eq_int (v : pyval) (n : Z) : bool :=
  match v with
  | PInt m => Z.eqb m n
  | PBool b => Z.eqb (bool_to_Z b) n
  | _ => false
  end.

Definition eq_str (v : pyval) (s : string) : bool :=
  match v with
  | PStr t => String.eqb t s
  | _ => false
  end.

(** [v.get(key, default)]: only dictionaries have the method. *)
Definition get (v : pyval) (key : string) (default : pyval) : M pyval :=
  match v with
  | PRef a =>
      o <~ load a ;;
      match o with
      | ODict _ items =>
          ret (match assoc_get key items with
               | Some x => x
               | None => default
               end)
      | OList _ => raise AttributeError
      end
  | _ => raise AttributeError
  end.

(** [v[key] = x] with a string key. *)
Definition setitem (v : pyval) (key : string) (x : pyval) : M unit :=
  match v with
  | PRef a =>
      o <~ load a ;;
      match o with
      | ODict cls items => store a (ODict cls (assoc_set key x items))
      | OList _ => raise TypeError
      end
  | _ => raise TypeError
  end.

(** [del v[key]] with a string key. *)
Definition delitem (v : pyval) (key : string) : M unit :=
  match v with
  | PRef a =>
      o <~ load a ;;
      match o with
      | ODict cls items =>
          match assoc_get key items with
          | Some _ => store a (ODict cls (assoc_del key items))
          | None => raise (KeyError key)
          end
      | OList _ => raise TypeError
      end
  | _ => raise TypeError
  end.

(** [list(v.items())]. *)
Definition items (v : pyval) : M (list (string * pyval)) :=
  match v with
  | PRef a =>
      o <~ load a ;;
      match o with
      | ODict _ items => ret items
      | OList _ => raise AttributeError
      end
  | _ => raise AttributeError
  end.

Fixpoint characters (s : string) : list pyval :=
  match s with
  | EmptyString => []
  | String c s' => PStr (String c "") :: characters s'
  end.

(** [list(v)]: the elements of a list, the keys of a dictionary, the
    characters of a string. *)
Definition elements (v : pyval) : M (list pyval) :=
  match v with
  | PRef a =>
      o <~ load a ;;
      match o with
      | ODict _ items => ret (map PStr (keys items))
      | OList elements => ret elements
      end
  | PStr s => ret (characters s)
  | _ => raise TypeError
  end.

(** [v.append(x)]. *)
Definition append (v : pyval) (x : pyval) : M unit :=
  match v with
  | PRef a =>
      o <~ load a ;;
      match o with
      | OList elements => store a (OList (elements ++ [x]))
      | ODict _ _ => raise AttributeError
      end
  | _ => raise AttributeError
  end.

Fixpoint substring_of (p s : string) : bool :=
  String.prefix p s ||
  match s with
  | EmptyString => false
  | String _ s' => substring_of p s'
  end.

(** [key in v] for a string [key]. *)
Definition contains (v : pyval) (key : string) : M bool :=
  match v with
  | PRef a =>
      o <~ load a ;;
      match o with
      | ODict _ items => ret (string_mem key (keys items))
      | OList elements => ret (existsb (fun x => eq_str x key) elements)
      end
  | PStr s => ret (substring_of key s)
  | _ => raise TypeError
  end.

(** ** copy.deepcopy

    [deepcopy(x, memo)]: a scalar is returned as it is; a container that
    the memo knows is returned from the memo; otherwise an empty container
    of the same class is created and entered in the memo, and is filled
    with the copies of the items in their order.  The fuel is the depth of
    recursion that the interpreter allows. *)

Definition memo_table : Type := list (addr * addr).

Fixpoint memo_get (a : addr) (memo : memo_table) : option addr :=
  match memo with
  | [] => None
  | (x, y) :: memo' => if Nat.eqb a x then Some y else memo_get a memo'
  end.

Definition copy_item (copy : pyval -> memo_table -> M (pyval * memo_table))
    (y : pyval) (memo : memo_table) (item : string * pyval) : M memo_table :=
  '(value, memo) <~ copy (snd item) memo ;;
  setitem y (fst item) value ;;;
  ret memo.

Definition copy_element (copy : pyval -> memo_table -> M (pyval * memo_table))
    (y : pyval) (memo : memo_table) (element : pyval) : M memo_table :=
  '(value, memo) <~ copy element memo ;;
  append y value ;;;
  ret memo.

Fixpoint deepcopy_memo (fuel : nat) (x : pyval) (memo : memo_table)
  : M (pyval * memo_table) :=
  match fuel with
  | 0 => raise RecursionError
  | S fuel =>
      match x with
      | PRef a =>
          match memo_get a memo with
          | Some y => ret (PRef y, memo)
          | None =>
              o <~ load a ;;
              match o with
              | ODict cls items =>
                  y <~ new (ODict cls []) ;;
                  memo <~ mfold (copy_item (deepcopy_memo fuel) (PRef y)) items
                                ((a, y) :: memo) ;;
                  ret (PRef y, memo)
              | OList elements =>
                  y <~ new (OList []) ;;
                  memo <~ mfold (copy_element (deepcopy_memo fuel) (PRef y))
                                elements ((a, y) :: memo) ;;
                  ret (PRef y, memo)
              end
          end
      | _ => ret (x, memo)
      end
  end.

(** [copy.deepcopy(x)]. *)
Definition deepcopy (fuel : nat) (x : pyval) : M pyval :=
  '(y, _) <~ deepcopy_memo fuel x [] ;;
  ret y.

(** A new object for a constant tree: what [copy.deepcopy] of a module
    constant and what a dictionary or list display build. *)
Fixpoint new_object (v : value) : M pyval :=
  match v with
  | VNone => ret PNone
  | VBool b => ret (PBool b)
  | VInt n => ret (PInt n)
  | VStr s => ret (PStr s)
  | VList l =>
      y <~ alloc (OList []) ;;
      (fix fill (l : list value) : M unit :=
         match l with
         | [] => ret tt
         | x :: l' => x' <~ new_object x ;; append y x' ;;; fill l'
         end) l ;;;
      ret y
  | VDict cls kvs =>
      y <~ alloc (ODict cls []) ;;
      (fix fill (kvs : list (string * value)) : M unit :=
         match kvs with
         | [] => ret tt
         | (k, x) :: kvs' => x' <~ new_object x ;; setitem y k x' ;;; fill kvs'
         end) kvs ;;;
      ret y
  end.

(** The tree that a value denotes in a store, down to a given depth. *)
Fixpoint reify (depth : nat) (h : heap) (v : pyval) : option value :=
  match v with
  | PNone => Some VNone
  | PBool b => Some (VBool b)
  | PInt n => Some (VInt n)
  | PStr s => Some (VStr s)
  | PRef a =>
      match depth with
      | 0 => None
      | S depth =>
          match nth_error h a with
          | None => None
          | Some (OList elements) =>
              option_map VList (option_map_all (reify depth h) elements)
          | Some (ODict cls items) =>
              option_map (VDict cls)
                (option_map_all
                   (fun item =>
                      option_map (pair (fst item)) (reify depth h (snd item)))
                   items)
          end
      end
  end.

(** ** safe_dict_get_value *)

(** [safe_dict_get_value(tree_node, key, default_value=None,
    value_classes=None)]. *)
Definition safe_dict_get_value (tree_node : pyval) (key : string)
    (default_value : pyval) (value_classes : list pyclass) : M pyval :=
  tree_node_class <~ class_of tree_node ;;
  if negb (issubclass tree_node_class CDict) then ret default_value
  else
    value <~ get tree_node key PNone ;;
    if is_none value then ret default_value
    else if negb (is_none default_value) ||
            (match value_classes with [] => false | _ => true end)
    then
      value_classes <~
        match value_classes with
        | [] =>
            default_class <~ class_of default_value ;;
            ret (default_class ::
                 (if pyclass_eqb default_class CStr
                  then [CStr] (* unicode is str *) else []))
        | _ => ret value_classes
        end ;;
      value_class <~ class_of value ;;
      if negb (existsb (issubclass value_class) value_classes)
      then ret default_value
      else ret value
    else ret value.

(** ** Labels *)

Definition hashable (v : pyval) : bool :=
  match v with PRef _ => false | _ => true end.

Definition number_of (v : pyval) : option Z :=
  match v with
  | PInt n => Some n
  | PBool b => Some (bool_to_Z b)
  | _ => None
  end.

(** Equality of two scalars: [None] equals itself, a string equals the same
    string, numbers and truth values compare as integers. *)
Definition eq_scalar (a b : pyval) : bool :=
  match a, b with
  | PNone, PNone => true
  | PStr s, PStr t => String.eqb s t
  | _, _ =>
      match number_of a, number_of b with
      | Some m, Some n => Z.eqb m n
      | _, _ => false
      end
  end.

(** [s.add(x)]: an element equal to [x] stays, otherwise [x] is new. *)
Definition set_add (s : list pyval) (x : pyval) : list pyval :=
  if existsb (eq_scalar x) s then s else s ++ [x].

(** [set(l)]: every element must be hashable. *)
Definition set_of (l : list pyval) : res (list pyval) :=
  if forallb hashable l then Ok (fold_left set_add l [])
  else Raise TypeError.

Definition string_of (v : pyval) : option string :=
  match v with
  | PStr s => Some s
  | _ => None
  end.

Fixpoint insert_number (x : Z * pyval) (l : list (Z * pyval))
  : list (Z * pyval) :=
  match l with
  | [] => [x]
  | y :: l' => if Z.leb (fst x) (fst y) then x :: l else y :: insert_number x l'
  end.

(** [sorted(s)] for a set of scalars: no comparison is made for fewer than
    two elements; strings compare with strings and numbers with numbers,
    every other comparison is a [TypeError]. *)
Definition sorted_set (s : list pyval) : res (list pyval) :=
  match s with
  | [] | [_] => Ok s
  | _ =>
      match option_map_all string_of s with
      | Some strings => Ok (map PStr (sorted_strings strings))
      | None =>
          match option_map_all
                  (fun v => option_map (fun n => (n, v)) (number_of v)) s with
          | Some numbers => Ok (map snd (fold_right insert_number [] numbers))
          | None => Raise TypeError
          end
      end
  end.

(** [Asset.add_labels_to_metadata(importer_metadata, labels)]. *)
Definition add_labels_to_metadata (importer_metadata : pyval)
    (labels : list string) : M pyval :=
  existing_labels <~
    safe_dict_get_value importer_metadata "labels" PNone [CList] ;;
  present <~ truthy existing_labels ;;
  existing <~ (if present then elements existing_labels else ret []) ;;
  existing_set <~ lift (set_of existing) ;;
  let new_labels := fold_left set_add (map PStr labels) existing_set in
  match new_labels with
  | _ :: _ =>
      sorted_labels <~ lift (sorted_set new_labels) ;;
      label_list <~ alloc (OList sorted_labels) ;;
      setitem importer_metadata "labels" label_list ;;;
      ret importer_metadata
  | [] =>
      if negb (is_none existing_labels)
      then delitem importer_metadata "labels" ;;; ret importer_metadata
      else ret importer_metadata
  end.

(** ** disable_unsupported_platforms *)

(** The body of [for current_platform in disable_platforms]. *)
Definition reset_to_template (platform_data : pyval)
    (current_platform : string) : M unit :=
  match assoc_get current_platform TEMPLATE_PLATFORM_DATA with
  | Some default_config =>
      config <~ new_object default_config ;;
      setitem platform_data current_platform config
  | None => raise (KeyError current_platform)
  end.

(** [Asset.disable_unsupported_platforms(importer_metadata, filename)]. *)
Definition disable_unsupported_platforms (importer_metadata : pyval)
    (filename : string) : M pyval :=
  let filename := posix_path (normpath filename) in
  let is_shared_library := re_fullmatch SHARED_LIBRARY_PATH filename in
  if negb is_shared_library then ret importer_metadata
  else
    match assoc_get (snd (splitext filename))
                    PLATFORMS_BY_SHARED_LIBRARY_EXTENSION with
    | None => ret importer_metadata
    | Some supported_platforms =>
        default <~ alloc (ODict PlainDict []) ;;
        plugin_importer <~
          safe_dict_get_value importer_metadata "PluginImporter" default [] ;;
        serialized_version <~
          safe_dict_get_value plugin_importer "serializedVersion" (PInt 1) [] ;;
        if negb (eq_int serialized_version 1) then ret importer_metadata
        else
          default <~ alloc (ODict PlainDict []) ;;
          platform_data <~
            safe_dict_get_value plugin_importer "platformData" default [] ;;
          platforms <~ items platform_data ;;
          let disable_platforms :=
            sorted_strings
              (filter (fun p => negb (string_mem p supported_platforms))
                      (keys platforms)) in
          (* Disable the Any platform if any platforms are disabled. *)
          match disable_platforms with
          | [] => ret tt
          | _ =>
              default <~ alloc (ODict OrderedDict []) ;;
              any_config <~ get platform_data "Any" default ;;
              setitem any_config "enabled" (PInt 0) ;;;
              setitem platform_data "Any" any_config
          end ;;;
          (* Disable all platforms in the set. *)
          mfor (reset_to_template platform_data) disable_platforms ;;;
          ret importer_metadata
    end.

(** ** apply_any_platform_selection *)

(** [Asset.platform_data_get_entry(platform_data_item)]. *)
Definition platform_data_get_entry (platform_data_item : pyval)
  : M (pyval * pyval) :=
  entry <~ get platform_data_item "data" platform_data_item ;;
  default <~ alloc (ODict OrderedDict []) ;;
  first <~ safe_dict_get_value entry "first" default [] ;;
  default <~ alloc (ODict OrderedDict []) ;;
  second <~ safe_dict_get_value entry "second" default [] ;;
  ret (first, second).

(** The first loop of the version 2 branch, which ends at the first entry
    whose ["first"] has the key ["Any"]. *)
Fixpoint find_any_enabled (platform_data : list pyval) : M pyval :=
  match platform_data with
  | [] => ret (PInt 0)
  | entry :: rest =>
      '(first, second) <~ platform_data_get_entry entry ;;
      is_any <~ contains first "Any" ;;
      if is_any then get second "enabled" (PInt 0)
      else find_any_enabled rest
  end.

(** The body of the loop that rewrites the entries of version 2 platform
    data; the local variables that it carries are [remaining_platforms]
    and [unity_5_6_format].  [platform_tuple] is an item of a dictionary,
    so [len(platform_tuple) >= 2] holds. *)
Definition enable_entry (fuel : nat) (any_enabled new_platform_data : pyval)
    (state : list string * bool) (entry : pyval) : M (list string * bool) :=
  let remaining_platforms := fst state in
  unity_5_6_format <~ contains entry "data" ;;
  '(first, second) <~ platform_data_get_entry entry ;;
  first_items <~ items first ;;
  match first_items with
  | [] => raise IndexError
  | (unused_platform_target, platform_name) :: _ =>
      let remaining_platforms :=
        match platform_name with
        | PStr name => remove_first name remaining_platforms
        | _ => remaining_platforms
        end in
      entry <~ deepcopy fuel entry ;;
      '(_, second) <~ platform_data_get_entry entry ;;
      setitem second "enabled" any_enabled ;;;
      append new_platform_data entry ;;;
      ret (remaining_platforms, unity_5_6_format)
  end.

(** The body of the loop that adds the platforms that the metadata did not
    have. *)
Definition add_platform (any_enabled new_platform_data : pyval)
    (unity_5_6_format : bool) (platform_name : string) : M unit :=
  let platform_target :=
    match assoc_get platform_name PLATFORM_TARGET_BY_PLATFORM with
    | Some t => t
    | None => ""
    end in
  first <~ alloc (ODict OrderedDict [(platform_target, PStr platform_name)]) ;;
  second <~ alloc (ODict OrderedDict [("enabled", any_enabled)]) ;;
  entry <~ alloc (ODict OrderedDict [("first", first); ("second", second)]) ;;
  entry <~ (if unity_5_6_format
            then alloc (ODict OrderedDict [("data", entry)])
            else ret entry) ;;
  append new_platform_data entry.

(** The body of the version 1 loop over the template's platforms. *)
Definition enable_from_any (any_enabled platform_data : pyval)
    (template_item : string * value) : M unit :=
  config <~ get platform_data (fst template_item) PNone ;;
  config <~ (if is_none config then new_object (snd template_item)
             else ret config) ;;
  setitem config "enabled" any_enabled ;;;
  setitem platform_data (fst template_item) config.

(** [Asset.apply_any_platform_selection(importer_metadata)]. *)
Definition apply_any_platform_selection (fuel : nat) (importer_metadata : pyval)
  : M pyval :=
  default <~ alloc (ODict PlainDict []) ;;
  plugin_importer <~
    safe_dict_get_value importer_metadata "PluginImporter" default [] ;;
  serialized_version <~
    safe_dict_get_value plugin_importer "serializedVersion" (PInt 1) [] ;;
  if eq_int serialized_version 1 then
    default <~ alloc (ODict PlainDict []) ;;
    platform_data <~
      safe_dict_get_value plugin_importer "platformData" default [] ;;
    default <~ alloc (ODict PlainDict []) ;;
    any_config <~ get platform_data "Any" default ;;
    any_enabled <~ get any_config "enabled" (PInt 0) ;;
    enabled <~ truthy any_enabled ;;
    if negb enabled then ret importer_metadata
    else
      mfor (enable_from_any any_enabled platform_data)
           TEMPLATE_PLATFORM_DATA ;;;
      ret importer_metadata
  else
    default <~ alloc (OList []) ;;
    platform_data <~
      safe_dict_get_value plugin_importer "platformData" default [] ;;
    entries <~ elements platform_data ;;
    any_enabled <~ find_any_enabled entries ;;
    enabled <~ truthy any_enabled ;;
    if negb enabled then ret importer_metadata
    else
      let remaining_platforms :=
        filter (fun platform_name => negb (String.eqb platform_name "Any"))
               (keys TEMPLATE_PLATFORM_DATA) in
      new_platform_data <~ alloc (OList []) ;;
      entries <~ elements platform_data ;;
      '(remaining_platforms, unity_5_6_format) <~
        mfold (enable_entry fuel any_enabled new_platform_data) entries
              (remaining_platforms, false) ;;
      mfor (add_platform any_enabled new_platform_data unity_5_6_format)
           remaining_platforms ;;;
      setitem plugin_importer "platformData" new_platform_data ;;;
      ret importer_metadata.

(** ** set_cpu_for_desktop_platforms *)

(** The body of the version 1 loop over [platform_data.items()].  The loop
    runs over the items that [platform_data] has when it starts: the body
    writes to [options] and [settings], which are [platform_data] itself
    only in a document that contains itself. *)
Definition set_cpu_of_platform (item : string * pyval) : M unit :=
  let platform_name := fst item in
  let options := snd item in
  enabled_value <~ safe_dict_get_value options "enabled" (PInt 0) [] ;;
  enabled <~ truthy enabled_value ;;
  if negb enabled then ret tt
  else
    match assoc_get platform_name CPU_BY_DESKTOP_PLATFORM with
    | None => ret tt
    | Some cpu =>
        default <~ alloc (ODict OrderedDict []) ;;
        settings <~ get options "settings" default ;;
        current <~ get settings "CPU" (PStr "None") ;;
        if eq_str current "None" then
          setitem settings "CPU" (PStr cpu) ;;;
          setitem options "settings" settings
        else ret tt
    end.

(** The body of the version 2 loop over the entries of the platform data.
    The platform name is the value of the first item of ["first"]; it is
    looked up in a dictionary and so must be hashable. *)
Definition set_cpu_of_entry (entry : pyval) : M unit :=
  '(first, second) <~ platform_data_get_entry entry ;;
  first_items <~ items first ;;
  match first_items with
  | [] => raise IndexError
  | (unused_platform_target, platform_name) :: _ =>
      enabled_value <~ get second "enabled" (PInt 0) ;;
      enabled <~ truthy enabled_value ;;
      if negb enabled then ret tt
      else if negb (hashable platform_name) then raise TypeError
      else
        match
          match platform_name with
          | PStr name => assoc_get name CPU_BY_DESKTOP_PLATFORM
          | _ => None
          end
        with
        | None => ret tt
        | Some cpu =>
            default <~ alloc (ODict OrderedDict []) ;;
            settings <~ safe_dict_get_value second "settings" default [] ;;
            current <~ get settings "CPU" (PStr "None") ;;
            if eq_str current "None" then
              setitem settings "CPU" (PStr cpu) ;;;
              setitem second "settings" settings
            else ret tt
        end
  end.

(** [Asset.set_cpu_for_desktop_platforms(importer_metadata)]. *)
Definition set_cpu_for_desktop_platforms (importer_metadata : pyval)
  : M pyval :=
  default <~ alloc (ODict PlainDict []) ;;
  plugin_importer <~
    safe_dict_get_value importer_metadata "PluginImporter" default [] ;;
  serialized_version <~
    safe_dict_get_value plugin_importer "serializedVersion" (PInt 1) [] ;;
  if eq_int serialized_version 1 then
    default <~ alloc (ODict PlainDict []) ;;
    platform_data <~
      safe_dict_get_value plugin_importer "platformData" default [] ;;
    platforms <~ items platform_data ;;
    mfor set_cpu_of_platform platforms ;;;
    ret importer_metadata
  else
    default <~ alloc (OList []) ;;
    platform_data <~
      safe_dict_get_value plugin_importer "platformData" default [] ;;
    entries <~ elements platform_data ;;
    mfor set_cpu_of_entry entries ;;;
    ret importer_metadata.

(** ** The labels of an asset *)

Definition VERSION_HANDLER_LABEL_PREFIX : string := "gvh".
Definition VERSION_HANDLER_FIELD_SEPARATOR : string := "_".
Definition VERSION_HANDLER_PRESERVE_LABEL_PREFIX : string := "gvhp".
Definition VERSION_HANDLER_PRESERVE_EXPORT_PATH_FIELD_PREFIX : string :=
  "exportpath-".
Definition VERSION_HANDLER_LINUXLIBNAME_FIELD_PREFIX : string :=
  "linuxlibname-".
Definition LINUX_SHARED_LIBRARY_PREFIX : string := "lib".
Definition LINUX_SHARED_LIBRARY_EXTENSION : string := ".so".

(** [version_handler_tag(field=field, value=value)] with [islabel] left at
    [True]; an absent argument is the empty string (both are falsy). *)
Definition version_handler_tag (field value : string) : string :=
  let label_components :=
    [VERSION_HANDLER_LABEL_PREFIX] ++
    (if String.eqb field "" then []
     else if String.eqb value "" then [field]
     else [(field ++ replace_char "_"%char "-"%char value)%string]) in
  join VERSION_HANDLER_FIELD_SEPARATOR label_components.

Fixpoint first_line (s : string) : string :=
  match s with
  | EmptyString => ""
  | String c s' =>
      if Ascii.eqb c newline then "" else String c (first_line s')
  end.

(** The longest prefix of [s] that ends with [suffix]. *)
Fixpoint longest_prefix_ending (suffix s : string) : option string :=
  match s with
  | EmptyString => None
  | String c s' =>
      match longest_prefix_ending suffix s' with
      | Some p => Some (String c p)
      | None => if String.prefix suffix s then Some suffix else None
      end
  end.

Fixpoint drop_prefix (n : nat) (s : string) : string :=
  match n, s with
  | S n', String _ s' => drop_prefix n' s'
  | _, _ => s
  end.

Definition ends_with (suffix s : string) : bool :=
  Nat.leb (String.length suffix) (String.length s) &&
  String.eqb
    (drop_prefix (String.length s - String.length suffix) s) suffix.

(** [LINUX_SHARED_LIBRARY_PATH.match(filename)]: group 2 of
    [^Plugins/(x86|x86_64)/(.*\.so)], if the name matches.  The greedy
    [.*] stops at a newline and gives back characters until [.so] follows. *)
Definition LINUX_SHARED_LIBRARY_PATH_group2 (filename : string)
  : option string :=
  let after (p : string) :=
    if String.prefix p filename
    then longest_prefix_ending LINUX_SHARED_LIBRARY_EXTENSION
           (first_line (drop_prefix (String.length p) filename))
    else None in
  match after "Plugins/x86/" with
  | Some g => Some g
  | None => after "Plugins/x86_64/"
  end.

(** [os.path.basename]. *)
Definition basename (p : string) : string := last_string (split_on "/" p).

Record Asset : Type := {
  _filename : string;
  _importer_metadata : pyval
}.

(** [Asset.filename]. *)
Definition filename (self : Asset) : string := posix_path (_filename self).

(** The set [labels] that [Asset.importer_metadata] builds, in the order
    of its [add] calls. *)
Definition asset_labels (self : Asset) : list string :=
  (match LINUX_SHARED_LIBRARY_PATH_group2 (_filename self) with
   | Some group2 =>
       let basename := basename group2 in
       (* Strip prefix and extension. *)
       let basename :=
         if String.prefix LINUX_SHARED_LIBRARY_PREFIX basename
         then drop_prefix (String.length LINUX_SHARED_LIBRARY_PREFIX) basename
         else basename in
       let basename :=
         if ends_with LINUX_SHARED_LIBRARY_EXTENSION basename
         then String.substring 0
                (String.length basename -
                 String.length LINUX_SHARED_LIBRARY_EXTENSION) basename
         else basename in
       [version_handler_tag VERSION_HANDLER_LINUXLIBNAME_FIELD_PREFIX basename]
   | None => []
   end) ++
  (* Add gvhp_exportpath- label *)
  [(VERSION_HANDLER_PRESERVE_LABEL_PREFIX ++
    VERSION_HANDLER_FIELD_SEPARATOR ++
    VERSION_HANDLER_PRESERVE_EXPORT_PATH_FIELD_PREFIX ++
    filename self)%string].

(** ** Asset.importer_metadata *)

(** The property [Asset.importer_metadata]. *)
Definition importer_metadata (fuel : nat) (self : Asset) : M pyval :=
  let labels := asset_labels self in
  metadata <~ deepcopy fuel (_importer_metadata self) ;;
  metadata <~ add_labels_to_metadata metadata labels ;;
  metadata <~ disable_unsupported_platforms metadata (_filename self) ;;
  metadata <~ apply_any_platform_selection fuel metadata ;;
  metadata <~ set_cpu_for_desktop_platforms metadata ;;
  ret metadata.

(** [Asset.importer_metadata_original]. *)
Definition importer_metadata_original (self : Asset) : pyval :=
  _importer_metadata self.

(** ** Stores without dangling references *)

Definition valid (bound : nat) (v : pyval) : bool :=
  match v with
  | PRef a => Nat.ltb a bound
  | _ => true
  end.

Definition obj_values (o : obj) : list pyval :=
  match o with
  | ODict _ items => map snd items
  | OList elements => elements
  end.

(** Every reference in the store points into the store. *)
Definition heap_closed (h : heap) : bool :=
  forallb (fun o => forallb (valid (List.length h)) (obj_values o)) h.

(** ** The same run at later addresses

    A run of the code from a store [h0 ++ x] is compared with its run from
    [h0]: the objects that the first creates are the objects that the
    second creates, at addresses that are higher by the length of [x]. *)

Section Renaming.

Variables h0 x : heap.

Definition rn_addr (a : addr) : addr :=
  if Nat.ltb a (List.length h0) then a else a + List.length x.

Definition rn (v : pyval) : pyval :=
  match v with
  | PRef a => PRef (rn_addr a)
  | _ => v
  end.

Definition rn_item (item : string * pyval) : string * pyval :=
  (fst item, rn (snd item)).

Definition rn_obj (o : obj) : obj :=
  match o with
  | ODict cls items => ODict cls (map rn_item items)
  | OList elements => OList (map rn elements)
  end.

(** A value below a bound, and a value that is new: a scalar, or a
    reference to an object created after [h0]. *)
Definition below (b : nat) (v : pyval) : Prop :=
  match v with
  | PRef a => a < b
  | _ => True
  end.

Definition local (b : nat) (v : pyval) : Prop :=
  match v with
  | PRef a => List.length h0 <= a < b
  | _ => True
  end.

Definition obj_below (b : nat) (o : obj) : Prop :=
  Forall (below b) (obj_values o).

Definition obj_local (b : nat) (o : obj) : Prop :=
  Forall (local b) (obj_values o).

(** Relations between the results of the two runs, indexed by a bound on
    the addresses in use. *)
Definition rel (A : Type) : Type := nat -> A -> A -> Prop.

Definition req {A} : rel A := fun _ a a' => a' = a.

Definition raddr : rel addr :=
  fun b a a' => a' = rn_addr a /\ List.length h0 <= a < b.

Definition vany : rel pyval := fun b v v' => v' = rn v /\ below b v.

Definition vloc : rel pyval := fun b v v' => v' = rn v /\ local b v.

Definition oany : rel obj := fun b o o' => o' = rn_obj o /\ obj_below b o.

Definition oloc : rel obj := fun b o o' => o' = rn_obj o /\ obj_local b o.

Definition lany : rel (list pyval) :=
  fun b l l' => l' = map rn l /\ Forall (below b) l.

Definition lloc : rel (list pyval) :=
  fun b l l' => l' = map rn l /\ Forall (local b) l.

Definition iany : rel (list (string * pyval)) :=
  fun b l l' => l' = map rn_item l /\ Forall (below b) (map snd l).

Definition iloc : rel (list (string * pyval)) :=
  fun b l l' => l' = map rn_item l /\ Forall (local b) (map snd l).

(** Lists of scalars, which are the same in both runs. *)
Definition lscalar : rel (list pyval) :=
  fun _ l l' => l' = l /\ forallb hashable l = true.

Definition rpair {A B} (RA : rel A) (RB : rel B) : rel (A * B) :=
  fun b p p' => RA b (fst p) (fst p') /\ RB b (snd p) (snd p').

Definition rlist {A} (R : rel A) : rel (list A) :=
  fun b l l' => Forall2 (R b) l l'.

Definition rmemo : rel memo_table :=
  fun b memo memo' =>
    memo' = map (fun p => (rn_addr (fst p), rn_addr (snd p))) memo /\
    Forall (fun p => List.length h0 <= snd p < b) memo.

(** The two stores: the objects created since [h0] are new and refer to
    new objects only, and the second store holds their renamed copies
    after [x]. *)
Definition srel (s s' : heap) : Prop :=
  exists n,
    s = h0 ++ n /\
    s' = h0 ++ x ++ map rn_obj n /\
    Forall (obj_local (List.length s)) n.

(** The two runs leave related stores, and raise the same exception or
    return related results. *)
Definition sim {A} (b : nat) (R : rel A) (m m' : M A) : Prop :=
  forall s s',
    srel s s' -> b <= List.length s ->
    srel (snd (m s)) (snd (m' s')) /\
    List.length s <= List.length (snd (m s)) /\
    match fst (m s), fst (m' s') with
    | Ok a, Ok a' => R (List.length (snd (m s))) a a'
    | Raise e, Raise e' => e' = e
    | _, _ => False
    end.

(** A relation that larger bounds keep. *)
Definition monotone {A} (R : rel A) : Prop :=
  forall b b' a a', b <= b' -> R b a a' -> R b' a a'.

End Renaming.

(** Two runs have the same outcome: the same exception, or results that
    denote the same tree in the final store, at every depth. *)
Definition same_outcome (h : heap) (r1 r2 : res pyval) : Prop :=
  match r1, r2 with
  | Ok v1, Ok v2 => forall depth, reify depth h v1 = reify depth h v2
  | Raise e1, Raise e2 => e1 = e2
  | _, _ => False
  end.

End Heap.

(** ** Sample stores *)

(** The outcome of a store computation on a new copy of a document in the
    empty store, read back as a tree. *)
Definition run_on_document (doc : value)
    (f : Heap.pyval -> Heap.M Heap.pyval) : option (res value) :=
  match Heap.new_object doc [] with
  | (Ok base, h) =>
      match f base h with
      | (Ok result, h') => option_map Ok (Heap.reify 20 h' result)
      | (Raise e, _) => Some (Raise e)
      end
  | (Raise e, _) => None
  end.

(** A store that holds the version 1 document with every platform
    enabled, at address 0, and an asset that refers to it. *)
Definition SAMPLE_STORE : Heap.heap :=
  Eval vm_compute in snd (Heap.new_object ALL_PLATFORMS_ENABLED []).

Definition SAMPLE_ASSET : Heap.Asset :=
  {| Heap._filename := "Plugins/x86_64/Foo/libfoo_bar.so";
     Heap._importer_metadata := Heap.PRef 0 |}.

(** A store in which two assets share their document. *)
Definition SHARING_ASSET : Heap.Asset :=
  {| Heap._filename := "Plugins/x86/Foo/bar.bundle";
     Heap._importer_metadata := Heap.PRef 0 |}.

(* ================================================================== *)
(** * More of the exporter: paths, GUID bookkeeping, tree updates *)

(** [c in s] for a character of a string. *)
Fixpoint has_char (c : ascii) (s : string) : bool :=
  match s with
  | EmptyString => false
  | String a s' => Ascii.eqb a c || has_char c s'
  end.

(** The checker after the calls [add_guid_and_path(guid, path)] of a run, in
    the order of the list, on a checker that starts empty
    ([DuplicateGuidsChecker.__init__]). *)
Definition checker_after (calls : list (string * string))
  : DuplicateGuidsChecker :=
  fold_left (fun checker '(guid, path) => add_guid_and_path checker guid path)
            calls [].

(** [del d[k]] on a dictionary value. *)
Definition dict_del (d : value) (k : string) : value :=
  match d with
  | VDict c l => VDict c (assoc_del k l)
  | _ => d
  end.

(** [safe_dict_set_value(tree_node, key, value)]: the returned value is
    [tree_node] after the update in place. *)
Definition safe_dict_set_value (tree_node : value) (key : string)
    (new_value : value) : value :=
  if negb (issubclass (class_of tree_node) CDict) then tree_node
  else if is_none new_value then
    if string_mem key (keys (dict_items tree_node))
    then dict_del tree_node key
    else tree_node
  else dict_set tree_node key new_value.

(** The order of a list sorted with [reverse=True] on keyed elements: an
    element comes before the elements whose key is not greater. *)
Definition newest_first {K A : Type} (leb : K -> K -> bool)
    (x y : K * A) : Prop :=
  leb (fst y) (fst x) = true.

(** [guids_json[version]] for a version of the store ([{}] otherwise). *)
Definition guids_of_version (guid_data : guid_store) (version : string)
  : list (string * string) :=
  match assoc_get version guid_data with
  | Some guids_by_path => guids_by_path
  | None => []
  end.

(** The value that one step of the loop of [merge_ordered_dicts] stores
    under a key of [merge_from]: [merge_into_value] is [merge_into.get(key)]
    before the step. *)
Definition merge_value (py_str : value -> string)
    (merge_into_value : option value) (merge_from_value : value) : value :=
  let merge_into_value :=
    match merge_into_value with
    | Some v => v
    | None => VNone
    end in
  if is_none merge_into_value then merge_from_value
  else
    match merge_into_value, merge_from_value with
    | VDict _ _, VDict _ _ =>
        merge_ordered_dicts py_str merge_into_value merge_from_value
    | VList into_list, VList from_list =>
        if list_contains_dictionaries_with_keys
             merge_into_value UNITY_5_6_PLATFORM_DATA_KEYS &&
           list_contains_dictionaries_with_keys
             merge_from_value UNITY_5_6_PLATFORM_DATA_KEYS
        then
          VList
            (fold_left
               (fun into_list merge_from_list_item =>
                  match
                    merge_matching py_str
                      (fun merge_into_list_item =>
                         merge_ordered_dicts py_str merge_into_list_item
                                             merge_from_list_item)
                      (py_str (dict_get merge_from_list_item "first"))
                      into_list
                  with
                  | Some merged => merged
                  | None => into_list ++ [merge_from_list_item]
                  end) from_list into_list)
        else merge_from_value
    | _, _ => merge_from_value
    end.

(* ================================================================== *)
(** * Package names of a build configuration *)

Section PackageNames.

(** Compiled regular expressions and [pattern.sub(replacement, string)],
    which raises [re.error] on a replacement that is not a template of the
    pattern. *)
Variable Regex : Type.
Variable re_sub : Regex -> string -> string -> option string.

(** The errors of the package-name map: the two messages of
    [ProjectConfigurationError] that [BuildConfiguration] raises here, with
    what they print, and any other exception. *)
Inductive package_name_error : Type :=
| ReplacementFailed (match_regexp : Regex)
                    (replacement_string build_name package_name : string)
| MultipleExportNames (build_name : string) (sections : list string)
                      (duplicate_new_names : list (string * list string))
| OtherError (e : exn).

(** The build configuration [self]: its name, its enabled sections and its
    compiled replacements. *)
Variable name : string.
Variable enabled_sections : list string.
Variable _replacements : list (Regex * string).

(** A loop that stops at the first error. *)
Fixpoint fold_until {E A B : Type} (f : A -> B -> E + A) (l : list B) (a : A)
  : E + A :=
  match l with
  | [] => inr a
  | x :: l' =>
      match f a x with
      | inr a' => fold_until f l' a'
      | inl e => inl e
      end
  end.

(** [BuildConfiguration.apply_package_name_replacements(package_name)]. *)
Definition apply_package_name_replacements (package_name : string)
  : package_name_error + string :=
  fold_until
    (fun new_package_name '(match_regexp, replacement_string) =>
       match re_sub match_regexp replacement_string new_package_name with
       | Some replaced => inr replaced
       | None => inl (ReplacementFailed match_regexp replacement_string name
                                        package_name)
       end)
    _replacements package_name.

(** [BuildConfiguration.create_package_name_map(package_names_map)]. *)
Definition create_package_name_map (package_names_map : list (string * string))
  : package_name_error + list (string * string) :=
  match
    fold_until
      (fun new_by_old_package_names '(package_name, filename_to_replace) =>
         match apply_package_name_replacements filename_to_replace with
         | inl e => inl e
         | inr new_name =>
             inr (assoc_set package_name
                    (match assoc_get package_name new_by_old_package_names with
                     | Some new_names => new_names
                     | None => []
                     end ++ [new_name])
                    new_by_old_package_names)
         end)
      package_names_map []
  with
  | inl e => inl e
  | inr new_by_old_package_names =>
      match
        filter (fun '(old_name, new_names) =>
                  Nat.ltb 1 (List.length new_names))
               new_by_old_package_names
      with
      | _ :: _ as duplicate_new_names =>
          inl (MultipleExportNames name enabled_sections duplicate_new_names)
      | [] =>
          fold_until
            (fun result '(old, new) =>
               match new with
               | first :: _ => inr (assoc_set old first result)
               | [] => inl (OtherError IndexError)
               end)
            new_by_old_package_names []
      end
  end.

End PackageNames.

Arguments ReplacementFailed {Regex}.
Arguments MultipleExportNames {Regex}.
Arguments OtherError {Regex}.

(* ================================================================== *)
(** * Reading the GUIDs of assets *)

Section ReadGuids.

(** Assets are seen through their metadata view [asset.importer_metadata],
    which can raise, and their GUID lookup path
    [asset.filename_guid_lookup]. *)
Variable Asset : Type.
Variable importer_metadata : Asset -> res value.
Variable filename_guid_lookup : Asset -> string.

(** [safe_dict_get_value(metadata, "guid", value_classes=STR_OR_UNICODE)]:
    the class test leaves a string or the default [None]. *)
Definition metadata_guid_of (metadata : value) : option string :=
  match safe_dict_get_value metadata "guid" VNone [CStr] with
  | VStr guid => Some guid
  | _ => None
  end.

(** The loop of [GuidDatabase.read_guids_from_assets]: the outcome (the
    paths without a GUID, or the exception of an asset) and the database
    that it leaves. *)
Fixpoint read_guids_loop (assets : list Asset) (self : GuidDatabase)
    (missing_guid_paths : list string) : res (list string) * GuidDatabase :=
  match assets with
  | [] => (Ok missing_guid_paths, self)
  | asset :: rest =>
      match importer_metadata asset with
      | Raise e => (Raise e, self)
      | Ok metadata =>
          let metadata_guid := metadata_guid_of metadata in
          match
            match get_guid self (filename_guid_lookup asset) with
            | Ok existing_guid => Ok (Some existing_guid)
            | Raise (MissingGuidsError _) => Ok None
            | Raise e => Raise e
            end
          with
          | Raise e => (Raise e, self)
          | Ok existing_guid =>
              let guid :=
                match metadata_guid with
                | Some g => if String.eqb g "" then existing_guid else Some g
                | None => existing_guid
                end in
              match guid with
              | Some g =>
                  if String.eqb g ""
                  then read_guids_loop rest self
                         (missing_guid_paths ++ [filename_guid_lookup asset])
                  else read_guids_loop rest
                         (add_guid self (filename_guid_lookup asset) g)
                         missing_guid_paths
              | None =>
                  read_guids_loop rest self
                    (missing_guid_paths ++ [filename_guid_lookup asset])
              end
          end
      end
  end.

(** [GuidDatabase.read_guids_from_assets(assets)]; [MissingGuidsError]
    keeps the sorted set of the paths it is given. *)
Definition read_guids_from_assets (self : GuidDatabase) (assets : list Asset)
  : res unit * GuidDatabase :=
  match read_guids_loop assets self [] with
  | (Raise e, self) => (Raise e, self)
  | (Ok missing_guid_paths, self) =>
      match missing_guid_paths with
      | _ :: _ =>
          (Raise (MissingGuidsError
                    (sorted_strings (dedupe missing_guid_paths))), self)
      | [] => (check_for_duplicates (_duplicate_guids_checker self), self)
      end
  end.

End ReadGuids.

(* ================================================================== *)
(** * More scenarios *)

(** A replacement of the scenarios: the pattern is a literal that must be
    the whole name. *)
Definition literal_sub (pattern replacement s : string) : option string :=
  if String.eqb pattern s then Some replacement else Some s.

(** Assets of the scenarios with a metadata document: the lookup path and
    the document. *)
Definition document_asset : Type := (string * value)%type.

Definition document_metadata (asset : document_asset) : res value :=
  Ok (snd asset).

Definition EMPTY_DATABASE : GuidDatabase :=
  {| _guids_by_path := []; _duplicate_guids_checker := [] |}.

(** A store with a document that has one label. *)
Definition LABELLED_STORE : Heap.heap :=
  [Heap.ODict OrderedDict [("guid", Heap.PStr "0123"); ("labels", Heap.PRef 1)];
   Heap.OList [Heap.PStr "gvh_version-1.0.0"]].

(** Three documents with the same entries: [MIXED_Y], a plain dictionary,
    equals the two ordered dictionaries [MIXED_X] and [MIXED_Z], which list
    the entries in different orders and are not equal. *)
Definition MIXED_X : value := VDict OrderedDict [("a", VInt 1); ("b", VInt 2)].
Definition MIXED_Y : value := VDict PlainDict [("a", VInt 1); ("b", VInt 2)].
Definition MIXED_Z : value := VDict OrderedDict [("b", VInt 2); ("a", VInt 1)].

Definition document_package (name : string) (assets : list document_asset)
    (included : list string) : PackageConfiguration document_asset :=
  {| pc_name := name;
     pc_sections := [];
     pc_imports := [{| ac_sections := [];
                       ac_find_assets := fun _ => Ok assets |}];
     pc_includes := included;
     pc_exclude_paths := [] |}.

(** Package X includes Y and Z; the three import the file [p], with the
    three documents. *)
Definition PACKAGE_MIXED_X :=
  document_package "X" [("p", MIXED_X)] ["Y"; "Z"].
Definition PACKAGE_MIXED_Y := document_package "Y" [("p", MIXED_Y)] [].
Definition PACKAGE_MIXED_Z := document_package "Z" [("p", MIXED_Z)] [].

Definition MIXED_PROJECT : ProjectConfiguration document_asset :=
  {| _packages := [PACKAGE_MIXED_X; PACKAGE_MIXED_Y; PACKAGE_MIXED_Z];
     _packages_by_name :=
       [("X", PACKAGE_MIXED_X); ("Y", PACKAGE_MIXED_Y); ("Z", PACKAGE_MIXED_Z)];
     _selected_sections := Some [];
     _all_builds := [];
     _builds := [] |}.

(** The assets that the resolution of X collects. *)
Definition MIXED_ASSETS : list (string * list document_asset) :=
  [("X", [("p", MIXED_X)]); ("Y", [("p", MIXED_Y)]); ("Z", [("p", MIXED_Z)])].

(** A store with a version 1 document, at address 0, in which the platforms
    "Any" and "Editor" hold the same configuration object (address 3), as
    an alias of the metadata file makes them. *)
Definition SHARED_ANY_STORE : Heap.heap :=
  [Heap.ODict OrderedDict [("PluginImporter", Heap.PRef 1)];
   Heap.ODict OrderedDict [("serializedVersion", Heap.PInt 1);
                           ("platformData", Heap.PRef 2)];
   Heap.ODict OrderedDict [("Any", Heap.PRef 3); ("Editor", Heap.PRef 3);
                           ("Android", Heap.PRef 4)];
   Heap.ODict OrderedDict [("enabled", Heap.PInt 1)];
   Heap.ODict OrderedDict [("enabled", Heap.PInt 1)]].

(* ================================================================== *)
(** * Theorems *)

Lemma string_mem_In s l : string_mem s l = true <-> In s l.
Proof.
  unfold string_mem. rewrite existsb_exists. split.
  - intros [x [Hin Heq]]. apply String.eqb_eq in Heq. now subst.
  - intros Hin. exists s. split; [assumption | apply String.eqb_refl].
Qed.

Lemma string_mem_false s l : string_mem s l = false <-> ~ In s l.
Proof.
  split.
  - intros H Hin. apply string_mem_In in Hin. congruence.
  - intros H. destruct (string_mem s l) eqn:E; [|reflexivity].
    exfalso. apply H. now apply string_mem_In.
Qed.

(** Order of Python strings: lexicographic on character codes. *)
Lemma ascii_compare_trans_lt a b c :
  Ascii.compare a b = Lt -> Ascii.compare b c = Lt -> Ascii.compare a c = Lt.
Proof.
  unfold Ascii.compare. rewrite !N.compare_lt_iff. lia.
Qed.

Lemma string_compare_refl s : String.compare s s = Eq.
Proof.
  induction s as [|c s IH]; simpl; [reflexivity|].
  assert (H : Ascii.compare c c = Eq)
    by (unfold Ascii.compare; apply N.compare_refl).
  now rewrite H.
Qed.

Lemma string_compare_lt_trans s1 : forall s2 s3,
  String.compare s1 s2 = Lt -> String.compare s2 s3 = Lt ->
  String.compare s1 s3 = Lt.
Proof.
  induction s1 as [|a s1 IH]; intros [|b s2] [|c s3]; simpl;
    try discriminate; try reflexivity.
  destruct (Ascii.compare a b) eqn:Hab; try discriminate;
    destruct (Ascii.compare b c) eqn:Hbc; try discriminate; intros H1 H2.
  - apply Ascii.compare_eq_iff in Hab, Hbc. subst.
    assert (H : Ascii.compare c c = Eq)
      by (unfold Ascii.compare; apply N.compare_refl).
    rewrite H. eauto.
  - apply Ascii.compare_eq_iff in Hab. subst. now rewrite Hbc.
  - apply Ascii.compare_eq_iff in Hbc. subst. now rewrite Hab.
  - now rewrite (ascii_compare_trans_lt _ _ _ Hab Hbc).
Qed.

Lemma string_leb_refl s : String.leb s s = true.
Proof. unfold String.leb. now rewrite string_compare_refl. Qed.

Lemma string_leb_trans s1 s2 s3 :
  String.leb s1 s2 = true -> String.leb s2 s3 = true -> String.leb s1 s3 = true.
Proof.
  unfold String.leb.
  destruct (String.compare s1 s2) eqn:H12; try discriminate;
    destruct (String.compare s2 s3) eqn:H23; try discriminate; intros _ _.
  - apply String.compare_eq_iff in H12, H23. subst.
    now rewrite string_compare_refl.
  - apply String.compare_eq_iff in H12. subst. now rewrite H23.
  - apply String.compare_eq_iff in H23. subst. now rewrite H12.
  - now rewrite (string_compare_lt_trans _ _ _ H12 H23).
Qed.

Lemma string_leb_false_flip s1 s2 :
  String.leb s1 s2 = false -> String.leb s2 s1 = true.
Proof.
  intros H. destruct (String.leb_total s1 s2) as [H'|H']; congruence.
Qed.

Lemma assoc_get_set_same {A} k (v : A) l : assoc_get k (assoc_set k v l) = Some v.
Proof.
  induction l as [|[k' v'] l IH]; simpl.
  - now rewrite String.eqb_refl.
  - destruct (String.eqb k k') eqn:E; simpl; rewrite ?String.eqb_refl, ?E; auto.
Qed.

Lemma assoc_get_set_other {A} k k' (v : A) l :
  k' <> k -> assoc_get k' (assoc_set k v l) = assoc_get k' l.
Proof.
  intros Hne. induction l as [|[k0 v0] l IH]; simpl.
  - apply String.eqb_neq in Hne. now rewrite Hne.
  - destruct (String.eqb k k0) eqn:E; simpl.
    + apply String.eqb_eq in E. subst.
      apply String.eqb_neq in Hne. now rewrite Hne.
    + now rewrite IH.
Qed.

Lemma assoc_get_None {A} k (l : list (string * A)) :
  assoc_get k l = None <-> ~ In k (keys l).
Proof.
  induction l as [|[k' v'] l IH]; simpl.
  - tauto.
  - destruct (String.eqb k k') eqn:E.
    + apply String.eqb_eq in E. subst. split; [discriminate | tauto].
    + apply String.eqb_neq in E. rewrite IH. split; intros H; [intros [?|?] |];
        try congruence; tauto.
Qed.

Lemma assoc_get_In {A} k (v : A) l : assoc_get k l = Some v -> In (k, v) l.
Proof.
  induction l as [|[k' v'] l IH]; simpl; [discriminate|].
  destruct (String.eqb k k') eqn:E.
  - apply String.eqb_eq in E. intros [= ->]. subst. now left.
  - intros H. right. auto.
Qed.

Lemma assoc_get_NoDup {A} k (v : A) l :
  NoDup (keys l) -> In (k, v) l -> assoc_get k l = Some v.
Proof.
  induction l as [|[k' v'] l IH]; simpl; [tauto|].
  intros Hnd [Heq|Hin].
  - inversion Heq; subst. now rewrite String.eqb_refl.
  - inversion Hnd as [|? ? Hnotin Hnd']; subst.
    destruct (String.eqb k k') eqn:E.
    + apply String.eqb_eq in E. subst. exfalso. apply Hnotin.
      change k' with (fst (k', v)). now apply in_map.
    + auto.
Qed.

Lemma assoc_set_absent {A} k (v : A) l :
  ~ In k (keys l) -> assoc_set k v l = l ++ [(k, v)].
Proof.
  induction l as [|[k' v'] l IH]; simpl; [reflexivity|].
  intros Hnotin. destruct (String.eqb k k') eqn:E.
  - apply String.eqb_eq in E. subst. tauto.
  - rewrite IH; tauto.
Qed.

Lemma keys_assoc_set {A} k (v : A) l :
  keys (assoc_set k v l) = if string_mem k (keys l) then keys l else keys l ++ [k].
Proof.
  induction l as [|[k' v'] l IH]; simpl; [reflexivity|].
  destruct (String.eqb k k') eqn:E; simpl.
  - apply String.eqb_eq in E. now subst.
  - rewrite IH. now destruct (string_mem k (keys l)).
Qed.

(** ** Induction on documents *)

Lemma value_ind' (P : value -> Prop) :
  P VNone -> (forall b, P (VBool b)) -> (forall n, P (VInt n)) ->
  (forall s, P (VStr s)) ->
  (forall l, Forall P l -> P (VList l)) ->
  (forall c kvs, Forall (fun kv => P (snd kv)) kvs -> P (VDict c kvs)) ->
  forall v, P v.
Proof.
  intros HN HB HI HS HL HD.
  fix IH 1. intros [| b | n | s | l | c kvs].
  - exact HN.
  - apply HB.
  - apply HI.
  - apply HS.
  - apply HL. induction l as [|x l IHl]; constructor; [apply IH | exact IHl].
  - apply HD. induction kvs as [|[k x] kvs IHl]; constructor;
      [apply IH | exact IHl].
Qed.

Lemma wf_value_list l :
  wf_value (VList l) <-> Forall wf_value l.
Proof.
  simpl. induction l as [|x l IH]; split; intros H.
  - constructor.
  - exact I.
  - destruct H as [Hx Hl]. constructor; [exact Hx | now apply IH].
  - inversion H; subst. split; [assumption | now apply IH].
Qed.

Lemma wf_value_dict c kvs :
  wf_value (VDict c kvs) <->
  NoDup (keys kvs) /\ Forall (fun kv => wf_value (snd kv)) kvs.
Proof.
  simpl. apply and_iff_compat_l.
  induction kvs as [|[k x] kvs IH]; split; intros H.
  - constructor.
  - exact I.
  - destruct H as [Hx Hl]. constructor; [exact Hx | now apply IH].
  - inversion H; subst. split; [assumption | now apply IH].
Qed.

(** [==] is reflexive on well-formed documents. *)
Lemma py_eq_refl v : wf_value v -> py_eq v v = true.
Proof.
  induction v as [| b | n | s | l IH | c kvs IH] using value_ind'; intros Hwf.
  - reflexivity.
  - simpl. now destruct b.
  - simpl. apply Z.eqb_refl.
  - simpl. apply String.eqb_refl.
  - apply wf_value_list in Hwf. simpl.
    induction l as [|x l IHl]; [reflexivity|].
    inversion IH; subst. inversion Hwf; subst.
    rewrite H1 by assumption. simpl. now apply IHl.
  - apply wf_value_dict in Hwf. destruct Hwf as [Hnd Hall].
    assert (Hord :
      (fix go (k1 k2 : list (string * value)) {struct k1} : bool :=
         match k1, k2 with
         | [], [] => true
         | (ka, va) :: k1', (kb, vb) :: k2' =>
             String.eqb ka kb && py_eq va vb && go k1' k2'
         | _, _ => false
         end) kvs kvs = true).
    { clear Hnd. induction kvs as [|[k x] kvs IHl]; [reflexivity|].
      inversion IH; subst. inversion Hall; subst. simpl in *.
      rewrite String.eqb_refl, H1 by assumption. simpl. now apply IHl. }
    assert (Hun : forall k2, NoDup (keys k2) -> incl kvs k2 ->
      (fix all (k1 : list (string * value)) : bool :=
         match k1 with
         | [] => true
         | (ka, va) :: k1' =>
             match assoc_get ka k2 with
             | Some vb => py_eq va vb
             | None => false
             end && all k1'
         end) kvs = true).
    { intros k2 Hnd2. clear Hnd Hord.
      induction kvs as [|[k x] kvs IHl]; intros Hincl; [reflexivity|].
      inversion IH; subst. inversion Hall; subst. simpl in *.
      rewrite (assoc_get_NoDup k x k2 Hnd2) by (apply Hincl; now left).
      rewrite H1 by assumption. simpl. apply IHl; try assumption.
      intros y Hy. apply Hincl. now right. }
    specialize (Hun kvs Hnd (incl_refl _)).
    simpl. destruct c; rewrite ?Nat.eqb_refl; simpl; assumption.
Qed.

(** Documents that differ only in the class of the outer dictionary are
    equal for [==] (a [dict] equals an [OrderedDict] with the same items). *)
Lemma py_eq_same_items c c' kvs :
  wf_value (VDict c' kvs) -> py_eq (VDict c kvs) (VDict c' kvs) = true.
Proof.
  intros Hwf.
  assert (H1 : py_eq (VDict c' kvs) (VDict c' kvs) = true)
    by now apply py_eq_refl.
  assert (H2 : py_eq (VDict PlainDict kvs) (VDict PlainDict kvs) = true).
  { apply py_eq_refl. apply wf_value_dict. now apply wf_value_dict in Hwf. }
  destruct c, c'; simpl in *; assumption.
Qed.

(* ------------------------------------------------------------------ *)
(** ** safe_dict_get_value *)

Lemma safe_dict_get_value_cases :
  forall tree_node key default_value value_classes,
    safe_dict_get_value tree_node key default_value value_classes =
    match stored tree_node key with
    | Some v =>
        if negb (is_none v) && class_accepted default_value value_classes v
        then v else default_value
    | None => default_value
    end.
Proof.
  intros node key d cs. unfold safe_dict_get_value, stored, dict_get.
  destruct node as [| b | n | s | l | c kvs]; try reflexivity.
  assert (Hd : issubclass (class_of (VDict c kvs)) CDict = true)
    by (destruct c; reflexivity).
  rewrite Hd. simpl negb. cbv iota. simpl dict_items.
  destruct (assoc_get key kvs) as [v|]; [|reflexivity].
  destruct (is_none v) eqn:Hv; [reflexivity|]. simpl negb. simpl andb.
  unfold class_accepted. destruct cs as [|c0 cs].
  - destruct (is_none d) eqn:Hdn; simpl; [reflexivity|].
    destruct (pyclass_eqb (class_of d) CStr) eqn:Hs; simpl.
    + assert (Hc : class_of d = CStr)
        by (destruct (class_of d); try discriminate; reflexivity).
      rewrite Hc. now destruct (issubclass (class_of v) CStr).
    + rewrite orb_false_r.
      now destruct (issubclass (class_of v) (class_of d)).
  - rewrite orb_true_r.
    now destruct (existsb (fun value_class => issubclass (class_of v) value_class)
                          (c0 :: cs)).
Qed.






(* ------------------------------------------------------------------ *)
(** ** merge_ordered_dicts *)

Lemma merge_empty_override py_str d c :
  merge_ordered_dicts py_str d (VDict c []) = d.
Proof. destruct d; reflexivity. Qed.

Lemma merge_into_fresh py_str c c' rest : forall acc,
  NoDup (keys rest) ->
  (forall k, In k (keys rest) -> ~ In k (keys acc)) ->
  merge_ordered_dicts py_str (VDict c acc) (VDict c' rest) =
  VDict c (acc ++ rest).
Proof.
  induction rest as [|[k v] rest IH]; intros acc Hnd Hdisj.
  - simpl. now rewrite app_nil_r.
  - inversion Hnd as [|? ? Hk Hnd']; subst.
    assert (Hget : assoc_get k acc = None)
      by (apply assoc_get_None; apply Hdisj; now left).
    assert (Hset : assoc_set k v acc = acc ++ [(k, v)])
      by (apply assoc_set_absent; apply Hdisj; now left).
    specialize (IH (acc ++ [(k, v)]) Hnd').
    simpl in IH. simpl. rewrite Hget. simpl. rewrite Hset.
    rewrite IH.
    + now rewrite <- app_assoc.
    + intros k0 Hin. unfold keys. rewrite map_app, in_app_iff. simpl.
      intros [Hacc | [Heq | []]].
      * apply (Hdisj k0); [now right | exact Hacc].
      * subst. contradiction.
Qed.

(** C7.  The empty document is a left and a right identity of the deep
    merge: merging the empty override into a document [d] returns [d]
    itself, and merging [d] into an empty document returns a document with
    the items of [d], equal to [d] for [==] (and identical to [d] when the
    empty document has the class of [d]).  This holds for every document,
    whatever the shape of its platform data. *)
Theorem merge_ordered_dicts_empty_identity :
  forall (py_str : value -> string) (cls : dict_class)
         (items : list (string * value)),
    wf_value (VDict cls items) ->
    (forall c, merge_ordered_dicts py_str (VDict cls items) (VDict c [])
               = VDict cls items) /\
    (forall c, merge_ordered_dicts py_str (VDict c []) (VDict cls items)
               = VDict c items) /\
    (forall c, py_eq (merge_ordered_dicts py_str (VDict c []) (VDict cls items))
                     (VDict cls items) = true) /\
    merge_ordered_dicts py_str (VDict cls []) (VDict cls items)
    = VDict cls items.
Proof.
  intros py_str cls items Hwf.
  assert (Hnd : NoDup (keys items)) by (now apply wf_value_dict in Hwf).
  assert (Hmerge : forall c,
    merge_ordered_dicts py_str (VDict c []) (VDict cls items) = VDict c items).
  { intros c. rewrite merge_into_fresh; [reflexivity | assumption |].
    intros k _ []. }
  split; [|split; [|split]].
  - intros c. apply merge_empty_override.
  - exact Hmerge.
  - intros c. rewrite Hmerge. now apply py_eq_same_items.
  - apply Hmerge.
Qed.

(* ------------------------------------------------------------------ *)
(** ** Reading children back *)

Lemma safe_dict_get_value_child node k d cs :
  safe_dict_get_value node k d cs =
  match safe_dict_get_child node k d cs with
  | Some v => v
  | None => d
  end.
Proof.
  rewrite safe_dict_get_value_cases. unfold safe_dict_get_child.
  destruct (stored node k) as [v|]; [|reflexivity].
  now destruct (negb (is_none v) && class_accepted d cs v).
Qed.

Lemma safe_dict_get_child_stored node k d cs v :
  safe_dict_get_child node k d cs = Some v ->
  exists c items, node = VDict c items /\ assoc_get k items = Some v /\
                  is_none v = false /\ class_accepted d cs v = true.
Proof.
  unfold safe_dict_get_child, stored.
  destruct node as [| | | | |c items]; try discriminate.
  destruct (assoc_get k items) as [v'|] eqn:Hget; [|discriminate].
  destruct (is_none v') eqn:Hn; simpl; [discriminate|].
  destruct (class_accepted d cs v') eqn:Hc; [|discriminate].
  intros [= ->]. exists c, items. repeat split; assumption.
Qed.

Lemma safe_dict_get_child_set c items k v d cs :
  is_none v = false -> class_accepted d cs v = true ->
  safe_dict_get_child (VDict c (assoc_set k v items)) k d cs = Some v.
Proof.
  intros Hn Hc. unfold safe_dict_get_child, stored.
  now rewrite assoc_get_set_same, Hn, Hc.
Qed.

Lemma safe_dict_get_value_set c items k v d cs :
  is_none v = false -> class_accepted d cs v = true ->
  safe_dict_get_value (VDict c (assoc_set k v items)) k d cs = v.
Proof.
  intros Hn Hc. rewrite safe_dict_get_value_child.
  now rewrite safe_dict_get_child_set.
Qed.

Lemma In_insert_sorted x s l : In x (insert_sorted s l) <-> x = s \/ In x l.
Proof.
  induction l as [|y l IH]; simpl.
  - intuition.
  - destruct (String.leb s y); simpl; [intuition|]. rewrite IH. intuition.
Qed.

Lemma In_sorted_strings x l : In x (sorted_strings l) <-> In x l.
Proof.
  induction l as [|y l IH]; simpl; [tauto|].
  rewrite In_insert_sorted, IH. intuition.
Qed.

(* ------------------------------------------------------------------ *)
(** ** disable_unsupported_platforms *)

Lemma template_platforms_disabled :
  Forall (fun kv => safe_dict_get_value (snd kv) "enabled" (VInt 0) [] = VInt 0)
         TEMPLATE_PLATFORM_DATA.
Proof. repeat constructor. Qed.

Lemma template_platform_disabled p t :
  assoc_get p TEMPLATE_PLATFORM_DATA = Some t ->
  safe_dict_get_value t "enabled" (VInt 0) [] = VInt 0.
Proof.
  intros H. apply assoc_get_In in H.
  exact (proj1 (Forall_forall _ _) template_platforms_disabled (p, t) H).
Qed.

Lemma reset_to_template_fold L : forall c items platform_data,
  res_fold reset_to_template L (VDict c items) = Ok platform_data ->
  exists items', platform_data = VDict c items' /\
    (forall p, In p L ->
       exists t, assoc_get p TEMPLATE_PLATFORM_DATA = Some t /\
                 assoc_get p items' = Some t) /\
    (forall p, ~ In p L -> assoc_get p items' = assoc_get p items).
Proof.
  induction L as [|q L IH]; intros c items platform_data H.
  - simpl in H. injection H as <-. exists items.
    split; [reflexivity|]. split; [intros p []|reflexivity].
  - simpl in H. unfold reset_to_template at 1 in H.
    destruct (assoc_get q TEMPLATE_PLATFORM_DATA) as [t|] eqn:Ht;
      [|discriminate].
    simpl dict_set in H. apply IH in H as (items' & -> & Hin & Hout).
    exists items'. split; [reflexivity|]. split.
    + intros p [<-|Hp].
      * destruct (in_dec string_dec q L) as [HqL|HqL]; [now apply Hin|].
        exists t. split; [assumption|].
        rewrite Hout by assumption. apply assoc_get_set_same.
      * now apply Hin.
    + intros p Hp. rewrite Hout by (intros HpL; apply Hp; now right).
      apply assoc_get_set_other. intros ->. apply Hp. now left.
Qed.

Lemma supported_platforms_contain_any ext supported_platforms :
  assoc_get ext PLATFORMS_BY_SHARED_LIBRARY_EXTENSION = Some supported_platforms ->
  In "Any" supported_platforms.
Proof.
  unfold PLATFORMS_BY_SHARED_LIBRARY_EXTENSION. simpl.
  destruct (String.eqb ext ".so"); [intros [= <-]; simpl; auto|].
  destruct (String.eqb ext ".bundle"); [intros [= <-]; simpl; auto|].
  destruct (String.eqb ext ".dll"); [intros [= <-]; simpl; auto|].
  discriminate.
Qed.

Lemma class_accepted_dict c items :
  class_accepted (pd []) [] (VDict c items) = true.
Proof. now destruct c. Qed.

(** The general part of C6, on version 1 documents of library assets. *)
Lemma disable_unsupported_platforms_resets :
  forall importer_metadata filename supported_platforms result,
    re_fullmatch SHARED_LIBRARY_PATH (posix_path (normpath filename)) = true ->
    assoc_get (snd (splitext (posix_path (normpath filename))))
              PLATFORMS_BY_SHARED_LIBRARY_EXTENSION = Some supported_platforms ->
    py_eq (serialized_version_of importer_metadata) (VInt 1) = true ->
    disable_unsupported_platforms importer_metadata filename = Ok result ->
    forall platform,
      In platform (platform_names importer_metadata) ->
      ~ In platform supported_platforms ->
      assoc_get platform TEMPLATE_PLATFORM_DATA
        = Some (platform_config result platform) /\
      truthy (platform_enabled result platform) = false /\
      truthy (platform_enabled result "Any") = false.
Proof.
  intros md filename supported md' Hpath Hext Hver Hrun p Hp Hns.
  unfold platform_names, platform_data_of, plugin_importer_of in Hp.
  unfold serialized_version_of, plugin_importer_of in Hver.
  unfold disable_unsupported_platforms in Hrun. cbv zeta in Hrun.
  rewrite Hpath in Hrun. simpl negb in Hrun. cbv iota in Hrun.
  rewrite Hext in Hrun.
  rewrite (safe_dict_get_value_child md "PluginImporter") in Hp, Hver, Hrun.
  destruct (safe_dict_get_child md "PluginImporter" (pd []) [])
    as [pi|] eqn:Hpi; [|simpl in Hp; contradiction].
  rewrite Hver in Hrun. simpl negb in Hrun. cbv iota in Hrun.
  rewrite (safe_dict_get_value_child pi "platformData") in Hp, Hrun.
  destruct (safe_dict_get_child pi "platformData" (pd []) [])
    as [pdv|] eqn:Hpd; [|simpl in Hp; contradiction].
  destruct (safe_dict_get_child_stored _ _ _ _ _ Hpi)
    as (c0 & items0 & -> & Hget0 & Hn0 & Hc0).
  destruct (safe_dict_get_child_stored _ _ _ _ _ Hpd)
    as (c1 & items1 & -> & Hget1 & Hn1 & Hc1).
  destruct pdv as [| | | | | c2 items2]; try (simpl in Hp; contradiction).
  simpl dict_items in Hp, Hrun.
  assert (HpL : In p (sorted_strings
                        (filter (fun p => negb (string_mem p supported))
                                (keys items2)))).
  { apply In_sorted_strings, filter_In. split; [assumption|].
    apply negb_true_iff, string_mem_false. assumption. }
  destruct (sorted_strings
              (filter (fun p => negb (string_mem p supported)) (keys items2)))
    as [|q L] eqn:HL; [contradiction|].
  destruct (set_item (dict_get_default (VDict c2 items2) "Any" (od []))
                     "enabled" (VInt 0)) as [any_config|] eqn:Hany;
    [|discriminate].
  simpl dict_set in Hrun.
  destruct (res_fold reset_to_template (q :: L)
              (VDict c2 (assoc_set "Any" any_config items2)))
    as [platform_data|] eqn:Hfold; [|discriminate].
  apply reset_to_template_fold in Hfold as (items' & -> & Hin & Hout).
  injection Hrun as <-.
  assert (Hread : platform_data_of
            (VDict c0
               (assoc_set "PluginImporter"
                  (VDict c1 (assoc_set "platformData" (VDict c2 items') items1))
                  items0))
          = VDict c2 items').
  { unfold platform_data_of, plugin_importer_of.
    rewrite safe_dict_get_value_set
      by (try reflexivity; apply class_accepted_dict).
    apply safe_dict_get_value_set;
      [reflexivity | apply class_accepted_dict]. }
  unfold platform_enabled, platform_config. rewrite Hread. unfold dict_get.
  simpl dict_items.
  destruct (Hin p HpL) as (t & Ht & Hgetp). rewrite Hgetp.
  split; [assumption|]. split.
  - now rewrite (template_platform_disabled p t Ht).
  - assert (HanyL : ~ In "Any" (q :: L)).
    { rewrite <- HL. rewrite In_sorted_strings, filter_In.
      intros [_ Hneg]. apply negb_true_iff, string_mem_false in Hneg.
      apply Hneg. eapply supported_platforms_contain_any. eassumption. }
    rewrite (Hout "Any" HanyL), assoc_get_set_same.
    unfold set_item in Hany.
    destruct (dict_get_default (VDict c2 items2) "Any" (od []))
      as [| | | | | ca la]; try discriminate.
    injection Hany as <-.
    now rewrite safe_dict_get_value_set.
Qed.

(** C6, as stated, does not hold: the extension alone does not make an asset
    a native library.  [Plugins/Plugin.dll] has the extension [.dll] but is
    not under [Plugins/x86] or [Plugins/x86_64]; the document is returned as
    it is, and Android, which [.dll] does not support, stays enabled (so
    does "Any"). *)
Lemma disable_unsupported_platforms_extension_counterexample :
  ~ (forall importer_metadata filename supported_platforms result,
       assoc_get (snd (splitext (posix_path (normpath filename))))
                 PLATFORMS_BY_SHARED_LIBRARY_EXTENSION
         = Some supported_platforms ->
       disable_unsupported_platforms importer_metadata filename = Ok result ->
       forall platform,
         In platform (platform_names importer_metadata) ->
         ~ In platform supported_platforms ->
         truthy (platform_enabled result platform) = false).
Proof.
  intros H.
  specialize (H ALL_PLATFORMS_ENABLED "Plugins/Plugin.dll"
                ["Any"; "Editor"; "Win"; "Win64"] ALL_PLATFORMS_ENABLED
                eq_refl eq_refl "Android").
  assert (Hin : In "Android" (platform_names ALL_PLATFORMS_ENABLED))
    by (vm_compute; auto).
  assert (Hout : ~ In "Android" ["Any"; "Editor"; "Win"; "Win64"])
    by (simpl; intuition discriminate).
  specialize (H Hin Hout). vm_compute in H. discriminate.
Qed.

(** C6 (amended).  For an asset whose normalised path matches
    [SHARED_LIBRARY_PATH] (a [.so], [.dll] or [.bundle] file under a
    [Plugins/x86] or [Plugins/x86_64] directory) and whose document has
    serialization version 1, [disable_unsupported_platforms], when it
    returns, has reset every platform of the platform data that the
    extension does not support to the disabled default of the template, and
    has disabled "Any" whenever there was such a platform.  For the bundle
    [Plugins/x86/Foo/bar.bundle] and the document with every platform
    enabled, exactly Editor, OSXIntel, OSXIntel64 and OSXUniversal stay
    enabled and "Any" is disabled. *)
Theorem disable_unsupported_platforms_spec :
  (forall importer_metadata filename supported_platforms result,
     re_fullmatch SHARED_LIBRARY_PATH (posix_path (normpath filename)) = true ->
     assoc_get (snd (splitext (posix_path (normpath filename))))
               PLATFORMS_BY_SHARED_LIBRARY_EXTENSION
       = Some supported_platforms ->
     py_eq (serialized_version_of importer_metadata) (VInt 1) = true ->
     disable_unsupported_platforms importer_metadata filename = Ok result ->
     forall platform,
       In platform (platform_names importer_metadata) ->
       ~ In platform supported_platforms ->
       assoc_get platform TEMPLATE_PLATFORM_DATA
         = Some (platform_config result platform) /\
       truthy (platform_enabled result platform) = false /\
       truthy (platform_enabled result "Any") = false) /\
  (disable_unsupported_platforms ALL_PLATFORMS_ENABLED
                                 "Plugins/x86/Foo/bar.bundle"
     = Ok BUNDLE_RESULT /\
   enabled_platforms ALL_PLATFORMS_ENABLED = keys TEMPLATE_PLATFORM_DATA /\
   enabled_platforms BUNDLE_RESULT
     = ["Editor"; "OSXIntel"; "OSXIntel64"; "OSXUniversal"] /\
   truthy (platform_enabled BUNDLE_RESULT "Any") = false).
Proof.
  split.
  - exact disable_unsupported_platforms_resets.
  - repeat split; vm_compute; reflexivity.
Qed.

Lemma disable_unsupported_platforms_spec_witness :
  assoc_get "Win" TEMPLATE_PLATFORM_DATA
    = Some (platform_config BUNDLE_RESULT "Win") /\
  truthy (platform_enabled BUNDLE_RESULT "Win") = false /\
  truthy (platform_enabled BUNDLE_RESULT "Any") = false.
Proof.
  apply (proj1 disable_unsupported_platforms_spec ALL_PLATFORMS_ENABLED
           "Plugins/x86/Foo/bar.bundle"
           ["Any"; "Editor"; "OSXIntel"; "OSXIntel64"; "OSXUniversal"]
           BUNDLE_RESULT).
  - reflexivity.
  - reflexivity.
  - reflexivity.
  - reflexivity.
  - vm_compute. tauto.
  - simpl. intuition discriminate.
Defined.

(* ------------------------------------------------------------------ *)
(** ** apply_any_platform_selection *)

Lemma safe_dict_get_value_set_other c items k k' v d cs :
  k <> k' ->
  safe_dict_get_value (VDict c (assoc_set k' v items)) k d cs =
  safe_dict_get_value (VDict c items) k d cs.
Proof.
  intros Hne. rewrite !safe_dict_get_value_cases. unfold stored.
  now rewrite assoc_get_set_other.
Qed.

Lemma plugin_importer_of_put c0 items0 c1 items1 :
  plugin_importer_of (VDict c0 (assoc_set "PluginImporter" (VDict c1 items1) items0))
  = VDict c1 items1.
Proof.
  unfold plugin_importer_of.
  apply safe_dict_get_value_set; [reflexivity | apply class_accepted_dict].
Qed.

Lemma platform_data_of_put c0 items0 c1 items1 c2 items2 :
  platform_data_of
    (VDict c0 (assoc_set "PluginImporter"
                 (VDict c1 (assoc_set "platformData" (VDict c2 items2) items1))
                 items0))
  = VDict c2 items2.
Proof.
  unfold platform_data_of. rewrite plugin_importer_of_put.
  apply safe_dict_get_value_set; [reflexivity | apply class_accepted_dict].
Qed.

Lemma serialized_version_of_put c0 items0 c1 items1 v :
  serialized_version_of
    (VDict c0 (assoc_set "PluginImporter"
                 (VDict c1 (assoc_set "platformData" v items1)) items0))
  = safe_dict_get_value (VDict c1 items1) "serializedVersion" (VInt 1) [].
Proof.
  unfold serialized_version_of. rewrite plugin_importer_of_put.
  apply safe_dict_get_value_set_other. discriminate.
Qed.


Lemma enable_from_any_fold e T : forall c items platform_data,
  res_fold (enable_from_any e) T (VDict c items) = Ok platform_data ->
  exists items', platform_data = VDict c items' /\
    (forall p, In p (keys T) ->
       exists config, assoc_get p items' = Some config /\ has_flag e config) /\
    (forall p, ~ In p (keys T) -> assoc_get p items' = assoc_get p items).
Proof.
  induction T as [|[q default_config] T IH]; intros c items platform_data H.
  - simpl in H. injection H as <-. exists items.
    split; [reflexivity|]. split; [intros p []|reflexivity].
  - simpl in H.
    destruct (set_item
                (if is_none (dict_get (VDict c items) q)
                 then default_config else dict_get (VDict c items) q)
                "enabled" e) as [config|] eqn:Hset; [|discriminate].
    simpl dict_set in H. apply IH in H as (items' & -> & Hin & Hout).
    assert (Hflag : has_flag e config).
    { unfold set_item in Hset.
      destruct (if is_none (dict_get (VDict c items) q)
                then default_config else dict_get (VDict c items) q)
        as [| | | | | cc l]; try discriminate.
      injection Hset as <-. exists cc, (assoc_set "enabled" e l).
      split; [reflexivity | apply assoc_get_set_same]. }
    exists items'. split; [reflexivity|]. split.
    + intros p [<-|Hp].
      * destruct (in_dec string_dec q (keys T)) as [HqT|HqT]; [now apply Hin|].
        exists config. split; [|assumption].
        rewrite Hout by assumption. apply assoc_get_set_same.
      * now apply Hin.
    + intros p Hp. simpl in Hp.
      rewrite Hout by (intros HpT; apply Hp; now right).
      apply assoc_get_set_other. intros ->. apply Hp. now left.
Qed.

(** On a version 1 document whose "Any" flag [e] is true,
    [apply_any_platform_selection] writes [e] into the record of every
    platform of the template. *)
Lemma apply_any_v1_shape importer_metadata e result :
  py_eq (serialized_version_of importer_metadata) (VInt 1) = true ->
  any_enabled_of importer_metadata = Ok e ->
  truthy e = true ->
  apply_any_platform_selection importer_metadata = Ok result ->
  exists c0 items0 c1 items1 c2 items',
    result = VDict c0 (assoc_set "PluginImporter"
                         (VDict c1 (assoc_set "platformData" (VDict c2 items')
                                              items1)) items0) /\
    safe_dict_get_value (VDict c1 items1) "serializedVersion" (VInt 1) []
      = serialized_version_of importer_metadata /\
    forall p, In p (keys TEMPLATE_PLATFORM_DATA) ->
      exists config, assoc_get p items' = Some config /\ has_flag e config.
Proof.
  intros Hver Hany He Hrun.
  unfold serialized_version_of, plugin_importer_of in *.
  unfold any_enabled_of, platform_data_of, plugin_importer_of in Hany.
  unfold apply_any_platform_selection in Hrun. cbv zeta in Hrun.
  rewrite Hver, Hany, He in Hrun. simpl negb in Hrun. cbv iota in Hrun.
  rewrite (safe_dict_get_value_child importer_metadata "PluginImporter")
    in Hany, Hrun |- *.
  destruct (safe_dict_get_child importer_metadata "PluginImporter" (pd []) [])
    as [pi|] eqn:Hpi;
    [|vm_compute in Hany; injection Hany as <-; discriminate].
  rewrite (safe_dict_get_value_child pi "platformData") in Hany, Hrun.
  destruct (safe_dict_get_child pi "platformData" (pd []) [])
    as [pdv|] eqn:Hpd;
    [|vm_compute in Hany; injection Hany as <-; discriminate].
  destruct (safe_dict_get_child_stored _ _ _ _ _ Hpi)
    as (c0 & items0 & -> & Hget0 & Hn0 & Hc0).
  destruct (safe_dict_get_child_stored _ _ _ _ _ Hpd)
    as (c1 & items1 & -> & Hget1 & Hn1 & Hc1).
  destruct pdv as [| | | | | c2 items2];
    try (vm_compute in Hany; injection Hany as <-; discriminate).
  destruct (res_fold (enable_from_any e) TEMPLATE_PLATFORM_DATA
                     (VDict c2 items2)) as [platform_data|] eqn:Hfold;
    [|discriminate].
  apply enable_from_any_fold in Hfold as (items' & -> & Hin & _).
  simpl put_back in Hrun. simpl dict_set in Hrun. injection Hrun as <-.
  exists c0, items0, c1, items1, c2, items'. auto.
Qed.

Lemma has_flag_get e config : has_flag e config -> dict_get config "enabled" = e.
Proof.
  intros (c & items & -> & H). unfold dict_get. simpl. now rewrite H.
Qed.

Lemma set_platform_enabled_put c0 items0 c1 items1 c2 items2 p cc l v :
  assoc_get p items2 = Some (VDict cc l) ->
  set_platform_enabled
    (VDict c0 (assoc_set "PluginImporter"
                 (VDict c1 (assoc_set "platformData" (VDict c2 items2) items1))
                 items0)) p v
  = VDict c0
      (assoc_set "PluginImporter"
         (VDict c1
            (assoc_set "platformData"
               (VDict c2 (assoc_set p (VDict cc (assoc_set "enabled" v l))
                                    items2))
               (assoc_set "platformData" (VDict c2 items2) items1)))
         (assoc_set "PluginImporter"
            (VDict c1 (assoc_set "platformData" (VDict c2 items2) items1))
            items0)).
Proof.
  intros Hget. unfold set_platform_enabled.
  rewrite plugin_importer_of_put, platform_data_of_put.
  unfold dict_get. simpl dict_items. rewrite Hget. reflexivity.
Qed.

Lemma apply_any_v1_reenables importer_metadata e first_pass platform second_pass :
  py_eq (serialized_version_of importer_metadata) (VInt 1) = true ->
  any_enabled_of importer_metadata = Ok e ->
  truthy e = true ->
  apply_any_platform_selection importer_metadata = Ok first_pass ->
  In platform (keys TEMPLATE_PLATFORM_DATA) ->
  platform <> "Any" ->
  apply_any_platform_selection
    (set_platform_enabled first_pass platform (VInt 0)) = Ok second_pass ->
  platform_flag first_pass platform = e /\
  platform_flag (set_platform_enabled first_pass platform (VInt 0)) platform
    = VInt 0 /\
  any_enabled_of (set_platform_enabled first_pass platform (VInt 0)) = Ok e /\
  platform_flag second_pass platform = e.
Proof.
  intros Hver Hany He Hrun1 Hp Hne Hrun2.
  destruct (apply_any_v1_shape _ _ _ Hver Hany He Hrun1)
    as (c0 & items0 & c1 & items1 & c2 & items' & -> & Hsv & Hall).
  destruct (Hall platform Hp) as (config & Hgetp & (cc & l & -> & Hl)).
  assert (HanyT : In "Any" (keys TEMPLATE_PLATFORM_DATA)) by (simpl; auto).
  destruct (Hall "Any" HanyT) as (any_config & HgetA & (ca & la & -> & Hla)).
  rewrite (set_platform_enabled_put _ _ _ _ _ _ _ _ _ _ Hgetp) in *.
  assert (Hany2 :
    any_enabled_of
      (VDict c0
         (assoc_set "PluginImporter"
            (VDict c1
               (assoc_set "platformData"
                  (VDict c2
                     (assoc_set platform
                        (VDict cc (assoc_set "enabled" (VInt 0) l)) items'))
                  (assoc_set "platformData" (VDict c2 items') items1)))
            (assoc_set "PluginImporter"
               (VDict c1 (assoc_set "platformData" (VDict c2 items') items1))
               items0))) = Ok e).
  { unfold any_enabled_of. rewrite platform_data_of_put.
    unfold dict_get_default. simpl dict_items.
    rewrite assoc_get_set_other by congruence. rewrite HgetA. simpl.
    now rewrite Hla. }
  split; [|split; [|split]].
  - unfold platform_flag, platform_config. rewrite platform_data_of_put.
    unfold dict_get. simpl. rewrite Hgetp. simpl. now rewrite Hl.
  - unfold platform_flag, platform_config. rewrite platform_data_of_put.
    unfold dict_get. simpl. rewrite assoc_get_set_same. simpl.
    now rewrite assoc_get_set_same.
  - exact Hany2.
  - assert (Hver2 :
      py_eq (serialized_version_of
        (VDict c0
           (assoc_set "PluginImporter"
              (VDict c1
                 (assoc_set "platformData"
                    (VDict c2
                       (assoc_set platform
                          (VDict cc (assoc_set "enabled" (VInt 0) l)) items'))
                    (assoc_set "platformData" (VDict c2 items') items1)))
              (assoc_set "PluginImporter"
                 (VDict c1 (assoc_set "platformData" (VDict c2 items') items1))
                 items0)))) (VInt 1) = true).
    { rewrite serialized_version_of_put.
      rewrite safe_dict_get_value_set_other by discriminate.
      now rewrite Hsv. }
    destruct (apply_any_v1_shape _ _ _ Hver2 Hany2 He Hrun2)
      as (c0' & items0' & c1' & items1' & c2' & items'' & -> & _ & Hall2).
    destruct (Hall2 platform Hp) as (config2 & Hgetp2 & Hflag2).
    unfold platform_flag, platform_config. rewrite platform_data_of_put.
    unfold dict_get at 2. simpl dict_items. rewrite Hgetp2.
    now apply has_flag_get.
Qed.

(** C5, as stated, does not hold: on the template with "Any" enabled, the
    first application enables Android; after Android is disabled ("Any"
    staying enabled) the second application enables Android again. *)
Lemma apply_any_platform_selection_reenables_counterexample :
  exists first_pass second_pass,
    truthy (platform_flag ANY_PLATFORM_ENABLED "Any") = true /\
    apply_any_platform_selection ANY_PLATFORM_ENABLED = Ok first_pass /\
    platform_flag (set_platform_enabled first_pass "Android" (VInt 0)) "Android"
      = VInt 0 /\
    platform_flag (set_platform_enabled first_pass "Android" (VInt 0)) "Any"
      = platform_flag first_pass "Any" /\
    apply_any_platform_selection
      (set_platform_enabled first_pass "Android" (VInt 0)) = Ok second_pass /\
    platform_flag second_pass "Android" = VInt 1.
Proof.
  eexists. eexists.
  split; [reflexivity|]. split; [vm_compute; reflexivity|].
  split; [reflexivity|]. split; [reflexivity|].
  split; [vm_compute; reflexivity|]. reflexivity.
Qed.

(** C5 (amended).  In a version 1 document in which "Any" is enabled with
    flag [e], the first application of [apply_any_platform_selection] gives
    every platform of the template the flag [e]; when one of these platforms
    is then disabled, "Any" being left as it is, the second application
    gives it the flag [e] again: the platform is re-enabled.  The same
    happens in the version 2 document with the records Any, Android and
    Editor: Android, disabled after the first application, is enabled again
    by the second. *)
Theorem apply_any_platform_selection_reenables :
  (forall importer_metadata e first_pass platform second_pass,
     py_eq (serialized_version_of importer_metadata) (VInt 1) = true ->
     any_enabled_of importer_metadata = Ok e ->
     truthy e = true ->
     apply_any_platform_selection importer_metadata = Ok first_pass ->
     In platform (keys TEMPLATE_PLATFORM_DATA) ->
     platform <> "Any" ->
     apply_any_platform_selection
       (set_platform_enabled first_pass platform (VInt 0)) = Ok second_pass ->
     platform_flag first_pass platform = e /\
     platform_flag (set_platform_enabled first_pass platform (VInt 0)) platform
       = VInt 0 /\
     any_enabled_of (set_platform_enabled first_pass platform (VInt 0)) = Ok e /\
     platform_flag second_pass platform = e) /\
  (apply_any_platform_selection ANY_ENABLED_V2 = Ok V2_FIRST_PASS /\
   map_platform_list (disable_record "Android" "Android") V2_FIRST_PASS
     = V2_ANDROID_DISABLED /\
   firstn 3 (record_flags V2_ANDROID_DISABLED)
     = [(od [("Any", VStr "")], VInt 1);
        (od [("Android", VStr "Android")], VInt 0);
        (od [("Editor", VStr "Editor")], VInt 1)] /\
   apply_any_platform_selection V2_ANDROID_DISABLED = Ok V2_SECOND_PASS /\
   firstn 3 (record_flags V2_SECOND_PASS)
     = [(od [("Any", VStr "")], VInt 1);
        (od [("Android", VStr "Android")], VInt 1);
        (od [("Editor", VStr "Editor")], VInt 1)]).
Proof.
  split.
  - intros. eapply apply_any_v1_reenables; eassumption.
  - repeat split; vm_compute; reflexivity.
Qed.

Lemma apply_any_platform_selection_reenables_witness :
  platform_flag V1_FIRST_PASS "Android" = VInt 1 /\
  platform_flag (set_platform_enabled V1_FIRST_PASS "Android" (VInt 0))
                "Android" = VInt 0 /\
  any_enabled_of (set_platform_enabled V1_FIRST_PASS "Android" (VInt 0))
    = Ok (VInt 1) /\
  platform_flag V1_SECOND_PASS "Android" = VInt 1.
Proof.
  apply (proj1 apply_any_platform_selection_reenables
           ANY_PLATFORM_ENABLED (VInt 1) V1_FIRST_PASS "Android"
           V1_SECOND_PASS).
  - reflexivity.
  - reflexivity.
  - reflexivity.
  - reflexivity.
  - simpl. auto.
  - discriminate.
  - reflexivity.
Defined.

(* ------------------------------------------------------------------ *)
(** ** GUID database *)

(** C1 (code defect).  A path that is absent at the target version 1.2.0
    and has the GUID G1 at 1.0.0 and G2 at 1.1.0 resolves to G1, the GUID of
    the oldest prior version, not to G2, the GUID of the nearest prior
    version: [GuidDatabase.__init__] walks the prior versions from the
    newest to the oldest and [add_guid] overwrites the entry each time.
    [get_all_asset_paths] of the GUID generator, which walks the same
    versions in the same order, keeps the first GUID it meets and returns
    G2. *)
Theorem guid_database_resolves_oldest_prior_version :
  (exists database,
     GuidDatabase_init (list N) release_version release_leb []
                       TWO_PRIOR_VERSIONS (Some "1.2.0") = Ok database /\
     get_guid database "a/b.cs" = Ok "G1") /\
  get_all_asset_paths (list N) release_version release_leb
                      TWO_PRIOR_VERSIONS "1.2.0" = Ok [("a/b.cs", "G2")].
Proof.
  split.
  - eexists. split; [vm_compute; reflexivity | reflexivity].
  - reflexivity.
Qed.

(** The spec's scenario: the GUID pinned at the target version is used. *)
Example guid_database_pinned_version :
  exists database,
    GuidDatabase_init (list N) release_version release_leb []
      [("1.0.0", [("a/b.cs", "G1")]); ("1.2.3", [("a/b.cs", "G2")])]
      (Some "1.2.3") = Ok database /\
    get_guid database "a/b.cs" = Ok "G2".
Proof. eexists. split; [vm_compute; reflexivity | reflexivity]. Qed.

(* ------------------------------------------------------------------ *)
(** ** Selected sections: validation and rollback *)

Lemma In_assoc_set {A} k (v : A) l x :
  In x (assoc_set k v l) -> x = (k, v) \/ In x l.
Proof.
  induction l as [|[k' v'] l IH]; simpl.
  - intros [<-|[]]. now left.
  - destruct (String.eqb k k'); simpl.
    + intros [<-|H]; auto.
    + intros [<-|H]; auto. destruct (IH H); auto.
Qed.

Lemma Forall_assoc_set {A} (P : string * A -> Prop) k v l :
  P (k, v) -> Forall P l -> Forall P (assoc_set k v l).
Proof.
  intros Hkv Hl. apply Forall_forall. intros x Hx.
  destruct (In_assoc_set _ _ _ _ Hx) as [->|Hin]; [assumption|].
  now apply (proj1 (Forall_forall _ _) Hl).
Qed.

Lemma length_assoc_set {A} k (v : A) l :
  List.length (assoc_set k v l) <= S (List.length l).
Proof.
  induction l as [|[k' v'] l IH]; simpl; [lia|].
  destruct (String.eqb k k'); simpl; lia.
Qed.



Section ProjectFacts.

Context {Asset : Type}.
Implicit Types (project : ProjectConfiguration Asset)
               (self : PackageConfiguration Asset).





Lemma package_list_by_name_buckets all sections :
  Forall (@bucket_ok Asset) (package_list_by_name all sections) /\
  List.length (package_list_by_name all sections) <= List.length all.
Proof.
  unfold package_list_by_name.
  assert (H : forall acc,
    Forall (@bucket_ok Asset) acc ->
    Forall (@bucket_ok Asset)
      (fold_left
         (fun buckets package =>
            if get_enabled (pc_sections package) sections
            then
              let packages_list :=
                match assoc_get (pc_name package) buckets with
                | Some l => l
                | None => []
                end in
              assoc_set (pc_name package) (packages_list ++ [package]) buckets
            else buckets) all acc) /\
    List.length
      (fold_left
         (fun buckets package =>
            if get_enabled (pc_sections package) sections
            then
              let packages_list :=
                match assoc_get (pc_name package) buckets with
                | Some l => l
                | None => []
                end in
              assoc_set (pc_name package) (packages_list ++ [package]) buckets
            else buckets) all acc) <= List.length acc + List.length all).
  { induction all as [|package all IH]; intros acc Hacc; simpl.
    - split; [assumption | lia].
    - destruct (get_enabled (pc_sections package) sections).
      + destruct (IH (assoc_set (pc_name package)
                        (match assoc_get (pc_name package) acc with
                         | Some l => l
                         | None => []
                         end ++ [package]) acc)) as [H1 H2].
        * apply Forall_assoc_set; [|assumption].
          unfold bucket_ok. simpl. apply Forall_app. split.
          -- destruct (assoc_get (pc_name package) acc) as [l|] eqn:Hget;
               [|constructor].
             apply assoc_get_In in Hget.
             exact (proj1 (Forall_forall _ _) Hacc _ Hget).
          -- repeat constructor.
        * split; [assumption|].
          eapply Nat.le_trans; [exact H2|].
          pose proof (length_assoc_set (pc_name package)
                        (match assoc_get (pc_name package) acc with
                         | Some l => l
                         | None => []
                         end ++ [package]) acc). lia.
      + destruct (IH acc Hacc) as [H1 H2]. split; [assumption|].
        eapply Nat.le_trans; [exact H2 | lia]. }
  destruct (H [] (Forall_nil _)) as [H1 H2]. split; [assumption|].
  simpl in H2. exact H2.
Qed.

Lemma first_of_buckets (buckets : list (string * list (PackageConfiguration Asset))) :
  Forall (@bucket_ok Asset) buckets ->
  named_by_key
    (flat_map (fun '(name, pkgs) =>
                 match pkgs with
                 | pkg :: _ => [(name, pkg)]
                 | [] => []
                 end) buckets) /\
  List.length
    (flat_map (fun '(name, pkgs) =>
                 match pkgs with
                 | pkg :: _ => [(name, pkg)]
                 | [] => []
                 end) buckets) <= List.length buckets.
Proof.
  unfold named_by_key.
  induction buckets as [|[name pkgs] buckets IH]; intros H; simpl.
  - split; [constructor | lia].
  - inversion H as [|? ? Hb Hrest]; subst. destruct (IH Hrest) as [H1 H2].
    destruct pkgs as [|pkg pkgs]; simpl.
    + split; [assumption | lia].
    + split; [|lia]. constructor; [|assumption].
      unfold bucket_ok in Hb. simpl in Hb. now inversion Hb.
Qed.


End ProjectFacts.

(* ------------------------------------------------------------------ *)
(** ** Package resolution: grouping *)

Lemma fold_left_map_list {A B C} (f : A -> B -> A) (g : C -> B) l : forall acc,
  fold_left f (map g l) acc = fold_left (fun acc x => f acc (g x)) l acc.
Proof. induction l as [|x l IH]; intros acc; simpl; auto. Qed.

Lemma In_dedupe x l : In x (dedupe l) <-> In x l.
Proof.
  induction l as [|y l IH]; simpl; [tauto|].
  rewrite filter_In, IH. split.
  - intros [H|[H _]]; auto.
  - intros [H|H]; auto.
    destruct (String.eqb y x) eqn:E.
    + apply String.eqb_eq in E. auto.
    + right. split; [assumption | reflexivity].
Qed.

Section ResolutionFacts.

Context {Asset Meta Regex : Type}.
Variable filename : Asset -> string.
Variable importer_metadata : Asset -> res Meta.
Variable metadata_eqb : Meta -> Meta -> bool.

Variable re_compile : string -> option Regex.
Variable re_match : Regex -> string -> bool.

Lemma group_by_filename_fold (abn : list (string * list Asset)) :
  group_by_filename filename abn
  = fold_left (add_to_group filename) (discovered abn) [].
Proof.
  unfold group_by_filename, discovered. generalize (@nil (string * list (string * Asset))).
  induction abn as [|[name assets] abn IH]; intros acc; simpl; [reflexivity|].
  rewrite fold_left_app, fold_left_map_list. apply IH.
Qed.

Lemma filter_same_file_snoc file l (x : string * Asset) :
  filter (same_file filename file) (l ++ [x])
  = filter (same_file filename file) l ++
    (if String.eqb (filename (snd x)) file then [x] else []).
Proof.
  rewrite filter_app. simpl. unfold same_file at 2.
  now destruct (String.eqb (filename (snd x)) file).
Qed.

(** The groups are the non-empty lists [produced file], one for each file. *)
Lemma groups_of_discovered (l : list (string * Asset)) :
  NoDup (keys (fold_left (add_to_group filename) l [])) /\
  forall file,
    assoc_get file (fold_left (add_to_group filename) l [])
    = match filter (same_file filename file) l with
      | [] => None
      | g => Some g
      end.
Proof.
  induction l as [|x l IH] using rev_ind.
  - simpl. split; [constructor | reflexivity].
  - destruct IH as [Hnd Hget]. rewrite fold_left_app. simpl.
    set (G := fold_left (add_to_group filename) l []) in *.
    unfold add_to_group. set (k := filename (snd x)).
    split.
    + rewrite keys_assoc_set.
      destruct (string_mem k (keys G)) eqn:Hmem; [assumption|].
      apply string_mem_false in Hmem.
      apply NoDup_app; auto.
      * constructor; [intros []|constructor].
      * intros y Hy [<-|[]]. contradiction.
    + intros file. rewrite filter_same_file_snoc. fold k.
      destruct (String.eqb k file) eqn:E.
      * apply String.eqb_eq in E. subst file.
        rewrite assoc_get_set_same, (Hget k).
        destruct (filter (same_file filename k) l); reflexivity.
      * apply String.eqb_neq in E.
        rewrite assoc_get_set_other by congruence.
        rewrite app_nil_r. apply Hget.
Qed.

Lemma group_by_filename_spec (abn : list (string * list Asset)) :
  NoDup (keys (group_by_filename filename abn)) /\
  forall file g,
    In (file, g) (group_by_filename filename abn) <->
    g = produced filename abn file /\ g <> [].
Proof.
  rewrite group_by_filename_fold.
  destruct (groups_of_discovered (discovered abn)) as [Hnd Hget].
  split; [assumption|]. intros file g. unfold produced. split.
  - intros Hin. apply (assoc_get_NoDup _ _ _ Hnd) in Hin.
    rewrite Hget in Hin.
    destruct (filter (same_file filename file) (discovered abn)) eqn:E;
      [discriminate|].
    injection Hin as <-. split; [reflexivity | discriminate].
  - intros [-> Hne]. apply assoc_get_In. rewrite Hget.
    destruct (filter (same_file filename file) (discovered abn));
      [contradiction | reflexivity].
Qed.

(** ** Package resolution: the duplicate check *)

Lemma neighbours_differ_cons a b l n :
  neighbours_differ importer_metadata metadata_eqb (a :: b :: l) n <->
  (differ importer_metadata metadata_eqb (snd a) (snd b) /\
   (n = fst a \/ n = fst b)) \/
  neighbours_differ importer_metadata metadata_eqb (b :: l) n.
Proof.
  unfold neighbours_differ. split.
  - intros (before & x & y & after & Heq & Hne & Hn).
    destruct before as [|z before]; simpl in Heq.
    + injection Heq as <- <- <-. now left.
    + injection Heq as <- Heq. right. exists before, x, y, after. auto.
  - intros [[Hne Hn]|(before & x & y & after & Heq & Hne & Hn)].
    + exists [], a, b, l. auto.
    + exists (a :: before), x, y, after. rewrite Heq. auto.
Qed.

Lemma neighbours_differ_short l n :
  List.length l <= 1 -> ~ neighbours_differ importer_metadata metadata_eqb l n.
Proof.
  intros Hlen (before & x & y & after & -> & _).
  rewrite length_app in Hlen. simpl in Hlen. lia.
Qed.

Lemma differing_after_previous : forall g previous,
  readable importer_metadata (previous :: g) ->
  exists names,
    differing_metadata_packages importer_metadata metadata_eqb
                                (Some previous) g = Ok names /\
    forall n, In n names <->
              neighbours_differ importer_metadata metadata_eqb (previous :: g) n.
Proof.
  induction g as [|[package_name asset] g IH]; intros [previous_name previous_asset] Hr.
  - exists []. split; [reflexivity|]. intros n. split; [intros []|].
    apply neighbours_differ_short. simpl. lia.
  - destruct (IH (package_name, asset)) as (more & Hmore & Hspec).
    { intros pa Hpa. apply Hr. now right. }
    destruct (Hr (previous_name, previous_asset) (or_introl eq_refl))
      as [Hname [m1 Hm1]].
    destruct (Hr (package_name, asset) (or_intror (or_introl eq_refl)))
      as [_ [m2 Hm2]].
    simpl in Hname, Hm1, Hm2. apply String.eqb_neq in Hname.
    assert (Hdiffer :
      differ importer_metadata metadata_eqb previous_asset asset <->
      metadata_eqb m1 m2 = false).
    { unfold differ. split.
      - intros (ma & mb & Ha & Hb & Hab). congruence.
      - intros H. now exists m1, m2. }
    simpl. rewrite Hname, Hm1, Hm2, Hmore. simpl.
    destruct (metadata_eqb m1 m2) eqn:Heq; simpl.
    + exists more. split; [reflexivity|]. intros n.
      rewrite neighbours_differ_cons, Hspec. simpl.
      split; [auto|]. intros [[Hd _]|H]; [|assumption].
      apply Hdiffer in Hd. discriminate.
    + eexists. split; [reflexivity|]. intros n.
      rewrite neighbours_differ_cons. simpl. rewrite Hspec.
      split.
      * intros [<-|[<-|H]]; auto; left; (split; [now apply Hdiffer|auto]).
      * intros [[_ [->| ->]]|H]; auto.
Qed.

Lemma differing_of_group g :
  readable importer_metadata g ->
  exists names,
    differing_metadata_packages importer_metadata metadata_eqb None g
      = Ok names /\
    forall n, In n names <-> neighbours_differ importer_metadata metadata_eqb g n.
Proof.
  destruct g as [|[package_name asset] g]; intros Hr.
  - exists []. split; [reflexivity|]. intros n. split; [intros []|].
    apply neighbours_differ_short. simpl. lia.
  - destruct (differing_after_previous g (package_name, asset) Hr)
      as (names & Hnames & Hspec).
    exists names. split; [|assumption]. simpl. now rewrite Hnames.
Qed.

Lemma neighbours_in_group g n :
  neighbours_differ importer_metadata metadata_eqb g n ->
  exists a b, In a g /\ In b g /\
              differ importer_metadata metadata_eqb (snd a) (snd b) /\
              (n = fst a \/ n = fst b).
Proof.
  intros (before & a & b & after & -> & Hne & Hn).
  exists a, b. repeat split; auto; apply in_or_app; right; simpl; auto.
Qed.


Lemma add_duplicate_error_step errors file g names :
  differing_metadata_packages importer_metadata metadata_eqb None g = Ok names ->
  add_duplicate_error importer_metadata metadata_eqb errors (file, g)
  = Ok (if Nat.leb (List.length g) 1 then errors
        else match names with
             | [] => errors
             | _ => errors ++ [(file, sorted_strings (dedupe names))]
             end).
Proof.
  intros H. unfold add_duplicate_error. rewrite H.
  destruct (Nat.leb (List.length g) 1); [reflexivity|].
  now destruct names.
Qed.

Lemma duplicate_assets_errors_from groups : forall acc,
  (forall file g, In (file, g) groups -> readable importer_metadata g) ->
  exists errors,
    res_fold (add_duplicate_error importer_metadata metadata_eqb) groups acc
      = Ok (acc ++ errors) /\
    forall error, In error errors <-> reported importer_metadata metadata_eqb groups error.
Proof.
  induction groups as [|[file g] groups IH]; intros acc Hr.
  - exists []. simpl. rewrite app_nil_r. split; [reflexivity|].
    intros error. split; [intros []|]. intros (g & names & [] & _).
  - destruct (differing_of_group g (Hr file g (or_introl eq_refl)))
      as (names & Hnames & Hspec).
    assert (Hrest : forall file g, In (file, g) groups ->
                                   readable importer_metadata g)
      by (intros; eapply Hr; right; eassumption).
    assert (Hshort : List.length g <= 1 -> names = []).
    { intros Hlen. destruct names as [|n names]; [reflexivity|].
      exfalso. apply (neighbours_differ_short g n Hlen).
      apply Hspec. now left. }
    cbn [res_fold]. rewrite (add_duplicate_error_step acc file g names Hnames).
    assert (Hskip : forall errors,
      names = [] ->
      (forall error, In error errors <-> reported importer_metadata metadata_eqb groups error) ->
      forall error, In error errors <-> reported importer_metadata metadata_eqb ((file, g) :: groups) error).
    { intros errors Hnil Herr error. rewrite Herr. split.
      - intros (g' & names' & Hin & Hd & Hne & Hs).
        exists g', names'. repeat split; auto. now right.
      - intros (g' & names' & [Hin|Hin] & Hd & Hne & Hs).
        + injection Hin as _ Hg. subst g'. rewrite Hnames in Hd.
          injection Hd as Hd. subst names'. contradiction.
        + exists g', names'. auto. }
    destruct (Nat.leb (List.length g) 1) eqn:Hlen.
    + apply Nat.leb_le in Hlen.
      destruct (IH acc Hrest) as (errors & Hfold & Herr).
      exists errors. split; [assumption|]. apply Hskip; auto.
    + destruct names as [|n names].
      * destruct (IH acc Hrest) as (errors & Hfold & Herr).
        exists errors. split; [assumption|]. apply Hskip; auto.
      * destruct (IH (acc ++ [(file, sorted_strings (dedupe (n :: names)))])
                     Hrest) as (errors & Hfold & Herr).
        exists ((file, sorted_strings (dedupe (n :: names))) :: errors).
        split.
        -- rewrite Hfold, <- app_assoc. reflexivity.
        -- intros error. simpl In. rewrite Herr. split.
           ++ intros [<-|(g' & names' & Hin & Hd & Hne & Hs)].
              ** exists g, (n :: names).
                 repeat split; auto; [now left | discriminate].
              ** exists g', names'. repeat split; auto. now right.
           ++ intros (g' & names' & [Hin|Hin] & Hd & Hne & Hs).
              ** injection Hin as Hf Hg. subst g'. rewrite Hnames in Hd.
                 injection Hd as Hd. subst names'. left.
                 destruct error. simpl in *. now subst.
              ** right. exists g', names'. auto.
Qed.

Lemma duplicate_assets_errors_spec groups :
  (forall file g, In (file, g) groups -> readable importer_metadata g) ->
  exists errors,
    duplicate_assets_errors importer_metadata metadata_eqb groups = Ok errors /\
    forall error, In error errors <-> reported importer_metadata metadata_eqb groups error.
Proof.
  intros Hr. destruct (duplicate_assets_errors_from groups [] Hr)
    as (errors & Hfold & Herr).
  exists errors. split; [exact Hfold | exact Herr].
Qed.

(** ** [find_assets] *)

Lemma find_assets_unfold fuel project self check_for_duplicates for_upm :
  find_assets filename importer_metadata metadata_eqb re_compile re_match
              (S fuel) project self check_for_duplicates for_upm
  = match collect_assets filename importer_metadata metadata_eqb
                         re_compile re_match fuel project self for_upm with
    | Ok assets_by_package_name =>
        resolve_assets filename importer_metadata metadata_eqb
                       re_compile re_match self check_for_duplicates
                       assets_by_package_name
    | Raise e => Raise e
    end.
Proof.
  unfold collect_assets. cbn [find_assets].
  destruct (own_assets project self for_upm) as [own|e]; [|reflexivity].
  destruct for_upm; [reflexivity|].
  destruct (includes (S fuel) project self) as [included|e]; reflexivity.
Qed.

Lemma produced_in_discovered abn file a :
  In a (produced filename abn file) ->
  In a (discovered abn) /\ filename (snd a) = file.
Proof.
  unfold produced. rewrite filter_In. unfold same_file.
  intros [Hin Heq]. apply String.eqb_eq in Heq. auto.
Qed.

Lemma readable_produced abn file :
  readable importer_metadata (discovered abn) ->
  readable importer_metadata (produced filename abn file).
Proof.
  intros Hr pa Hpa. apply Hr. now apply produced_in_discovered in Hpa.
Qed.

(** The files that the duplicate check reports are the files in which two
    neighbours differ, and the names listed with a file are the packages of
    these neighbours. *)
Lemma duplicate_assets_errors_of_groups abn :
  readable importer_metadata (discovered abn) ->
  exists errors,
    duplicate_assets_errors importer_metadata metadata_eqb
      (group_by_filename filename abn) = Ok errors /\
    (forall file, In file (map fst errors) <->
                  adjacent_conflict filename importer_metadata metadata_eqb
                                    abn file) /\
    (forall file names, In (file, names) errors ->
       forall n, In n names <->
                 neighbours_differ importer_metadata metadata_eqb
                                   (produced filename abn file) n).
Proof.
  intros Hr.
  destruct (group_by_filename_spec abn) as [Hnd Hgroups].
  destruct (duplicate_assets_errors_spec (group_by_filename filename abn))
    as (errors & Herrors & Hreported).
  { intros file g Hin. apply Hgroups in Hin as [-> _].
    now apply readable_produced. }
  exists errors. split; [assumption|]. split.
  - intros file. rewrite in_map_iff. unfold adjacent_conflict. split.
    + intros ([file' names] & Hfst & Hin). simpl in Hfst. subst file'.
      apply Hreported in Hin as (g & names0 & Hg & Hd & Hne & _).
      simpl in Hg. apply Hgroups in Hg as [-> _].
      destruct (differing_of_group _ (readable_produced abn file Hr))
        as (names1 & Hd1 & Hspec).
      rewrite Hd in Hd1. injection Hd1 as <-.
      destruct names0 as [|n names0]; [contradiction|].
      exists n. apply Hspec. now left.
    + intros (n & Hn).
      set (g := produced filename abn file) in *.
      assert (Hg : In (file, g) (group_by_filename filename abn)).
      { apply Hgroups. split; [reflexivity|]. intros Hnil.
        apply (neighbours_differ_short g n); [rewrite Hnil; simpl; lia|].
        exact Hn. }
      destruct (differing_of_group g (readable_produced abn file Hr))
        as (names & Hd & Hspec).
      exists (file, sorted_strings (dedupe names)). split; [reflexivity|].
      apply Hreported. exists g, names. repeat split; auto.
      intros ->. apply Hspec in Hn. contradiction.
  - intros file names Hin n.
    apply Hreported in Hin as (g & names0 & Hg & Hd & Hne & Hs).
    simpl in Hg, Hs. apply Hgroups in Hg as [-> _]. subst names.
    destruct (differing_of_group _ (readable_produced abn file Hr))
      as (names1 & Hd1 & Hspec).
    rewrite Hd in Hd1. injection Hd1 as <-.
    now rewrite In_sorted_strings, In_dedupe.
Qed.

Lemma compile_exclusions_outcome patterns m :
  res_map (fun path =>
             match re_compile path with
             | Some exclude_path => Ok exclude_path
             | None => Raise (ReError path)
             end) patterns <> Raise (ProjectConfigurationError m).
Proof.
  induction patterns as [|path patterns IH]; simpl; [discriminate|].
  destruct (re_compile path); [|discriminate].
  destruct (res_map _ patterns); [discriminate|].
  intros [= ->]. now apply IH.
Qed.

Lemma resolve_assets_not_strict self abn m :
  readable importer_metadata (discovered abn) ->
  resolve_assets filename importer_metadata metadata_eqb re_compile re_match
                 self false abn <> Raise (ProjectConfigurationError m).
Proof.
  intros Hr. unfold resolve_assets.
  destruct (duplicate_assets_errors_of_groups abn Hr) as (errors & -> & _).
  simpl andb. cbv iota.
  pose proof (compile_exclusions_outcome (pc_exclude_paths self) m) as Hc.
  destruct (res_map _ (pc_exclude_paths self)); [discriminate|].
  intros [= ->]. now apply Hc.
Qed.

(** C2 (amended).  When the assets of a package and of its includes have
    been collected and their metadata can be read, the direct call of
    [find_assets], which checks for duplicates, raises
    [ProjectConfigurationError] exactly when, for some export path, two
    resolved assets that are discovered one right after the other among
    the assets producing that path have effective metadata that differ
    ([!=]).  Such a path is produced by two assets with different metadata;
    differing assets that are never neighbours are not looked for.  The
    error lists exactly the export paths with differing neighbours; with
    each path it names the packages of these neighbours, all of them
    contributors of the path.  The call made for an included package,
    without the check, never raises this error. *)
Theorem find_assets_duplicate_check :
  forall fuel project self for_upm assets_by_package_name,
    collect_assets filename importer_metadata metadata_eqb re_compile re_match
                   fuel project self for_upm = Ok assets_by_package_name ->
    readable importer_metadata (discovered assets_by_package_name) ->
    ((exists file,
        adjacent_conflict filename importer_metadata metadata_eqb
                          assets_by_package_name file) <->
     (exists m,
        find_assets filename importer_metadata metadata_eqb re_compile re_match
                    (S fuel) project self true for_upm
        = Raise (ProjectConfigurationError m))) /\
    (forall file,
       adjacent_conflict filename importer_metadata metadata_eqb
                         assets_by_package_name file ->
       conflicting filename importer_metadata metadata_eqb
                   assets_by_package_name file) /\
    (forall m,
       find_assets filename importer_metadata metadata_eqb re_compile re_match
                   (S fuel) project self true for_upm
       = Raise (ProjectConfigurationError m) ->
       exists errors,
         m = DifferentImportSettings errors /\
         (forall file,
            In file (map fst errors) <->
            adjacent_conflict filename importer_metadata metadata_eqb
                              assets_by_package_name file) /\
         (forall file names, In (file, names) errors ->
            forall n,
              (In n names <->
               neighbours_differ importer_metadata metadata_eqb
                 (produced filename assets_by_package_name file) n) /\
              (In n names ->
               contributes filename assets_by_package_name file n))) /\
    (forall m,
       find_assets filename importer_metadata metadata_eqb re_compile re_match
                   (S fuel) project self false for_upm
       <> Raise (ProjectConfigurationError m)).
Proof.
  intros fuel project self for_upm abn Hcollect Hr.
  rewrite !find_assets_unfold, Hcollect.
  split; [|split; [|split]]; [| | |intros m; now apply resolve_assets_not_strict].
  - unfold resolve_assets.
    destruct (duplicate_assets_errors_of_groups abn Hr)
      as (errors & -> & Hfiles & _).
    destruct errors as [|[file names] errors]; simpl andb; cbv iota.
    + split.
      * intros [file Hc]. apply Hfiles in Hc. contradiction.
      * intros [m Hm]. exfalso.
        pose proof (compile_exclusions_outcome (pc_exclude_paths self) m) as Hc.
        destruct (res_map _ (pc_exclude_paths self)); [discriminate|].
        injection Hm as ->. now apply Hc.
    + split; [eauto|]. intros _. exists file. apply Hfiles. now left.
  - intros file (n & Hn).
    destruct (neighbours_in_group _ n Hn) as (a & b & Ha & Hb & Hdiff & _).
    exists a, b. auto.
  - intros m Hm. unfold resolve_assets in Hm.
    destruct (duplicate_assets_errors_of_groups abn Hr)
      as (errors & Heq & Hfiles & Hnames).
    rewrite Heq in Hm.
    destruct errors as [|error errors]; simpl andb in Hm; cbv iota in Hm.
    + exfalso.
      pose proof (compile_exclusions_outcome (pc_exclude_paths self) m) as Hc.
      destruct (res_map _ (pc_exclude_paths self)); [discriminate|].
      injection Hm as ->. now apply Hc.
    + injection Hm as <-. eexists. split; [reflexivity|].
      split; [assumption|]. intros file names Hin n.
      split; [now apply Hnames|]. intros Hn.
      apply (Hnames file names Hin) in Hn.
      destruct (neighbours_in_group _ n Hn)
        as ([na a] & [nb b] & Ha & Hb & _ & [->| ->]); simpl.
      * now exists a.
      * now exists b.
Qed.

(** ** The returned list *)


Lemma insert_by_filename_perm a l :
  Permutation (insert_by_filename filename a l) (a :: l).
Proof.
  induction l as [|b l IH]; simpl; [reflexivity|].
  destruct (String.leb (filename a) (filename b)); [reflexivity|].
  rewrite IH. apply perm_swap.
Qed.

Lemma sorted_by_filename_perm l :
  Permutation (sorted_by_filename filename l) l.
Proof.
  induction l as [|a l IH]; simpl; [reflexivity|].
  rewrite insert_by_filename_perm. now constructor.
Qed.

Lemma insert_by_filename_sorted a l :
  StronglySorted (by_filename filename) l ->
  StronglySorted (by_filename filename) (insert_by_filename filename a l).
Proof.
  induction 1 as [|b l Hl IH Hb]; simpl.
  - repeat constructor.
  - destruct (String.leb (filename a) (filename b)) eqn:E.
    + constructor; [now constructor|]. constructor; [exact E|].
      eapply Forall_impl; [|exact Hb]. intros c Hc. unfold by_filename in *.
      eapply string_leb_trans; eassumption.
    + constructor; [assumption|].
      apply Forall_forall. intros c Hc.
      apply (Permutation_in _ (insert_by_filename_perm a l)) in Hc.
      destruct Hc as [<-|Hc].
      * now apply string_leb_false_flip.
      * exact (proj1 (Forall_forall _ _) Hb c Hc).
Qed.

Lemma sorted_by_filename_sorted l :
  StronglySorted (by_filename filename) (sorted_by_filename filename l).
Proof.
  induction l as [|a l IH]; simpl; [constructor|].
  now apply insert_by_filename_sorted.
Qed.


Lemma NoDup_map_filter {A B} (f : A -> B) (p : A -> bool) l :
  NoDup (map f l) -> NoDup (map f (filter p l)).
Proof.
  induction l as [|a l IH]; simpl; [auto|].
  intros H. inversion H as [|? ? Hnotin Hnd]; subst.
  destruct (p a); simpl; [|auto]. constructor; [|auto].
  intros Hin. apply Hnotin. apply in_map_iff in Hin as (b & Hb & Hin).
  apply filter_In in Hin as [Hin _]. apply in_map_iff. eauto.
Qed.





(** ** When the comparison of neighbours finds every conflict *)

Section EquivalentDocuments.

(** [==] on the documents that are compared is an equivalence relation. *)
Hypothesis metadata_eqb_refl : forall m, metadata_eqb m m = true.
Hypothesis metadata_eqb_sym :
  forall m1 m2, metadata_eqb m1 m2 = metadata_eqb m2 m1.
Hypothesis metadata_eqb_trans :
  forall m1 m2 m3,
    metadata_eqb m1 m2 = true -> metadata_eqb m2 m3 = true ->
    metadata_eqb m1 m3 = true.

(** With every document readable, two assets of a group differ only when
    two neighbours do. *)
Lemma neighbours_or_all_equal g :
  readable importer_metadata g ->
  (exists n, neighbours_differ importer_metadata metadata_eqb g n) \/
  (forall a b, In a g -> In b g ->
               ~ differ importer_metadata metadata_eqb (snd a) (snd b)).
Proof.
  induction g as [|a g IH]; intros Hr.
  - right. intros ? ? [].
  - destruct g as [|b g].
    + right. intros x y [<-|[]] [<-|[]] (ma & mb & Ha & Hb & Hab).
      rewrite Ha in Hb. injection Hb as <-.
      now rewrite metadata_eqb_refl in Hab.
    + destruct IH as [[n Hn]|Heq].
      { intros pa Hpa. apply Hr. now right. }
      * left. exists n. apply neighbours_differ_cons. now right.
      * destruct (Hr a (or_introl eq_refl)) as [_ [m1 Hm1]].
        destruct (Hr b (or_intror (or_introl eq_refl))) as [_ [m2 Hm2]].
        destruct (metadata_eqb m1 m2) eqn:Hm.
        -- right.
           assert (Hab : forall x, In x (a :: b :: g) ->
                     exists mx, importer_metadata (snd x) = Ok mx /\
                                metadata_eqb mx m2 = true).
           { intros x [<-|Hx]; [now exists m1|].
             destruct (Hr x (or_intror Hx)) as [_ [mx Hmx]].
             exists mx. split; [assumption|].
             destruct (metadata_eqb mx m2) eqn:E; [reflexivity|].
             exfalso. apply (Heq x b Hx (or_introl eq_refl)).
             now exists mx, m2. }
           intros x y Hx Hy (mx & my & Hmx & Hmy & Hxy).
           destruct (Hab x Hx) as (mx' & Hmx' & Ex).
           destruct (Hab y Hy) as (my' & Hmy' & Ey).
           rewrite Hmx in Hmx'. injection Hmx' as <-.
           rewrite Hmy in Hmy'. injection Hmy' as <-.
           rewrite metadata_eqb_sym in Ey.
           rewrite (metadata_eqb_trans mx m2 my Ex Ey) in Hxy. discriminate.
        -- left. exists (fst a). apply neighbours_differ_cons. left.
           split; [now exists m1, m2 | now left].
Qed.

(** With [==] an equivalence relation, a path produced by two assets with
    different metadata has two neighbours that differ: the duplicate check
    finds it. *)
Lemma conflicting_is_adjacent abn file :
  readable importer_metadata (discovered abn) ->
  conflicting filename importer_metadata metadata_eqb abn file ->
  adjacent_conflict filename importer_metadata metadata_eqb abn file.
Proof.
  intros Hr (a & b & Ha & Hb & Hdiff).
  destruct (neighbours_or_all_equal _ (readable_produced abn file Hr))
    as [Hn|Hall]; [exact Hn|].
  exfalso. exact (Hall a b Ha Hb Hdiff).
Qed.

End EquivalentDocuments.

End ResolutionFacts.

Lemma find_assets_duplicate_check_witness :
  (exists file,
     adjacent_conflict sample_filename sample_metadata String.eqb
                       TWO_PACKAGES_ASSETS file) <->
  (exists m,
     sample_find_assets 5 TWO_PACKAGES PACKAGE_A2 true false
     = Raise (ProjectConfigurationError m)).
Proof.
  refine (proj1 (find_assets_duplicate_check sample_filename sample_metadata
                   String.eqb literal_compile literal_match
                   4 TWO_PACKAGES PACKAGE_A2 false TWO_PACKAGES_ASSETS _ _)).
  - reflexivity.
  - intros pa Hpa. simpl in Hpa.
    repeat (destruct Hpa as [<-|Hpa]; [split; [discriminate | eexists; reflexivity]|]).
    contradiction.
Defined.

(** C2, as stated, does not hold: the error does not name every package
    that contributes the conflicting path.  A, B and C all import [p]; the
    metadata of A and of B are the same and differ from the metadata of C.
    The error names B and C only, although A contributes [p] with metadata
    that differ from those of C. *)
Lemma find_assets_names_counterexample :
  sample_collect_assets 4 THREE_PACKAGES PACKAGE_A false
    = Ok THREE_PACKAGES_ASSETS /\
  sample_find_assets 5 THREE_PACKAGES PACKAGE_A true false
    = Raise (ProjectConfigurationError
               (DifferentImportSettings [("p", ["B"; "C"])])) /\
  contributes sample_filename THREE_PACKAGES_ASSETS "p" "A" /\
  (exists a c,
     In ("A", a) (produced sample_filename THREE_PACKAGES_ASSETS "p") /\
     In ("C", c) (produced sample_filename THREE_PACKAGES_ASSETS "p") /\
     differ sample_metadata String.eqb a c) /\
  ~ In "A" ["B"; "C"].
Proof.
  split; [reflexivity|]. split; [reflexivity|]. split; [|split].
  - exists ("p", "m1"). simpl. auto.
  - exists ("p", "m1"), ("p", "m2"). simpl. repeat split; auto.
    exists "m1", "m2". repeat split; reflexivity.
  - simpl. intuition discriminate.
Qed.

(** Differing assets that are not neighbours are not found.  [==] is not
    transitive on documents that mix [dict] and [OrderedDict]: X, Y and Z
    import [p]; the document of Y equals the document of X and the document
    of Z, which differ, so that [p] is in conflict.  The check compares X
    with Y and Y with Z, and [find_assets] returns. *)
Example find_assets_compares_neighbours_only :
  py_eq MIXED_X MIXED_Y = true /\
  py_eq MIXED_Y MIXED_Z = true /\
  py_eq MIXED_X MIXED_Z = false /\
  collect_assets fst document_metadata py_eq literal_compile literal_match
                 4 MIXED_PROJECT PACKAGE_MIXED_X false
    = Ok MIXED_ASSETS /\
  conflicting fst document_metadata py_eq MIXED_ASSETS "p" /\
  find_assets fst document_metadata py_eq literal_compile literal_match
              5 MIXED_PROJECT PACKAGE_MIXED_X true false
    = Ok [("p", MIXED_X)].
Proof.
  repeat split; try (vm_compute; reflexivity).
  exists ("X", ("p", MIXED_X)), ("Z", ("p", MIXED_Z)).
  repeat split; [simpl; auto | simpl; auto |].
  exists MIXED_X, MIXED_Z. repeat split.
Qed.


(* ------------------------------------------------------------------ *)
(** ** Scenarios *)

(** [test_merge_first_second]: records merge by their ["first"] entry. *)
Example merge_first_second :
  merge_ordered_dicts py_str MERGE_INTO_V2 MERGE_FROM_V2
  = od [("PluginImporter",
         od [("platformData",
              VList [cpu_record "Any" VNone 0 "AnyCPU";
                     cpu_record "Standalone" (VStr "Linux") 1 "x86";
                     cpu_record "Standalone" (VStr "Windows") 1 "x86_64"])])].
Proof. vm_compute. reflexivity. Qed.

Ltac prove_wf :=
  simpl; repeat split; try exact I;
  repeat (constructor; [simpl; intuition discriminate|]); try constructor.

Lemma wf_value_ANY_ENABLED_V2 : wf_value ANY_ENABLED_V2.
Proof. prove_wf. Qed.

Lemma wf_value_TEMPLATE : wf_value PLUGIN_IMPORTER_METADATA_TEMPLATE.
Proof. prove_wf. Qed.

Lemma merge_ordered_dicts_empty_identity_witness :
  (forall c, merge_ordered_dicts py_str ANY_ENABLED_V2 (VDict c [])
             = ANY_ENABLED_V2) /\
  (forall c, merge_ordered_dicts py_str (VDict c []) ANY_ENABLED_V2
             = VDict c (dict_items ANY_ENABLED_V2)) /\
  (forall c, py_eq (merge_ordered_dicts py_str (VDict c []) ANY_ENABLED_V2)
                   ANY_ENABLED_V2 = true) /\
  merge_ordered_dicts py_str (od []) ANY_ENABLED_V2 = ANY_ENABLED_V2.
Proof.
  exact (merge_ordered_dicts_empty_identity py_str OrderedDict
           (dict_items ANY_ENABLED_V2) wf_value_ANY_ENABLED_V2).
Defined.

(** The identity laws on the keyed-map template. *)
Example merge_template_identity :
  merge_ordered_dicts py_str PLUGIN_IMPORTER_METADATA_TEMPLATE (od [])
    = PLUGIN_IMPORTER_METADATA_TEMPLATE /\
  merge_ordered_dicts py_str (od []) PLUGIN_IMPORTER_METADATA_TEMPLATE
    = PLUGIN_IMPORTER_METADATA_TEMPLATE.
Proof. split; vm_compute; reflexivity. Qed.


(** The scenario of the sections: with no section selected only P1 is
    enabled; selecting "x" adds P2 and keeps P1; selecting "loop" enables
    two packages that include each other, the assignment raises and the
    project is as before. *)
Example selected_sections_scenario :
  keys (packages_by_name SECTIONS_PROJECT) = ["P1"] /\
  fst (set_selected_sections 5 SECTIONS_PROJECT ["x"]) = Ok tt /\
  keys (packages_by_name (snd (set_selected_sections 5 SECTIONS_PROJECT ["x"])))
    = ["P1"; "P2"] /\
  fst (set_selected_sections 5 SECTIONS_PROJECT ["loop"])
    = Raise (ProjectConfigurationError (CircularInclusion "X" ["X"; "Y"])) /\
  snd (set_selected_sections 5 SECTIONS_PROJECT ["loop"]) = SECTIONS_PROJECT.
Proof. repeat split. Qed.

(* ================================================================== *)
(** * The metadata view leaves the stored document alone *)

Module HeapFacts.

Import Heap.

(** ** The store *)

Lemma update_length (a : addr) (o : obj) (h : heap) :
  List.length (update a o h) = List.length h.
Proof.
  revert a; induction h as [|o' h IH]; intros [|a]; simpl; auto.
Qed.

Lemma update_app_r (a : addr) (o : obj) (l r : heap) :
  List.length l <= a ->
  update a o (l ++ r) = l ++ update (a - List.length l) o r.
Proof.
  revert a; induction l as [|o' l IH]; intros a Ha; simpl in *.
  - now rewrite Nat.sub_0_r.
  - destruct a as [|a]; [lia|].
    simpl. now rewrite IH by lia.
Qed.

Lemma update_map (f : obj -> obj) (a : addr) (o : obj) (h : heap) :
  update a (f o) (map f h) = map f (update a o h).
Proof.
  revert a; induction h as [|o' h IH]; intros [|a]; simpl; auto.
  now rewrite IH.
Qed.

Lemma Forall_update (P : obj -> Prop) (a : addr) (o : obj) (h : heap) :
  P o -> Forall P h -> Forall P (update a o h).
Proof.
  intros Ho Hh; revert a; induction Hh as [|o' h Ho' Hh IH]; intros [|a];
    simpl; auto.
Qed.

Section Simulation.

Variables h0 x : heap.

Hypothesis h0_closed : Forall (obj_below (List.length h0)) h0.

Local Abbreviation rn_addr := (rn_addr h0 x).
Local Abbreviation rn := (rn h0 x).
Local Abbreviation rn_item := (rn_item h0 x).
Local Abbreviation rn_obj := (rn_obj h0 x).
Local Abbreviation local := (local h0).
Local Abbreviation obj_local := (obj_local h0).
Local Abbreviation raddr := (raddr h0 x).
Local Abbreviation vany := (vany h0 x).
Local Abbreviation vloc := (vloc h0 x).
Local Abbreviation oany := (oany h0 x).
Local Abbreviation oloc := (oloc h0 x).
Local Abbreviation lany := (lany h0 x).
Local Abbreviation lloc := (lloc h0 x).
Local Abbreviation iany := (iany h0 x).
Local Abbreviation iloc := (iloc h0 x).
Local Abbreviation rmemo := (rmemo h0 x).
Local Abbreviation srel := (srel h0 x).
Local Abbreviation sim := (sim h0 x).

(** ** Renaming *)

Lemma rn_addr_old (a : addr) : a < List.length h0 -> rn_addr a = a.
Proof.
  intros Ha; unfold Heap.rn_addr.
  destruct (Nat.ltb_spec a (List.length h0)); [reflexivity | lia].
Qed.

Lemma rn_addr_new (a : addr) :
  List.length h0 <= a -> rn_addr a = a + List.length x.
Proof.
  intros Ha; unfold Heap.rn_addr.
  destruct (Nat.ltb_spec a (List.length h0)); [lia | reflexivity].
Qed.

Lemma rn_addr_inj (a a' : addr) : rn_addr a = rn_addr a' -> a = a'.
Proof.
  unfold Heap.rn_addr.
  destruct (Nat.ltb_spec a (List.length h0)),
           (Nat.ltb_spec a' (List.length h0)); lia.
Qed.

Lemma below_mono (b b' : nat) (v : pyval) :
  b <= b' -> below b v -> below b' v.
Proof. destruct v; simpl; auto; lia. Qed.

Lemma local_mono (b b' : nat) (v : pyval) :
  b <= b' -> local b v -> local b' v.
Proof. destruct v; simpl; auto; lia. Qed.

Lemma local_below (b : nat) (v : pyval) : local b v -> below b v.
Proof. destruct v; simpl; auto; lia. Qed.

Lemma obj_local_mono (b b' : nat) (o : obj) :
  b <= b' -> obj_local b o -> obj_local b' o.
Proof.
  intros Hb Ho; unfold Heap.obj_local in *.
  eapply Forall_impl; [|exact Ho]. intros v; now apply local_mono.
Qed.

Lemma obj_below_mono (b b' : nat) (o : obj) :
  b <= b' -> obj_below b o -> obj_below b' o.
Proof.
  intros Hb Ho; unfold obj_below in *.
  eapply Forall_impl; [|exact Ho]. intros v; now apply below_mono.
Qed.

Lemma obj_local_below (b : nat) (o : obj) : obj_local b o -> obj_below b o.
Proof.
  intros Ho; unfold Heap.obj_local, obj_below in *.
  eapply Forall_impl; [|exact Ho]. intros v; now apply local_below.
Qed.

Lemma rn_old (v : pyval) : below (List.length h0) v -> rn v = v.
Proof.
  destruct v; simpl; auto. intros Ha; now rewrite rn_addr_old.
Qed.

Lemma map_rn_old (l : list pyval) :
  Forall (below (List.length h0)) l -> map rn l = l.
Proof.
  induction 1 as [|v l Hv Hl IH]; simpl; auto.
  now rewrite rn_old, IH.
Qed.

Lemma map_rn_item_old (items : list (string * pyval)) :
  Forall (below (List.length h0)) (map snd items) -> map rn_item items = items.
Proof.
  induction items as [|[key v] items IH]; simpl; auto.
  intros H; inversion H; subst. unfold Heap.rn_item at 1; simpl.
  now rewrite rn_old, IH.
Qed.

Lemma rn_obj_old (o : obj) : obj_below (List.length h0) o -> rn_obj o = o.
Proof.
  unfold obj_below; destruct o as [cls items|elements]; simpl; intros Ho.
  - now rewrite map_rn_item_old.
  - now rewrite map_rn_old.
Qed.

(** ** Monotone relations *)

Lemma monotone_req (A : Type) : monotone (@req A).
Proof. intros b b' a a' _ H; exact H. Qed.

Lemma monotone_raddr : monotone raddr.
Proof. intros b b' a a' Hb [Ha Hl]; split; auto; lia. Qed.

Lemma monotone_vany : monotone vany.
Proof. intros b b' v v' Hb [Hv Hl]; split; eauto using below_mono. Qed.

Lemma monotone_vloc : monotone vloc.
Proof. intros b b' v v' Hb [Hv Hl]; split; eauto using local_mono. Qed.

Lemma monotone_oany : monotone oany.
Proof. intros b b' v v' Hb [Hv Hl]; split; eauto using obj_below_mono. Qed.

Lemma monotone_oloc : monotone oloc.
Proof. intros b b' v v' Hb [Hv Hl]; split; eauto using obj_local_mono. Qed.

Lemma monotone_rpair (A B : Type) (RA : rel A) (RB : rel B) :
  monotone RA -> monotone RB -> monotone (rpair RA RB).
Proof. intros HA HB b b' p p' Hb [H1 H2]; split; eauto. Qed.

Lemma monotone_rlist (A : Type) (R : rel A) :
  monotone R -> monotone (rlist R).
Proof.
  intros HR b b' l l' Hb H; unfold rlist in *.
  induction H; constructor; eauto.
Qed.

Lemma monotone_rmemo : monotone rmemo.
Proof.
  intros b b' m m' Hb [Hm Hl]; split; auto.
  eapply Forall_impl; [|exact Hl]. simpl; intros; lia.
Qed.

(** ** Rules of the simulation *)

Lemma sim_ret (A : Type) (b : nat) (R : rel A) (a a' : A) :
  monotone R -> R b a a' -> sim b R (ret a) (ret a').
Proof.
  intros HR Ha s s' Hs Hb; simpl. repeat split; eauto.
Qed.

Lemma sim_raise (A : Type) (b : nat) (R : rel A) (e : exn) :
  sim b R (raise e) (raise e).
Proof. intros s s' Hs Hb; simpl. repeat split; auto. Qed.

Lemma sim_bind (A B : Type) (b : nat) (R : rel A) (Q : rel B)
    (m m' : M A) (f f' : A -> M B) :
  sim b R m m' ->
  (forall b' a a', b <= b' -> R b' a a' -> sim b' Q (f a) (f' a')) ->
  sim b Q (bind m f) (bind m' f').
Proof.
  intros Hm Hf s s' Hs Hb. unfold bind.
  specialize (Hm s s' Hs Hb).
  destruct (m s) as [[a|e] t], (m' s') as [[a'|e'] t']; simpl in *;
    destruct Hm as (Ht & Hlen & Hr); try contradiction.
  - specialize (Hf (List.length t) a a' ltac:(lia) Hr t t' Ht (le_n _)).
    destruct (f a t) as [r u], (f' a' t') as [r' u']; simpl in *.
    destruct Hf as (Hu & Hlen' & Hr'). repeat split; auto; lia.
  - repeat split; auto.
Qed.

Lemma sim_conseq (A : Type) (b : nat) (R Q : rel A) (m m' : M A) :
  (forall b' a a', b <= b' -> R b' a a' -> Q b' a a') ->
  sim b R m m' -> sim b Q m m'.
Proof.
  intros HRQ Hm s s' Hs Hb. specialize (Hm s s' Hs Hb).
  destruct (m s) as [[a|e] t], (m' s') as [[a'|e'] t']; simpl in *;
    destruct Hm as (Ht & Hlen & Hr); repeat split; auto.
  apply HRQ; [lia | exact Hr].
Qed.

Lemma sim_bound (A : Type) (b b' : nat) (R : rel A) (m m' : M A) :
  b <= b' -> sim b R m m' -> sim b' R m m'.
Proof. intros Hb Hm s s' Hs Hb'. apply Hm; [exact Hs | lia]. Qed.

Lemma sim_lift (A : Type) (b : nat) (R : rel A) (r r' : res A) :
  monotone R ->
  match r, r' with
  | Ok a, Ok a' => R b a a'
  | Raise e, Raise e' => e' = e
  | _, _ => False
  end ->
  sim b R (lift r) (lift r').
Proof.
  intros HR Hr s s' Hs Hb; unfold lift; simpl. repeat split; auto.
  destruct r, r'; eauto.
Qed.

(** ** The store operations *)

Lemma srel_length (s s' : heap) :
  srel s s' ->
  List.length h0 <= List.length s /\
  List.length s' = List.length s + List.length x.
Proof.
  intros (n & -> & -> & _). rewrite !length_app, length_map. lia.
Qed.

Lemma sim_new (b : nat) (o o' : obj) :
  oloc b o o' -> sim b raddr (new o) (new o').
Proof.
  intros [-> Ho] s s' Hs Hb. pose proof (srel_length _ _ Hs) as [Hn0 Hlen].
  destruct Hs as (n & Hs & Hs' & Hn). unfold new; simpl.
  rewrite length_app; simpl. repeat split; try lia.
  - exists (n ++ [o]). subst s s'. rewrite !length_app in *; simpl in *.
    rewrite map_app, <- !app_assoc. repeat split; auto.
    apply Forall_app; split.
    + eapply Forall_impl; [|exact Hn]. intros o'; apply obj_local_mono; lia.
    + constructor; [|constructor]. eapply obj_local_mono; [|exact Ho]. lia.
  - now rewrite rn_addr_new, Hlen by lia.
Qed.

Lemma sim_alloc (b : nat) (o o' : obj) :
  oloc b o o' -> sim b vloc (alloc o) (alloc o').
Proof.
  intros Ho. unfold alloc.
  eapply sim_bind; [apply sim_new; exact Ho|].
  intros b' a a' Hb [-> Ha].
  apply sim_ret; [apply monotone_vloc|]. split; [reflexivity | exact Ha].
Qed.

Lemma nth_error_new (n : heap) (a : addr) :
  List.length h0 <= a ->
  nth_error (h0 ++ x ++ map rn_obj n) (rn_addr a) =
  option_map rn_obj (nth_error (h0 ++ n) a).
Proof.
  intros Ha. rewrite rn_addr_new by exact Ha.
  rewrite !nth_error_app2 by lia.
  replace (a + List.length x - List.length h0 - List.length x)
    with (a - List.length h0) by lia.
  apply nth_error_map.
Qed.

Lemma sim_load_loc (b : nat) (a : addr) :
  List.length h0 <= a -> sim b oloc (load a) (load (rn_addr a)).
Proof.
  intros Ha s s' Hs Hb. unfold load.
  destruct Hs as (n & Hs & Hs' & Hn).
  assert (Hnth := nth_error_new n a Ha). rewrite <- Hs, <- Hs' in Hnth.
  rewrite Hnth.
  destruct (nth_error s a) as [o|] eqn:Ho; simpl.
  - repeat split; auto; [now exists n|].
    rewrite Hs in Ho. rewrite nth_error_app2 in Ho by exact Ha.
    apply nth_error_In in Ho.
    rewrite Forall_forall in Hn. now apply Hn.
  - repeat split; auto. now exists n.
Qed.

Lemma sim_load_any (b : nat) (a : addr) :
  sim b oany (load a) (load (rn_addr a)).
Proof.
  destruct (Nat.lt_ge_cases a (List.length h0)) as [Ha|Ha].
  - intros s s' Hs Hb. unfold load.
    pose proof (srel_length _ _ Hs) as [Hn0 Hlen].
    destruct Hs as (n & Hs & Hs' & Hn).
    rewrite rn_addr_old by exact Ha.
    assert (Hnth : nth_error s' a = nth_error s a).
    { subst s s'. now rewrite !nth_error_app1 by exact Ha. }
    rewrite Hnth.
    destruct (nth_error s a) as [o|] eqn:Ho; simpl.
    + assert (Hin : In o h0).
      { rewrite Hs in Ho. rewrite nth_error_app1 in Ho by exact Ha.
        eapply nth_error_In; eassumption. }
      rewrite Forall_forall in h0_closed. specialize (h0_closed o Hin).
      repeat split; auto; [now exists n | now rewrite rn_obj_old |].
      eapply obj_below_mono; [|exact h0_closed]. lia.
    + repeat split; auto. now exists n.
  - eapply sim_conseq; [|now apply sim_load_loc].
    intros b' o o' _ [Ho Hl]; split; auto using obj_local_below.
Qed.

Lemma sim_store (b : nat) (a : addr) (o o' : obj) :
  List.length h0 <= a -> oloc b o o' ->
  sim b req (store a o) (store (rn_addr a) o').
Proof.
  intros Ha [-> Ho] s s' Hs Hb. unfold store.
  pose proof (srel_length _ _ Hs) as [Hn0 Hlen].
  destruct Hs as (n & Hs & Hs' & Hn).
  rewrite rn_addr_new, Hlen by exact Ha.
  destruct (Nat.ltb_spec a (List.length s)) as [Hlt|Hge].
  - destruct (Nat.ltb_spec (a + List.length x)
                           (List.length s + List.length x)); [|lia].
    simpl. rewrite update_length. repeat split; auto.
    exists (update (a - List.length h0) o n). subst s s'.
    rewrite update_app_r by exact Ha.
    rewrite app_assoc, update_app_r by (rewrite length_app; lia).
    rewrite length_app.
    replace (a + List.length x - (List.length h0 + List.length x))
      with (a - List.length h0) by lia.
    rewrite update_map, <- app_assoc. repeat split; auto.
    rewrite length_app, update_length, <- length_app.
    apply Forall_update; [|exact Hn].
    eapply obj_local_mono; [|exact Ho]. exact Hb.
  - destruct (Nat.ltb_spec (a + List.length x)
                           (List.length s + List.length x)); [lia|].
    simpl. repeat split; auto. now exists n.
Qed.

(** ** Renaming and the operations on values *)

Lemma rn_is_none (v : pyval) : is_none (rn v) = is_none v.
Proof. destruct v; reflexivity. Qed.

Lemma rn_eq_int (v : pyval) (n : Z) : eq_int (rn v) n = eq_int v n.
Proof. destruct v; reflexivity. Qed.

Lemma rn_eq_str (v : pyval) (s : string) : eq_str (rn v) s = eq_str v s.
Proof. destruct v; reflexivity. Qed.

Lemma rn_hashable (v : pyval) : hashable (rn v) = hashable v.
Proof. destruct v; reflexivity. Qed.

Lemma rn_hashable_id (v : pyval) : hashable v = true -> rn v = v.
Proof. destruct v; simpl; auto; discriminate. Qed.

Lemma hashable_local (b : nat) (v : pyval) : hashable v = true -> local b v.
Proof. destruct v; simpl; auto; discriminate. Qed.

Lemma rn_assoc_get (key : string) (items : list (string * pyval)) :
  assoc_get key (map rn_item items) = option_map rn (assoc_get key items).
Proof.
  induction items as [|[key' v] items IH]; simpl; auto.
  destruct (String.eqb key key'); auto.
Qed.

Lemma rn_assoc_set (key : string) (v : pyval) (items : list (string * pyval)) :
  assoc_set key (rn v) (map rn_item items) =
  map rn_item (assoc_set key v items).
Proof.
  induction items as [|[key' v'] items IH]; simpl; auto.
  destruct (String.eqb key key'); simpl; auto.
  now rewrite IH.
Qed.

Lemma rn_assoc_del (key : string) (items : list (string * pyval)) :
  assoc_del key (map rn_item items) = map rn_item (assoc_del key items).
Proof.
  induction items as [|[key' v'] items IH]; simpl; auto.
  destruct (String.eqb key key'); simpl; auto.
  now rewrite IH.
Qed.

Lemma rn_keys (items : list (string * pyval)) :
  keys (map rn_item items) = keys items.
Proof.
  unfold keys. rewrite map_map. apply map_ext. now intros [key v].
Qed.

Lemma rn_snd (items : list (string * pyval)) :
  map snd (map rn_item items) = map rn (map snd items).
Proof. rewrite !map_map. apply map_ext. now intros [key v]. Qed.

Lemma rn_class_of_obj (o : obj) : class_of_obj (rn_obj o) = class_of_obj o.
Proof. destruct o as [[|] items|elements]; reflexivity. Qed.

Lemma local_assoc_get (P : pyval -> Prop) (key : string)
    (items : list (string * pyval)) (v : pyval) :
  Forall P (map snd items) -> assoc_get key items = Some v -> P v.
Proof.
  induction items as [|[key' v'] items IH]; simpl; [discriminate|].
  intros H; inversion H; subst.
  destruct (String.eqb key key'); [intros [= <-]|]; auto.
Qed.

Lemma local_assoc_set (P : pyval -> Prop) (key : string) (v : pyval)
    (items : list (string * pyval)) :
  P v -> Forall P (map snd items) ->
  Forall P (map snd (assoc_set key v items)).
Proof.
  intros Hv. induction items as [|[key' v'] items IH]; simpl; intros H.
  - constructor; auto.
  - inversion H; subst.
    destruct (String.eqb key key'); simpl; constructor; auto.
Qed.

Lemma local_assoc_del (P : pyval -> Prop) (key : string)
    (items : list (string * pyval)) :
  Forall P (map snd items) -> Forall P (map snd (assoc_del key items)).
Proof.
  induction items as [|[key' v'] items IH]; simpl; intros H; auto.
  inversion H; subst.
  destruct (String.eqb key key'); simpl; auto.
Qed.

Lemma vloc_scalar (b : nat) (v : pyval) : hashable v = true -> vloc b v v.
Proof.
  intros Hv; split; [now rewrite rn_hashable_id | now apply hashable_local].
Qed.

Lemma vloc_any (b : nat) (v v' : pyval) : vloc b v v' -> vany b v v'.
Proof. intros [Hv Hl]; split; auto using local_below. Qed.

Lemma lloc_Forall2 (b : nat) (l l' : list pyval) :
  lloc b l l' -> Forall2 (vloc b) l l'.
Proof.
  intros [-> Hl]. induction Hl; simpl; constructor; auto. now split.
Qed.

Lemma lany_Forall2 (b : nat) (l l' : list pyval) :
  lany b l l' -> Forall2 (vany b) l l'.
Proof.
  intros [-> Hl]. induction Hl; simpl; constructor; auto. now split.
Qed.

Lemma iloc_Forall2 (b : nat) (l l' : list (string * pyval)) :
  iloc b l l' -> Forall2 (rpair req vloc b) l l'.
Proof.
  intros [-> Hl]. induction l as [|[key v] l IH]; simpl; constructor.
  - inversion Hl; subst. split; simpl; [reflexivity | now split].
  - inversion Hl; subst. auto.
Qed.

Lemma iany_Forall2 (b : nat) (l l' : list (string * pyval)) :
  iany b l l' -> Forall2 (rpair req vany b) l l'.
Proof.
  intros [-> Hl]. induction l as [|[key v] l IH]; simpl; constructor.
  - inversion Hl; subst. split; simpl; [reflexivity | now split].
  - inversion Hl; subst. auto.
Qed.

Lemma monotone_lloc : monotone lloc.
Proof.
  intros b b' l l' Hb [Hl Hf]; split; auto.
  eapply Forall_impl; [|exact Hf]. intros v; now apply local_mono.
Qed.

Lemma monotone_iloc : monotone iloc.
Proof.
  intros b b' l l' Hb [Hl Hf]; split; auto.
  eapply Forall_impl; [|exact Hf]. intros v; now apply local_mono.
Qed.

(** ** The operations of Python objects *)

Lemma sim_load_value (b : nat) (a : addr) :
  local b (PRef a) -> sim b oloc (load a) (load (rn_addr a)).
Proof. simpl; intros Ha. apply sim_load_loc; lia. Qed.

Lemma sim_class_of (b : nat) (v v' : pyval) :
  vloc b v v' -> sim b req (class_of v) (class_of v').
Proof.
  intros [-> Hv]. destruct v; simpl;
    try (apply sim_ret; [apply monotone_req | reflexivity]).
  eapply sim_bind; [now apply sim_load_value|].
  intros b' o o' Hb [-> Ho].
  apply sim_ret; [apply monotone_req | apply rn_class_of_obj].
Qed.

Lemma sim_truthy (b : nat) (v v' : pyval) :
  vloc b v v' -> sim b req (truthy v) (truthy v').
Proof.
  intros [-> Hv]. destruct v; simpl;
    try (apply sim_ret; [apply monotone_req | reflexivity]).
  eapply sim_bind; [now apply sim_load_value|].
  intros b' o o' Hb [-> Ho].
  apply sim_ret; [apply monotone_req |].
  unfold req. destruct o as [cls [|item items]|[|element elements]];
    reflexivity.
Qed.

Lemma sim_get (b : nat) (v v' : pyval) (key : string) (d d' : pyval) :
  vloc b v v' -> vloc b d d' -> sim b vloc (get v key d) (get v' key d').
Proof.
  intros [-> Hv] [-> Hd]. destruct v; simpl; try apply sim_raise.
  eapply sim_bind; [now apply sim_load_value|].
  intros b' o o' Hb [-> Ho].
  destruct o as [cls items|elements]; simpl; [|apply sim_raise].
  apply sim_ret; [apply monotone_vloc|].
  rewrite rn_assoc_get.
  destruct (assoc_get key items) as [value|] eqn:Hget; simpl; split; auto.
  - eapply local_assoc_get; eassumption.
  - eapply local_mono; eassumption.
Qed.

Lemma sim_setitem (b : nat) (v v' : pyval) (key : string) (y y' : pyval) :
  vloc b v v' -> vloc b y y' ->
  sim b req (setitem v key y) (setitem v' key y').
Proof.
  intros [-> Hv] [-> Hy]. destruct v; simpl; try apply sim_raise.
  eapply sim_bind; [now apply sim_load_value|].
  intros b' o o' Hb [-> Ho].
  destruct o as [cls items|elements]; simpl; [|apply sim_raise].
  apply sim_store; [simpl in Hv; lia|].
  split; simpl; [now rewrite rn_assoc_set|].
  apply local_assoc_set; [eapply local_mono; eassumption | exact Ho].
Qed.

Lemma sim_delitem (b : nat) (v v' : pyval) (key : string) :
  vloc b v v' -> sim b req (delitem v key) (delitem v' key).
Proof.
  intros [-> Hv]. destruct v; simpl; try apply sim_raise.
  eapply sim_bind; [now apply sim_load_value|].
  intros b' o o' Hb [-> Ho].
  destruct o as [cls items|elements]; simpl; [|apply sim_raise].
  rewrite rn_assoc_get.
  destruct (assoc_get key items) as [value|]; simpl; [|apply sim_raise].
  apply sim_store; [simpl in Hv; lia|].
  split; simpl; [now rewrite rn_assoc_del|].
  apply local_assoc_del; exact Ho.
Qed.

Lemma sim_items (b : nat) (v v' : pyval) :
  vloc b v v' -> sim b iloc (items v) (items v').
Proof.
  intros [-> Hv]. destruct v; simpl; try apply sim_raise.
  eapply sim_bind; [now apply sim_load_value|].
  intros b' o o' Hb [-> Ho].
  destruct o as [cls items|elements]; simpl; [|apply sim_raise].
  apply sim_ret; [apply monotone_iloc | now split].
Qed.

Lemma rn_characters (s : string) : map rn (characters s) = characters s.
Proof. induction s; simpl; auto. now rewrite IHs. Qed.

Lemma local_characters (b : nat) (s : string) :
  Forall (local b) (characters s).
Proof. induction s; simpl; constructor; simpl; auto. Qed.

Lemma sim_elements (b : nat) (v v' : pyval) :
  vloc b v v' -> sim b lloc (elements v) (elements v').
Proof.
  intros [-> Hv]. destruct v; simpl; try apply sim_raise.
  - apply sim_ret; [apply monotone_lloc|].
    split; [now rewrite rn_characters | apply local_characters].
  - eapply sim_bind; [now apply sim_load_value|].
    intros b' o o' Hb [-> Ho].
    destruct o as [cls items|elements]; simpl.
    + apply sim_ret; [apply monotone_lloc|]. rewrite rn_keys.
      split.
      * rewrite map_map. reflexivity.
      * apply Forall_forall. intros v Hin.
        apply in_map_iff in Hin as (key & <- & _). exact I.
    + apply sim_ret; [apply monotone_lloc | now split].
Qed.

Lemma sim_append (b : nat) (v v' y y' : pyval) :
  vloc b v v' -> vloc b y y' -> sim b req (append v y) (append v' y').
Proof.
  intros [-> Hv] [-> Hy]. destruct v; simpl; try apply sim_raise.
  eapply sim_bind; [now apply sim_load_value|].
  intros b' o o' Hb [-> Ho].
  destruct o as [cls items|elements]; simpl; [apply sim_raise|].
  apply sim_store; [simpl in Hv; lia|].
  split; simpl; [now rewrite map_app|].
  apply Forall_app; split; [exact Ho|].
  constructor; [eapply local_mono; eassumption | constructor].
Qed.

Lemma sim_contains (b : nat) (v v' : pyval) (key : string) :
  vloc b v v' -> sim b req (contains v key) (contains v' key).
Proof.
  intros [-> Hv]. destruct v; simpl; try apply sim_raise.
  - apply sim_ret; [apply monotone_req | reflexivity].
  - eapply sim_bind; [now apply sim_load_value|].
    intros b' o o' Hb [-> Ho].
    destruct o as [cls items|elements]; simpl.
    + apply sim_ret; [apply monotone_req|]. unfold req. now rewrite rn_keys.
    + apply sim_ret; [apply monotone_req|]. unfold req.
      clear Ho. induction elements as [|v elements IH]; simpl; auto.
      now rewrite rn_eq_str, IH.
Qed.

(** ** Loops *)

Lemma sim_mfold (A B : Type) (RA : rel A) (RB : rel B)
    (f f' : A -> B -> M A) (b : nat) :
  monotone RA -> monotone RB ->
  (forall b' a a' y y',
      b <= b' -> RA b' a a' -> RB b' y y' -> sim b' RA (f a y) (f' a' y')) ->
  forall l l' a a',
    Forall2 (RB b) l l' -> RA b a a' ->
    sim b RA (mfold f l a) (mfold f' l' a').
Proof.
  intros HA HB Hf l l' a a' Hl. revert a a'.
  assert (Hgen : forall b', b <= b' -> forall a a',
             RA b' a a' -> sim b' RA (mfold f l a) (mfold f' l' a')).
  { induction Hl as [|y y' l l' Hy Hl IH]; intros b' Hb a a' Ha; simpl.
    - now apply sim_ret.
    - eapply sim_bind; [apply Hf; eauto|].
      intros b'' a1 a1' Hb' Ha1. apply IH; [lia | exact Ha1]. }
  intros a a' Ha. now apply Hgen.
Qed.

Lemma sim_mfor (B : Type) (RB : rel B) (f f' : B -> M unit) (b : nat) :
  monotone RB ->
  (forall b' y y', b <= b' -> RB b' y y' -> sim b' req (f y) (f' y')) ->
  forall l l', Forall2 (RB b) l l' -> sim b req (mfor f l) (mfor f' l').
Proof.
  intros HB Hf l l' Hl.
  assert (Hgen : forall b', b <= b' -> sim b' req (mfor f l) (mfor f' l')).
  { induction Hl as [|y y' l l' Hy Hl IH]; intros b' Hb; simpl.
    - apply sim_ret; [apply monotone_req | reflexivity].
    - eapply sim_bind; [apply Hf; eauto|].
      intros b'' [] [] Hb' _. apply IH; lia. }
  now apply Hgen.
Qed.

Lemma Forall2_req (B : Type) (b : nat) (l : list B) : Forall2 (@req B b) l l.
Proof. induction l; constructor; auto. reflexivity. Qed.

(** ** Steps of a simulation proof *)

Ltac mono_tac :=
  repeat first
    [ apply monotone_req | apply monotone_vloc | apply monotone_vany
    | apply monotone_lloc | apply monotone_iloc | apply monotone_rmemo
    | apply monotone_oloc | apply monotone_oany
    | apply monotone_rpair | apply monotone_rlist ].

(** A new value stays new under a larger bound. *)
Ltac local_tac :=
  lazymatch goal with
  | |- Heap.local _ ?b ?v =>
      first
        [ exact I
        | match goal with
          | H : Heap.vloc _ _ ?b0 v _ |- _ =>
              apply (local_mono b0 b); [lia | exact (proj2 H)]
          | H : Heap.local _ ?b0 v |- _ =>
              apply (local_mono b0 b); [lia | exact H]
          end ]
  end.

Ltac rel_tac :=
  lazymatch goal with
  | |- Heap.req _ _ _ => reflexivity
  | |- Heap.vloc _ _ _ _ _ => split; [reflexivity | local_tac]
  | |- Heap.oloc _ _ _ _ _ =>
      split;
      [ reflexivity
      | unfold Heap.obj_local; cbn [obj_values map snd];
        repeat constructor; local_tac ]
  end.

(** The renamed value of the second run, by its name. *)
Ltac rn_subst H :=
  let E := fresh "E" in
  pose proof (proj1 H) as E; subst.

Ltac sim_ret_tac := apply sim_ret; [mono_tac | rel_tac].

Ltac sim_op :=
  first
    [ apply sim_raise
    | sim_ret_tac
    | apply sim_class_of; rel_tac
    | apply sim_truthy; rel_tac
    | apply sim_get; rel_tac
    | apply sim_setitem; rel_tac
    | apply sim_delitem; rel_tac
    | apply sim_items; rel_tac
    | apply sim_elements; rel_tac
    | apply sim_append; rel_tac
    | apply sim_contains; rel_tac
    | apply sim_alloc; rel_tac ].

(** One statement of the code whose result is a value [v]. *)
Tactic Notation "sim_val" ident(v) "by" tactic(t) :=
  let b := fresh "b" in
  let v' := fresh v "'" in
  let Hb := fresh "Hb" in
  let H := fresh "H" v in
  eapply sim_bind; [t | intros b v v' Hb H; rn_subst H].

Tactic Notation "sim_val" ident(v) := sim_val v by sim_op.

(** One statement whose result is a pair of values. *)
Tactic Notation "sim_pair" ident(v) ident(w) "by" tactic(t) :=
  let b := fresh "b" in
  let v' := fresh v "'" in
  let w' := fresh w "'" in
  let Hb := fresh "Hb" in
  let Hv := fresh "H" v in
  let Hw := fresh "H" w in
  eapply sim_bind;
  [t | intros b [v w] [v' w'] Hb [Hv Hw]; cbn [fst snd] in Hv, Hw;
       rn_subst Hv; rn_subst Hw].

(** One statement whose result is not a value of the store. *)
Tactic Notation "sim_eq" ident(c) "by" tactic(t) :=
  let b := fresh "b" in
  let c' := fresh c "'" in
  let Hb := fresh "Hb" in
  let H := fresh "H" c in
  eapply sim_bind; [t | intros b c c' Hb H; red in H; subst c'].

Tactic Notation "sim_eq" ident(c) := sim_eq c by sim_op.

Ltac rn_rewrite :=
  rewrite ?rn_is_none, ?rn_eq_int, ?rn_eq_str, ?rn_hashable.

(** ** New objects and deep copies *)

Lemma sim_new_object (v : value) :
  forall b, sim b vloc (new_object v) (new_object v).
Proof.
  induction v as [| flag | n | s | l IH | cls kvs IH] using value_ind';
    intros b; simpl; try sim_ret_tac.
  - sim_val y.
    eapply sim_bind with (R := req); [|intros; sim_ret_tac].
    assert (Hgen : forall b', b0 <= b' ->
      sim b' req
        ((fix fill (l : list value) : M unit :=
            match l with
            | [] => ret tt
            | x :: l' => x' <~ new_object x ;; append y x' ;;; fill l'
            end) l)
        ((fix fill (l : list value) : M unit :=
            match l with
            | [] => ret tt
            | x :: l' =>
                x' <~ new_object x ;; append (rn y) x' ;;; fill l'
            end) l)).
    { induction IH as [|v l Hv Hl IHl]; intros b' Hb'; [sim_ret_tac|].
      eapply sim_bind; [apply Hv|]. intros b1 v1 v1' Hb1 Hv1; rn_subst Hv1.
      sim_eq u. apply IHl; lia. }
    apply Hgen; lia.
  - sim_val y.
    eapply sim_bind with (R := req); [|intros; sim_ret_tac].
    assert (Hgen : forall b', b0 <= b' ->
      sim b' req
        ((fix fill (kvs : list (string * value)) : M unit :=
            match kvs with
            | [] => ret tt
            | (k, x) :: kvs' =>
                x' <~ new_object x ;; setitem y k x' ;;; fill kvs'
            end) kvs)
        ((fix fill (kvs : list (string * value)) : M unit :=
            match kvs with
            | [] => ret tt
            | (k, x) :: kvs' =>
                x' <~ new_object x ;; setitem (rn y) k x' ;;; fill kvs'
            end) kvs)).
    { induction IH as [|[key v] kvs Hv Hl IHl]; intros b' Hb';
        [sim_ret_tac|].
      eapply sim_bind; [apply Hv|]. intros b1 v1 v1' Hb1 Hv1; rn_subst Hv1.
      sim_eq u. apply IHl; lia. }
    apply Hgen; lia.
Qed.

Lemma rn_memo_get (a : addr) (memo : memo_table) :
  memo_get (rn_addr a)
           (map (fun p => (rn_addr (fst p), rn_addr (snd p))) memo) =
  option_map rn_addr (memo_get a memo).
Proof.
  induction memo as [|[a1 a2] memo IH]; simpl; auto.
  destruct (Nat.eqb_spec a a1) as [->|Hne].
  - now rewrite Nat.eqb_refl.
  - destruct (Nat.eqb_spec (rn_addr a) (rn_addr a1)) as [Heq|_]; auto.
    now apply rn_addr_inj in Heq.
Qed.

Lemma memo_get_local (b : nat) (a y : addr) (memo : memo_table) :
  Forall (fun p => List.length h0 <= snd p < b) memo ->
  memo_get a memo = Some y -> List.length h0 <= y < b.
Proof.
  induction 1 as [|[a1 a2] memo Hp Hm IH]; simpl; [discriminate|].
  destruct (Nat.eqb a a1); [intros [= <-]; exact Hp | exact IH].
Qed.

Lemma rmemo_cons (b b' : nat) (a y : addr) (memo memo' : memo_table) :
  b <= b' -> rmemo b memo memo' -> List.length h0 <= y < b' ->
  rmemo b' ((a, y) :: memo) ((rn_addr a, rn_addr y) :: memo').
Proof.
  intros Hb [-> Hm] Hy; split; simpl; auto.
  constructor; auto. eapply Forall_impl; [|exact Hm]. simpl; intros; lia.
Qed.

Lemma sim_deepcopy_memo (fuel : nat) :
  forall b v v' memo memo',
    vany b v v' -> rmemo b memo memo' ->
    sim b (rpair vloc rmemo)
        (deepcopy_memo fuel v memo) (deepcopy_memo fuel v' memo').
Proof.
  induction fuel as [|fuel IH]; intros b v v' memo memo' [-> Hv] Hmemo;
    simpl; [apply sim_raise|].
  destruct v as [| flag | n | s | a]; simpl;
    try (apply sim_ret; [mono_tac | split; simpl; [rel_tac | exact Hmemo]]).
  pose proof (proj1 Hmemo) as Ememo; subst memo'.
  rewrite rn_memo_get.
  destruct (memo_get a memo) as [y|] eqn:Hget; simpl.
  - apply sim_ret; [mono_tac|]. split; simpl; [|exact Hmemo].
    split; [reflexivity|]. simpl.
    eapply memo_get_local; [exact (proj2 Hmemo) | exact Hget].
  - eapply sim_bind; [apply sim_load_any|].
    intros b1 o o' Hb1 [-> Ho].
    destruct o as [cls items|elements]; simpl.
    + eapply sim_bind; [apply sim_new; rel_tac|].
      intros b2 y y' Hb2 [-> Hy].
      pose proof (monotone_rmemo b b2 _ _ ltac:(lia) Hmemo) as Hmemo2.
      assert (Hnew : vloc b2 (PRef y) (PRef (rn_addr y)))
        by (split; [reflexivity | exact Hy]).
      eapply sim_bind.
      * eapply sim_mfold with (RA := rmemo) (RB := rpair req vany);
          [mono_tac | mono_tac | | |].
        -- intros b' m m' [key value] [key' value'] Hb' Hm [Hkey Hvalue].
           simpl in Hkey, Hvalue. red in Hkey; subst key'.
           unfold copy_item; cbn [fst snd].
           eapply sim_bind; [apply IH; eassumption|].
           intros b3 [w m2] [w' m2'] Hb3 [Hw Hm2]; simpl in Hw, Hm2.
           eapply sim_bind;
             [apply sim_setitem;
              [eapply monotone_vloc; [|exact Hnew]; lia | exact Hw]|].
           intros b4 u u' Hb4 _.
           apply sim_ret; [mono_tac|].
           eapply monotone_rmemo; [|exact Hm2]. lia.
        -- apply iany_Forall2. split; [reflexivity|].
           eapply Forall_impl; [|exact Ho]. intros w; apply below_mono; lia.
        -- apply rmemo_cons with (b := b2); [lia | exact Hmemo2 | exact Hy].
      * intros b3 m m' Hb3 Hm. apply sim_ret; [mono_tac|].
        split; cbn [fst snd]; [|exact Hm].
        eapply monotone_vloc; [|exact Hnew]. lia.
    + eapply sim_bind; [apply sim_new; rel_tac|].
      intros b2 y y' Hb2 [-> Hy].
      pose proof (monotone_rmemo b b2 _ _ ltac:(lia) Hmemo) as Hmemo2.
      assert (Hnew : vloc b2 (PRef y) (PRef (rn_addr y)))
        by (split; [reflexivity | exact Hy]).
      eapply sim_bind.
      * eapply sim_mfold with (RA := rmemo) (RB := vany);
          [mono_tac | mono_tac | | |].
        -- intros b' m m' value value' Hb' Hm Hvalue.
           unfold copy_element.
           eapply sim_bind; [apply IH; eassumption|].
           intros b3 [w m2] [w' m2'] Hb3 [Hw Hm2]; simpl in Hw, Hm2.
           eapply sim_bind;
             [apply sim_append;
              [eapply monotone_vloc; [|exact Hnew]; lia | exact Hw]|].
           intros b4 u u' Hb4 _.
           apply sim_ret; [mono_tac|].
           eapply monotone_rmemo; [|exact Hm2]. lia.
        -- apply lany_Forall2. split; [reflexivity|].
           eapply Forall_impl; [|exact Ho]. intros w; apply below_mono; lia.
        -- apply rmemo_cons with (b := b2); [lia | exact Hmemo2 | exact Hy].
      * intros b3 m m' Hb3 Hm. apply sim_ret; [mono_tac|].
        split; cbn [fst snd]; [|exact Hm].
        eapply monotone_vloc; [|exact Hnew]. lia.
Qed.

Lemma sim_deepcopy (fuel b : nat) (v v' : pyval) :
  vany b v v' -> sim b vloc (deepcopy fuel v) (deepcopy fuel v').
Proof.
  intros Hv. unfold deepcopy.
  eapply sim_bind.
  - apply sim_deepcopy_memo; [exact Hv|]. split; [reflexivity | constructor].
  - intros b1 [y m] [y' m'] Hb1 [Hy _]; simpl in Hy. rn_subst Hy.
    sim_ret_tac.
Qed.

(** ** safe_dict_get_value *)

Lemma sim_safe_dict_get_value (b : nat) (tree_node tree_node' : pyval)
    (key : string) (default_value default_value' : pyval)
    (value_classes : list pyclass) :
  vloc b tree_node tree_node' -> vloc b default_value default_value' ->
  sim b vloc
      (safe_dict_get_value tree_node key default_value value_classes)
      (safe_dict_get_value tree_node' key default_value' value_classes).
Proof.
  intros Htree Hdefault. rn_subst Htree. rn_subst Hdefault.
  unfold safe_dict_get_value.
  sim_eq c. destruct (negb (issubclass c CDict)); [sim_ret_tac|].
  sim_val value. rn_rewrite.
  destruct (is_none value); [sim_ret_tac|].
  destruct (negb (is_none default_value) ||
            match value_classes with [] => false | _ => true end);
    [|sim_ret_tac].
  eapply sim_bind with (R := req).
  { destruct value_classes; [|sim_ret_tac].
    sim_eq default_class. sim_ret_tac. }
  intros b2 classes classes' Hb2 Hclasses. red in Hclasses; subst classes'.
  sim_eq value_class.
  destruct (negb (existsb (issubclass value_class) classes)); sim_ret_tac.
Qed.

(** ** Labels *)

Lemma hashable_set_add (s : list pyval) (v : pyval) :
  forallb hashable s = true -> hashable v = true ->
  forallb hashable (set_add s v) = true.
Proof.
  intros Hs Hv. unfold set_add.
  destruct (existsb (eq_scalar v) s); [exact Hs|].
  rewrite forallb_app, Hs. simpl. now rewrite Hv.
Qed.

Lemma hashable_fold_set_add (l s : list pyval) :
  forallb hashable l = true -> forallb hashable s = true ->
  forallb hashable (fold_left set_add l s) = true.
Proof.
  revert s; induction l as [|v l IH]; simpl; intros s Hl Hs; [exact Hs|].
  apply andb_prop in Hl as [Hv Hl].
  apply IH; [exact Hl | now apply hashable_set_add].
Qed.

Lemma hashable_strings (l : list string) :
  forallb hashable (map PStr l) = true.
Proof. induction l; simpl; auto. Qed.

Lemma hashable_set_of (l s : list pyval) :
  set_of l = Ok s -> forallb hashable s = true.
Proof.
  unfold set_of. destruct (forallb hashable l) eqn:Hl; [|discriminate].
  intros [= <-]. now apply hashable_fold_set_add.
Qed.

Lemma rn_set_of (l : list pyval) : set_of (map rn l) = set_of l.
Proof.
  unfold set_of.
  assert (Hh : forallb hashable (map rn l) = forallb hashable l).
  { induction l as [|v l IH]; simpl; auto. now rewrite rn_hashable, IH. }
  rewrite Hh. destruct (forallb hashable l) eqn:Hl; [|reflexivity].
  do 2 f_equal. clear Hh.
  induction l as [|v l IH]; simpl in *; auto.
  apply andb_prop in Hl as [Hv Hl].
  now rewrite rn_hashable_id, IH.
Qed.

Lemma numbers_snd (s : list pyval) (numbers : list (Z * pyval)) :
  option_map_all (fun v => option_map (fun n => (n, v)) (number_of v)) s =
    Some numbers ->
  map snd numbers = s.
Proof.
  revert numbers; induction s as [|v s IH]; simpl; intros numbers.
  - now intros [= <-].
  - destruct (number_of v) as [n|]; simpl; [|discriminate].
    destruct (option_map_all _ s) as [rest|]; [|discriminate].
    intros [= <-]. simpl. now rewrite (IH rest).
Qed.

Lemma hashable_insert_number (p : Z * pyval) (l : list (Z * pyval)) :
  hashable (snd p) = true ->
  forallb hashable (map snd l) = true ->
  forallb hashable (map snd (insert_number p l)) = true.
Proof.
  intros Hp. induction l as [|q l IH]; simpl; intros Hl.
  - now rewrite Hp.
  - apply andb_prop in Hl as [Hq Hl].
    destruct (Z.leb (fst p) (fst q)); simpl.
    + now rewrite Hp, Hq, Hl.
    + now rewrite Hq, IH.
Qed.

Lemma hashable_sorted_set (s t : list pyval) :
  forallb hashable s = true -> sorted_set s = Ok t ->
  forallb hashable t = true.
Proof.
  intros Hs. unfold sorted_set.
  destruct s as [|v [|w s]]; try (intros [= <-]; exact Hs).
  destruct (option_map_all string_of (v :: w :: s)) as [strings|].
  - intros [= <-]. apply hashable_strings.
  - destruct (option_map_all _ (v :: w :: s)) as [numbers|] eqn:Hn;
      [|discriminate].
    intros [= <-]. apply numbers_snd in Hn. rewrite <- Hn in Hs.
    clear Hn. induction numbers as [|p numbers IH]; simpl in *; auto.
    apply andb_prop in Hs as [Hp Hs].
    apply hashable_insert_number; auto.
Qed.

Lemma oloc_scalars (b : nat) (l : list pyval) :
  forallb hashable l = true -> oloc b (OList l) (OList l).
Proof.
  intros Hl; split; simpl.
  - f_equal. induction l as [|v l IH]; simpl in *; auto.
    apply andb_prop in Hl as [Hv Hl].
    rewrite rn_hashable_id by exact Hv. f_equal. now apply IH.
  - unfold Heap.obj_local; simpl.
    induction l as [|v l IH]; simpl in *; constructor;
      apply andb_prop in Hl as [Hv Hl]; auto using hashable_local.
Qed.

Lemma monotone_lscalar : monotone lscalar.
Proof. intros b b' l l' _ H; exact H. Qed.

Lemma sim_add_labels_to_metadata (b : nat)
    (importer_metadata importer_metadata' : pyval) (labels : list string) :
  vloc b importer_metadata importer_metadata' ->
  sim b vloc (add_labels_to_metadata importer_metadata labels)
             (add_labels_to_metadata importer_metadata' labels).
Proof.
  intros Hm. rn_subst Hm. unfold add_labels_to_metadata.
  sim_val existing_labels by (apply sim_safe_dict_get_value; rel_tac).
  sim_eq present.
  sim_val existing by
    (destruct present;
     [apply sim_elements; rel_tac
     | apply sim_ret; [mono_tac | split; [reflexivity | constructor]]]).
  rewrite rn_set_of.
  eapply sim_bind with (R := lscalar).
  { apply sim_lift; [apply monotone_lscalar|].
    destruct (set_of existing) as [s|e] eqn:Hset; [|reflexivity].
    split; [reflexivity | eapply hashable_set_of; eassumption]. }
  intros b3 existing_set existing_set' Hb3 [-> Hset].
  assert (Hnew : forallb hashable
                   (fold_left set_add (map PStr labels) existing_set) = true)
    by (apply hashable_fold_set_add; auto using hashable_strings).
  destruct (fold_left set_add (map PStr labels) existing_set)
    as [|label new_labels] eqn:Hlabels.
  - rn_rewrite.
    destruct (negb (is_none existing_labels)); [|sim_ret_tac].
    sim_eq u. sim_ret_tac.
  - eapply sim_bind with (R := lscalar).
    { apply sim_lift; [apply monotone_lscalar|].
      destruct (sorted_set (label :: new_labels)) as [t|e] eqn:Hsorted;
        [|reflexivity].
      split; [reflexivity | eapply hashable_sorted_set; eassumption]. }
    intros b4 sorted_labels sorted_labels' Hb4 [-> Hsorted].
    sim_val label_list by (apply sim_alloc; now apply oloc_scalars).
    sim_eq u. sim_ret_tac.
Qed.

(** ** disable_unsupported_platforms *)

Lemma sim_reset_to_template (b : nat) (platform_data platform_data' : pyval)
    (current_platform : string) :
  vloc b platform_data platform_data' ->
  sim b req (reset_to_template platform_data current_platform)
            (reset_to_template platform_data' current_platform).
Proof.
  intros Hp. rn_subst Hp. unfold reset_to_template.
  destruct (assoc_get current_platform TEMPLATE_PLATFORM_DATA)
    as [default_config|]; [|apply sim_raise].
  sim_val config by apply sim_new_object.
  sim_op.
Qed.

Lemma sim_disable_unsupported_platforms (b : nat)
    (importer_metadata importer_metadata' : pyval) (filename : string) :
  vloc b importer_metadata importer_metadata' ->
  sim b vloc (disable_unsupported_platforms importer_metadata filename)
             (disable_unsupported_platforms importer_metadata' filename).
Proof.
  intros Hm. rn_subst Hm. unfold disable_unsupported_platforms.
  destruct (negb (re_fullmatch SHARED_LIBRARY_PATH
                    (posix_path (normpath filename)))); [sim_ret_tac|].
  destruct (assoc_get (snd (splitext (posix_path (normpath filename))))
              PLATFORMS_BY_SHARED_LIBRARY_EXTENSION)
    as [supported_platforms|]; [|sim_ret_tac].
  sim_val default.
  sim_val plugin_importer by (apply sim_safe_dict_get_value; rel_tac).
  sim_val serialized_version by (apply sim_safe_dict_get_value; rel_tac).
  rn_rewrite.
  destruct (negb (eq_int serialized_version 1)); [sim_ret_tac|].
  sim_val default2.
  sim_val platform_data by (apply sim_safe_dict_get_value; rel_tac).
  sim_val platforms.
  rewrite rn_keys.
  eapply sim_bind with (R := req).
  { destruct (sorted_strings _); [sim_ret_tac|].
    sim_val default3. sim_val any_config. sim_eq u. sim_op. }
  intros bx u u' Hbx _.
  eapply sim_bind with (R := req).
  { eapply sim_mfor with (RB := req); [mono_tac | | apply Forall2_req].
    intros b' y y' Hb' Hy. red in Hy; subst y'.
    apply sim_reset_to_template. rel_tac. }
  intros bw u2 u2' Hbw _. sim_ret_tac.
Qed.

(** ** apply_any_platform_selection *)

Lemma sim_platform_data_get_entry (b : nat)
    (platform_data_item platform_data_item' : pyval) :
  vloc b platform_data_item platform_data_item' ->
  sim b (rpair vloc vloc)
      (platform_data_get_entry platform_data_item)
      (platform_data_get_entry platform_data_item').
Proof.
  intros Hi. rn_subst Hi. unfold platform_data_get_entry.
  sim_val entry.
  sim_val default.
  sim_val first by (apply sim_safe_dict_get_value; rel_tac).
  sim_val default2.
  sim_val second by (apply sim_safe_dict_get_value; rel_tac).
  apply sim_ret; [mono_tac|]. split; cbn [fst snd]; rel_tac.
Qed.

Lemma sim_find_any_enabled (platform_data : list pyval) :
  forall b,
    Forall (local b) platform_data ->
    sim b vloc (find_any_enabled platform_data)
               (find_any_enabled (map rn platform_data)).
Proof.
  induction platform_data as [|entry rest IH]; intros b Hl; simpl.
  - sim_ret_tac.
  - inversion Hl as [|? ? Hentry Hrest]; subst.
    sim_pair first second by (apply sim_platform_data_get_entry; rel_tac).
    sim_eq is_any.
    destruct is_any; [sim_op|].
    apply IH. eapply Forall_impl; [|exact Hrest].
    intros v; apply local_mono; lia.
Qed.

Lemma sim_enable_entry (fuel b : nat)
    (any_enabled any_enabled' new_platform_data new_platform_data' : pyval)
    (state : list string * bool) (entry entry' : pyval) :
  vloc b any_enabled any_enabled' ->
  vloc b new_platform_data new_platform_data' ->
  vloc b entry entry' ->
  sim b req
      (enable_entry fuel any_enabled new_platform_data state entry)
      (enable_entry fuel any_enabled' new_platform_data' state entry').
Proof.
  intros Ha Hn He. rn_subst Ha. rn_subst Hn. rn_subst He.
  unfold enable_entry.
  sim_eq unity_5_6_format.
  sim_pair first second by (apply sim_platform_data_get_entry; rel_tac).
  sim_val first_items.
  destruct first_items as [|[unused_platform_target platform_name] rest];
    cbn [map]; [apply sim_raise|].
  unfold Heap.rn_item at 1; cbn [fst snd].
  assert (Hname :
    match rn platform_name with
    | PStr name => remove_first name (fst state)
    | _ => fst state
    end =
    match platform_name with
    | PStr name => remove_first name (fst state)
    | _ => fst state
    end) by (destruct platform_name; reflexivity).
  rewrite Hname.
  sim_val copy by (apply sim_deepcopy; apply vloc_any; rel_tac).
  sim_pair first2 second2 by (apply sim_platform_data_get_entry; rel_tac).
  sim_eq u. sim_eq u2. sim_ret_tac.
Qed.

Lemma sim_add_platform (b : nat)
    (any_enabled any_enabled' new_platform_data new_platform_data' : pyval)
    (unity_5_6_format : bool) (platform_name : string) :
  vloc b any_enabled any_enabled' ->
  vloc b new_platform_data new_platform_data' ->
  sim b req
      (add_platform any_enabled new_platform_data unity_5_6_format
                    platform_name)
      (add_platform any_enabled' new_platform_data' unity_5_6_format
                    platform_name).
Proof.
  intros Ha Hn. rn_subst Ha. rn_subst Hn. unfold add_platform.
  sim_val first. sim_val second. sim_val entry.
  sim_val entry2 by (destruct unity_5_6_format; sim_op).
  sim_op.
Qed.

Lemma sim_enable_from_any (b : nat)
    (any_enabled any_enabled' platform_data platform_data' : pyval)
    (template_item : string * value) :
  vloc b any_enabled any_enabled' ->
  vloc b platform_data platform_data' ->
  sim b req (enable_from_any any_enabled platform_data template_item)
            (enable_from_any any_enabled' platform_data' template_item).
Proof.
  intros Ha Hp. rn_subst Ha. rn_subst Hp. unfold enable_from_any.
  sim_val config. rn_rewrite.
  sim_val config2 by
    (destruct (is_none config); [apply sim_new_object | sim_ret_tac]).
  sim_eq u. sim_op.
Qed.

Lemma sim_apply_any_platform_selection (fuel b : nat)
    (importer_metadata importer_metadata' : pyval) :
  vloc b importer_metadata importer_metadata' ->
  sim b vloc (apply_any_platform_selection fuel importer_metadata)
             (apply_any_platform_selection fuel importer_metadata').
Proof.
  intros Hm. rn_subst Hm. unfold apply_any_platform_selection.
  sim_val default.
  sim_val plugin_importer by (apply sim_safe_dict_get_value; rel_tac).
  sim_val serialized_version by (apply sim_safe_dict_get_value; rel_tac).
  rn_rewrite.
  destruct (eq_int serialized_version 1).
  - sim_val default2.
    sim_val platform_data by (apply sim_safe_dict_get_value; rel_tac).
    sim_val default3.
    sim_val any_config.
    sim_val any_enabled.
    sim_eq enabled.
    destruct (negb enabled); [sim_ret_tac|].
    eapply sim_bind with (R := req).
    { eapply sim_mfor with (RB := req); [mono_tac | | apply Forall2_req].
      intros b' y y' Hb' Hy. red in Hy; subst y'.
      apply sim_enable_from_any; rel_tac. }
    intros bx u u' Hbx _. sim_ret_tac.
  - sim_val default2.
    sim_val platform_data by (apply sim_safe_dict_get_value; rel_tac).
    sim_val entries.
    sim_val any_enabled by (apply sim_find_any_enabled; exact (proj2 Hentries)).
    sim_eq enabled.
    destruct (negb enabled); [sim_ret_tac|].
    sim_val new_platform_data.
    sim_val entries2.
    eapply sim_bind with (R := req).
    { eapply sim_mfold with (RA := req) (RB := vloc); [mono_tac | mono_tac | | |].
      - intros b' state state' entry entry' Hb' Hstate Hentry.
        red in Hstate; subst state'.
        apply sim_enable_entry; [rel_tac | rel_tac | exact Hentry].
      - apply lloc_Forall2. exact Hentries2.
      - reflexivity. }
    intros bw [remaining_platforms unity_5_6_format] state' Hbw Hstate.
    red in Hstate; subst state'.
    eapply sim_bind with (R := req).
    { eapply sim_mfor with (RB := req); [mono_tac | | apply Forall2_req].
      intros b' y y' Hb' Hy. red in Hy; subst y'.
      apply sim_add_platform; rel_tac. }
    intros bz u u' Hbz _.
    sim_eq u2. sim_ret_tac.
Qed.

(** ** set_cpu_for_desktop_platforms *)

Lemma sim_set_cpu_of_platform (b : nat) (item item' : string * pyval) :
  rpair req vloc b item item' ->
  sim b req (set_cpu_of_platform item) (set_cpu_of_platform item').
Proof.
  destruct item as [platform_name options], item' as [name' options'].
  intros [Hname Hoptions]; cbn [fst snd] in *.
  red in Hname; subst name'. rn_subst Hoptions.
  unfold set_cpu_of_platform; cbn [fst snd].
  sim_val enabled_value by (apply sim_safe_dict_get_value; rel_tac).
  sim_eq enabled.
  destruct (negb enabled); [sim_ret_tac|].
  destruct (assoc_get platform_name CPU_BY_DESKTOP_PLATFORM) as [cpu|];
    [|sim_ret_tac].
  sim_val default. sim_val settings. sim_val current. rn_rewrite.
  destruct (eq_str current "None"); [|sim_ret_tac].
  sim_eq u. sim_op.
Qed.

Lemma sim_set_cpu_of_entry (b : nat) (entry entry' : pyval) :
  vloc b entry entry' ->
  sim b req (set_cpu_of_entry entry) (set_cpu_of_entry entry').
Proof.
  intros He. rn_subst He. unfold set_cpu_of_entry.
  sim_pair first second by (apply sim_platform_data_get_entry; rel_tac).
  sim_val first_items.
  destruct first_items as [|[unused_platform_target platform_name] rest];
    cbn [map]; [apply sim_raise|].
  unfold Heap.rn_item at 1; cbn [fst snd].
  sim_val enabled_value.
  sim_eq enabled.
  destruct (negb enabled); [sim_ret_tac|].
  rn_rewrite.
  destruct (negb (hashable platform_name)); [apply sim_raise|].
  assert (Hname :
    match rn platform_name with
    | PStr name => assoc_get name CPU_BY_DESKTOP_PLATFORM
    | _ => None
    end =
    match platform_name with
    | PStr name => assoc_get name CPU_BY_DESKTOP_PLATFORM
    | _ => None
    end) by (destruct platform_name; reflexivity).
  rewrite Hname.
  destruct (match platform_name with
            | PStr name => assoc_get name CPU_BY_DESKTOP_PLATFORM
            | _ => None
            end) as [cpu|]; [|sim_ret_tac].
  sim_val default.
  sim_val settings by (apply sim_safe_dict_get_value; rel_tac).
  sim_val current. rn_rewrite.
  destruct (eq_str current "None"); [|sim_ret_tac].
  sim_eq u. sim_op.
Qed.

Lemma sim_set_cpu_for_desktop_platforms (b : nat)
    (importer_metadata importer_metadata' : pyval) :
  vloc b importer_metadata importer_metadata' ->
  sim b vloc (set_cpu_for_desktop_platforms importer_metadata)
             (set_cpu_for_desktop_platforms importer_metadata').
Proof.
  intros Hm. rn_subst Hm. unfold set_cpu_for_desktop_platforms.
  sim_val default.
  sim_val plugin_importer by (apply sim_safe_dict_get_value; rel_tac).
  sim_val serialized_version by (apply sim_safe_dict_get_value; rel_tac).
  rn_rewrite.
  destruct (eq_int serialized_version 1).
  - sim_val default2.
    sim_val platform_data by (apply sim_safe_dict_get_value; rel_tac).
    sim_val platforms.
    eapply sim_bind with (R := req).
    { eapply sim_mfor with (RB := rpair req vloc); [mono_tac | |].
      - intros b' y y' Hb' Hy. now apply sim_set_cpu_of_platform.
      - apply iloc_Forall2. exact Hplatforms. }
    intros bx u u' Hbx _. sim_ret_tac.
  - sim_val default2.
    sim_val platform_data by (apply sim_safe_dict_get_value; rel_tac).
    sim_val entries.
    eapply sim_bind with (R := req).
    { eapply sim_mfor with (RB := vloc); [mono_tac | |].
      - intros b' y y' Hb' Hy. now apply sim_set_cpu_of_entry.
      - apply lloc_Forall2. exact Hentries. }
    intros bx u u' Hbx _. sim_ret_tac.
Qed.

(** ** Asset.importer_metadata *)

Lemma sim_importer_metadata (fuel : nat) (self : Asset) :
  below (List.length h0) (_importer_metadata self) ->
  sim (List.length h0) vloc
      (importer_metadata fuel self) (importer_metadata fuel self).
Proof.
  intros Hbase. unfold importer_metadata.
  sim_val metadata by
    (apply sim_deepcopy; split;
     [symmetry; now apply rn_old | exact Hbase]).
  sim_val metadata2 by (apply sim_add_labels_to_metadata; rel_tac).
  sim_val metadata3 by (apply sim_disable_unsupported_platforms; rel_tac).
  sim_val metadata4 by (apply sim_apply_any_platform_selection; rel_tac).
  sim_val metadata5 by (apply sim_set_cpu_for_desktop_platforms; rel_tac).
  sim_ret_tac.
Qed.

End Simulation.

End HeapFacts.

(** ** Trees in a store that grows *)

Lemma valid_below (b : nat) (v : Heap.pyval) :
  Heap.valid b v = true -> Heap.below b v.
Proof.
  destruct v; simpl; auto. intros H; now apply Nat.ltb_lt in H.
Qed.

Lemma heap_closed_below (h : Heap.heap) :
  Heap.heap_closed h = true ->
  Forall (Heap.obj_below (List.length h)) h.
Proof.
  unfold Heap.heap_closed. rewrite forallb_forall, Forall_forall.
  intros H o Ho. specialize (H o Ho). rewrite forallb_forall in H.
  unfold Heap.obj_below. rewrite Forall_forall.
  intros v Hv. apply valid_below. now apply H.
Qed.

Lemma option_map_all_ext (A B : Type) (f g : A -> option B) (l : list A) :
  Forall (fun a => f a = g a) l -> option_map_all f l = option_map_all g l.
Proof.
  induction 1 as [|a l Ha Hl IH]; simpl; auto. now rewrite Ha, IH.
Qed.

Lemma option_map_all_map (A B C : Type) (f : B -> option C) (g : A -> B)
    (l : list A) :
  option_map_all f (map g l) = option_map_all (fun a => f (g a)) l.
Proof. induction l as [|a l IH]; simpl; auto. now rewrite IH. Qed.

(** The tree of a value of a closed store stays the same when objects
    are added to the store. *)
Lemma reify_frame (h created : Heap.heap) :
  Forall (Heap.obj_below (List.length h)) h ->
  forall depth v,
    Heap.below (List.length h) v ->
    Heap.reify depth (h ++ created) v = Heap.reify depth h v.
Proof.
  intros Hclosed. induction depth as [|depth IH]; intros v Hv;
    destruct v as [| flag | n | s | a]; simpl in *; auto.
  rewrite nth_error_app1 by exact Hv.
  destruct (nth_error h a) as [[cls items|elements]|] eqn:Hnth; auto.
  - apply nth_error_In in Hnth. rewrite Forall_forall in Hclosed.
    specialize (Hclosed _ Hnth). unfold Heap.obj_below in Hclosed.
    simpl in Hclosed. f_equal. apply option_map_all_ext.
    rewrite Forall_forall in *. intros [key v] Hin; simpl.
    rewrite IH; auto. apply Hclosed.
    change v with (snd (key, v)). now apply in_map.
  - apply nth_error_In in Hnth. rewrite Forall_forall in Hclosed.
    specialize (Hclosed _ Hnth). unfold Heap.obj_below in Hclosed.
    simpl in Hclosed. f_equal. apply option_map_all_ext.
    rewrite Forall_forall in *. intros v Hin. apply IH. now apply Hclosed.
Qed.

(** In the store that two successive runs leave, a value of the first run
    and its counterpart of the second denote the same tree. *)
Lemma reify_renamed (h created : Heap.heap) :
  Forall (Heap.obj_below (List.length h)) h ->
  Forall (Heap.obj_local h (List.length h + List.length created)) created ->
  forall depth v,
    Heap.below (List.length h + List.length created) v ->
    Heap.reify depth
      (h ++ created ++ map (Heap.rn_obj h created) created)
      (Heap.rn h created v) =
    Heap.reify depth
      (h ++ created ++ map (Heap.rn_obj h created) created) v.
Proof.
  intros Hclosed Hcreated.
  induction depth as [|depth IH]; intros v Hv;
    destruct v as [| flag | n | s | a]; simpl in *; auto.
  destruct (Nat.lt_ge_cases a (List.length h)) as [Ha|Ha].
  - now rewrite HeapFacts.rn_addr_old.
  - rewrite HeapFacts.rn_addr_new by exact Ha.
    rewrite (nth_error_app2 h) by lia.
    rewrite (nth_error_app2 h) by exact Ha.
    rewrite (nth_error_app2 created) by lia.
    rewrite (nth_error_app1 created) by lia.
    replace (a + List.length created - List.length h - List.length created)
      with (a - List.length h) by lia.
    rewrite nth_error_map.
    destruct (nth_error created (a - List.length h))
      as [[cls items|elements]|] eqn:Hnth; simpl.
    + apply nth_error_In in Hnth. rewrite Forall_forall in Hcreated.
      specialize (Hcreated _ Hnth). unfold Heap.obj_local in Hcreated.
      simpl in Hcreated. f_equal. rewrite option_map_all_map.
      apply option_map_all_ext.
      rewrite Forall_forall in *. intros [key v] Hin; simpl.
      rewrite IH; auto. apply (HeapFacts.local_below h). apply Hcreated.
      change v with (snd (key, v)). now apply in_map.
    + apply nth_error_In in Hnth. rewrite Forall_forall in Hcreated.
      specialize (Hcreated _ Hnth). unfold Heap.obj_local in Hcreated.
      simpl in Hcreated. f_equal. rewrite option_map_all_map.
      apply option_map_all_ext.
      rewrite Forall_forall in *. intros v Hin.
      apply IH. apply (HeapFacts.local_below h). now apply Hcreated.
    + apply nth_error_None in Hnth. lia.
Qed.

(** One read from a closed store: the store grows by new objects that
    refer to each other only, and a second read from the store that the
    first leaves creates the same objects at the next addresses. *)
Lemma importer_metadata_runs (h : Heap.heap) (fuel : nat)
    (self : Heap.Asset) :
  Forall (Heap.obj_below (List.length h)) h ->
  Heap.below (List.length h) (Heap._importer_metadata self) ->
  exists created,
    snd (Heap.importer_metadata fuel self h) = h ++ created /\
    snd (Heap.importer_metadata fuel self (h ++ created)) =
      h ++ created ++ map (Heap.rn_obj h created) created /\
    Forall (Heap.obj_local h (List.length h + List.length created)) created /\
    match fst (Heap.importer_metadata fuel self h),
          fst (Heap.importer_metadata fuel self (h ++ created)) with
    | Ok v, Ok v' =>
        v' = Heap.rn h created v /\
        Heap.local h (List.length h + List.length created) v
    | Raise e, Raise e' => e' = e
    | _, _ => False
    end.
Proof.
  intros Hclosed Hbase.
  (* the first read, compared with itself *)
  assert (Hsame : Heap.srel h [] h h).
  { exists []. simpl. rewrite app_nil_r. repeat split; constructor. }
  destruct (HeapFacts.sim_importer_metadata h [] Hclosed fuel self Hbase
              h h Hsame (le_n _)) as ((created & Hh1 & _ & Hlocal) & _ & _).
  exists created. split; [exact Hh1|].
  rewrite Hh1, length_app in Hlocal.
  (* the second read, compared with the first *)
  assert (Hnext : Heap.srel h created h (h ++ created)).
  { exists []. simpl. rewrite !app_nil_r. repeat split; constructor. }
  destruct (HeapFacts.sim_importer_metadata h created Hclosed fuel self Hbase
              h (h ++ created) Hnext (le_n _))
    as ((created' & Hh1' & Hh2 & _) & _ & Hres).
  rewrite Hh1 in Hh1'. apply app_inv_head in Hh1'. subst created'.
  repeat split; auto.
  rewrite Hh1, length_app in Hres.
  destruct (fst (Heap.importer_metadata fuel self h)),
           (fst (Heap.importer_metadata fuel self (h ++ created))); auto.
Qed.

(** C4.  Reading the effective importer metadata of an asset
    ([Asset.importer_metadata], which applies add-labels,
    disable-unsupported-platforms, apply-any-platform-selection and
    set-cpu-for-desktop-platforms, in this order, to a deep copy of the
    stored document) changes no object that existed before the read: the
    store after the read is the store before it followed by new objects,
    and so the stored base document denotes the same tree as before.  Two
    successive reads therefore have the same outcome: they raise the same
    exception, or they return documents that are equal, as trees, in the
    store that the second read leaves, in which the document of the first
    read is what it was when it was returned.  This holds for every store without
    dangling references, every stored document in it (aliased or not) and
    every recursion limit. *)
Theorem importer_metadata_leaves_base_unchanged (h : Heap.heap) (fuel : nat)
    (self : Heap.Asset) :
  Heap.heap_closed h = true ->
  Heap.valid (List.length h) (Heap._importer_metadata self) = true ->
  let first_read := Heap.importer_metadata fuel self h in
  let second_read := Heap.importer_metadata fuel self (snd first_read) in
  (exists created, snd first_read = h ++ created) /\
  (forall depth,
      Heap.reify depth (snd first_read) (Heap.importer_metadata_original self) =
      Heap.reify depth h (Heap.importer_metadata_original self)) /\
  (exists created, snd second_read = snd first_read ++ created) /\
  (forall depth,
      Heap.reify depth (snd second_read)
                 (Heap.importer_metadata_original self) =
      Heap.reify depth h (Heap.importer_metadata_original self)) /\
  (forall document,
      fst first_read = Ok document ->
      forall depth,
        Heap.reify depth (snd second_read) document =
        Heap.reify depth (snd first_read) document) /\
  Heap.same_outcome (snd second_read) (fst first_read) (fst second_read).
Proof.
  intros Hclosed Hvalid first_read second_read.
  apply heap_closed_below in Hclosed. apply valid_below in Hvalid.
  destruct (importer_metadata_runs h fuel self Hclosed Hvalid)
    as (created & Hh1 & Hh2 & Hlocal & Hres).
  subst second_read first_read. rewrite Hh1, Hh2.
  unfold Heap.importer_metadata_original.
  assert (Hclosed1 :
    Forall (Heap.obj_below (List.length (h ++ created))) (h ++ created)).
  { rewrite length_app. apply Forall_app; split.
    - eapply Forall_impl; [|exact Hclosed].
      intros o; apply HeapFacts.obj_below_mono; lia.
    - eapply Forall_impl; [|exact Hlocal].
      intros o; apply HeapFacts.obj_local_below. }
  repeat split.
  - now exists created.
  - intros depth. now apply reify_frame.
  - exists (map (Heap.rn_obj h created) created). now rewrite app_assoc.
  - intros depth. now apply reify_frame.
  - intros document Hdocument depth. rewrite Hdocument in Hres.
    destruct (fst (Heap.importer_metadata fuel self (h ++ created)));
      [|contradiction].
    destruct Hres as [_ Hv]. rewrite app_assoc.
    apply reify_frame; [exact Hclosed1|].
    rewrite length_app. now apply (HeapFacts.local_below h).
  - unfold Heap.same_outcome.
    destruct (fst (Heap.importer_metadata fuel self h)) as [v|e],
             (fst (Heap.importer_metadata fuel self (h ++ created)))
      as [v'|e']; try contradiction; auto.
    destruct Hres as [-> Hv]. intros depth. symmetry.
    apply reify_renamed; auto. now apply (HeapFacts.local_below h).
Qed.

(** ** The store model on documents *)

(** The transforms with a store and the transforms on trees agree on the
    documents of the tests. *)
Example heap_disable_unsupported_platforms_agrees :
  run_on_document ALL_PLATFORMS_ENABLED
    (fun metadata =>
       Heap.disable_unsupported_platforms metadata
         "Plugins/x86/Foo/bar.bundle") =
  Some (disable_unsupported_platforms ALL_PLATFORMS_ENABLED
          "Plugins/x86/Foo/bar.bundle").
Proof. vm_compute. reflexivity. Qed.

Example heap_apply_any_platform_selection_agrees :
  run_on_document ANY_PLATFORM_ENABLED (Heap.apply_any_platform_selection 10) =
  Some (apply_any_platform_selection ANY_PLATFORM_ENABLED).
Proof. vm_compute. reflexivity. Qed.

Example heap_apply_any_platform_selection_v2_agrees :
  run_on_document ANY_ENABLED_V2 (Heap.apply_any_platform_selection 10) =
  Some (apply_any_platform_selection ANY_ENABLED_V2).
Proof. vm_compute. reflexivity. Qed.

(** A transform that is handed the stored document itself changes it: the
    frame property of the view is the work of its deep copy. *)
Example transform_mutates_its_argument :
  let after :=
    snd (Heap.disable_unsupported_platforms (Heap.PRef 0)
           "Plugins/x86/Foo/bar.bundle" SAMPLE_STORE) in
  Heap.reify 10 SAMPLE_STORE (Heap.PRef 0) = Some ALL_PLATFORMS_ENABLED /\
  Heap.reify 10 after (Heap.PRef 0) <> Some ALL_PLATFORMS_ENABLED.
Proof. split; [vm_compute; reflexivity | vm_compute; discriminate]. Qed.

(** The view of the sample asset returns a document, with the labels of a
    Linux library; a recursion limit below the depth of the document makes
    the copy fail. *)
Example importer_metadata_of_sample :
  let read := Heap.importer_metadata 10 SAMPLE_ASSET SAMPLE_STORE in
  match fst read with
  | Ok metadata =>
      option_map (fun document => dict_get document "labels")
                 (Heap.reify 10 (snd read) metadata) =
      Some (VList
              [VStr "gvh_linuxlibname-foo-bar";
               VStr "gvhp_exportpath-Plugins/x86_64/Foo/libfoo_bar.so"])
  | Raise _ => False
  end /\
  fst (Heap.importer_metadata 3 SAMPLE_ASSET SAMPLE_STORE) =
    Raise RecursionError.
Proof. split; vm_compute; reflexivity. Qed.

Lemma importer_metadata_leaves_base_unchanged_witness :
  Heap.heap_closed SAMPLE_STORE = true /\
  Heap.valid (List.length SAMPLE_STORE)
             (Heap._importer_metadata SAMPLE_ASSET) = true /\
  let first_read := Heap.importer_metadata 10 SAMPLE_ASSET SAMPLE_STORE in
  let second_read := Heap.importer_metadata 10 SAMPLE_ASSET (snd first_read) in
  (forall depth,
      Heap.reify depth (snd first_read)
                 (Heap.importer_metadata_original SAMPLE_ASSET) =
      Heap.reify depth SAMPLE_STORE
                 (Heap.importer_metadata_original SAMPLE_ASSET)) /\
  Heap.same_outcome (snd second_read) (fst first_read) (fst second_read).
Proof.
  split; [reflexivity|]. split; [reflexivity|].
  intros first_read second_read.
  pose proof (importer_metadata_leaves_base_unchanged
                SAMPLE_STORE 10 SAMPLE_ASSET eq_refl eq_refl) as H.
  split; [exact (proj1 (proj2 H)) | exact (proj2 (proj2 (proj2 (proj2 (proj2 H)))))].
Defined.

(* ------------------------------------------------------------------ *)
(** ** Paths *)

Lemma has_char_replace_char (a b : ascii) (s : string) :
  a <> b -> has_char a (replace_char a b s) = false.
Proof.
  intros Hab. induction s as [|c s IH]; simpl; auto.
  rewrite IH, orb_false_r.
  destruct (Ascii.eqb c a) eqn:Hc.
  - apply Ascii.eqb_neq. congruence.
  - exact Hc.
Qed.

Lemma replace_char_absent (a b : ascii) (s : string) :
  a <> b -> has_char a s = false <-> replace_char a b s = s.
Proof.
  intros Hab. induction s as [|c s IH]; simpl; [tauto|].
  destruct (Ascii.eqb c a) eqn:Hc; simpl.
  - split; [discriminate|]. intros H. injection H as Hb _.
    apply Ascii.eqb_eq in Hc. congruence.
  - rewrite IH. split; [intros ->; reflexivity|]. now intros [= ->].
Qed.

Lemma length_replace_char (a b : ascii) (s : string) :
  String.length (replace_char a b s) = String.length s.
Proof. induction s as [|c s IH]; simpl; auto. Qed.

Lemma posix_path_idempotent (path : string) :
  posix_path (posix_path path) = posix_path path.
Proof.
  unfold posix_path. apply replace_char_absent; [discriminate|].
  apply has_char_replace_char. discriminate.
Qed.

(** X1.  [posix_path] returns a path of the same length without any
    backslash; it returns its argument exactly when the argument has no
    backslash, so applying it twice is the same as applying it once. *)
Theorem posix_path_normal_form (path : string) :
  has_char "\" (posix_path path) = false /\
  String.length (posix_path path) = String.length path /\
  (posix_path path = path <-> has_char "\" path = false) /\
  posix_path (posix_path path) = posix_path path.
Proof.
  repeat split.
  - apply has_char_replace_char. discriminate.
  - apply length_replace_char.
  - apply replace_char_absent. discriminate.
  - apply replace_char_absent. discriminate.
  - apply posix_path_idempotent.
Qed.

(* ------------------------------------------------------------------ *)
(** ** The checker of duplicate GUIDs *)

Lemma NoDup_keys_assoc_set {A} k (v : A) l :
  NoDup (keys l) -> NoDup (keys (assoc_set k v l)).
Proof.
  intros H. rewrite keys_assoc_set.
  destruct (string_mem k (keys l)) eqn:Hk; auto.
  apply string_mem_false in Hk.
  apply NoDup_rev in H. rewrite <- (rev_involutive (keys l ++ [k])).
  apply NoDup_rev. rewrite rev_app_distr. simpl. constructor; auto.
  now rewrite <- in_rev.
Qed.

Lemma checker_after_snoc calls guid path :
  checker_after (calls ++ [(guid, path)]) =
  add_guid_and_path (checker_after calls) guid path.
Proof. unfold checker_after. now rewrite fold_left_app. Qed.

(** What the checker holds after a series of calls: one entry for each
    GUID that was added, with the normalised paths it was added with, each
    once. *)
Lemma checker_after_spec (calls : list (string * string)) :
  NoDup (keys (checker_after calls)) /\
  forall guid,
    match assoc_get guid (checker_after calls) with
    | Some paths =>
        NoDup paths /\
        forall p, In p paths <->
                  exists path, In (guid, path) calls /\ posix_path path = p
    | None => forall path, ~ In (guid, path) calls
    end.
Proof.
  induction calls as [|[guid0 path0] calls [IHk IH]] using rev_ind.
  - split; [constructor|]. intros guid. simpl. auto.
  - rewrite checker_after_snoc. unfold add_guid_and_path.
    split; [now apply NoDup_keys_assoc_set|].
    intros guid. destruct (String.eqb guid guid0) eqn:Hg.
    + apply String.eqb_eq in Hg. subst guid0.
      rewrite assoc_get_set_same. specialize (IH guid).
      destruct (assoc_get guid (checker_after calls)) as [paths|].
      * destruct IH as [Hnd Hin].
        destruct (string_mem (posix_path path0) paths) eqn:Hmem.
        -- split; auto. intros p. rewrite Hin. split.
           ++ intros (path & Hp & <-). exists path. split; auto.
              apply in_or_app. now left.
           ++ intros (path & Hp & <-). apply in_app_or in Hp.
              destruct Hp as [Hp|[[= <-]|[]]]; [now exists path|].
              apply Hin. now apply string_mem_In.
        -- apply string_mem_false in Hmem. split.
           ++ apply NoDup_rev in Hnd.
              rewrite <- (rev_involutive (paths ++ _)). apply NoDup_rev.
              rewrite rev_app_distr. simpl. constructor; auto.
              now rewrite <- in_rev.
           ++ intros p. rewrite in_app_iff, Hin. simpl. split.
              ** intros [(path & Hp & <-)|[<-|[]]].
                 --- exists path. split; auto. apply in_or_app. now left.
                 --- exists path0. split; auto. apply in_or_app.
                     right. now left.
              ** intros (path & Hp & <-). apply in_app_or in Hp.
                 destruct Hp as [Hp|[[= <-]|[]]]; [left; now exists path|].
                 right. now left.
      * simpl. split; [repeat constructor; intros []|].
        intros p. simpl. split.
        -- intros [<-|[]]. exists path0. split; auto.
           apply in_or_app. right. now left.
        -- intros (path & Hp & <-). apply in_app_or in Hp.
           destruct Hp as [Hp|[[= <-]|[]]]; [now apply IH in Hp|now left].
    + assert (Hne : guid <> guid0) by now apply String.eqb_neq.
      rewrite assoc_get_set_other by exact Hne.
      specialize (IH guid).
      destruct (assoc_get guid (checker_after calls)) as [paths|].
      * destruct IH as [Hnd Hin]. split; auto. intros p. rewrite Hin.
        split; intros (path & Hp & <-); exists path; split; auto.
        -- apply in_or_app. now left.
        -- apply in_app_or in Hp. destruct Hp as [Hp|[[= -> _]|[]]]; auto.
           congruence.
      * intros path Hp. apply in_app_or in Hp.
        destruct Hp as [Hp|[[= -> _]|[]]]; [now apply IH in Hp|congruence].
Qed.

(** A list without repetition has two elements or more exactly when it has
    two different elements. *)
Lemma NoDup_two_elements {A} (l : list A) :
  NoDup l -> (1 < List.length l <-> exists x y, In x l /\ In y l /\ x <> y).
Proof.
  intros Hnd. split.
  - destruct l as [|x [|y l]]; simpl; try lia. intros _.
    exists x, y. repeat split; auto.
    inversion Hnd as [|? ? Hx _]; subst. intros ->. apply Hx. now left.
  - intros (x & y & Hx & Hy & Hne).
    destruct l as [|a [|b l]]; simpl in *; try lia; try tauto.
    destruct Hx as [<-|[]], Hy as [<-|[]]. congruence.
Qed.

(** The GUIDs that the check reports: those added with two different
    normalised paths. *)
Lemma conflicting_guid_spec (calls : list (string * string)) guid paths :
  assoc_get guid (checker_after calls) = Some paths ->
  (1 < List.length paths <->
   exists path1 path2,
     In (guid, path1) calls /\ In (guid, path2) calls /\
     posix_path path1 <> posix_path path2).
Proof.
  intros Hget. destruct (checker_after_spec calls) as [_ Hspec].
  specialize (Hspec guid). rewrite Hget in Hspec. destruct Hspec as [Hnd Hin].
  rewrite (NoDup_two_elements paths Hnd). split.
  - intros (x & y & Hx & Hy & Hne).
    apply Hin in Hx, Hy. destruct Hx as (p1 & H1 & <-), Hy as (p2 & H2 & <-).
    now exists p1, p2.
  - intros (p1 & p2 & H1 & H2 & Hne).
    exists (posix_path p1), (posix_path p2). repeat split; auto;
      apply Hin; eauto.
Qed.

(** X2.  After any series of [add_guid_and_path] calls on a new checker,
    [check_for_duplicates] returns normally exactly when no GUID was added
    with two paths that differ after normalisation of the separators;
    adding the same path twice, or with the other separator, is no
    conflict. *)
Theorem check_for_duplicates_passes (calls : list (string * string)) :
  check_for_duplicates (checker_after calls) = Ok tt <->
  (forall guid path1 path2,
      In (guid, path1) calls -> In (guid, path2) calls ->
      posix_path path1 = posix_path path2).
Proof.
  unfold check_for_duplicates.
  destruct (filter _ (checker_after calls)) as [|[guid paths] rest] eqn:Hf.
  - split; auto. intros _ guid path1 path2 H1 H2.
    destruct (String.string_dec (posix_path path1) (posix_path path2))
      as [|Hne]; auto. exfalso.
    destruct (checker_after_spec calls) as [_ Hspec].
    pose proof (Hspec guid) as Hg.
    destruct (assoc_get guid (checker_after calls)) as [paths|] eqn:Hget;
      [|now apply Hg in H1].
    assert (Hlong : 1 < List.length paths).
    { apply (conflicting_guid_spec calls guid paths Hget).
      now exists path1, path2. }
    assert (Hin : In (guid, paths) (filter
              (fun '(_, paths) => Nat.ltb 1 (List.length paths))
              (checker_after calls))).
    { apply filter_In. split; [now apply assoc_get_In|].
      now apply Nat.ltb_lt. }
    rewrite Hf in Hin. destruct Hin.
  - split; [discriminate|]. intros Hcalls. exfalso.
    assert (Hin : In (guid, paths) (filter
              (fun '(_, paths) => Nat.ltb 1 (List.length paths))
              (checker_after calls))) by (rewrite Hf; now left).
    apply filter_In in Hin. destruct Hin as [Hin Hlong].
    apply Nat.ltb_lt in Hlong.
    destruct (checker_after_spec calls) as [Hnd _].
    apply (assoc_get_NoDup _ _ _ Hnd) in Hin.
    apply (conflicting_guid_spec calls guid paths Hin) in Hlong.
    destruct Hlong as (p1 & p2 & H1 & H2 & Hne). eauto.
Qed.

(** X3.  When [check_for_duplicates] raises, it raises [DuplicateGuidsError]
    and the error lists each conflicting GUID once, with exactly the
    normalised paths that the GUID was added with, each once; a GUID is
    listed exactly when it was added with two paths that differ after
    normalisation. *)
Theorem check_for_duplicates_error (calls : list (string * string))
    (e : exn) :
  check_for_duplicates (checker_after calls) = Raise e ->
  exists paths_by_guid,
    e = DuplicateGuidsError paths_by_guid /\
    NoDup (keys paths_by_guid) /\
    (forall guid,
        In guid (keys paths_by_guid) <->
        exists path1 path2,
          In (guid, path1) calls /\ In (guid, path2) calls /\
          posix_path path1 <> posix_path path2) /\
    (forall guid paths,
        In (guid, paths) paths_by_guid ->
        NoDup paths /\
        forall p, In p paths <->
                  exists path, In (guid, path) calls /\ posix_path path = p).
Proof.
  unfold check_for_duplicates.
  set (long := fun '(_, paths) => Nat.ltb 1 (@List.length string paths)).
  destruct (checker_after_spec calls) as [Hnd Hspec].
  assert (Hfilter : forall guid paths,
             In (guid, paths) (filter long (checker_after calls)) <->
             assoc_get guid (checker_after calls) = Some paths /\
             1 < List.length paths).
  { intros guid paths. rewrite filter_In. unfold long at 1.
    rewrite Nat.ltb_lt. split; intros [H1 H2]; split; auto.
    - now apply assoc_get_NoDup.
    - now apply assoc_get_In. }
  destruct (filter long (checker_after calls)) as [|entry rest] eqn:Hf;
    [discriminate|].
  intros [= <-]. rewrite <- Hf in *. clear Hf entry rest.
  eexists. split; [reflexivity|]. split; [|split].
  - unfold keys. apply NoDup_map_filter. exact Hnd.
  - intros guid. unfold keys. rewrite in_map_iff. split.
    + intros ([guid' paths] & Hg & Hin). simpl in Hg. subst guid'.
      apply Hfilter in Hin. destruct Hin as [Hget Hlong].
      now apply (conflicting_guid_spec calls guid paths Hget).
    + intros Hconflict.
      pose proof (Hspec guid) as Hg.
      destruct (assoc_get guid (checker_after calls)) as [paths|] eqn:Hget.
      * exists (guid, paths). split; auto. apply Hfilter. split; auto.
        now apply (conflicting_guid_spec calls guid paths Hget).
      * destruct Hconflict as (p1 & _ & H1 & _). now apply Hg in H1.
  - intros guid paths Hin. apply Hfilter in Hin. destruct Hin as [Hget _].
    specialize (Hspec guid). now rewrite Hget in Hspec.
Qed.

Lemma check_for_duplicates_error_witness :
  exists paths_by_guid,
    DuplicateGuidsError [("0123", ["Editor/a.dll"; "Editor/b.dll"])]
      = DuplicateGuidsError paths_by_guid /\
    NoDup (keys paths_by_guid) /\
    (forall guid,
        In guid (keys paths_by_guid) <->
        exists path1 path2,
          In (guid, path1) [("0123", "Editor\a.dll"); ("0123", "Editor/b.dll")] /\
          In (guid, path2) [("0123", "Editor\a.dll"); ("0123", "Editor/b.dll")] /\
          posix_path path1 <> posix_path path2) /\
    (forall guid paths,
        In (guid, paths) paths_by_guid ->
        NoDup paths /\
        forall p, In p paths <->
                  exists path,
                    In (guid, path)
                       [("0123", "Editor\a.dll"); ("0123", "Editor/b.dll")] /\
                    posix_path path = p).
Proof.
  apply (check_for_duplicates_error
           [("0123", "Editor\a.dll"); ("0123", "Editor/b.dll")]).
  reflexivity.
Defined.

(* ------------------------------------------------------------------ *)
(** ** The GUID database *)

Lemma get_guid_after_add_guid (self : GuidDatabase)
    (path guid path' : string) :
  get_guid (add_guid self path guid) path' =
  if String.eqb (posix_path path') (posix_path path)
  then if String.eqb guid ""
       then Raise (MissingGuidsError [posix_path path'])
       else Ok guid
  else get_guid self path'.
Proof.
  unfold get_guid, add_guid. simpl.
  destruct (String.eqb (posix_path path') (posix_path path)) eqn:Hp.
  - apply String.eqb_eq in Hp. rewrite Hp, assoc_get_set_same.
    reflexivity.
  - apply String.eqb_neq in Hp. now rewrite assoc_get_set_other.
Qed.

Lemma get_guid_not_empty (self : GuidDatabase) (path guid : string) :
  get_guid self path = Ok guid -> guid <> "".
Proof.
  unfold get_guid.
  destruct (assoc_get (posix_path path) (_guids_by_path self)) as [g|];
    [|discriminate].
  destruct (String.eqb g "") eqn:Hg; [discriminate|].
  intros [= <-]. now apply String.eqb_neq.
Qed.

Lemma get_guid_error (self : GuidDatabase) (path : string) (e : exn) :
  get_guid self path = Raise e -> e = MissingGuidsError [posix_path path].
Proof.
  unfold get_guid.
  destruct (assoc_get (posix_path path) (_guids_by_path self)) as [g|];
    [destruct (String.eqb g "")|]; congruence.
Qed.

(** X4.  Looking a path up after [add_guid]: a path that names the same
    file as the added one, up to the separators, has the added GUID, unless
    that GUID is the empty string, which [get_guid] reports as missing;
    every other path resolves as before the addition.  A GUID that
    [get_guid] returns is never empty, and the only error of [get_guid] is
    [MissingGuidsError] with the normalised path. *)
Theorem get_guid_add_guid (self : GuidDatabase) (path guid path' : string) :
  get_guid (add_guid self path guid) path' =
    (if String.eqb (posix_path path') (posix_path path)
     then if String.eqb guid ""
          then Raise (MissingGuidsError [posix_path path'])
          else Ok guid
     else get_guid self path') /\
  match get_guid self path' with
  | Ok found => found <> ""
  | Raise e => e = MissingGuidsError [posix_path path']
  end.
Proof.
  split; [apply get_guid_after_add_guid|].
  destruct (get_guid self path') as [found|e] eqn:H.
  - eapply get_guid_not_empty; eassumption.
  - eapply get_guid_error; eassumption.
Qed.

(* ------------------------------------------------------------------ *)
(** ** Walks of the GUID store by version *)

Lemma res_map_Forall2 {A B} (f : A -> res B) (l : list A) :
  forall ys, res_map f l = Ok ys -> Forall2 (fun x y => f x = Ok y) l ys.
Proof.
  induction l as [|x l IH]; simpl; intros ys H.
  - injection H as <-. constructor.
  - destruct (f x) as [y|] eqn:Hy; [|discriminate].
    destruct (res_map f l) as [ys'|]; [|discriminate].
    injection H as <-. constructor; auto.
Qed.

Lemma find_first_sorted {A} (R : A -> A -> Prop) (f : A -> bool) (l : list A)
    (x : A) :
  StronglySorted R l -> find f l = Some x ->
  f x = true /\ In x l /\
  forall y, In y l -> f y = true -> y = x \/ R x y.
Proof.
  induction 1 as [|a l Hl IH Ha]; simpl; [discriminate|].
  destruct (f a) eqn:Hfa.
  - intros [= <-]. repeat split; auto.
    intros y [<-|Hy] _; auto. right.
    exact (proj1 (Forall_forall _ _) Ha y Hy).
  - intros Hfind. destruct (IH Hfind) as (Hfx & Hin & Hfirst).
    repeat split; auto. intros y [<-|Hy] Hfy; [congruence|auto].
Qed.

Lemma StronglySorted_snoc {A} (R : A -> A -> Prop) (l : list A) (x : A) :
  StronglySorted R l -> Forall (fun y => R y x) l ->
  StronglySorted R (l ++ [x]).
Proof.
  induction 1 as [|a l Hl IH Ha]; simpl; intros Hx.
  - repeat constructor.
  - inversion Hx; subst. constructor; auto.
    apply Forall_app. split; auto.
Qed.

Lemma StronglySorted_rev {A} (R : A -> A -> Prop) (l : list A) :
  StronglySorted R l -> StronglySorted (fun x y => R y x) (rev l).
Proof.
  induction 1 as [|a l Hl IH Ha]; simpl; [constructor|].
  apply StronglySorted_snoc; auto.
  apply Forall_forall. intros y Hy. apply in_rev in Hy.
  exact (proj1 (Forall_forall _ _) Ha y Hy).
Qed.

Section VersionOrder.

Variable version_key : Type.
Variable Version : string -> res version_key.
Variable version_leb : version_key -> version_key -> bool.

(** The versions compare by a total preorder. *)
Hypothesis version_leb_total :
  forall a b, version_leb a b = true \/ version_leb b a = true.
Hypothesis version_leb_trans :
  forall a b c,
    version_leb a b = true -> version_leb b c = true -> version_leb a c = true.

Lemma In_insert_descending {A} (x y : version_key * A) l :
  In y (insert_descending version_key version_leb x l) <-> y = x \/ In y l.
Proof.
  induction l as [|z l IH]; simpl; [intuition|].
  destruct (version_leb (fst z) (fst x)); simpl; rewrite ?IH; intuition.
Qed.

Lemma In_sorted_descending {A} (y : version_key * A) l :
  In y (sorted_descending version_key version_leb l) <-> In y l.
Proof.
  induction l as [|x l IH]; simpl; [tauto|].
  rewrite In_insert_descending, IH. intuition.
Qed.

Lemma insert_descending_sorted {A} (x : version_key * A) l :
  StronglySorted (newest_first version_leb) l ->
  StronglySorted (newest_first version_leb)
                 (insert_descending version_key version_leb x l).
Proof.
  induction 1 as [|y l Hl IH Hy]; simpl; [repeat constructor|].
  destruct (version_leb (fst y) (fst x)) eqn:Hyx.
  - constructor; [now constructor|]. constructor; [exact Hyx|].
    eapply Forall_impl; [|exact Hy]. unfold newest_first. intros z Hz.
    now apply (version_leb_trans _ (fst y)).
  - constructor; auto. apply Forall_forall. intros z Hz.
    apply In_insert_descending in Hz. destruct Hz as [->|Hz].
    + unfold newest_first.
      destruct (version_leb_total (fst x) (fst y)); congruence.
    + exact (proj1 (Forall_forall _ _) Hy z Hz).
Qed.

Lemma sorted_descending_sorted {A} (l : list (version_key * A)) :
  StronglySorted (newest_first version_leb)
                 (sorted_descending version_key version_leb l).
Proof.
  induction l as [|x l IH]; simpl; [constructor|].
  now apply insert_descending_sorted.
Qed.

(** The versions of the store with their keys, as the walks compute
    them. *)
Lemma keyed_versions_spec (versions : list string) :
  forall keyed,
    res_map (fun version =>
               match Version version with
               | Ok k => Ok (k, version)
               | Raise e => Raise e
               end) versions = Ok keyed ->
    forall k v, In (k, v) keyed <-> In v versions /\ Version v = Ok k.
Proof.
  intros keyed H. apply res_map_Forall2 in H.
  induction H as [|version [k' v'] versions keyed Hx _ IH]; intros k v.
  - simpl. tauto.
  - simpl. rewrite IH.
    destruct (Version version) as [kx|] eqn:Hv; [|discriminate].
    injection Hx as <- <-. split.
    + intros [[= <- <-]|[H1 H2]]; auto.
    + intros [[<-|H1] H2]; auto. left. congruence.
Qed.

(** *** The generator's walk: the first GUID met is kept *)

Lemma keep_first_fold (m acc : list (string * string)) (p : string) :
  assoc_get p
    (fold_left
       (fun all_guids_by_asset_paths '(asset_path, guid) =>
          if string_mem asset_path (keys all_guids_by_asset_paths)
          then all_guids_by_asset_paths
          else assoc_set asset_path guid all_guids_by_asset_paths)
       m acc) =
  match assoc_get p acc with
  | Some g => Some g
  | None => assoc_get p m
  end.
Proof.
  revert acc. induction m as [|[a g] m IH]; intros acc; simpl.
  - now destruct (assoc_get p acc).
  - rewrite IH. destruct (string_mem a (keys acc)) eqn:Hmem.
    + destruct (assoc_get p acc) eqn:Hp; auto.
      destruct (String.eqb p a) eqn:Hpa; auto.
      apply String.eqb_eq in Hpa. subst a.
      apply string_mem_In in Hmem. now apply assoc_get_None in Hp.
    + destruct (String.eqb p a) eqn:Hpa.
      * apply String.eqb_eq in Hpa. subst a.
        rewrite assoc_get_set_same.
        apply string_mem_false in Hmem. apply assoc_get_None in Hmem.
        now rewrite Hmem.
      * apply String.eqb_neq in Hpa.
        now rewrite assoc_get_set_other by exact Hpa.
Qed.

Lemma newest_walk_fold (guid_data : guid_store) (max_version : version_key)
    (step : list (string * string) -> version_key * string ->
            list (string * string)) (p : string) :
  (forall acc k v,
      step acc (k, v) =
      if negb (version_leb k max_version) then acc
      else fold_left
             (fun all_guids_by_asset_paths '(asset_path, guid) =>
                if string_mem asset_path (keys all_guids_by_asset_paths)
                then all_guids_by_asset_paths
                else assoc_set asset_path guid all_guids_by_asset_paths)
             (guids_of_version guid_data v) acc) ->
  forall l acc,
    assoc_get p (fold_left step l acc) =
    match assoc_get p acc with
    | Some g => Some g
    | None =>
        match find (fun '(k, v) =>
                      version_leb k max_version &&
                      string_mem p (keys (guids_of_version guid_data v))) l with
        | Some (k, v) => assoc_get p (guids_of_version guid_data v)
        | None => None
        end
    end.
Proof.
  intros Hstep. induction l as [|[k v] l IH]; intros acc; simpl.
  - now destruct (assoc_get p acc).
  - rewrite IH, Hstep. destruct (version_leb k max_version); simpl; auto.
    rewrite keep_first_fold.
    destruct (assoc_get p acc) as [g|]; auto.
    destruct (string_mem p (keys (guids_of_version guid_data v))) eqn:Hmem.
    + apply string_mem_In in Hmem.
      destruct (assoc_get p (guids_of_version guid_data v)) eqn:Hp; auto.
      now apply assoc_get_None in Hp.
    + apply string_mem_false in Hmem. apply assoc_get_None in Hmem.
      now rewrite Hmem.
Qed.

(** X5.  [get_all_asset_paths] of the GUID generator, when the versions
    compare by a total preorder: a path of the result has the GUID that a
    newest version of the store that is not after the given version records
    for it, and a path is absent from the result only if no such version
    records it. *)
Theorem get_all_asset_paths_newest (guid_data : guid_store)
    (version : string) (max_version : version_key)
    (all_guids_by_asset_paths : list (string * string)) :
  Version version = Ok max_version ->
  get_all_asset_paths version_key Version version_leb guid_data version
    = Ok all_guids_by_asset_paths ->
  forall asset_path,
    match assoc_get asset_path all_guids_by_asset_paths with
    | Some guid =>
        exists v k guids_by_asset_paths,
          assoc_get v guid_data = Some guids_by_asset_paths /\
          Version v = Ok k /\
          version_leb k max_version = true /\
          assoc_get asset_path guids_by_asset_paths = Some guid /\
          forall v' k' guids',
            assoc_get v' guid_data = Some guids' ->
            Version v' = Ok k' ->
            version_leb k' max_version = true ->
            In asset_path (keys guids') ->
            version_leb k' k = true
    | None =>
        forall v' k' guids',
          assoc_get v' guid_data = Some guids' ->
          Version v' = Ok k' ->
          version_leb k' max_version = true ->
          ~ In asset_path (keys guids')
    end.
Proof.
  intros Hmax. unfold get_all_asset_paths. rewrite Hmax.
  destruct (res_map _ (keys guid_data)) as [keyed|] eqn:Hkeyed; [|discriminate].
  intros [= <-] p.
  pose proof (keyed_versions_spec _ _ Hkeyed) as Hk.
  erewrite (newest_walk_fold guid_data max_version) by (intros; reflexivity).
  simpl.
  set (visible := fun '(k, v) =>
         version_leb k max_version &&
         string_mem p (keys (guids_of_version guid_data v))).
  assert (Hvisible : forall v' k' guids',
             assoc_get v' guid_data = Some guids' ->
             Version v' = Ok k' ->
             version_leb k' max_version = true ->
             In p (keys guids') ->
             In (k', v') (sorted_descending version_key version_leb keyed) /\
             visible (k', v') = true).
  { intros v' k' guids' Hget Hv' Hle Hin. split.
    - apply In_sorted_descending, Hk. split; auto.
      apply assoc_get_In in Hget. unfold keys.
      change v' with (fst (v', guids')). now apply in_map.
    - unfold visible, guids_of_version. rewrite Hget, Hle. simpl.
      now apply string_mem_In. }
  destruct (find visible _) as [[k v]|] eqn:Hfind.
  - destruct (find_first_sorted _ _ _ _
                (sorted_descending_sorted keyed) Hfind)
      as (Hvis & Hin & Hfirst).
    apply In_sorted_descending, Hk in Hin. destruct Hin as [Hin Hv].
    unfold visible in Hvis. apply andb_true_iff in Hvis.
    destruct Hvis as [Hle Hmem]. apply string_mem_In in Hmem.
    unfold guids_of_version in *.
    destruct (assoc_get v guid_data) as [m|] eqn:Hget; [|destruct Hmem].
    destruct (assoc_get p m) as [g|] eqn:Hp;
      [|now apply assoc_get_None in Hp].
    exists v, k, m. repeat split; auto.
    intros v' k' guids' Hget' Hv' Hle' Hin'.
    destruct (Hvisible v' k' guids' Hget' Hv' Hle' Hin') as [Hl Hvis'].
    destruct (Hfirst _ Hl Hvis') as [[= -> ->]|Hnewer]; [|exact Hnewer].
    destruct (version_leb_total k k); auto.
  - intros v' k' guids' Hget' Hv' Hle' Hin'.
    destruct (Hvisible v' k' guids' Hget' Hv' Hle' Hin') as [Hl Hvis'].
    pose proof (find_none _ _ Hfind _ Hl). congruence.
Qed.

(** *** The exporter's walk: the last GUID met replaces the others *)

(** The GUIDs of the target version, added first. *)
Lemma pinned_guids_fold (p : string) (guid_map : list (string * string)) :
  NoDup (keys guid_map) ->
  (forall f, In f (keys guid_map) -> posix_path f = f) ->
  forall self,
    assoc_get p
      (_guids_by_path
         (fold_left (fun self '(filename, guid) =>
                       add_guid self (posix_path filename) guid)
                    guid_map self)) =
    match assoc_get p guid_map with
    | Some g => Some g
    | None => assoc_get p (_guids_by_path self)
    end.
Proof.
  induction guid_map as [|[f g] m IH]; intros Hnd Hclean self; simpl; auto.
  inversion Hnd as [|? ? Hf Hm]; subst.
  rewrite IH; auto; [|intros f' Hf'; apply Hclean; now right].
  unfold add_guid; simpl.
  rewrite posix_path_idempotent, (Hclean f) by now left.
  destruct (String.eqb p f) eqn:Hpf.
  - apply String.eqb_eq in Hpf. subst f.
    apply assoc_get_None in Hf. unfold keys in Hf. rewrite Hf.
    apply assoc_get_set_same.
  - apply String.eqb_neq in Hpf.
    rewrite assoc_get_set_other by exact Hpf. reflexivity.
Qed.

(** The GUIDs of one prior version. *)
Lemma prior_guids_fold (p : string) (guid_map m : list (string * string))
    (names : list string) :
  (forall f, In f names -> posix_path f = f) ->
  forall self,
    assoc_get p
      (_guids_by_path
         (fold_left
            (fun self filename =>
               if string_mem filename (keys guid_map) then self
               else match assoc_get filename m with
                    | Some guid => add_guid self filename guid
                    | None => self
                    end)
            names self)) =
    if string_mem p names && negb (string_mem p (keys guid_map))
    then match assoc_get p m with
         | Some g => Some g
         | None => assoc_get p (_guids_by_path self)
         end
    else assoc_get p (_guids_by_path self).
Proof.
  induction names as [|f names IH]; intros Hclean self; simpl; auto.
  rewrite IH by (intros f' Hf'; apply Hclean; now right).
  assert (Hstep :
    assoc_get p (_guids_by_path
      (if string_mem f (keys guid_map) then self
       else match assoc_get f m with
            | Some guid => add_guid self f guid
            | None => self
            end)) =
    if String.eqb p f && negb (string_mem p (keys guid_map))
    then match assoc_get p m with
         | Some g => Some g
         | None => assoc_get p (_guids_by_path self)
         end
    else assoc_get p (_guids_by_path self)).
  { destruct (String.eqb p f) eqn:Hpf; simpl.
    - apply String.eqb_eq in Hpf. subst f.
      destruct (string_mem p (keys guid_map)); simpl; auto.
      destruct (assoc_get p m) as [g|]; auto.
      unfold add_guid; simpl. rewrite (Hclean p) by now left.
      apply assoc_get_set_same.
    - apply String.eqb_neq in Hpf.
      destruct (string_mem f (keys guid_map)); auto.
      destruct (assoc_get f m) as [g|]; auto.
      unfold add_guid; simpl. rewrite (Hclean f) by now left.
      now rewrite assoc_get_set_other by exact Hpf. }
  rewrite Hstep.
  destruct (String.eqb p f) eqn:Hpf; simpl;
    destruct (string_mem p names); simpl;
    destruct (string_mem p (keys guid_map)); simpl; auto.
  destruct (assoc_get p m); auto.
Qed.

Lemma oldest_walk_fold (guid_data : guid_store)
    (current_version : version_key) (guid_map : list (string * string))
    (step : GuidDatabase -> version_key * string -> GuidDatabase)
    (p : string) :
  (forall self k v,
      step self (k, v) =
      if version_leb current_version k then self
      else fold_left
             (fun self filename =>
                if string_mem filename (keys guid_map) then self
                else match assoc_get filename (guids_of_version guid_data v)
                     with
                     | Some guid => add_guid self filename guid
                     | None => self
                     end)
             (keys (guids_of_version guid_data v)) self) ->
  forall l self,
    (forall k v f, In (k, v) l ->
                   In f (keys (guids_of_version guid_data v)) ->
                   posix_path f = f) ->
    assoc_get p (_guids_by_path (fold_left step l self)) =
    if string_mem p (keys guid_map) then assoc_get p (_guids_by_path self)
    else
      match find (fun '(k, v) =>
                    negb (version_leb current_version k) &&
                    string_mem p (keys (guids_of_version guid_data v)))
                 (rev l) with
      | Some (k, v) => assoc_get p (guids_of_version guid_data v)
      | None => assoc_get p (_guids_by_path self)
      end.
Proof.
  intros Hstep l self. induction l as [|[k v] l IH] using rev_ind;
    intros Hclean.
  - simpl. now destruct (string_mem p (keys guid_map)).
  - rewrite fold_left_app, rev_app_distr. simpl. rewrite Hstep.
    assert (IH' := IH (fun k v f Hin =>
                         Hclean k v f (in_or_app _ _ _ (or_introl Hin)))).
    destruct (version_leb current_version k); simpl; [exact IH'|].
    rewrite prior_guids_fold
      by (intros f Hf; apply (Hclean k v); auto;
          apply in_or_app; right; now left).
    rewrite IH'.
    destruct (string_mem p (keys guid_map)); simpl;
      [now rewrite andb_false_r|].
    rewrite andb_true_r.
    destruct (string_mem p (keys (guids_of_version guid_data v))) eqn:Hmem;
      auto.
    apply string_mem_In in Hmem.
    destruct (assoc_get p (guids_of_version guid_data v)) eqn:Hp; auto.
    now apply assoc_get_None in Hp.
Qed.

(** X6.  The database that [GuidDatabase.__init__] builds from a store in
    which the paths are written with forward slashes, for a version that
    parses, when the versions compare by a total preorder: a path recorded
    at the target version has the GUID recorded there; any other path has
    the GUID that an oldest version before the target records for it (the
    walk goes from the newest prior version to the oldest and every GUID
    replaces the one found before); a path is absent only if neither the
    target version nor a version before it records the path. *)
Theorem guid_database_init_oldest
    (duplicate_guids_checker : DuplicateGuidsChecker)
    (guids_json : guid_store) (plugin_version : string)
    (current_version : version_key) (database : GuidDatabase) :
  guids_json <> [] ->
  plugin_version <> "" ->
  (forall v m, In (v, m) guids_json ->
               NoDup (keys m) /\
               forall f, In f (keys m) -> posix_path f = f) ->
  Version plugin_version = Ok current_version ->
  GuidDatabase_init version_key Version version_leb duplicate_guids_checker
                    guids_json (Some plugin_version) = Ok database ->
  forall path,
    posix_path path = path ->
    match assoc_get path (_guids_by_path database) with
    | Some guid =>
        assoc_get path (guids_of_version guids_json plugin_version)
          = Some guid \/
        (assoc_get path (guids_of_version guids_json plugin_version) = None /\
         exists v k guids_by_filename,
           assoc_get v guids_json = Some guids_by_filename /\
           Version v = Ok k /\
           version_leb current_version k = false /\
           assoc_get path guids_by_filename = Some guid /\
           forall v' k' guids',
             assoc_get v' guids_json = Some guids' ->
             Version v' = Ok k' ->
             version_leb current_version k' = false ->
             In path (keys guids') ->
             version_leb k k' = true)
    | None =>
        assoc_get path (guids_of_version guids_json plugin_version) = None /\
        forall v' k' guids',
          assoc_get v' guids_json = Some guids' ->
          Version v' = Ok k' ->
          version_leb current_version k' = false ->
          ~ In path (keys guids')
    end.
Proof.
  intros Hstore Hversion Hwf Hcur. unfold GuidDatabase_init.
  destruct guids_json as [|entry rest]; [congruence|].
  remember (entry :: rest) as store eqn:Estore. clear Estore Hstore entry rest.
  destruct (String.eqb plugin_version "") eqn:Hempty;
    [apply String.eqb_eq in Hempty; congruence|].
  rewrite Hcur.
  destruct (res_map _ (keys store)) as [keyed|] eqn:Hkeyed; [|discriminate].
  intros [= <-] p Hp.
  fold (guids_of_version store plugin_version).
  pose proof (keyed_versions_spec _ _ Hkeyed) as Hk.
  assert (Hmap : forall v, NoDup (keys (guids_of_version store v)) /\
                           forall f, In f (keys (guids_of_version store v)) ->
                                     posix_path f = f).
  { intros v. unfold guids_of_version.
    destruct (assoc_get v store) as [m|] eqn:Hget.
    - apply assoc_get_In in Hget. exact (Hwf _ _ Hget).
    - split; [constructor|intros f []]. }
  erewrite (oldest_walk_fold store current_version
              (guids_of_version store plugin_version))
    by (try (intros; reflexivity); intros k v f _; apply (Hmap v)).
  rewrite pinned_guids_fold by apply Hmap. simpl.
  destruct (string_mem p (keys (guids_of_version store plugin_version)))
    eqn:Hpinned.
  { apply string_mem_In in Hpinned.
    destruct (assoc_get p (guids_of_version store plugin_version)) eqn:Hg;
      [simpl; now left|now apply assoc_get_None in Hg]. }
  apply string_mem_false in Hpinned. apply assoc_get_None in Hpinned.
  set (visible := fun '(k, v) =>
         negb (version_leb current_version k) &&
         string_mem p (keys (guids_of_version store v))).
  assert (Hvisible : forall v' k' guids',
             assoc_get v' store = Some guids' ->
             Version v' = Ok k' ->
             version_leb current_version k' = false ->
             In p (keys guids') ->
             In (k', v')
                (rev (sorted_descending version_key version_leb keyed)) /\
             visible (k', v') = true).
  { intros v' k' guids' Hget Hv' Hle Hin. split.
    - apply in_rev. rewrite rev_involutive.
      apply In_sorted_descending, Hk. split; auto.
      apply assoc_get_In in Hget. unfold keys.
      change v' with (fst (v', guids')). now apply in_map.
    - unfold visible, guids_of_version. rewrite Hget, Hle. simpl.
      now apply string_mem_In. }
  destruct (find visible _) as [[k v]|] eqn:Hfind.
  - destruct (find_first_sorted _ _ _ _
                (StronglySorted_rev _ _ (sorted_descending_sorted keyed))
                Hfind)
      as (Hvis & Hin & Hfirst).
    apply in_rev, In_sorted_descending, Hk in Hin. destruct Hin as [Hin Hv].
    unfold visible in Hvis. apply andb_true_iff in Hvis.
    destruct Hvis as [Hle Hmem]. apply negb_true_iff in Hle.
    apply string_mem_In in Hmem.
    unfold guids_of_version in Hmem |- *.
    destruct (assoc_get v store) as [m|] eqn:Hget; [|destruct Hmem].
    destruct (assoc_get p m) as [g|] eqn:Hg;
      [|now apply assoc_get_None in Hg].
    right. split; [exact Hpinned|].
    exists v, k, m. repeat split; auto.
    intros v' k' guids' Hget' Hv' Hle' Hin'.
    destruct (Hvisible v' k' guids' Hget' Hv' Hle' Hin') as [Hl Hvis'].
    destruct (Hfirst _ Hl Hvis') as [[= -> ->]|Holder]; [|exact Holder].
    destruct (version_leb_total k k); auto.
  - rewrite Hpinned. split; [reflexivity|].
    intros v' k' guids' Hget' Hv' Hle' Hin'.
    destruct (Hvisible v' k' guids' Hget' Hv' Hle' Hin') as [Hl Hvis'].
    pose proof (find_none _ _ Hfind _ Hl). congruence.
Qed.

End VersionOrder.

(* ------------------------------------------------------------------ *)
(** ** Updates of a tree node *)

Lemma assoc_get_del_same {A} k (l : list (string * A)) :
  NoDup (keys l) -> assoc_get k (assoc_del k l) = None.
Proof.
  induction l as [|[k' v'] l IH]; simpl; auto. intros Hnd.
  inversion Hnd as [|? ? Hk Hl]; subst.
  destruct (String.eqb k k') eqn:Hkk.
  - apply String.eqb_eq in Hkk. subst k'. now apply assoc_get_None.
  - simpl. rewrite Hkk. auto.
Qed.

Lemma assoc_get_del_other {A} k k' (l : list (string * A)) :
  k' <> k -> assoc_get k' (assoc_del k l) = assoc_get k' l.
Proof.
  intros Hne. induction l as [|[k0 v0] l IH]; simpl; auto.
  destruct (String.eqb k k0) eqn:Hk.
  - apply String.eqb_eq in Hk. subst k0.
    apply String.eqb_neq in Hne. now rewrite Hne.
  - simpl. now rewrite IH.
Qed.

(** X7.  Reading a key with [safe_dict_get_value] after
    [safe_dict_set_value] on a node without repeated keys: on a dictionary,
    the key that was set reads as the new value when the new value passes
    the class test of the read, and as the default otherwise, in particular
    after setting [None], which deletes the key; every other key, and
    every key of a node that is not a dictionary, reads as before. *)
Theorem safe_dict_get_value_after_set (tree_node : value) (key : string)
    (new_value : value) (key' : string) (default_value : value)
    (value_classes : list pyclass) :
  NoDup (keys (dict_items tree_node)) ->
  safe_dict_get_value (safe_dict_set_value tree_node key new_value) key'
                      default_value value_classes =
  if is_dict tree_node && String.eqb key' key
  then if negb (is_none new_value) &&
          class_accepted default_value value_classes new_value
       then new_value else default_value
  else safe_dict_get_value tree_node key' default_value value_classes.
Proof.
  intros Hnd. rewrite !safe_dict_get_value_cases.
  unfold safe_dict_set_value, is_dict.
  destruct (issubclass (class_of tree_node) CDict) eqn:Hd; simpl; auto.
  destruct tree_node as [| | | | |c items]; try discriminate.
  simpl in Hnd. simpl dict_items.
  destruct (String.eqb key' key) eqn:Hk.
  - apply String.eqb_eq in Hk. subst key'.
    destruct (is_none new_value) eqn:Hn; simpl.
    + destruct (string_mem key (keys items)) eqn:Hmem; simpl.
      * now rewrite assoc_get_del_same.
      * apply string_mem_false, assoc_get_None in Hmem. now rewrite Hmem.
    + now rewrite assoc_get_set_same, Hn.
  - apply String.eqb_neq in Hk.
    destruct (is_none new_value); simpl.
    + destruct (string_mem key (keys items)); simpl; auto.
      now rewrite assoc_get_del_other.
    + now rewrite assoc_get_set_other.
Qed.

Lemma safe_dict_get_value_after_set_witness :
  safe_dict_get_value
    (safe_dict_set_value (od [("guid", VStr "0123"); ("labels", VList [])])
                         "guid" VNone)
    "guid" (VStr "none") [] = VStr "none" /\
  safe_dict_get_value
    (safe_dict_set_value (od [("guid", VStr "0123"); ("labels", VList [])])
                         "guid" (VStr "4567"))
    "guid" (VStr "none") [] = VStr "4567".
Proof.
  split.
  - apply (safe_dict_get_value_after_set
             (od [("guid", VStr "0123"); ("labels", VList [])]) "guid" VNone
             "guid" (VStr "none") []).
    simpl. repeat constructor; simpl; intuition discriminate.
  - apply (safe_dict_get_value_after_set
             (od [("guid", VStr "0123"); ("labels", VList [])]) "guid"
             (VStr "4567") "guid" (VStr "none") []).
    simpl. repeat constructor; simpl; intuition discriminate.
Defined.

(* ------------------------------------------------------------------ *)
(** ** The deep merge, key by key *)

Section MergeFacts.

Variable py_str : value -> string.

(** One step of the loop over the items of [merge_from]. *)
Lemma merge_ordered_dicts_step c c' key v rest into_items :
  merge_ordered_dicts py_str (VDict c into_items) (VDict c' ((key, v) :: rest))
  = merge_ordered_dicts py_str
      (VDict c (assoc_set key
                          (merge_value py_str (assoc_get key into_items) v)
                          into_items))
      (VDict c' rest).
Proof.
  reflexivity.
Qed.

Lemma merge_ordered_dicts_dict c c' into_items from_items :
  exists items,
    merge_ordered_dicts py_str (VDict c into_items) (VDict c' from_items)
    = VDict c items.
Proof. simpl. eauto. Qed.

Lemma merge_ordered_dicts_get c c' (from_items : list (string * value)) :
  NoDup (keys from_items) ->
  forall into_items key,
    assoc_get key
      (dict_items (merge_ordered_dicts py_str (VDict c into_items)
                                       (VDict c' from_items))) =
    match assoc_get key from_items with
    | Some v => Some (merge_value py_str (assoc_get key into_items) v)
    | None => assoc_get key into_items
    end.
Proof.
  induction from_items as [|[k v] rest IH]; intros Hnd into_items key.
  - reflexivity.
  - inversion Hnd as [|? ? Hk Hrest]; subst.
    rewrite merge_ordered_dicts_step, IH by exact Hrest.
    cbn [assoc_get]. destruct (String.eqb key k) eqn:Hkey.
    + apply String.eqb_eq in Hkey. subst k.
      apply assoc_get_None in Hk. unfold keys in Hk. rewrite Hk.
      apply assoc_get_set_same.
    + apply String.eqb_neq in Hkey.
      now rewrite assoc_get_set_other by exact Hkey.
Qed.

Lemma merge_ordered_dicts_key_order c c' (from_items : list (string * value)) :
  NoDup (keys from_items) ->
  forall into_items,
    keys (dict_items (merge_ordered_dicts py_str (VDict c into_items)
                                          (VDict c' from_items))) =
    keys into_items ++
    filter (fun k => negb (string_mem k (keys into_items))) (keys from_items).
Proof.
  induction from_items as [|[k v] rest IH]; intros Hnd into_items.
  - simpl. now rewrite app_nil_r.
  - inversion Hnd as [|? ? Hk Hrest]; subst.
    rewrite merge_ordered_dicts_step, IH by exact Hrest.
    rewrite keys_assoc_set. cbn [keys map fst filter].
    destruct (string_mem k (keys into_items)) eqn:Hmem; simpl; auto.
    rewrite <- app_assoc. simpl. do 2 f_equal.
    apply filter_ext_in. intros k' Hk'.
    unfold string_mem. rewrite existsb_app. simpl.
    rewrite orb_false_r.
    destruct (String.eqb k' k) eqn:E; [|now rewrite orb_false_r].
    apply String.eqb_eq in E. subst k'. contradiction.
Qed.

(** X8.  The keys of a merged dictionary, for a [merge_from] without
    repeated keys: the keys of [merge_into] in their order, followed by the
    keys that only [merge_from] has, in the order of [merge_from]; the
    merged dictionary has the class of [merge_into]. *)
Theorem merge_ordered_dicts_keys (c c' : dict_class)
    (into_items from_items : list (string * value)) :
  NoDup (keys from_items) ->
  exists items,
    merge_ordered_dicts py_str (VDict c into_items) (VDict c' from_items)
      = VDict c items /\
    keys items =
    keys into_items ++
    filter (fun k => negb (string_mem k (keys into_items))) (keys from_items).
Proof.
  intros Hnd.
  destruct (merge_ordered_dicts_dict c c' into_items from_items)
    as [items Hitems].
  exists items. split; auto.
  pose proof (merge_ordered_dicts_key_order c c' from_items Hnd into_items)
    as H.
  now rewrite Hitems in H.
Qed.

(** X9.  The values of a merged dictionary, for a [merge_from] without
    repeated keys, when [merge_into] and [merge_from] are trees: no
    dictionary or list is stored in two places of them, so that the merge
    into the value of one key, which the code makes in place, is a write to
    that key only.  A key that [merge_from] does not have keeps its value.
    A key of [merge_from] gets the value of [merge_from] when [merge_into]
    has no value or [None] for it, and when the two values are not both
    dictionaries and not both lists of platform records (scalars and
    values of different kinds are replaced); two dictionaries are merged
    recursively; two lists of platform records give a list. *)
Theorem merge_ordered_dicts_values (c c' : dict_class)
    (into_items from_items : list (string * value)) (key : string) :
  NoDup (keys from_items) ->
  let merged :=
    assoc_get key
      (dict_items (merge_ordered_dicts py_str (VDict c into_items)
                                       (VDict c' from_items))) in
  match assoc_get key from_items with
  | None => merged = assoc_get key into_items
  | Some merge_from_value =>
      match assoc_get key into_items with
      | None | Some VNone => merged = Some merge_from_value
      | Some (VDict ci items as merge_into_value) =>
          if is_dict merge_from_value
          then merged = Some (merge_ordered_dicts py_str merge_into_value
                                                  merge_from_value)
          else merged = Some merge_from_value
      | Some (VList _ as merge_into_value) =>
          if list_contains_dictionaries_with_keys
               merge_into_value UNITY_5_6_PLATFORM_DATA_KEYS &&
             list_contains_dictionaries_with_keys
               merge_from_value UNITY_5_6_PLATFORM_DATA_KEYS
          then exists records, merged = Some (VList records)
          else merged = Some merge_from_value
      | Some _ => merged = Some merge_from_value
      end
  end.
Proof.
  intros Hnd merged. subst merged.
  rewrite (merge_ordered_dicts_get c c' from_items Hnd).
  destruct (assoc_get key from_items) as [v|]; auto.
  unfold merge_value.
  destruct (assoc_get key into_items) as [[| b | n | s | l | ci items]|];
    simpl; auto.
  - destruct v as [| | | | l' |]; simpl; auto;
      try (rewrite andb_false_r; reflexivity).
    destruct (_ && _); eauto.
  - destruct v as [| | | | | cv vitems]; simpl; auto.
    now destruct cv.
Qed.

End MergeFacts.

(* ------------------------------------------------------------------ *)
(** ** Transitive includes of a package *)

Lemma In_assoc_set_same {A} k (v : A) l : In (k, v) (assoc_set k v l).
Proof.
  induction l as [|[k' v'] l IH]; simpl; [now left|].
  destruct (String.eqb k k'); simpl; auto.
Qed.

Lemma In_assoc_set_other {A} k k' (v v' : A) l :
  k <> k' -> In (k, v) l -> In (k, v) (assoc_set k' v' l).
Proof.
  intros Hne. induction l as [|[k0 v0] l IH]; simpl; [tauto|].
  destruct (String.eqb k' k0) eqn:Hk; simpl.
  - apply String.eqb_eq in Hk. subst k0.
    intros [[= <- <-]|H]; [congruence|auto].
  - intros [H|H]; auto.
Qed.

Section IncludesFacts.

Context {Asset : Type}.
Variable project : ProjectConfiguration Asset.
Hypothesis project_named : named_by_key (packages_by_name project).

Implicit Types (p q self : PackageConfiguration Asset)
               (d : list (string * PackageConfiguration Asset)).

(** A package that the project files under its name. *)
Local Abbreviation known p :=
  (assoc_get (pc_name p) (packages_by_name project) = Some p).

(** The dictionary of included packages: filed by name, without repeated
    names, with packages of the project. *)
Local Abbreviation filed d :=
  (NoDup (keys d) /\ forall k p, In (k, p) d -> k = pc_name p /\ known p).

(** A package of the dictionary has its includes in the dictionary. *)
Local Abbreviation closed d :=
  (forall p, In (pc_name p, p) d ->
             forall n, In n (pc_includes p) ->
                       exists q, assoc_get n (packages_by_name project) = Some q /\
                                 In (pc_name q, q) d).

Lemma lookup_known n p :
  assoc_get n (packages_by_name project) = Some p -> n = pc_name p /\ known p.
Proof.
  intros Hget. pose proof (assoc_get_In _ _ _ Hget) as Hin.
  pose proof (proj1 (Forall_forall _ _) project_named _ Hin) as Hname.
  simpl in Hname. subst n. auto.
Qed.

Lemma filed_set d q : filed d -> known q -> filed (assoc_set (pc_name q) q d).
Proof.
  intros [Hnd Hd] Hq. split; [now apply NoDup_keys_assoc_set|].
  intros k p Hin. apply In_assoc_set in Hin.
  destruct Hin as [[= -> ->]|Hin]; auto.
Qed.

Lemma kept_by_set d p q :
  known p -> known q -> In (pc_name p, p) d ->
  In (pc_name p, p) (assoc_set (pc_name q) q d).
Proof.
  intros Hp Hq Hin.
  destruct (String.string_dec (pc_name p) (pc_name q)) as [E|Hne].
  - assert (p = q) by (rewrite E in Hp; congruence). subst q.
    apply In_assoc_set_same.
  - now apply In_assoc_set_other.
Qed.

Lemma update_with_includes (pkgs : list (PackageConfiguration Asset)) :
  Forall (fun p => known p) pkgs ->
  forall d,
    filed d ->
    let d' := fold_left (fun d pkg => assoc_set (pc_name pkg) pkg d) pkgs d in
    filed d' /\
    (forall p, known p -> In (pc_name p, p) d -> In (pc_name p, p) d') /\
    (forall p, In p pkgs -> In (pc_name p, p) d') /\
    (forall k p, In (k, p) d' -> In (k, p) d \/ In p pkgs).
Proof.
  induction 1 as [|q pkgs Hq Hpkgs IH]; intros d Hd; simpl.
  - split; [exact Hd|]. split; [auto|]. split; [intros p []|auto].
  - destruct (IH (assoc_set (pc_name q) q d) (filed_set d q Hd Hq))
      as (Hfiled & Hkept & Hnew & Hfrom).
    split; [exact Hfiled|]. split; [|split].
    + intros p Hp Hin. apply Hkept; auto. now apply kept_by_set.
    + intros p [<-|Hp]; auto. apply Hkept; auto. apply In_assoc_set_same.
    + intros k p Hin. apply Hfrom in Hin. destruct Hin as [Hin|Hin]; auto.
      apply In_assoc_set in Hin. destruct Hin as [[= -> ->]|Hin]; auto.
Qed.

(** A name that the loop of [_get_includes] records as missing stays
    recorded. *)
Lemma missing_names_stay
    (includes_of : PackageConfiguration Asset ->
                   res (list (PackageConfiguration Asset)))
    (recursive : bool) (names : list string) :
  forall d missing d' missing',
    res_fold (include_package includes_of project recursive) names
             (d, missing) = Ok (d', missing') ->
    missing' = [] -> missing = [].
Proof.
  induction names as [|n names IH]; intros d missing d' missing'; simpl.
  - now intros [= _ <-].
  - destruct (assoc_get n (packages_by_name project)) as [p|].
    + destruct recursive; [|apply IH].
      destruct (includes_of p); [apply IH|discriminate].
    + intros Hfold Hm. apply (IH _ _ _ _ Hfold) in Hm.
      now destruct missing.
Qed.

(** What the loop of [_get_includes] keeps, for a recursive call that
    returns packages of the project, the direct includes among them, closed
    under inclusion. *)
Lemma include_packages_fold
    (includes_of : PackageConfiguration Asset ->
                   res (list (PackageConfiguration Asset))) :
  (forall p pkgs,
      includes_of p = Ok pkgs ->
      Forall (fun q => known q) pkgs /\
      (forall n, In n (pc_includes p) ->
                 exists q, assoc_get n (packages_by_name project) = Some q /\
                           In q pkgs) /\
      (forall q, In q pkgs ->
                 forall n, In n (pc_includes q) ->
                           exists r, assoc_get n (packages_by_name project)
                                     = Some r /\ In r pkgs)) ->
  forall names d missing d' missing',
    res_fold (include_package includes_of project true) names (d, missing)
      = Ok (d', missing') ->
    filed d -> closed d ->
    filed d' /\ closed d' /\
    (forall p, known p -> In (pc_name p, p) d -> In (pc_name p, p) d') /\
    (missing' = [] ->
     forall n, In n names ->
               exists q, assoc_get n (packages_by_name project) = Some q /\
                         In (pc_name q, q) d').
Proof.
  intros Hrec. induction names as [|n names IH];
    intros d missing d' missing' Hfold Hd Hclosed; simpl in Hfold.
  - injection Hfold as <- <-.
    split; [exact Hd|]. split; [exact Hclosed|]. split; [auto|].
    intros _ n [].
  - destruct (assoc_get n (packages_by_name project)) as [p|] eqn:Hget.
    + destruct (lookup_known n p Hget) as [-> Hp].
      destruct (includes_of p) as [pkgs|] eqn:Hinc; [|discriminate].
      destruct (Hrec p pkgs Hinc) as (Hknown & Hdirect & Hpkgs).
      destruct (update_with_includes pkgs Hknown
                  (assoc_set (pc_name p) p d) (filed_set d p Hd Hp))
        as (Hfiled1 & Hkept1 & Hnew1 & Hfrom1).
      set (d1 := fold_left (fun d pkg => assoc_set (pc_name pkg) pkg d) pkgs
                           (assoc_set (pc_name p) p d)) in *.
      assert (Hclosed1 : closed d1).
      { intros x Hx m Hm. apply Hfrom1 in Hx. destruct Hx as [Hx|Hx].
        - apply In_assoc_set in Hx. destruct Hx as [[= _ ->]|Hx].
          + destruct (Hdirect m Hm) as (q & Hq & Hin). eauto.
          + destruct (Hclosed x Hx m Hm) as (q & Hq & Hin).
            exists q. split; auto.
            destruct (lookup_known m q Hq) as [_ Hkq].
            apply Hkept1; auto. now apply kept_by_set.
        - destruct (Hpkgs x Hx m Hm) as (q & Hq & Hin). eauto. }
      destruct (IH d1 missing d' missing' Hfold Hfiled1 Hclosed1)
        as (Hfiled' & Hclosed' & Hkept' & Hall).
      split; [exact Hfiled'|]. split; [exact Hclosed'|]. split.
      * intros x Hx Hin. apply Hkept'; auto. apply Hkept1; auto.
        now apply kept_by_set.
      * intros Hm m [<-|Hin]; [|now apply Hall].
        exists p. split; auto. apply Hkept'; auto. apply Hkept1; auto.
        apply In_assoc_set_same.
    + destruct (IH d (missing ++ [n]) d' missing' Hfold Hd Hclosed)
        as (Hfiled' & Hclosed' & Hkept' & Hall).
      split; [exact Hfiled'|]. split; [exact Hclosed'|]. split; [exact Hkept'|].
      intros Hm. exfalso.
      apply (missing_names_stay _ _ _ _ _ _ _ Hfold) in Hm.
      now destruct missing.
Qed.

(** X10.  The packages that [PackageConfiguration.includes] returns, in a
    project that files every package under its name: they have distinct
    names and are packages of the project; every package that the package
    names in its includes is among them, and so is every package that one
    of them includes (the result is closed under inclusion). *)
Theorem includes_transitive (fuel : nat) (self : PackageConfiguration Asset)
    (included : list (PackageConfiguration Asset)) :
  includes fuel project self = Ok included ->
  NoDup (map pc_name included) /\
  (forall p, In p included ->
             assoc_get (pc_name p) (packages_by_name project) = Some p) /\
  (forall n, In n (pc_includes self) ->
             exists p, assoc_get n (packages_by_name project) = Some p /\
                       In p included) /\
  (forall p, In p included ->
             forall n, In n (pc_includes p) ->
                       exists q, assoc_get n (packages_by_name project) = Some q /\
                                 In q included).
Proof.
  revert self included. induction fuel as [|fuel IH]; intros self included;
    simpl; [discriminate|].
  unfold _get_includes_with.
  destruct (res_fold _ (pc_includes self) ([], [])) as [[d missing]|] eqn:Hfold;
    [|discriminate].
  destruct missing as [|m missing]; [|discriminate].
  intros [= <-].
  assert (Hrec : forall p pkgs,
             includes fuel project p = Ok pkgs ->
             Forall (fun q => known q) pkgs /\
             (forall n, In n (pc_includes p) ->
                        exists q, assoc_get n (packages_by_name project)
                                  = Some q /\ In q pkgs) /\
             (forall q, In q pkgs ->
                        forall n, In n (pc_includes q) ->
                                  exists r, assoc_get n (packages_by_name project)
                                            = Some r /\ In r pkgs)).
  { intros p pkgs Hp. destruct (IH p pkgs Hp) as (_ & H1 & H2 & H3).
    repeat split; auto. now apply Forall_forall. }
  destruct (include_packages_fold _ Hrec _ _ _ _ _ Hfold)
    as ((Hnd & Hd) & Hclosed & _ & Hall).
  { split; [constructor|]. intros k p []. }
  { intros p []. }
  assert (Hin : forall p, In p (map snd d) <-> In (pc_name p, p) d).
  { intros p. rewrite in_map_iff. split.
    - intros ([k p'] & <- & Hin). simpl.
      now destruct (Hd _ _ Hin) as [<- _].
    - intros H. now exists (pc_name p, p). }
  split; [|split; [|split]].
  - replace (map pc_name (map snd d)) with (keys d); auto.
    unfold keys. rewrite map_map. apply map_ext_in.
    intros [k p] Hkp. simpl. now destruct (Hd _ _ Hkp).
  - intros p Hp. apply Hin in Hp. now destruct (Hd _ _ Hp).
  - intros n Hn. destruct (Hall eq_refl n Hn) as (q & Hq & Hqd).
    exists q. split; auto. now apply Hin.
  - intros p Hp n Hn. apply Hin in Hp.
    destruct (Hclosed p Hp n Hn) as (q & Hq & Hqd).
    exists q. split; auto. now apply Hin.
Qed.

(** *** After the check for circular references *)

Lemma res_fold_unit_ok {B} (f : B -> res unit) (l : list B) :
  res_fold (fun _ x => f x) l tt = Ok tt -> forall x, In x l -> f x = Ok tt.
Proof.
  induction l as [|y l IH]; simpl; [intros _ x []|].
  destruct (f y) as [[]|] eqn:Hy; [|discriminate].
  intros H x [<-|Hx]; auto.
Qed.

(** The direct includes of a package, as the check reads them. *)
Lemma direct_includes_fold
    (includes_of : PackageConfiguration Asset ->
                   res (list (PackageConfiguration Asset)))
    (names : list string) :
  forall d missing d' missing',
    res_fold (include_package includes_of project false) names (d, missing)
      = Ok (d', missing') ->
    filed d ->
    filed d' /\
    (forall p, known p -> In (pc_name p, p) d -> In (pc_name p, p) d') /\
    (missing' = [] ->
     forall n, In n names ->
               exists q, assoc_get n (packages_by_name project) = Some q /\
                         In (pc_name q, q) d').
Proof.
  induction names as [|n names IH]; intros d missing d' missing' Hfold Hd;
    simpl in Hfold.
  - injection Hfold as <- <-. split; [exact Hd|]. split; [auto|].
    intros _ n [].
  - destruct (assoc_get n (packages_by_name project)) as [p|] eqn:Hget.
    + destruct (lookup_known n p Hget) as [-> Hp].
      destruct (IH _ _ _ _ Hfold (filed_set d p Hd Hp))
        as (Hfiled' & Hkept' & Hall).
      split; [exact Hfiled'|]. split.
      * intros x Hx Hin. apply Hkept'; auto. now apply kept_by_set.
      * intros Hm m [<-|Hin]; [|now apply Hall].
        exists p. split; auto. apply Hkept'; auto. apply In_assoc_set_same.
    + destruct (IH _ _ _ _ Hfold Hd) as (Hfiled' & Hkept' & Hall).
      split; [exact Hfiled'|]. split; [exact Hkept'|].
      intros Hm. exfalso.
      apply (missing_names_stay _ _ _ _ _ _ _ Hfold) in Hm.
      now destruct missing.
Qed.

(** The loop of [_get_includes] succeeds when every name is the name of a
    package whose includes can be computed. *)
Lemma include_packages_succeed
    (includes_of : PackageConfiguration Asset ->
                   res (list (PackageConfiguration Asset)))
    (names : list string) :
  (forall n, In n names ->
             exists p pkgs, assoc_get n (packages_by_name project) = Some p /\
                            includes_of p = Ok pkgs) ->
  forall d missing,
  exists d',
    res_fold (include_package includes_of project true) names (d, missing)
    = Ok (d', missing).
Proof.
  induction names as [|n names IH]; intros Hnames d missing; simpl.
  - eauto.
  - destruct (Hnames n (or_introl eq_refl)) as (p & pkgs & -> & ->).
    apply IH. intros m Hm. apply Hnames. now right.
Qed.

(** X16.  In a project that files every package under its name, a package
    for which [check_circular_references_in_includes] returns normally has
    all its transitive includes: [includes], with the same bound on the
    depth of the recursion, returns a list; it raises neither the error for
    missing packages nor a recursion error. *)
Theorem includes_after_circular_check (fuel : nat)
    (self : PackageConfiguration Asset)
    (parents : list (PackageConfiguration Asset)) :
  check_circular_references_in_includes fuel project self parents = Ok tt ->
  exists included, includes fuel project self = Ok included.
Proof.
  revert self parents. induction fuel as [|fuel IH]; intros self parents;
    simpl; [discriminate|].
  destruct (string_mem (pc_name self) (map pc_name parents)); [discriminate|].
  destruct (_get_includes_with (fun _ => Ok []) project self false)
    as [direct|] eqn:Hdirect; [|discriminate].
  intros Hcheck.
  pose proof (res_fold_unit_ok _ _ Hcheck) as Hall.
  unfold _get_includes_with in Hdirect |- *.
  destruct (res_fold (include_package (fun _ => Ok []) project false)
                     (pc_includes self) ([], []))
    as [[d missing]|] eqn:Hfold; [|discriminate].
  destruct missing as [|m missing]; [|discriminate].
  injection Hdirect as <-.
  destruct (direct_includes_fold _ _ _ _ _ _ Hfold) as (_ & _ & Hfound).
  { split; [constructor|]. intros k p []. }
  destruct (include_packages_succeed (includes fuel project)
              (pc_includes self)) with (d := @nil (string * PackageConfiguration Asset))
                                       (missing := @nil string)
    as [d' ->].
  - intros n Hn. destruct (Hfound eq_refl n Hn) as (q & Hq & Hin).
    assert (Hq' : In q (map snd d)).
    { apply in_map_iff. now exists (pc_name q, q). }
    destruct (IH q (parents ++ [self]) (Hall q Hq')) as [pkgs Hpkgs].
    eauto.
  - eauto.
Qed.

End IncludesFacts.

(* ------------------------------------------------------------------ *)
(** ** Package names of a build configuration *)

Lemma Forall2_same_keys {A B} (R : string * A -> string * B -> Prop)
    (l : list (string * A)) (l' : list (string * B)) :
  (forall x y, R x y -> fst y = fst x) ->
  Forall2 R l l' -> keys l' = keys l.
Proof.
  intros HR. induction 1 as [|x y l l' Hxy _ IH]; simpl; auto.
  now rewrite IH, (HR x y Hxy).
Qed.

(** A loop that stops at the first error stops at the first element whose
    step fails: the steps before it succeed. *)
Lemma fold_until_first_error {E A B : Type} (f : A -> B -> E + A)
    (l : list B) :
  forall a e,
    fold_until f l a = inl e ->
    exists before x after a',
      l = before ++ x :: after /\
      fold_until f before a = inr a' /\
      f a' x = inl e.
Proof.
  induction l as [|x l IH]; intros a e; simpl; [discriminate|].
  destruct (f a x) as [e'|a1] eqn:Hx.
  - intros [= <-]. exists [], x, l, a. auto.
  - intros Hrest. destruct (IH a1 e Hrest) as (before & y & after & a' & -> & Hb & Hy).
    exists (x :: before), y, after, a'. simpl. rewrite Hx. auto.
Qed.

Lemma fold_until_steps_succeed {E A B : Type} (f : A -> B -> E + A)
    (l : list B) :
  forall a a',
    fold_until f l a = inr a' ->
    Forall (fun x => exists a1 a2, f a1 x = inr a2) l.
Proof.
  induction l as [|x l IH]; intros a a'; simpl; [constructor|].
  destruct (f a x) as [e|a1] eqn:Hx; [discriminate|].
  intros Hrest. constructor; [eauto|]. eapply IH; eassumption.
Qed.

Section PackageNameFacts.

Context {Regex : Type}.
Variable re_sub : Regex -> string -> string -> option string.
Variable name : string.
Variable enabled_sections : list string.
Variable _replacements : list (Regex * string).

Local Abbreviation replaced :=
  (apply_package_name_replacements Regex re_sub name _replacements).

(** The first loop of [create_package_name_map] on a dictionary: one list
    with one new name for each package. *)
Lemma new_by_old_package_names_fold (rest : list (string * string)) :
  forall done acc,
    NoDup (keys (done ++ rest)) ->
    Forall2 (fun '(package_name, filename) '(old, new_names) =>
               old = package_name /\
               exists new_name,
                 new_names = [new_name] /\ replaced filename = inr new_name)
            done acc ->
    match
      fold_until
        (fun new_by_old_package_names '(package_name, filename_to_replace) =>
           match replaced filename_to_replace with
           | inl e => inl e
           | inr new_name =>
               inr (assoc_set package_name
                      (match assoc_get package_name new_by_old_package_names
                       with
                       | Some new_names => new_names
                       | None => []
                       end ++ [new_name])
                      new_by_old_package_names)
           end)
        rest acc
    with
    | inr acc' =>
        Forall2 (fun '(package_name, filename) '(old, new_names) =>
                   old = package_name /\
                   exists new_name,
                     new_names = [new_name] /\ replaced filename = inr new_name)
                (done ++ rest) acc'
    | inl e =>
        exists package_name filename,
          In (package_name, filename) rest /\ replaced filename = inl e
    end.
Proof.
  induction rest as [|[package_name filename] rest IH]; intros done acc Hnd H;
    simpl.
  - now rewrite app_nil_r.
  - destruct (replaced filename) as [e|new_name] eqn:Hnew.
    + exists package_name, filename. auto.
    + assert (Hkeys : keys acc = keys done).
      { eapply Forall2_same_keys; [|exact H].
        now intros [n f] [o l] [-> _]. }
      assert (Hfresh : ~ In package_name (keys acc)).
      { rewrite Hkeys. unfold keys in *. rewrite map_app in Hnd. simpl in Hnd.
        apply NoDup_remove_2 in Hnd. intros Hin. apply Hnd.
        apply in_or_app. now left. }
      pose proof Hfresh as Hnone. apply assoc_get_None in Hnone.
      rewrite Hnone, assoc_set_absent by exact Hfresh. simpl.
      specialize (IH (done ++ [(package_name, filename)])
                     (acc ++ [(package_name, [new_name])])).
      rewrite <- app_assoc in IH. simpl in IH.
      specialize (IH Hnd).
      match type of IH with
      | ?P -> _ => assert (Hdone : P)
      end.
      { apply Forall2_app; auto. constructor; [|constructor].
        split; auto. now exists new_name. }
      specialize (IH Hdone).
      destruct (fold_until _ rest _) as [e|acc']; auto.
      destruct IH as (n & f & Hin & He). exists n, f. auto.
Qed.

(** X11.  [BuildConfiguration.create_package_name_map] on a dictionary of
    package names: it returns the replaced name of every package, in the
    order of the dictionary, or it raises the error of the first entry of
    the dictionary for which a replacement fails: the names of the entries
    before it are replaced without error, and the error is the one of the
    first replacement of the list that fails on the name of that entry,
    the replacements before it having been applied.  It never raises the
    error for several packages that map to the same export name: the new
    names are grouped by the old package name, which is a key of the
    dictionary, so that no group has two names. *)
Theorem create_package_name_map_spec
    (package_names_map : list (string * string)) :
  NoDup (keys package_names_map) ->
  match create_package_name_map Regex re_sub name enabled_sections
                                _replacements package_names_map with
  | inr package_name_map =>
      Forall2 (fun '(package_name, filename) '(old, new_name) =>
                 old = package_name /\ replaced filename = inr new_name)
              package_names_map package_name_map
  | inl e =>
      exists before package_name filename after
             applied match_regexp replacement_string remaining partly_replaced,
        package_names_map = before ++ (package_name, filename) :: after /\
        Forall (fun '(_, earlier) =>
                  exists new_name, replaced earlier = inr new_name) before /\
        replaced filename = inl e /\
        _replacements
          = applied ++ (match_regexp, replacement_string) :: remaining /\
        apply_package_name_replacements Regex re_sub name applied filename
          = inr partly_replaced /\
        re_sub match_regexp replacement_string partly_replaced = None /\
        e = ReplacementFailed match_regexp replacement_string name filename
  end.
Proof.
  intros Hnd. unfold create_package_name_map.
  pose proof (new_by_old_package_names_fold package_names_map [] [] Hnd
                (Forall2_nil _)) as Hfold.
  destruct (fold_until _ package_names_map []) as [e|new_by_old] eqn:Hrun.
  - clear Hfold.
    destruct (fold_until_first_error _ _ _ _ Hrun)
      as (before & [package_name filename] & after & acc & Hmap & Hbefore
          & Hstep).
    assert (Hfile : replaced filename = inl e).
    { destruct (replaced filename) as [e'|new_name]; [|discriminate].
      now injection Hstep as <-. }
    pose proof Hfile as Hreplacement.
    unfold apply_package_name_replacements in Hreplacement.
    destruct (fold_until_first_error _ _ _ _ Hreplacement)
      as (applied & [match_regexp replacement_string] & remaining & s
          & Hlist & Happlied & Hsub).
    exists before, package_name, filename, after, applied, match_regexp,
           replacement_string, remaining, s.
    split; [exact Hmap|]. split; [|split; [exact Hfile|]].
    + apply fold_until_steps_succeed in Hbefore.
      eapply Forall_impl; [|exact Hbefore].
      intros [n earlier] (a1 & a2 & Hok).
      destruct (replaced earlier) as [e'|new_name]; [discriminate|eauto].
    + split; [exact Hlist|]. split; [exact Happlied|].
      destruct (re_sub match_regexp replacement_string s);
        [discriminate|]. split; [reflexivity|]. now injection Hsub as <-.
  - simpl in Hfold.
    assert (Hshort : filter (fun '(_, new_names) =>
                               Nat.ltb 1 (@List.length string new_names))
                            new_by_old = []).
    { clear -Hfold. induction Hfold as [|[n f] [o l] m acc [_ (x & -> & _)] _ IH];
        simpl; auto. }
    rewrite Hshort.
    assert (Hresult : forall done result,
               NoDup (keys (done ++ package_names_map)) ->
               Forall2 (fun '(package_name, filename) '(old, new_name) =>
                          old = package_name /\ replaced filename = inr new_name)
                       done result ->
               match
                 fold_until
                   (fun result '(old, new) =>
                      match new with
                      | first :: _ => inr (assoc_set old first result)
                      | [] => @inl (package_name_error Regex) _
                                   (OtherError IndexError)
                      end) new_by_old result
               with
               | inr package_name_map =>
                   Forall2 (fun '(package_name, filename) '(old, new_name) =>
                              old = package_name /\
                              replaced filename = inr new_name)
                           (done ++ package_names_map) package_name_map
               | inl _ => False
               end).
    { clear Hshort Hnd Hrun.
      induction Hfold as [|[n f] [o l] m acc [-> (x & -> & Hx)] _ IH];
        intros done result Hnd Hdone; simpl.
      - now rewrite app_nil_r.
      - assert (Hkeys : keys result = keys done).
        { eapply Forall2_same_keys; [|exact Hdone].
          now intros [n' f'] [o' l'] [-> _]. }
        assert (Hfresh : ~ In n (keys result)).
        { rewrite Hkeys. unfold keys in *. rewrite map_app in Hnd.
          simpl in Hnd. apply NoDup_remove_2 in Hnd. intros Hin. apply Hnd.
          apply in_or_app. now left. }
        rewrite assoc_set_absent by exact Hfresh.
        specialize (IH (done ++ [(n, f)]) (result ++ [(n, x)])).
        rewrite <- app_assoc in IH. apply IH; [exact Hnd|].
        apply Forall2_app; auto. }
    specialize (Hresult [] [] Hnd (Forall2_nil _)). simpl in Hresult.
    destruct (fold_until _ new_by_old []) as [e|result]; [destruct Hresult|].
    exact Hresult.
Qed.

End PackageNameFacts.

(* ------------------------------------------------------------------ *)
(** ** Applying the "Any" platform twice *)

Lemma assoc_set_same_value {A} k (v : A) l :
  assoc_get k l = Some v -> assoc_set k v l = l.
Proof.
  induction l as [|[k' v'] l IH]; simpl; [discriminate|].
  destruct (String.eqb k k') eqn:Hk.
  - apply String.eqb_eq in Hk. now intros [= ->]; subst.
  - intros H. now rewrite IH.
Qed.

Lemma assoc_set_twice {A} k (v v' : A) l :
  assoc_set k v' (assoc_set k v l) = assoc_set k v' l.
Proof.
  induction l as [|[k0 v0] l IH]; simpl.
  - now rewrite String.eqb_refl.
  - destruct (String.eqb k k0) eqn:Hk; simpl.
    + now rewrite String.eqb_refl.
    + now rewrite Hk, IH.
Qed.

(** Platform data in which every platform of the list has the flag [e]
    already is left as it is. *)
Lemma enable_from_any_fixed e c items T :
  (forall p, In p (keys T) ->
             exists config, assoc_get p items = Some config /\
                            has_flag e config) ->
  res_fold (enable_from_any e) T (VDict c items) = Ok (VDict c items).
Proof.
  induction T as [|[q default_config] T IH]; intros H; simpl; auto.
  destruct (H q (or_introl eq_refl)) as (config & Hget & cc & l & -> & Hl).
  unfold dict_get. simpl dict_items. rewrite Hget. simpl.
  rewrite (assoc_set_same_value _ _ _ Hl).
  rewrite (assoc_set_same_value _ _ _ Hget).
  apply IH. intros p Hp. apply H. now right.
Qed.

(** X12.  On version 1 documents [apply_any_platform_selection] is
    idempotent: applied to the document that it returned, it returns that
    document again. *)
Theorem apply_any_platform_selection_idempotent
    (importer_metadata result : value) :
  py_eq (serialized_version_of importer_metadata) (VInt 1) = true ->
  apply_any_platform_selection importer_metadata = Ok result ->
  apply_any_platform_selection result = Ok result.
Proof.
  intros Hver Hrun.
  destruct (any_enabled_of importer_metadata) as [e|err] eqn:Hany.
  2: { exfalso. unfold apply_any_platform_selection in Hrun.
       unfold serialized_version_of, plugin_importer_of in Hver.
       unfold any_enabled_of, platform_data_of, plugin_importer_of in Hany.
       cbv zeta in Hrun. rewrite Hver, Hany in Hrun. discriminate. }
  destruct (truthy e) eqn:He.
  2: { assert (result = importer_metadata) as ->; [|exact Hrun].
       unfold apply_any_platform_selection in Hrun.
       unfold serialized_version_of, plugin_importer_of in Hver.
       unfold any_enabled_of, platform_data_of, plugin_importer_of in Hany.
       cbv zeta in Hrun. rewrite Hver, Hany, He in Hrun.
       simpl in Hrun. congruence. }
  destruct (apply_any_v1_shape _ _ _ Hver Hany He Hrun)
    as (c0 & items0 & c1 & items1 & c2 & items' & -> & Hsv & Hall).
  clear Hrun.
  unfold apply_any_platform_selection. cbv zeta.
  rewrite (safe_dict_get_value_child _ "PluginImporter").
  rewrite (safe_dict_get_child_set c0 items0 "PluginImporter")
    by (try reflexivity; apply class_accepted_dict).
  rewrite safe_dict_get_value_set_other by discriminate.
  rewrite Hsv, Hver.
  rewrite (safe_dict_get_value_child _ "platformData").
  rewrite (safe_dict_get_child_set c1 items1 "platformData")
    by (try reflexivity; apply class_accepted_dict).
  assert (HanyT : In "Any" (keys TEMPLATE_PLATFORM_DATA)) by (simpl; auto).
  destruct (Hall "Any" HanyT) as (any_config & HgetA & (ca & la & -> & Hla)).
  unfold dict_get_default. simpl dict_items. rewrite HgetA.
  simpl get_item. rewrite Hla, He. simpl negb. cbv iota.
  rewrite (enable_from_any_fixed e c2 items' _ Hall).
  simpl. now rewrite !assoc_set_twice.
Qed.

(* ------------------------------------------------------------------ *)
(** ** What disabling the unsupported platforms leaves alone *)

(** The function writes [enabled] into the object that is stored under
    "Any".  The property below is one of documents that are trees, in which
    no dictionary is stored in two places, as the documents of type [value]
    are: in a store where a supported platform holds the very object of
    "Any", that platform is disabled with it, while the tree that the store
    held before the call keeps it enabled. *)
Example disable_unsupported_platforms_shared_any :
  let run :=
    Heap.disable_unsupported_platforms (Heap.PRef 0)
      "Plugins/x86/Foo/bar.bundle" SHARED_ANY_STORE in
  fst run = Ok (Heap.PRef 0) /\
  option_map (fun document => platform_config document "Editor")
             (Heap.reify 10 SHARED_ANY_STORE (Heap.PRef 0)) =
    Some (od [("enabled", VInt 1)]) /\
  option_map (fun document => platform_config document "Editor")
             (Heap.reify 10 (snd run) (Heap.PRef 0)) =
    Some (od [("enabled", VInt 0)]) /\
  option_map
    (fun document =>
       match disable_unsupported_platforms document
               "Plugins/x86/Foo/bar.bundle" with
       | Ok result => platform_config result "Editor"
       | Raise _ => VNone
       end)
    (Heap.reify 10 SHARED_ANY_STORE (Heap.PRef 0)) =
    Some (od [("enabled", VInt 1)]).
Proof. vm_compute. repeat split. Qed.

(** X13.  On a document that is a tree (no dictionary of the document is
    stored in two places of it, so that a write to the configuration of
    "Any" is a write to that entry only), [disable_unsupported_platforms]
    on a version 1 document of a shared library leaves the configuration of
    every supported platform other than "Any" as it was (the "Any" entry
    itself is rewritten when a platform is disabled). *)
Theorem disable_unsupported_platforms_keeps_supported
    (importer_metadata : value) (filename : string)
    (supported_platforms : list string) (result : value) :
  re_fullmatch SHARED_LIBRARY_PATH (posix_path (normpath filename)) = true ->
  assoc_get (snd (splitext (posix_path (normpath filename))))
            PLATFORMS_BY_SHARED_LIBRARY_EXTENSION = Some supported_platforms ->
  py_eq (serialized_version_of importer_metadata) (VInt 1) = true ->
  disable_unsupported_platforms importer_metadata filename = Ok result ->
  forall platform,
    In platform supported_platforms ->
    platform <> "Any" ->
    platform_config result platform = platform_config importer_metadata platform.
Proof.
  intros Hpath Hext Hver Hrun p Hp HpAny.
  unfold serialized_version_of, plugin_importer_of in Hver.
  unfold disable_unsupported_platforms in Hrun. cbv zeta in Hrun.
  rewrite Hpath in Hrun. simpl negb in Hrun. cbv iota in Hrun.
  rewrite Hext in Hrun.
  rewrite (safe_dict_get_value_child importer_metadata "PluginImporter")
    in Hver, Hrun.
  destruct (safe_dict_get_child importer_metadata "PluginImporter" (pd []) [])
    as [pi|] eqn:Hpi.
  2: { rewrite Hver in Hrun. simpl in Hrun. now injection Hrun as <-. }
  rewrite Hver in Hrun. simpl negb in Hrun. cbv iota in Hrun.
  rewrite (safe_dict_get_value_child pi "platformData") in Hrun.
  destruct (safe_dict_get_child_stored _ _ _ _ _ Hpi)
    as (c0 & items0 & -> & Hget0 & Hn0 & Hc0).
  destruct (safe_dict_get_child pi "platformData" (pd []) [])
    as [pdv|] eqn:Hpd.
  2: { simpl in Hrun. injection Hrun as <-.
       now rewrite (assoc_set_same_value _ _ _ Hget0). }
  destruct (safe_dict_get_child_stored _ _ _ _ _ Hpd)
    as (c1 & items1 & -> & Hget1 & Hn1 & Hc1).
  destruct pdv as [| | | | | c2 items2]; try discriminate.
  assert (Hbefore : platform_data_of (VDict c0 items0) = VDict c2 items2).
  { unfold platform_data_of, plugin_importer_of.
    rewrite (safe_dict_get_value_child _ "PluginImporter"), Hpi.
    now rewrite (safe_dict_get_value_child _ "platformData"), Hpd. }
  simpl dict_items in Hrun.
  assert (HpL : ~ In p (sorted_strings
                          (filter (fun p => negb (string_mem p supported_platforms))
                                  (keys items2)))).
  { rewrite In_sorted_strings, filter_In. intros [_ Hneg].
    apply negb_true_iff, string_mem_false in Hneg. contradiction. }
  destruct (sorted_strings
              (filter (fun p => negb (string_mem p supported_platforms))
                      (keys items2)))
    as [|q L] eqn:HL.
  - simpl in Hrun. injection Hrun as <-.
    now rewrite (assoc_set_same_value _ _ _ Hget1),
                (assoc_set_same_value _ _ _ Hget0).
  - destruct (set_item (dict_get_default (VDict c2 items2) "Any" (od []))
                       "enabled" (VInt 0)) as [any_config|] eqn:Hany;
      [|discriminate].
    simpl dict_set in Hrun.
    destruct (res_fold reset_to_template (q :: L)
                (VDict c2 (assoc_set "Any" any_config items2)))
      as [platform_data|] eqn:Hfold; [|discriminate].
    apply reset_to_template_fold in Hfold as (items' & -> & Hin & Hout).
    injection Hrun as <-.
    unfold platform_config. rewrite platform_data_of_put, Hbefore.
    unfold dict_get. simpl dict_items.
    now rewrite (Hout p HpL), assoc_get_set_other by exact HpAny.
Qed.

(* ------------------------------------------------------------------ *)
(** ** Reading the GUIDs of assets *)

Section ReadGuidsFacts.

Context {Asset : Type}.
Variable importer_metadata : Asset -> res value.
Variable filename_guid_lookup : Asset -> string.

(** The GUID that an asset ends with: the GUID of its metadata when it has
    one, the GUID that the database has for its path otherwise. *)
Local Abbreviation wanted self asset metadata :=
  (match metadata_guid_of metadata with
   | Some g =>
       if String.eqb g "" then get_guid self (filename_guid_lookup asset)
       else Ok g
   | None => get_guid self (filename_guid_lookup asset)
   end).

Lemma read_guids_loop_spec (assets : list Asset) :
  NoDup (map (fun asset => posix_path (filename_guid_lookup asset)) assets) ->
  (forall asset, In asset assets ->
                 exists metadata, importer_metadata asset = Ok metadata) ->
  forall self missing,
  exists missing' self',
    read_guids_loop Asset importer_metadata filename_guid_lookup
                    assets self missing = (Ok missing', self') /\
    (forall path,
        (forall asset, In asset assets ->
                       posix_path (filename_guid_lookup asset)
                       <> posix_path path) ->
        get_guid self' path = get_guid self path) /\
    (forall asset metadata,
        In asset assets -> importer_metadata asset = Ok metadata ->
        get_guid self' (filename_guid_lookup asset)
        = wanted self asset metadata) /\
    (forall path,
        In path missing' <->
        In path missing \/
        exists asset metadata e,
          In asset assets /\ importer_metadata asset = Ok metadata /\
          filename_guid_lookup asset = path /\
          wanted self asset metadata = Raise e).
Proof.
  induction assets as [|asset rest IH]; intros Hnd Hread self missing.
  - exists missing, self. simpl. split; [reflexivity|].
    split; [reflexivity|]. split; [intros ? ? []|].
    intros path. split; [auto|]. intros [H|(a & _ & _ & [] & _)]. exact H.
  - simpl in Hnd. inversion Hnd as [|? ? Hfresh Hnd']; subst.
    destruct (Hread asset (or_introl eq_refl)) as [metadata Hmeta].
    simpl. rewrite Hmeta.
    (* the database and the missing paths after this asset *)
    set (self1 :=
           match wanted self asset metadata with
           | Ok g => add_guid self (filename_guid_lookup asset) g
           | Raise _ => self
           end).
    set (missing1 :=
           match wanted self asset metadata with
           | Ok _ => missing
           | Raise _ => missing ++ [filename_guid_lookup asset]
           end).
    destruct (IH Hnd' (fun a Ha => Hread a (or_intror Ha)) self1 missing1)
      as (missing' & self' & Hloop & Hframe & Hrest & Hmissing).
    assert (Hstep :
      match
        match get_guid self (filename_guid_lookup asset) with
        | Ok existing_guid => Ok (Some existing_guid)
        | Raise (MissingGuidsError _) => Ok None
        | Raise e => Raise e
        end
      with
      | Raise e => (Raise e, self)
      | Ok existing_guid =>
          match
            match metadata_guid_of metadata with
            | Some g => if String.eqb g "" then existing_guid else Some g
            | None => existing_guid
            end
          with
          | Some g =>
              if String.eqb g ""
              then read_guids_loop Asset importer_metadata
                     filename_guid_lookup rest self
                     (missing ++ [filename_guid_lookup asset])
              else read_guids_loop Asset importer_metadata
                     filename_guid_lookup rest
                     (add_guid self (filename_guid_lookup asset) g) missing
          | None =>
              read_guids_loop Asset importer_metadata filename_guid_lookup
                rest self (missing ++ [filename_guid_lookup asset])
          end
      end = (Ok missing', self')).
    { rewrite <- Hloop. unfold self1, missing1.
      destruct (get_guid self (filename_guid_lookup asset))
        as [existing|e] eqn:Hget.
      - pose proof (get_guid_not_empty _ _ _ Hget) as Hne.
        apply String.eqb_neq in Hne.
        destruct (metadata_guid_of metadata) as [g|]; [|now rewrite Hne].
        destruct (String.eqb g "") eqn:Hg; rewrite ?Hne, ?Hg; reflexivity.
      - rewrite (get_guid_error _ _ _ Hget).
        destruct (metadata_guid_of metadata) as [g|]; [|reflexivity].
        destruct (String.eqb g "") eqn:Hg; rewrite ?Hg; reflexivity. }
    exists missing', self'. split; [exact Hstep|].
    assert (Hself1 : forall path,
               posix_path (filename_guid_lookup asset) <> posix_path path ->
               get_guid self1 path = get_guid self path).
    { intros path Hne. unfold self1.
      destruct (wanted self asset metadata) as [g|]; auto.
      rewrite get_guid_after_add_guid.
      destruct (String.eqb (posix_path path)
                           (posix_path (filename_guid_lookup asset))) eqn:E;
        auto.
      apply String.eqb_eq in E. congruence. }
    assert (Hother : forall a, In a rest ->
               posix_path (filename_guid_lookup asset)
               <> posix_path (filename_guid_lookup a)).
    { intros a Ha E. apply Hfresh. rewrite E.
      apply (in_map (fun a => posix_path (filename_guid_lookup a))). exact Ha. }
    assert (Hwanted_rest : forall a m, In a rest ->
               wanted self1 a m = wanted self a m).
    { intros a m Ha. rewrite (Hself1 _ (Hother a Ha)). reflexivity. }
    split; [|split].
    + intros path Hpath. rewrite Hframe.
      * apply Hself1. apply Hpath. now left.
      * intros a Ha. apply Hpath. now right.
    + intros a m [<-|Ha] Hm.
      * assert (m = metadata) by congruence. subst m.
        rewrite Hframe by (intros b Hb E; now apply (Hother b Hb)).
        unfold self1.
        destruct (wanted self asset metadata) as [g|e] eqn:Hw.
        2: { destruct (metadata_guid_of metadata) as [g'|]; [|exact Hw].
             destruct (String.eqb g' ""); [exact Hw|discriminate]. }
        rewrite get_guid_after_add_guid, String.eqb_refl.
        assert (Hg : g <> "").
        { destruct (metadata_guid_of metadata) as [g'|].
          - destruct (String.eqb g' "") eqn:Hg'.
            + eapply get_guid_not_empty; eassumption.
            + injection Hw as <-. now apply String.eqb_neq.
          - eapply get_guid_not_empty; eassumption. }
        apply String.eqb_neq in Hg. now rewrite Hg.
      * rewrite (Hrest a m Ha Hm). now apply Hwanted_rest.
    + intros path. rewrite Hmissing. unfold missing1. split.
      * intros [Hin|(a & m & e & Ha & Hm & Hp & Hw)].
        -- destruct (wanted self asset metadata) as [g|e] eqn:Hw; auto.
           apply in_app_or in Hin. destruct Hin as [Hin|[<-|[]]]; auto.
           right. exists asset, metadata, e. repeat split; simpl; auto.
        -- right. exists a, m, e. rewrite <- (Hwanted_rest a m Ha).
           repeat split; simpl; auto.
      * intros [Hin|(a & m & e & [<-|Ha] & Hm & Hp & Hw)].
        -- left. destruct (wanted self asset metadata); auto.
           apply in_or_app. now left.
        -- assert (m = metadata) by congruence. subst m. left.
           rewrite Hw. apply in_or_app. right. now left.
        -- right. exists a, m, e. rewrite (Hwanted_rest a m Ha).
           repeat split; auto.
Qed.

(** X14.  [GuidDatabase.read_guids_from_assets] on assets with distinct
    lookup paths and readable metadata.  When it returns, the path of every
    asset resolves to the GUID of its metadata, or, when the metadata have
    no GUID, to the GUID that the database had for the path; the check for
    duplicates has passed; paths of no asset resolve as before.  When it
    raises, it raises [DuplicateGuidsError], or [MissingGuidsError] with
    exactly the paths of the assets that have no GUID in their metadata and
    none in the database. *)
Theorem read_guids_from_assets_spec (self : GuidDatabase)
    (assets : list Asset) :
  NoDup (map (fun asset => posix_path (filename_guid_lookup asset)) assets) ->
  (forall asset, In asset assets ->
                 exists metadata, importer_metadata asset = Ok metadata) ->
  let outcome :=
    read_guids_from_assets Asset importer_metadata filename_guid_lookup
                           self assets in
  (forall path,
      (forall asset, In asset assets ->
                     posix_path (filename_guid_lookup asset)
                     <> posix_path path) ->
      get_guid (snd outcome) path = get_guid self path) /\
  match fst outcome with
  | Ok _ =>
      check_for_duplicates (_duplicate_guids_checker (snd outcome)) = Ok tt /\
      forall asset metadata,
        In asset assets -> importer_metadata asset = Ok metadata ->
        exists guid,
          get_guid (snd outcome) (filename_guid_lookup asset) = Ok guid /\
          match metadata_guid_of metadata with
          | Some g =>
              if String.eqb g ""
              then get_guid self (filename_guid_lookup asset) = Ok guid
              else guid = g
          | None => get_guid self (filename_guid_lookup asset) = Ok guid
          end
  | Raise (MissingGuidsError missing_guid_paths) =>
      forall path,
        In path missing_guid_paths <->
        exists asset metadata,
          In asset assets /\ importer_metadata asset = Ok metadata /\
          filename_guid_lookup asset = path /\
          match metadata_guid_of metadata with
          | Some g => g = ""
          | None => True
          end /\
          get_guid self path = Raise (MissingGuidsError [posix_path path])
  | Raise (DuplicateGuidsError _) => True
  | Raise _ => False
  end.
Proof.
  intros Hnd Hread outcome. subst outcome. unfold read_guids_from_assets.
  destruct (read_guids_loop_spec assets Hnd Hread self [])
    as (missing' & self' & -> & Hframe & Hassets & Hmissing).
  destruct missing' as [|p missing']; cbn [fst snd].
  - split; [exact Hframe|].
    destruct (check_for_duplicates (_duplicate_guids_checker self'))
      as [[]|e] eqn:Hcheck.
    + split; [reflexivity|]. intros asset metadata Ha Hm.
      rewrite (Hassets asset metadata Ha Hm).
      destruct (wanted self asset metadata) as [g|e] eqn:Hw.
      * exists g. split; [reflexivity|].
        destruct (metadata_guid_of metadata) as [g'|]; auto.
        destruct (String.eqb g' ""); [auto|congruence].
      * exfalso. apply (proj2 (Hmissing (filename_guid_lookup asset))).
        right. exists asset, metadata, e. auto.
    + unfold check_for_duplicates in Hcheck.
      destruct (filter _ _); [discriminate|]. now injection Hcheck as <-.
  - split; [exact Hframe|]. intros path.
    rewrite In_sorted_strings, In_dedupe, Hmissing. split.
    + intros [[]|(a & m & e & Ha & Hm & Hp & Hw)].
      exists a, m. repeat split; auto.
      * destruct (metadata_guid_of m) as [g|]; auto.
        destruct (String.eqb g "") eqn:Hg; [|discriminate].
        now apply String.eqb_eq.
      * subst path.
        destruct (metadata_guid_of m) as [g|].
        -- destruct (String.eqb g ""); [|discriminate].
           now rewrite Hw, (get_guid_error _ _ _ Hw).
        -- now rewrite Hw, (get_guid_error _ _ _ Hw).
    + intros (a & m & Ha & Hm & Hp & Hg & Hget). right.
      exists a, m, (MissingGuidsError [posix_path path]).
      repeat split; auto. subst path.
      destruct (metadata_guid_of m) as [g|]; [|exact Hget].
      subst g. simpl. exact Hget.
Qed.

End ReadGuidsFacts.

(* ------------------------------------------------------------------ *)
(** ** Sorting assets by export path *)

Section AssetOrderFacts.

Context {Asset : Type}.
Variable filename : Asset -> string.

Lemma filter_insert_by_filename (f : string) (asset : Asset)
    (l : list Asset) :
  filter (fun other => String.eqb (filename other) f)
         (insert_by_filename filename asset l) =
  if String.eqb (filename asset) f
  then asset :: filter (fun other => String.eqb (filename other) f) l
  else filter (fun other => String.eqb (filename other) f) l.
Proof.
  induction l as [|other l IH]; simpl.
  - now destruct (String.eqb (filename asset) f).
  - destruct (String.leb (filename asset) (filename other)) eqn:Hle; simpl.
    + now destruct (String.eqb (filename asset) f).
    + rewrite IH.
      destruct (String.eqb (filename asset) f) eqn:Ha;
        destruct (String.eqb (filename other) f) eqn:Hb; auto.
      apply String.eqb_eq in Ha, Hb.
      rewrite Ha, Hb, string_leb_refl in Hle. discriminate.
Qed.

(** X15.  [Asset.sorted_by_filename] returns the assets it is given, each
    as often as it was given, in the order of their export paths; the sort
    is stable: assets with the same export path keep the order in which
    they were given. *)
Theorem sorted_by_filename_stable (assets : list Asset) :
  Permutation (sorted_by_filename filename assets) assets /\
  StronglySorted (by_filename filename) (sorted_by_filename filename assets) /\
  forall f,
    filter (fun asset => String.eqb (filename asset) f)
           (sorted_by_filename filename assets) =
    filter (fun asset => String.eqb (filename asset) f) assets.
Proof.
  split; [apply sorted_by_filename_perm|].
  split; [apply sorted_by_filename_sorted|].
  intros f. induction assets as [|asset assets IH]; simpl; auto.
  rewrite filter_insert_by_filename, IH.
  now destruct (String.eqb (filename asset) f).
Qed.

End AssetOrderFacts.

(* ------------------------------------------------------------------ *)
(** ** Selected sections: the project after a successful assignment *)

Section SelectionFacts.

Context {Asset : Type}.
Implicit Types (self : ProjectConfiguration Asset)
               (p : PackageConfiguration Asset).

Lemma package_list_by_name_snoc (all : list (PackageConfiguration Asset))
    p (sections : list string) :
  package_list_by_name (all ++ [p]) sections =
  let buckets := package_list_by_name all sections in
  if get_enabled (pc_sections p) sections
  then assoc_set (pc_name p)
         (match assoc_get (pc_name p) buckets with
          | Some l => l
          | None => []
          end ++ [p]) buckets
  else buckets.
Proof. unfold package_list_by_name. now rewrite fold_left_app. Qed.

(** The buckets of [package_list_by_name]: one for each name of an enabled
    package, with the enabled packages of that name in their order. *)
Lemma package_list_by_name_spec (all : list (PackageConfiguration Asset))
    (sections : list string) :
  NoDup (keys (package_list_by_name all sections)) /\
  forall name,
    match assoc_get name (package_list_by_name all sections) with
    | Some l => l <> []
    | None => True
    end /\
    match assoc_get name (package_list_by_name all sections) with
    | Some l => l
    | None => []
    end =
    filter (fun p => get_enabled (pc_sections p) sections &&
                     String.eqb (pc_name p) name) all.
Proof.
  induction all as [|p all [IHnd IH]] using rev_ind.
  - split; [constructor|]. intros name. simpl. auto.
  - rewrite package_list_by_name_snoc. cbv zeta.
    destruct (get_enabled (pc_sections p) sections) eqn:Hen.
    + split; [now apply NoDup_keys_assoc_set|].
      intros name. rewrite filter_app. simpl. rewrite Hen. simpl.
      destruct (String.eqb (pc_name p) name) eqn:Hname.
      * apply String.eqb_eq in Hname. subst name.
        rewrite assoc_get_set_same. split; [now destruct (match _ with
                                                         | Some l => l
                                                         | None => []
                                                         end)|].
        f_equal. apply IH.
      * apply String.eqb_neq in Hname.
        rewrite assoc_get_set_other by congruence.
        rewrite app_nil_r. apply IH.
    + split; [exact IHnd|]. intros name. rewrite filter_app. simpl.
      rewrite Hen. simpl. rewrite app_nil_r. apply IH.
Qed.

Lemma first_of_singletons
    (buckets : list (string * list (PackageConfiguration Asset))) :
  (forall name l, In (name, l) buckets -> exists p, l = [p]) ->
  flat_map (fun '(name, pkgs) =>
              match pkgs with
              | pkg :: _ => [(name, pkg)]
              | [] => []
              end) buckets =
  map (fun '(name, pkgs) =>
         (name, match pkgs with pkg :: _ => pkg | [] => {|
            pc_name := name; pc_sections := []; pc_imports := [];
            pc_includes := []; pc_exclude_paths := [] |} end)) buckets /\
  forall name p,
    In (name, p)
       (flat_map (fun '(name, pkgs) =>
                    match pkgs with
                    | pkg :: _ => [(name, pkg)]
                    | [] => []
                    end) buckets) <->
    In (name, [p]) buckets.
Proof.
  induction buckets as [|[n l] buckets IH]; intros H; simpl.
  - split; [reflexivity|]. tauto.
  - destruct (H n l (or_introl eq_refl)) as [q ->].
    destruct IH as [IH1 IH2]; [intros name l Hl; apply (H name l); now right|].
    split; [simpl; now rewrite IH1|].
    intros name p. simpl. rewrite IH2. split.
    + intros [[= <- <-]|Hin]; auto.
    + intros [[= <- <-]|Hin]; auto.
Qed.

Lemma res_fold_ext {A B} (f g : A -> B -> res A) (l : list B) :
  (forall a x, In x l -> f a x = g a x) ->
  forall a, res_fold f l a = res_fold g l a.
Proof.
  induction l as [|x l IH]; intros H a; simpl; auto.
  rewrite (H a x (or_introl eq_refl)).
  destruct (g a x); auto. apply IH. intros a' y Hy. apply H. now right.
Qed.

(** The check for circular references reads the project through
    [packages_by_name] only. *)
Lemma check_circular_ext (fuel : nat) (project project' : ProjectConfiguration Asset) :
  packages_by_name project = packages_by_name project' ->
  forall p parents,
    check_circular_references_in_includes fuel project p parents =
    check_circular_references_in_includes fuel project' p parents.
Proof.
  intros Heq. induction fuel as [|fuel IH]; intros p parents; simpl; auto.
  destruct (string_mem (pc_name p) (map pc_name parents)); auto.
  assert (Hdirect :
    _get_includes_with (fun _ => Ok []) project p false =
    _get_includes_with (fun _ => Ok []) project' p false).
  { unfold _get_includes_with.
    rewrite (res_fold_ext
               (include_package (fun _ => Ok []) project false)
               (include_package (fun _ => Ok []) project' false));
      [reflexivity|].
    intros [d missing] n _. unfold include_package. now rewrite Heq. }
  rewrite Hdirect.
  destruct (_get_includes_with (fun _ => Ok []) project' p false); auto.
  apply res_fold_ext. intros [] q _. apply IH.
Qed.

(** X17.  After an assignment to [selected_sections] that changes the
    selection and returns normally: the selection is the assigned set, the
    selected packages are exactly the packages of the project that are
    enabled for it, they have distinct names and are filed under their
    names, every one of them has passed the check for circular references,
    and the selected build configurations are the enabled ones, in their
    order. *)
Theorem selected_sections_setter_success (fuel : nat) self
    (sections : list string) self' :
  match _selected_sections self with
  | Some current => set_eqb (dedupe sections) current = false
  | None => True
  end ->
  set_selected_sections fuel self sections = (Ok tt, self') ->
  _selected_sections self' = Some (dedupe sections) /\
  _packages self' = _packages self /\
  (forall p, In p (packages self') <->
             In p (_packages self) /\
             get_enabled (pc_sections p) (dedupe sections) = true) /\
  NoDup (map pc_name (packages self')) /\
  named_by_key (packages_by_name self') /\
  (forall p, In p (packages self') ->
             check_circular_references_in_includes fuel self' p [] = Ok tt) /\
  _builds self' =
    filter (fun build => get_enabled (bc_sections build) (dedupe sections))
           (_all_builds self).
Proof.
  intros Hchanged. unfold set_selected_sections.
  assert (Hif : match _selected_sections self with
                | Some current => set_eqb (dedupe sections) current
                | None => false
                end = false).
  { destruct (_selected_sections self); auto. }
  rewrite Hif. clear Hif Hchanged.
  set (buckets := package_list_by_name (_packages self) (dedupe sections)).
  destruct (map fst (filter (fun '(_, pkgs) => Nat.ltb 1 (List.length pkgs))
                            buckets)) as [|dup dups] eqn:Hdups;
    [|discriminate].
  destruct (package_list_by_name_spec (_packages self) (dedupe sections))
    as [Hnd Hspec]. fold buckets in Hnd, Hspec.
  destruct (package_list_by_name_buckets (_packages self) (dedupe sections))
    as [Hb _]. fold buckets in Hb.
  destruct (first_of_buckets _ Hb) as [Hnamed _].
  assert (Hsingle : forall name l, In (name, l) buckets -> exists p, l = [p]).
  { intros name l Hin.
    assert (Hshort : Nat.ltb 1 (List.length l) = false).
    { destruct (Nat.ltb 1 (List.length l)) eqn:Hlong; auto. exfalso.
      assert (Hin' : In (name, l)
                (filter (fun '(_, pkgs) => Nat.ltb 1 (List.length pkgs))
                        buckets))
        by (apply filter_In; auto).
      apply (in_map fst) in Hin'. rewrite Hdups in Hin'. destruct Hin'. }
    apply Nat.ltb_ge in Hshort.
    pose proof (assoc_get_NoDup _ _ _ Hnd Hin) as Hget.
    destruct (Hspec name) as [Hne _]. rewrite Hget in Hne.
    destruct l as [|p [|q l]]; simpl in Hshort; try lia; [congruence|eauto]. }
  destruct (first_of_singletons buckets Hsingle) as [Hmap Hfirst].
  set (selected :=
         flat_map (fun '(name, pkgs) =>
                     match pkgs with
                     | pkg :: _ => [(name, pkg)]
                     | [] => []
                     end) buckets) in *.
  destruct (res_fold _ _ tt) as [[]|e] eqn:Hcheck.
  2: { destruct e; try discriminate. }
  intros [= <-]. simpl.
  assert (Hin : forall p,
             In p (map snd selected) <->
             In p (_packages self) /\
             get_enabled (pc_sections p) (dedupe sections) = true).
  { intros p. rewrite in_map_iff. split.
    - intros ([name q] & <- & Hq). simpl. apply Hfirst in Hq.
      pose proof (assoc_get_NoDup _ _ _ Hnd Hq) as Hget.
      destruct (Hspec name) as [_ Hl]. rewrite Hget in Hl.
      assert (Hq' : In q (filter
                (fun p => get_enabled (pc_sections p) (dedupe sections) &&
                          String.eqb (pc_name p) name) (_packages self)))
        by (rewrite <- Hl; now left).
      apply filter_In in Hq'. destruct Hq' as [Hq' Hen].
      apply andb_true_iff in Hen. tauto.
    - intros [Hp Hen]. exists (pc_name p, p). split; auto.
      apply Hfirst. destruct (Hspec (pc_name p)) as [_ Hl].
      assert (Hp' : In p (filter
                (fun q => get_enabled (pc_sections q) (dedupe sections) &&
                          String.eqb (pc_name q) (pc_name p)) (_packages self))).
      { apply filter_In. split; auto. now rewrite Hen, String.eqb_refl. }
      rewrite <- Hl in Hp'.
      destruct (assoc_get (pc_name p) buckets) as [l|] eqn:Hget;
        [|destruct Hp'].
      apply assoc_get_In in Hget.
      destruct (Hsingle _ _ Hget) as [q ->].
      destruct Hp' as [->|[]]. exact Hget. }
  split; [reflexivity|]. split; [reflexivity|].
  split; [exact Hin|]. split; [|split; [exact Hnamed|split; [|reflexivity]]].
  - unfold packages. simpl.
    replace (map pc_name (map snd selected)) with (keys buckets); auto.
    unfold keys. rewrite map_map. fold selected in Hnamed.
    transitivity (map fst selected).
    + subst selected. rewrite Hmap, map_map. apply map_ext.
      now intros [name l].
    + apply map_ext_in. intros x Hx.
      symmetry. exact (proj1 (Forall_forall _ _) Hnamed x Hx).
  - intros p Hp.
    erewrite check_circular_ext;
      [exact (res_fold_unit_ok _ _ Hcheck p Hp)|reflexivity].
Qed.

End SelectionFacts.

(* ------------------------------------------------------------------ *)
(** ** The labels of a document *)

Lemma insert_sorted_sorted (s : string) (l : list string) :
  StronglySorted (fun a b => String.leb a b = true) l ->
  StronglySorted (fun a b => String.leb a b = true) (insert_sorted s l).
Proof.
  induction 1 as [|x l Hl IH Hx]; simpl; [repeat constructor|].
  destruct (String.leb s x) eqn:Hsx.
  - constructor; [now constructor|]. constructor; [exact Hsx|].
    eapply Forall_impl; [|exact Hx]. intros y Hy.
    eapply string_leb_trans; eassumption.
  - constructor; auto. apply Forall_forall. intros y Hy.
    apply In_insert_sorted in Hy. destruct Hy as [->|Hy].
    + now apply string_leb_false_flip.
    + exact (proj1 (Forall_forall _ _) Hx y Hy).
Qed.

Lemma sorted_strings_sorted (l : list string) :
  StronglySorted (fun a b => String.leb a b = true) (sorted_strings l).
Proof.
  induction l as [|s l IH]; simpl; [constructor|].
  now apply insert_sorted_sorted.
Qed.

Lemma insert_sorted_perm (s : string) (l : list string) :
  Permutation (insert_sorted s l) (s :: l).
Proof.
  induction l as [|x l IH]; simpl; [reflexivity|].
  destruct (String.leb s x); [reflexivity|].
  rewrite IH. apply perm_swap.
Qed.

Lemma sorted_strings_perm (l : list string) :
  Permutation (sorted_strings l) l.
Proof.
  induction l as [|s l IH]; simpl; [reflexivity|].
  rewrite insert_sorted_perm. now constructor.
Qed.

(** [set.add] on strings. *)
Lemma set_add_strings (acc : list string) (s : string) :
  Heap.set_add (map Heap.PStr acc) (Heap.PStr s) =
  map Heap.PStr (if string_mem s acc then acc else acc ++ [s]).
Proof.
  unfold Heap.set_add.
  assert (H : existsb (Heap.eq_scalar (Heap.PStr s)) (map Heap.PStr acc)
              = string_mem s acc).
  { unfold string_mem. induction acc as [|x acc IH]; simpl; auto.
    now rewrite IH. }
  rewrite H. destruct (string_mem s acc); auto.
  now rewrite map_app.
Qed.

Lemma set_add_strings_fold (l : list string) :
  forall acc,
    NoDup acc ->
    exists set,
      fold_left Heap.set_add (map Heap.PStr l) (map Heap.PStr acc)
      = map Heap.PStr set /\
      NoDup set /\
      (forall s, In s set <-> In s acc \/ In s l) /\
      (acc <> [] -> set <> []).
Proof.
  induction l as [|x l IH]; intros acc Hnd; simpl.
  - exists acc. repeat split; auto; tauto.
  - rewrite set_add_strings.
    destruct (string_mem x acc) eqn:Hmem.
    + destruct (IH acc Hnd) as (set & -> & Hset & Hin & Hne).
      exists set. repeat split; auto.
      * intros Hs. apply Hin in Hs. tauto.
      * intros [Hs|[<-|Hs]]; apply Hin; auto.
        left. now apply string_mem_In.
    + apply string_mem_false in Hmem.
      assert (Hnd' : NoDup (acc ++ [x])).
      { apply NoDup_rev in Hnd. rewrite <- (rev_involutive (acc ++ [x])).
        apply NoDup_rev. rewrite rev_app_distr. simpl. constructor; auto.
        now rewrite <- in_rev. }
      destruct (IH (acc ++ [x]) Hnd') as (set & -> & Hset & Hin & Hne).
      exists set. repeat split; auto.
      * intros Hs. apply Hin in Hs. rewrite in_app_iff in Hs. simpl in Hs.
        tauto.
      * intros Hs. apply Hin. rewrite in_app_iff. simpl. tauto.
      * intros _. apply Hne. now destruct acc.
Qed.

Lemma hashable_strings_all (l : list string) :
  forallb Heap.hashable (map Heap.PStr l) = true.
Proof. induction l; simpl; auto. Qed.

Lemma string_of_strings (l : list string) :
  option_map_all Heap.string_of (map Heap.PStr l) = Some l.
Proof. induction l as [|s l IH]; simpl; auto. now rewrite IH. Qed.

(** [sorted] on a set of strings. *)
Lemma sorted_set_strings (set : list string) :
  NoDup set ->
  exists sorted_labels,
    Heap.sorted_set (map Heap.PStr set) = Ok (map Heap.PStr sorted_labels) /\
    StronglySorted (fun a b => String.leb a b = true) sorted_labels /\
    NoDup sorted_labels /\
    (forall s, In s sorted_labels <-> In s set).
Proof.
  intros Hnd. destruct set as [|x [|y set]].
  - exists []. repeat split; auto; constructor.
  - exists [x]. repeat split; auto. repeat constructor.
  - exists (sorted_strings (x :: y :: set)).
    split; [|split; [apply sorted_strings_sorted|split]].
    + unfold Heap.sorted_set. cbn [map].
      change (Heap.PStr x :: Heap.PStr y :: map Heap.PStr set)
        with (map Heap.PStr (x :: y :: set)).
      now rewrite string_of_strings.
    + eapply Permutation_NoDup; [|exact Hnd].
      symmetry. apply sorted_strings_perm.
    + intros s. apply In_sorted_strings.
Qed.

Lemma heap_bind_ok {A B} (m : Heap.M A) (k : A -> Heap.M B)
    (h h' : Heap.heap) (x : A) :
  m h = (Ok x, h') -> Heap.bind m k h = k x h'.
Proof. unfold Heap.bind. now intros ->. Qed.

Lemma heap_class_of_ref (h : Heap.heap) (a : Heap.addr) (o : Heap.obj) :
  nth_error h a = Some o ->
  Heap.class_of (Heap.PRef a) h = (Ok (Heap.class_of_obj o), h).
Proof.
  intros H. unfold Heap.class_of, Heap.bind, Heap.load. now rewrite H.
Qed.

Lemma heap_get_ref (h : Heap.heap) (a : Heap.addr) cls items key default :
  nth_error h a = Some (Heap.ODict cls items) ->
  Heap.get (Heap.PRef a) key default h =
  (Ok match assoc_get key items with
      | Some x => x
      | None => default
      end, h).
Proof.
  intros H. unfold Heap.get, Heap.bind, Heap.load. now rewrite H.
Qed.

Lemma heap_truthy_ref (h : Heap.heap) (a : Heap.addr) (o : Heap.obj) :
  nth_error h a = Some o ->
  Heap.truthy (Heap.PRef a) h =
  (Ok match o with
      | Heap.ODict _ [] | Heap.OList [] => false
      | _ => true
      end, h).
Proof.
  intros H. unfold Heap.truthy, Heap.bind, Heap.load. now rewrite H.
Qed.

Lemma heap_elements_ref (h : Heap.heap) (a : Heap.addr) elements :
  nth_error h a = Some (Heap.OList elements) ->
  Heap.elements (Heap.PRef a) h = (Ok elements, h).
Proof.
  intros H. unfold Heap.elements, Heap.bind, Heap.load. now rewrite H.
Qed.

(** X18.  [Asset.add_labels_to_metadata] on a document that is a dictionary
    whose labels, if it has any, are a list of strings (with or without
    repetitions), when an existing or an added label remains: the document
    gets a new list of labels, which is sorted, without repetition, and has
    exactly the existing labels and the added ones; the function returns
    the document it was given, and no other object of the store changes. *)
Theorem add_labels_to_metadata_sorted (h : Heap.heap) (a : Heap.addr)
    (cls : dict_class) (items : list (string * Heap.pyval))
    (existing labels : list string) :
  nth_error h a = Some (Heap.ODict cls items) ->
  match assoc_get "labels" items with
  | Some (Heap.PRef b) =>
      nth_error h b = Some (Heap.OList (map Heap.PStr existing))
  | Some _ => False
  | None => existing = []
  end ->
  existing ++ labels <> [] ->
  exists sorted_labels,
    Heap.add_labels_to_metadata (Heap.PRef a) labels h =
      (Ok (Heap.PRef a),
       Heap.update a
         (Heap.ODict cls (assoc_set "labels" (Heap.PRef (List.length h)) items))
         (h ++ [Heap.OList (map Heap.PStr sorted_labels)])) /\
    StronglySorted (fun s t => String.leb s t = true) sorted_labels /\
    NoDup sorted_labels /\
    (forall s, In s sorted_labels <-> In s existing \/ In s labels).
Proof.
  intros Ha Hlabels Hne.
  assert (Hdict : issubclass (Heap.class_of_obj (Heap.ODict cls items)) CDict
                  = true) by now destruct cls.
  (* the labels that the document has *)
  assert (Hread :
    exists existing_labels,
      Heap.safe_dict_get_value (Heap.PRef a) "labels" Heap.PNone [CList] h
        = (Ok existing_labels, h) /\
      forall (B : Type) (k : list Heap.pyval -> Heap.M B),
        Heap.bind (Heap.truthy existing_labels)
          (fun present =>
             Heap.bind
               (if present then Heap.elements existing_labels
                else Heap.ret []) k) h
        = k (map Heap.PStr existing) h).
  { unfold Heap.safe_dict_get_value.
    rewrite (heap_bind_ok _ _ _ _ _ (heap_class_of_ref h a _ Ha)), Hdict.
    cbn [negb].
    rewrite (heap_bind_ok _ _ _ _ _
               (heap_get_ref h a cls items "labels" Heap.PNone Ha)).
    destruct (assoc_get "labels" items) as [[| | | |b]|] eqn:Hget;
      try contradiction.
    - exists (Heap.PRef b). cbn [Heap.is_none negb orb]. split.
      + unfold Heap.bind at 1, Heap.ret at 1.
        rewrite (heap_bind_ok _ _ _ _ _ (heap_class_of_ref h b _ Hlabels)).
        reflexivity.
      + intros B k.
        rewrite (heap_bind_ok _ _ _ _ _ (heap_truthy_ref h b _ Hlabels)).
        destruct existing as [|x existing]; [reflexivity|].
        cbn [map].
        now rewrite (heap_bind_ok _ _ _ _ _
                       (heap_elements_ref h b _ Hlabels)).
    - subst existing. exists Heap.PNone. split; reflexivity. }
  destruct Hread as (existing_labels & Hget & Hexisting).
  destruct (set_add_strings_fold existing [] (NoDup_nil _))
    as (set0 & Hset0 & Hnd0 & Hin0 & _).
  destruct (set_add_strings_fold labels set0 Hnd0)
    as (set & Hset & Hnd1 & Hin1 & Hne1).
  destruct (sorted_set_strings set Hnd1)
    as (sorted_labels & Hsorted & Hord & Hnd2 & Hin2).
  assert (Hset_ne : set <> []).
  { intros ->. destruct existing as [|x existing].
    - destruct labels as [|y labels]; [now apply Hne|].
      apply (proj2 (Hin1 y)). right. now left.
    - apply (proj2 (Hin1 x)). left. apply Hin0. right. now left. }
  exists sorted_labels. split; [|split; [exact Hord|split; [exact Hnd2|]]].
  - unfold Heap.add_labels_to_metadata.
    rewrite (heap_bind_ok _ _ _ _ _ Hget), Hexisting.
    unfold Heap.bind at 1, Heap.lift at 1, Heap.set_of.
    rewrite hashable_strings_all.
    change (@nil Heap.pyval) with (map Heap.PStr []).
    rewrite Hset0, Hset.
    destruct set as [|x set']; [congruence|].
    cbn [map]. change (Heap.PStr x :: map Heap.PStr set')
      with (map Heap.PStr (x :: set')).
    unfold Heap.bind at 1, Heap.lift at 1. rewrite Hsorted.
    assert (Hlt : a < List.length h)
      by (apply nth_error_Some; congruence).
    cbv beta iota delta [Heap.bind Heap.alloc Heap.new Heap.ret Heap.setitem
                         Heap.load Heap.store].
    rewrite nth_error_app1 by exact Hlt. rewrite Ha.
    cbv beta iota. rewrite length_app. cbn [List.length].
    destruct (Nat.ltb_spec a (List.length h + 1)); [reflexivity|lia].
  - intros s. rewrite Hin2, Hin1, Hin0. simpl. tauto.
Qed.

(* ------------------------------------------------------------------ *)
(** ** The properties on the scenarios *)

Lemma release_leb_total (a b : list N) :
  release_leb a b = true \/ release_leb b a = true.
Proof.
  revert b. induction a as [|x a IH]; intros [|y b]; simpl; auto.
  destruct (N.ltb_spec x y), (N.ltb_spec y x), (N.eqb_spec x y),
           (N.eqb_spec y x); auto; lia.
Qed.

Lemma release_leb_trans (a b c : list N) :
  release_leb a b = true -> release_leb b c = true -> release_leb a c = true.
Proof.
  revert b c. induction a as [|x a IH]; intros [|y b] [|z c]; simpl; auto;
    try discriminate.
  destruct (N.ltb_spec x y), (N.ltb_spec y z), (N.ltb_spec x z),
           (N.eqb_spec x y), (N.eqb_spec y z), (N.eqb_spec x z);
    auto; try discriminate; try lia.
  apply IH.
Qed.

Lemma get_all_asset_paths_newest_witness :
  exists v k guids_by_asset_paths,
    assoc_get v TWO_PRIOR_VERSIONS = Some guids_by_asset_paths /\
    release_version v = Ok k /\
    release_leb k [1; 2]%N = true /\
    assoc_get "a/b.cs" guids_by_asset_paths = Some "G2" /\
    forall v' k' guids',
      assoc_get v' TWO_PRIOR_VERSIONS = Some guids' ->
      release_version v' = Ok k' ->
      release_leb k' [1; 2]%N = true ->
      In "a/b.cs" (keys guids') ->
      release_leb k' k = true.
Proof.
  exact (get_all_asset_paths_newest (list N) release_version release_leb
           release_leb_total release_leb_trans TWO_PRIOR_VERSIONS "1.2.0"
           [1; 2]%N [("a/b.cs", "G2")] eq_refl eq_refl "a/b.cs").
Defined.

Lemma guid_database_init_oldest_witness :
  assoc_get "a/b.cs" (guids_of_version TWO_PRIOR_VERSIONS "1.2.0")
    = Some "G1" \/
  (assoc_get "a/b.cs" (guids_of_version TWO_PRIOR_VERSIONS "1.2.0") = None /\
   exists v k guids_by_filename,
     assoc_get v TWO_PRIOR_VERSIONS = Some guids_by_filename /\
     release_version v = Ok k /\
     release_leb [1; 2]%N k = false /\
     assoc_get "a/b.cs" guids_by_filename = Some "G1" /\
     forall v' k' guids',
       assoc_get v' TWO_PRIOR_VERSIONS = Some guids' ->
       release_version v' = Ok k' ->
       release_leb [1; 2]%N k' = false ->
       In "a/b.cs" (keys guids') ->
       release_leb k k' = true).
Proof.
  refine (guid_database_init_oldest (list N) release_version release_leb
            release_leb_total release_leb_trans [] TWO_PRIOR_VERSIONS "1.2.0"
            [1; 2]%N
            {| _guids_by_path := [("a/b.cs", "G1")];
               _duplicate_guids_checker :=
                 [("G2", ["a/b.cs"]); ("G1", ["a/b.cs"])] |}
            _ _ _ eq_refl eq_refl "a/b.cs" eq_refl).
  - discriminate.
  - discriminate.
  - intros v m [[= <- <-]|[[= <- <-]|[]]]; simpl;
      (split; [repeat constructor; intros []|]);
      intros f [<-|[]]; reflexivity.
Defined.

Lemma merge_ordered_dicts_keys_witness :
  exists items,
    merge_ordered_dicts py_str
      (od [("guid", VStr "0123"); ("labels", VList [])])
      (od [("timeCreated", VInt 1); ("guid", VStr "4567")])
      = VDict OrderedDict items /\
    keys items = ["guid"; "labels"; "timeCreated"].
Proof.
  apply (merge_ordered_dicts_keys py_str OrderedDict OrderedDict
           [("guid", VStr "0123"); ("labels", VList [])]
           [("timeCreated", VInt 1); ("guid", VStr "4567")]).
  simpl. repeat constructor; simpl; intuition discriminate.
Defined.

Lemma merge_ordered_dicts_values_witness :
  assoc_get "guid"
    (dict_items
       (merge_ordered_dicts py_str
          (od [("guid", VStr "0123"); ("labels", VList [])])
          (od [("timeCreated", VInt 1); ("guid", VStr "4567")])))
  = Some (VStr "4567").
Proof.
  apply (merge_ordered_dicts_values py_str OrderedDict OrderedDict
           [("guid", VStr "0123"); ("labels", VList [])]
           [("timeCreated", VInt 1); ("guid", VStr "4567")] "guid").
  simpl. repeat constructor; simpl; intuition discriminate.
Defined.

Lemma THREE_PACKAGES_named : named_by_key (packages_by_name THREE_PACKAGES).
Proof. repeat constructor. Qed.

Lemma includes_transitive_witness :
  NoDup (map pc_name [PACKAGE_B; PACKAGE_C]) /\
  (forall p, In p [PACKAGE_B; PACKAGE_C] ->
             assoc_get (pc_name p) (packages_by_name THREE_PACKAGES) = Some p) /\
  (forall n, In n (pc_includes PACKAGE_A) ->
             exists p, assoc_get n (packages_by_name THREE_PACKAGES) = Some p /\
                       In p [PACKAGE_B; PACKAGE_C]) /\
  (forall p, In p [PACKAGE_B; PACKAGE_C] ->
             forall n, In n (pc_includes p) ->
                       exists q, assoc_get n (packages_by_name THREE_PACKAGES)
                                 = Some q /\
                                 In q [PACKAGE_B; PACKAGE_C]).
Proof.
  apply (includes_transitive THREE_PACKAGES THREE_PACKAGES_named 3 PACKAGE_A
           [PACKAGE_B; PACKAGE_C]).
  reflexivity.
Defined.

Lemma includes_after_circular_check_witness :
  exists included, includes 3 THREE_PACKAGES PACKAGE_A = Ok included.
Proof.
  apply (includes_after_circular_check THREE_PACKAGES THREE_PACKAGES_named 3
           PACKAGE_A []).
  reflexivity.
Defined.

Lemma create_package_name_map_spec_witness :
  Forall2 (fun '(package_name, filename) '(old, new_name) =>
             old = package_name /\
             apply_package_name_replacements string literal_sub "release"
               [("Foo.unitypackage", "Bar.unitypackage")] filename
             = inr new_name)
          [("Foo", "Foo.unitypackage"); ("Baz", "Baz.unitypackage")]
          [("Foo", "Bar.unitypackage"); ("Baz", "Baz.unitypackage")].
Proof.
  apply (create_package_name_map_spec literal_sub "release" []
           [("Foo.unitypackage", "Bar.unitypackage")]
           [("Foo", "Foo.unitypackage"); ("Baz", "Baz.unitypackage")]).
  simpl. repeat constructor; simpl; intuition discriminate.
Defined.

Lemma apply_any_platform_selection_idempotent_witness :
  apply_any_platform_selection V1_FIRST_PASS = Ok V1_FIRST_PASS.
Proof.
  apply (apply_any_platform_selection_idempotent ANY_PLATFORM_ENABLED
           V1_FIRST_PASS).
  - reflexivity.
  - reflexivity.
Defined.

Lemma disable_unsupported_platforms_keeps_supported_witness :
  platform_config BUNDLE_RESULT "OSXIntel"
  = platform_config ALL_PLATFORMS_ENABLED "OSXIntel".
Proof.
  apply (disable_unsupported_platforms_keeps_supported ALL_PLATFORMS_ENABLED
           "Plugins/x86/Foo/bar.bundle"
           ["Any"; "Editor"; "OSXIntel"; "OSXIntel64"; "OSXUniversal"]
           BUNDLE_RESULT).
  - reflexivity.
  - reflexivity.
  - reflexivity.
  - reflexivity.
  - simpl. auto.
  - discriminate.
Defined.

Lemma read_guids_from_assets_spec_witness :
  get_guid
    (snd (read_guids_from_assets document_asset document_metadata fst
            EMPTY_DATABASE
            [("Editor\a.dll", od [("guid", VStr "0123")]);
             ("Editor/b.dll", od [("guid", VStr "4567")])])) "Editor/c.dll"
  = get_guid EMPTY_DATABASE "Editor/c.dll".
Proof.
  apply (read_guids_from_assets_spec document_metadata fst EMPTY_DATABASE
           [("Editor\a.dll", od [("guid", VStr "0123")]);
            ("Editor/b.dll", od [("guid", VStr "4567")])]).
  - simpl. repeat constructor; simpl; intuition discriminate.
  - intros asset _. now exists (snd asset).
  - intros asset [<-|[<-|[]]]; discriminate.
Defined.

Lemma selected_sections_setter_success_witness :
  _selected_sections (snd (set_selected_sections 5 SECTIONS_PROJECT ["x"]))
  = Some ["x"].
Proof.
  apply (selected_sections_setter_success 5 SECTIONS_PROJECT ["x"]
           (snd (set_selected_sections 5 SECTIONS_PROJECT ["x"]))).
  - reflexivity.
  - reflexivity.
Defined.

Lemma add_labels_to_metadata_sorted_witness :
  exists sorted_labels,
    Heap.add_labels_to_metadata (Heap.PRef 0) ["gvh"] LABELLED_STORE =
      (Ok (Heap.PRef 0),
       Heap.update 0
         (Heap.ODict OrderedDict
            (assoc_set "labels" (Heap.PRef 2)
               [("guid", Heap.PStr "0123"); ("labels", Heap.PRef 1)]))
         (LABELLED_STORE ++ [Heap.OList (map Heap.PStr sorted_labels)])) /\
    StronglySorted (fun s t => String.leb s t = true) sorted_labels /\
    NoDup sorted_labels /\
    (forall s, In s sorted_labels <->
               In s ["gvh_version-1.0.0"] \/ In s ["gvh"]).
Proof.
  apply (add_labels_to_metadata_sorted LABELLED_STORE 0 OrderedDict
           [("guid", Heap.PStr "0123"); ("labels", Heap.PRef 1)]
           ["gvh_version-1.0.0"] ["gvh"]).
  - reflexivity.
  - reflexivity.
  - discriminate.
Defined.
